(* ===== verification/_CoqProject ===== *)
-Q . S2P
Prelude.v
DivMod.v
FloatSpec.v
SoftFloat.v
SoftFloatCorrect.v
SoftFloatArith.v
SoftFloatConv.v
Runtime.v
Ctype.v
Heap.v
HeapInv.v
HeapOps.v
HeapClaims.v
Regex.v
RegexVM.v
RegexVMCorrect.v
RegexCompile.v
RegexLiteral.v
RegexClass.v
RegexClaims.v
RegexHeap.v
RegexPattern.v
RegexEmit.v
RegexParse.v
RegexDenotation.v
RegexSearch.v
Numbers.v
Printf.v
PrintfSpec.v
PrintfCorrect.v
PrintfClaims.v
RegexTest.v
Scan.v
ScanClaims.v
CString.v
Sort.v
CStringClaims.v
CStringCopy.v
CStringFold.v
Time.v
HeapArea.v
EnvMap.v
Env.v
EnvClaims.v
Syscall.v
Stream.v
StreamSpec.v
StreamRead.v
RamDisk.v
StreamClaims.v
GetlineHeap.v
StreamWrite.v
Lifecycle.v
Files.v
Signal.v
FileStatus.v
Headers.v
Process.v
Getopt.v
Inet.v
Terminal.v
Start.v
Clock.v
Delivery.v
Stubs.v
Assembly.v
LegacyHeap.v
LegacyText.v
LegacyStream.v
LegacySystem.v
