(* ===== verification/Prelude.v ===== *)
(** * The C library and the runtime of the Lamp userland

    The repository holds the userland of a small 32-bit machine: a freestanding
    C library ([lib/libc_*.c], headers in [sysroot/include]), the system-call
    layer under it ([lib/libsys.c]), the process entry ([crt/start.c]), the
    routines a compiler calls for arithmetic the machine lacks
    ([lib/compiler_rt_*.c]), and an older library in a single file
    ([lib/libc_compat.c]).  This development
    translates that library and states what makes each part correct.  Paths
    below are relative to the source directory.

    ** The machine

    ILP32, two's complement, little-endian.  An integer of [w] bits is a [Z] in
    the range of its C type; [u8] ... [u64], [s32] and [s64] below are the
    conversions, written wherever C converts or an unsigned operation wraps.
    A [double] is its 64-bit pattern.  Memory is [memory], a function from
    addresses to bytes; where a function only walks a string that nobody
    changes meanwhile, the string is the list of its bytes and a pointer into
    it is the suffix still to read.

    Loops are [loop fuel body start] over [step] ([Next], [Done]) or a fixpoint
    with fuel; running out of fuel is [None], never a result.  A theorem about
    such a function proves that it returns, with the fuel stated.  The bounds:
    - [heap_fuel], 21846: the array of 2^18 bytes has fewer blocks than
      2^18 / 12 + 1, each header being 12 bytes;
    - 65 rounds of division and multiplication and 64 of [utoa_rev]: a 64-bit
      word has 64 digits in the smallest base;
    - [compile_fuel], three times the length of the pattern plus 4: each level
      of the recursive descent consumes a character or descends to the next
      of three; 64 doublings of a 32-bit capacity;
    - [run_fuel], instructions times positions plus one: the generation marks
      let each pair be visited once;
    - the signal restorer: 14 instructions, and any number more in its last
      loop; [getline] on the heap: any fuel above the bytes left and below 2^30;
    - strings in memory: any fuel above the length; formats ([vsnprintf],
      [sscanf]): the length of the format plus one; [strptime]: 20 for the two
      formats, which are shorter; [fread]: a round per byte; [getline]: the
      bytes that are left plus one; [getopt]'s loop: one call per event and
      one more; the environment: any fuel above the lengths of its strings
      and above the number of entries plus one; [exit]: the sum of what the handlers will run; [execvp]: the
      length of PATH plus one; [start_exit_trap], an endless loop: any number
      of its rounds.

    ** Parts, and where they are

    Arithmetic.
    - [DivMod]: [compiler_rt_divmod.c].  Division by shift and subtract,
      signed division, shifts on split words, multiplication.
    - [FloatSpec]: the specification of binary64: exact values as integers in
      units of the smallest subnormal, and rounding to nearest even.
      [SoftFloat]: [compiler_rt_softfloat.c].  [SoftFloatCorrect]: unpacking,
      packing and each operation against the specification.
      [SoftFloatArith], [SoftFloatConv]: the claims on arithmetic, special
      operands, comparisons and conversions.  [Runtime]: expressions over the
      calls a compiler emits, their types, and the soundness of the types.

    Storage, [libc_stdlib.c].
    - [Heap]: [malloc], [free], [calloc], [realloc] on byte memory, headers
      included; the state [heap] is the memory, [g_heap_head], [g_heap_end]
      and [errno].  [HeapInv]: the invariant: the blocks tile the used part of
      the array.  [HeapOps]: what each operation does to the list of blocks.
      [HeapClaims]: the heap refines a map from pointers to contents; what a
      session that starts from the fresh heap leaves; when [malloc] refuses.
    - [Sort]: [qsort] on the bytes of the array, moved through its local
      buffer, against exchanges in a list, and [bsearch] on a list, for a
      comparison given by a class of laws.  [Numbers]: [strtol], [strtoul],
      [atoi] and the end pointer of [strtod].
    - [Env]: [getenv] and the functions that change [environ], on the array
      and the strings in memory; new entries and the grown array are blocks of
      [Heap].  [EnvMap]: the strings as a list and as a map from names to
      values.  [HeapArea]: what of memory a heap operation or a store keeps.
      [EnvClaims]: the functions refine the map.  Its one demand on [environ]
      is [setenv]'s own: to add a name the array must be null or a heap block,
      and [initial_environ_lost] shows what happens to the array the kernel
      passes to the program.  [Process] and [Start] look names up in the list
      ([entry_value]), whose agreement with [getenv] is part of the refinement.
    - [Process]: [atexit], [exit], [rand], and [execvp] of [libc_syscalls.c].

    Text, [libc_string.c] and [libc_stdio.c].
    - [Ctype]: character classes.  [CString]: block copies, lengths,
      comparison, search and tokens on memory; [CStringClaims]: tokens and
      block copies; [CStringCopy]: the string copies and the other searches;
      [CStringFold]: the functions that ignore case, and [dirname] and
      [basename] of [libc_misc.c].
    - [Printf]: [vsnprintf] and its callers.  The sink carries the [int] count
      and the calls of [write] that a null buffer makes.  [PrintfSpec]: the
      grammar of directives and the text each stands for, written apart from
      the parser; [PrintfCorrect]: [vsnprintf] has a result exactly for the
      formats and arguments of the grammar, and writes their text;
      [PrintfClaims]: sizes, truncation, numerals read back.  [Scan]: [sscanf]; [ScanClaims]: it
      reads back what [sprintf] prints.
    - [Time]: [localtime_r], [mktime], [strptime] of [libc_time.c].  [Clock]:
      its clocks and the functions that print dates, and the timer of the
      benchmark port ([coremark/core_portme.c]).
    - [Getopt]: [getopt] of [libc_misc.c], against a parser of the argument
      list.  [Inet]: addresses and byte order of [libc_misc.c], composing
      [Numbers] and [Printf].

    Regular expressions, [libc_regex.c].
    - [Regex]: the pattern compiler; [RegexVM]: the matcher and [regexec];
      [RegexVMCorrect]: the matcher finds an accepting path exactly when there
      is one; [RegexCompile]: termination and growth; [RegexLiteral],
      [RegexClass]: single characters and brackets; [RegexClaims]: the claims;
      [RegexHeap]: the compiler on the real heap.  Every instruction that the
      compiler appends, moves or patches is also stored in the bytes of its
      block ([stored]), so that a store past the block would show.
    - The meaning of patterns: [RegexPattern] is the syntax of a class of
      patterns with its code and its text; [RegexEmit] and [RegexParse]: the
      compiler turns the text into the code; [RegexDenotation]: the strings and
      group extents a pattern denotes are the accepting paths of its code;
      [RegexSearch]: compiling and running a pattern finds its leftmost match.
    - [RegexTest]: the program [tests/regex.c], and which of its checks fail.

    The system.
    - [Syscall]: [libsys.c], [libc_internal.h] and the wrappers of
      [libc_syscalls.c], [libc_misc.c], [libc_signal.c] and [libc_time.c].  The
      kernel is not in the repository: it is the class [Kernel], a function of
      its own state, the memory and the request.  [process] is that state with
      the memory and the two error cells; library code runs in the state
      monad [M].
    - [Stream]: [FILE] of [libc_stdio.c].  [StreamSpec]: what the kernel
      promises of a regular file ([FileKernel], [WritableKernel]) and the
      abstract stream.  [StreamRead], [StreamClaims]: reading refines it, and
      [getline]; [GetlineHeap]: [getline] on the real heap.  [StreamWrite]:
      [fwrite] and [vfprintf] over a file, and what is read back.  [RamDisk]: a
      kernel with one file, with short transfers, which meets both promises.  [Lifecycle]: [fopen] to [fclose] on the real
      heap and named files ([FilesKernel]): what is saved is loaded, and what
      was taken is given back.
    - [Terminal]: the standard streams, the functions on them, [perror] and
      [syslog], on a kernel with a console.
    - [Files]: [stat] and its relatives, directories.  [Signal]:
      [libc_signal.c].  Each states its promise of the kernel as a class
      ([DirKernel], [SignalKernel]) and gives a kernel that keeps it.
      [FileStatus]: [stat] over a kernel with named files.  [Delivery]: the
      program [tests/signal_delivery.c] on a kernel that blocks signals and
      delivers them through frames on the stack, to handlers that return
      through the library's restorer; of any other handler the kernel promises
      nothing.
    - [Assembly]: the inline assembly of [libc_misc.c] ([setjmp], [longjmp]),
      [libsys.c] (the trap and the signal restorer) and [tests/vm_panic.c], as
      lists of instructions.  The machine is the classes [Machine] and
      [SystemMachine]; the repository does not define the instructions, and the
      laws state what the code relies on: the effect of each mnemonic on
      registers, memory and two ports, where [ret] goes, and what [inti] hands
      to the kernel.  Its theorem on [libsys_call6] discharges what [Syscall]
      takes that function to do.
    - [Headers]: the numbers that [include/lamp/abi.h] and [sysroot/include]
      share, and the macros with a body.
    - [Start]: [crt/start.c], from the stack image the kernel builds to [main]
      and the exit calls.  [Stubs]: the functions of [libc_syscalls.c],
      [libc_misc.c], [libc_signal.c] and [libc_stdlib.c] that refuse, return a
      constant, fill in a fixed structure or pass on.

    The single-file library, [libc_compat.c].  A function whose text is that of
    the newer library is defined as the newer one; the others are translated.
    - [LegacyHeap]: its bump allocator.  [LegacyText]: conversions, formatted
      output, options and addresses.  [LegacyStream]: its [FILE], without
      pushback.  [LegacySystem]: wrappers, clocks and stubs, with its own
      [poll], environment and calendar.

    ** Interfaces

    A component that needs memory uses the class [Allocator]; what a proof
    needs of it is [AllocatorLaws].  [quota] in [RegexCompile] is the smallest
    allocator with the laws, and [RegexHeap] proves them for the heap, so that
    the theorems about the compiler hold on it.  The kernel classes play the
    same part for the system calls: their fields are the documented behaviour
    of one call each, with every freedom the call has (short transfers,
    failures), and the theorems about streams, directories and signals are
    proved against them.

    ** What the theorems show

    - Refinement of an abstract state: the heap is a map, and so is the bump
      allocator's outside three cases; a stream is a position with one byte of
      pushback, [environ] is a map, [vsnprintf] writes the text of its format
      as long as the length fits the [int] it returns,
      the process entry runs the program on the arguments of its stack image,
      the assembly of the trap is the system call of the model.
    - Functional correctness: correctly rounded arithmetic, division, sorting,
      searching, tokens, string copies, the matcher, patterns from their text
      to their leftmost match, directories, file status, the signal test.
    - Safety: compiling and matching, [getline], and a file session leave the
      other allocations of the heap alone and leak nothing but where it is
      stated; the signal restorer makes its two requests and nothing else.
    - Types: well-typed runtime calls evaluate to values of their types.
    - Bounds: conversions between integers and doubles, and 32-bit clock marks
      whose difference survives wrapping.
    - Round trips: dates, numerals, formats, addresses, signal actions,
      conversions, text saved in one session with a file and loaded in
      another, and [setjmp] with [longjmp].
    - Termination and progress: [regcomp], [bsearch], the exit handlers, each
      with the loops that end.
    - Equivalence with a reference: [getopt] with a parser, [execvp] with the
      list of attempts, the single-file library with the newer one.
    - Errors: when [malloc] refuses, the errno convention of every wrapper,
      NaNs and infinities, what [perror] loses.
    - Departures from what the functions are meant to do are theorems where
      they are proved (a starred atom never matches, ties of the narrowing
      conversion, truncated output, [tm_yday]).

    ** What is not modelled

    - The machine, beyond the laws of [Machine]; the code a compiler makes of
      the C around the assembly, of which only the operands' registers matter.
      The process entry is modelled as the calls its assembly makes.
    - The value of [strtod], always 0; functions with an empty body ([tzset],
      [endpwent], [globfree] and the like).
    - [libc_compat.c] is compiled by [build_busybox.sh] only; its null tests
      are left out where the newer library's are.
    - The kernel, beyond the classes above.  Signals delivered between two
      instructions are its doing, and no theorem speaks of them; the library
      has no threads.
    - Null arguments are modelled where the code tests for them and a caller
      can reach the test; the tests of [sscanf], [regcomp] and [regexec] for
      null are left out.
    - The kernel's return through the restorer is a law of [DeliveryKernel];
      the instructions of the restorer are in [Assembly].
    - [environ] of the C library is a pointer the functions of [Env] take and
      give back; that nothing else changes the strings meanwhile is part of
      each call's premise.

    ** Limits of what is proved

    Patterns with starred groups and alternations have no theorem on their
    meaning beyond the one on compiled programs.  The address
    and descriptor calls of the sockets are covered by the errno convention
    only.  The prototypes and plain structures of the headers are in the
    components that use them and have no definition of their own. *)

From Stdlib Require Export ZArith Lia Bool List.
From stdpp Require Export base tactics numbers list option.
#[global] Open Scope Z_scope.

(** ** Machine integers

    The target is ILP32 with two's-complement wrap-around.  A C value of an
    unsigned type is a [Z] in its range; the functions below are the C
    conversions to a fixed-width type. *)

Definition u8 (z : Z) : Z := z mod 2 ^ 8.
Definition u16 (z : Z) : Z := z mod 2 ^ 16.
Definition u32 (z : Z) : Z := z mod 2 ^ 32.
Definition u64 (z : Z) : Z := z mod 2 ^ 64.

(** The value of a [w]-bit word read as a two's-complement integer. *)
Definition swrap (w z : Z) : Z := (z + 2 ^ (w - 1)) mod 2 ^ w - 2 ^ (w - 1).
Definition s32 (z : Z) : Z := swrap 32 z.
Definition s64 (z : Z) : Z := swrap 64 z.

(** C's truth value of a test, and the test of an [int]. *)
Definition b2z (b : bool) : Z := if b then 1 else 0.
Definition truthy (z : Z) : bool := negb (z =? 0).

(** Logical complement of a [w]-bit unsigned word ([~x] in C). *)
Definition unot (w x : Z) : Z := 2 ^ w - 1 - x.

Create HintDb word discriminated.

Lemma u8_range z : 0 <= u8 z < 2 ^ 8.
Proof. apply Z.mod_pos_bound. lia. Qed.

Lemma u32_range z : 0 <= u32 z < 2 ^ 32.
Proof. apply Z.mod_pos_bound. lia. Qed.

Lemma u64_range z : 0 <= u64 z < 2 ^ 64.
Proof. apply Z.mod_pos_bound. lia. Qed.

Lemma u32_small z : 0 <= z < 2 ^ 32 -> u32 z = z.
Proof. apply Z.mod_small. Qed.

Lemma u64_small z : 0 <= z < 2 ^ 64 -> u64 z = z.
Proof. apply Z.mod_small. Qed.

Lemma u8_small z : 0 <= z < 2 ^ 8 -> u8 z = z.
Proof. apply Z.mod_small. Qed.

Lemma swrap_range w z : 0 < w -> - 2 ^ (w - 1) <= swrap w z < 2 ^ (w - 1).
Proof.
  intros Hw. unfold swrap.
  assert (2 ^ w = 2 * 2 ^ (w - 1)) as E.
  { rewrite <- Z.pow_succ_r by lia. f_equal. lia. }
  assert (0 < 2 ^ (w - 1)) by (apply Z.pow_pos_nonneg; lia).
  pose proof (Z.mod_pos_bound (z + 2 ^ (w - 1)) (2 ^ w)). lia.
Qed.

(** A value already in the signed range is its own reading. *)
Lemma swrap_small w z : 0 < w -> - 2 ^ (w - 1) <= z < 2 ^ (w - 1) -> swrap w z = z.
Proof.
  intros Hw Hz. unfold swrap.
  assert (2 ^ w = 2 * 2 ^ (w - 1)) as E.
  { rewrite <- Z.pow_succ_r by lia. f_equal. lia. }
  rewrite Z.mod_small; lia.
Qed.

Lemma s32_range z : - 2 ^ 31 <= s32 z < 2 ^ 31.
Proof. by apply (swrap_range 32). Qed.
Lemma s32_small z : - 2 ^ 31 <= z < 2 ^ 31 -> s32 z = z.
Proof. intros Hz. by apply (swrap_small 32). Qed.

(** Reading back an unsigned word: the upper half is negative. *)
Lemma swrap_word w z : 0 < w -> 0 <= z < 2 ^ w ->
  swrap w z = if z <? 2 ^ (w - 1) then z else z - 2 ^ w.
Proof.
  intros Hw Hz.
  assert (2 ^ w = 2 * 2 ^ (w - 1)) as E.
  { rewrite <- Z.pow_succ_r by lia. f_equal. lia. }
  destruct (Z.ltb_spec z (2 ^ (w - 1))).
  - apply swrap_small; lia.
  - unfold swrap. rewrite (Z.mod_eq _ (2 ^ w)) by lia.
    replace ((z + 2 ^ (w - 1)) / 2 ^ w) with 1; [lia|].
    apply Z.div_unique with (r := z - 2 ^ (w - 1)); lia.
Qed.

Lemma swrap_mod w z : 0 < w -> swrap w z mod 2 ^ w = z mod 2 ^ w.
Proof.
  intros Hw. unfold swrap.
  rewrite Zminus_mod_idemp_l. f_equal. lia.
Qed.

Lemma swrap_of_mod w z : 0 < w -> swrap w (z mod 2 ^ w) = swrap w z.
Proof. intros Hw. unfold swrap. by rewrite Zplus_mod_idemp_l. Qed.

#[export] Hint Resolve u8_range u32_range u64_range : word.
Create Rewrite HintDb wordrw.
#[export] Hint Rewrite u8_small u32_small u64_small using lia : wordrw.

(** ** Bits *)

Lemma testbit_high a n i : 0 <= a < 2 ^ n -> n <= i -> Z.testbit a i = false.
Proof.
  intros Ha Hi. destruct (Z.leb_spec 0 n) as [Hn|Hn].
  - rewrite <- (Z.mod_small a (2 ^ n)) by lia. apply Z.mod_pow2_bits_high. lia.
  - rewrite Z.pow_neg_r in Ha by lia. lia.
Qed.

Lemma testbit_unot w a i : 0 <= w -> 0 <= a < 2 ^ w -> 0 <= i < w ->
  Z.testbit (unot w a) i = negb (Z.testbit a i).
Proof.
  intros Hw Ha Hi. unfold unot.
  replace (2 ^ w - 1 - a) with (Z.lnot a + 2 ^ w) by (unfold Z.lnot; lia).
  rewrite <- (Z.mod_pow2_bits_low (Z.lnot a + 2 ^ w) w i) by lia.
  replace (Z.lnot a + 2 ^ w) with (Z.lnot a + 1 * 2 ^ w) by lia.
  rewrite Z_mod_plus_full, Z.mod_pow2_bits_low, Z.lnot_spec by lia. done.
Qed.

(** Disjoint bits add: the shape of every field assembly in the code. *)
Lemma lor_add_disjoint a b n : 0 <= n -> 0 <= a < 2 ^ n -> Z.lor a (b * 2 ^ n) = a + b * 2 ^ n.
Proof.
  intros Hn Ha. rewrite <- Z.shiftl_mul_pow2 by lia.
  assert (Z.land a (Z.shiftl b n) = 0) as E.
  { apply Z.bits_inj'. intros i Hi. rewrite Z.land_spec, Z.shiftl_spec, Z.bits_0 by lia.
    destruct (Z.ltb_spec i n).
    - rewrite (Z.testbit_neg_r b) by lia. apply andb_false_r.
    - rewrite (testbit_high a n) by lia. done. }
  pose proof (Z.add_lor_land a (Z.shiftl b n)). lia.
Qed.

Lemma lor_add_disjoint' a b n : 0 <= n -> 0 <= a < 2 ^ n -> Z.lor (b * 2 ^ n) a = b * 2 ^ n + a.
Proof. intros. rewrite Z.lor_comm, lor_add_disjoint by done. lia. Qed.

Lemma lor_double_1 q : Z.lor (q * 2) 1 = q * 2 + 1.
Proof. change (q * 2) with (q * 2 ^ 1). rewrite lor_add_disjoint' by lia. done. Qed.

Lemma shiftr_div a n : 0 <= n -> Z.shiftr a n = a / 2 ^ n.
Proof. apply Z.shiftr_div_pow2. Qed.

Lemma shiftl_mul a n : 0 <= n -> Z.shiftl a n = a * 2 ^ n.
Proof. apply Z.shiftl_mul_pow2. Qed.

Lemma land_mask a n : 0 <= n -> Z.land a (2 ^ n - 1) = a mod 2 ^ n.
Proof. intros. rewrite <- Z.land_ones by lia. f_equal. rewrite Z.ones_equiv. lia. Qed.

Lemma land_1_odd a : Z.land a 1 = b2z (Z.odd a).
Proof.
  change 1 with (Z.ones 1) at 1. rewrite Z.land_ones by lia. change (2 ^ 1) with 2.
  rewrite Zmod_odd. by destruct (Z.odd a).
Qed.

Lemma pow2_add a b : 0 <= a -> 0 <= b -> 2 ^ (a + b) = 2 ^ a * 2 ^ b.
Proof. intros. apply Z.pow_add_r; lia. Qed.

Lemma pow2_pos a : 0 <= a -> 0 < 2 ^ a.
Proof. intros. apply Z.pow_pos_nonneg; lia. Qed.

Lemma div_pow2_pow2 a m n : 0 <= m -> 0 <= n -> a / 2 ^ m / 2 ^ n = a / 2 ^ (m + n).
Proof.
  intros. rewrite Z.div_div, pow2_add by (try apply pow2_pos; lia || (assert (0 < 2 ^ m) by (by apply pow2_pos); lia)).
  done.
Qed.

Lemma testbit_mask w k : 0 <= w -> 0 <= k -> Z.testbit (2 ^ w - 1) k = (k <? w).
Proof.
  intros Hw Hk. replace (2 ^ w - 1) with (Z.ones w) by (rewrite Z.ones_equiv; lia).
  destruct (Z.ltb_spec k w); [apply Z.ones_spec_low|apply Z.ones_spec_high]; lia.
Qed.

(** The bits of a signed value from its sign bit up are its sign. *)
Lemma testbit_sign w a i : 0 < w -> - 2 ^ (w - 1) <= a < 2 ^ (w - 1) -> w - 1 <= i ->
  Z.testbit a i = (a <? 0).
Proof.
  intros Hw Ha Hi. destruct (Z.ltb_spec a 0).
  - replace a with (Z.lnot (- a - 1)) by (unfold Z.lnot; lia).
    rewrite Z.lnot_spec, (testbit_high _ (w - 1)) by lia. done.
  - apply testbit_high with (w - 1); lia.
Qed.

(** Testing one bit with a mask. *)
Lemma truthy_land_bit x n : 0 <= n -> truthy (Z.land x (2 ^ n)) = Z.testbit x n.
Proof.
  intros Hn. unfold truthy. destruct (Z.testbit x n) eqn:E.
  - destruct (Z.eqb_spec (Z.land x (2 ^ n)) 0) as [H|]; [|done].
    assert (Z.testbit (Z.land x (2 ^ n)) n = true) as H'.
    { by rewrite Z.land_spec, Z.pow2_bits_true, E by lia. }
    by rewrite H, Z.bits_0 in H'.
  - replace (Z.land x (2 ^ n)) with 0; [done|].
    apply Z.bits_inj'. intros i Hi. rewrite Z.bits_0, Z.land_spec.
    destruct (Z.eq_dec i n) as [->|]; [by rewrite E|].
    rewrite Z.pow2_bits_false by lia. by rewrite andb_false_r.
Qed.

(** Bitwise extensionality: [zbits] compares two words bit by bit, splitting
    on the bit index where a shift or a mask has a boundary. *)
Ltac zbits_rw :=
  repeat first
    [ progress rewrite ?Z.lor_spec, ?Z.land_spec, ?Z.lxor_spec, ?Z.bits_0,
        ?andb_false_r, ?andb_true_r, ?orb_false_r, ?orb_true_r
    | progress cbn [andb orb negb]
    | match goal with
      | |- context [Z.testbit ?a ?m] => rewrite (Z.testbit_neg_r a m) by lia
      | |- context [Z.testbit (2 ^ ?w - 1) ?m] => rewrite (testbit_mask w m) by lia
      | |- context [Z.testbit (Z.shiftl ?a ?n) ?m] => rewrite (Z.shiftl_spec a n m) by lia
      | |- context [Z.testbit (Z.shiftr ?a ?n) ?m] => rewrite (Z.shiftr_spec a n m) by lia
      | |- context [Z.testbit (?a mod 2 ^ ?n) ?m] => rewrite (Z.testbit_mod_pow2 a n m) by lia
      end ].

(** Split on the first undecided index comparison. *)
Ltac zbits_split :=
  match goal with
  | |- context [?x <? ?y] => destruct (Z.ltb_spec x y); try lia
  | |- context [Z.testbit _ (?x - ?y)] =>
      tryif first [assert (x - y < 0) by lia | assert (0 <= x - y) by lia] then fail
      else destruct (Z.ltb_spec (x - y) 0)
  end.

Ltac zbits_close :=
  first [ done
        | f_equal; lia
        | f_equal; f_equal; lia
        | symmetry; eapply testbit_high; [eassumption|lia]
        | eapply testbit_high; [eassumption|lia] ].

(** Compare two words bit by bit. *)
Ltac zbits :=
  let i := fresh "i" in
  let Hi := fresh "Hi" in
  apply Z.bits_inj'; intros i Hi;
  repeat (zbits_rw; zbits_split); zbits_rw; try zbits_close.

(** [1ull << n] *)
Lemma u64_shl1 n : 0 <= n < 64 -> u64 (Z.shiftl 1 n) = 2 ^ n.
Proof.
  intros Hn. rewrite shiftl_mul, Z.mul_1_l by lia. apply u64_small.
  split; [pose proof (pow2_pos n); lia|apply Z.pow_lt_mono_r; lia].
Qed.

(** The number of significant bits: the measure of a loop that halves. *)
Definition bitlen (w : Z) : Z := if w =? 0 then 0 else Z.log2 w + 1.

Lemma bitlen_nonneg w : 0 <= bitlen w.
Proof. unfold bitlen. pose proof (Z.log2_nonneg w). destruct (Z.eqb_spec w 0); lia. Qed.

Lemma bitlen_half w : 0 < w -> bitlen (w / 2) = bitlen w - 1.
Proof.
  intros Hw. unfold bitlen. destruct (Z.eqb_spec w 0); [lia|].
  pose proof (Z.log2_shiftr w 1 Hw) as E. rewrite shiftr_div in E by lia.
  change (2 ^ 1) with 2 in E.
  destruct (Z.leb_spec 2 w) as [H2|H2].
  - assert (1 <= w / 2) by (apply Z.div_le_lower_bound; lia).
    destruct (Z.eqb_spec (w / 2) 0); [lia|].
    apply Z.log2_le_mono in H2. change (Z.log2 2) with 1 in H2. lia.
  - assert (w = 1) as -> by lia. done.
Qed.

Lemma bitlen_bound w n : 0 <= n -> 0 <= w < 2 ^ n -> bitlen w <= n.
Proof.
  intros Hn Hw. unfold bitlen. destruct (Z.eqb_spec w 0); [lia|].
  assert (Z.log2 w < n) by (apply Z.log2_lt_pow2; lia). lia.
Qed.

(** ** Stores into a block *)

(** [bytes] stored at offset [i] of a block with the contents [old]. *)
Definition overwritten (old : list Z) (i : nat) (bytes : list Z) : list Z := take i old ++ bytes ++ drop (i + length bytes) old.

Lemma overwritten_nil old i : overwritten old i [] = old.
Proof. unfold overwritten. by rewrite Nat.add_0_r, app_nil_l, take_drop. Qed.

Lemma overwritten_cons old i b bytes : (i < length old)%nat -> overwritten old i (b :: bytes) = overwritten (<[i := b]> old) (S i) bytes.
Proof.
  intros Hi. unfold overwritten. rewrite (take_S_r _ _ b) by (by rewrite list_lookup_insert_eq by lia).
  rewrite take_insert_ge, drop_insert_lt, <- app_assoc by lia. cbn [length app]. by rewrite Nat.add_succ_comm.
Qed.

Lemma overwritten_length old i bytes : (i + length bytes <= length old)%nat -> length (overwritten old i bytes) = length old.
Proof. intros Hi. unfold overwritten. rewrite !length_app, length_take, length_drop. lia. Qed.

(** ** Bounded loops

    A C loop is a step function on its local state, run with fuel: [Next]
    goes round again, [Done] leaves the loop (by its condition, a [break] or
    a [return]).  [loop_total] proves that a loop with a decreasing measure
    returns and that its result satisfies the postcondition. *)

Inductive step (S R : Type) : Type :=
| Next (s : S)
| Done (r : R).
Arguments Next {S R} s.
Arguments Done {S R} r.

Fixpoint loop {S R : Type} (fuel : nat) (f : S -> step S R) (s : S) : option R :=
  match fuel with
  | O => None
  | S n =>
      match f s with
      | Next s' => loop n f s'
      | Done r => Some r
      end
  end.

Section loop_rule.
Context {S R : Type} (f : S -> step S R).
Context (Inv : S -> Prop) (Post : R -> Prop) (m : S -> Z).

Lemma loop_total :
  (forall s, Inv s ->
     match f s with
     | Next s' => Inv s' /\ 0 <= m s' < m s
     | Done r => Post r
     end) ->
  forall fuel s, Inv s -> m s < Z.of_nat fuel -> 0 <= m s ->
  exists r, loop fuel f s = Some r /\ Post r.
Proof.
  intros Hstep fuel. induction fuel as [|n IH]; intros s Hs Hm H0; [lia|].
  simpl. specialize (Hstep s Hs). destruct (f s) as [s'|r].
  - apply IH; [tauto|lia|lia].
  - eauto.
Qed.
End loop_rule.

Lemma loop_mono {S R} (f : S -> step S R) n k s r :
  loop n f s = Some r -> loop (n + k) f s = Some r.
Proof.
  revert s. induction n as [|n IH]; intros s; simpl; [done|].
  destruct (f s); [apply IH|done].
Qed.

(** A counted loop [for (i = 0; i < n; i++)] with no early exit: [nfold]
    passes the index. *)
Fixpoint nfold {S : Type} (n : nat) (f : Z -> S -> S) (s : S) : S :=
  match n with
  | O => s
  | S k => f (Z.of_nat k) (nfold k f s)
  end.

Lemma nfold_ind {S} (P : Z -> S -> Prop) (f : Z -> S -> S) n s :
  P 0 s ->
  (forall i t, 0 <= i < Z.of_nat n -> P i t -> P (i + 1) (f i t)) ->
  P (Z.of_nat n) (nfold n f s).
Proof.
  intros H0 Hs. induction n as [|k IH]; [done|].
  simpl nfold. replace (Z.of_nat (Datatypes.S k)) with (Z.of_nat k + 1) by lia.
  apply Hs; [lia|]. apply IH. intros; apply Hs; [lia|done].
Qed.
