(* ===== verification/DivMod.v ===== *)
(** * 64-bit integer helpers: [lib/compiler_rt_divmod.c]

    Unsigned and signed division and remainder, variable 64-bit shifts built
    from 32-bit halves, and the shift-and-add multiplication.  Unsigned
    64-bit values are [Z] in [0, 2^64), signed ones in [-2^63, 2^63). *)

From S2P Require Import Prelude.

(** ** Definitions *)

(** The alignment loop of [__udivmoddi4]: [(div, shift)]. *)
Definition udivmod_align (a : Z) (s : Z * Z) : step (Z * Z) (Z * Z) :=
  let '(div, shift) := s in
  if (Z.shiftr div 63 =? 0) && (div <=? Z.shiftr a 1)
  then Next (u64 (Z.shiftl div 1), u32 (shift + 1))
  else Done (div, shift).

(** One round of the restoring division loop: [(a, div, quot, shift)]; it
    leaves with [(quot, a)]. *)
Definition udivmod_round (s : Z * Z * Z * Z) : step (Z * Z * Z * Z) (Z * Z) :=
  let '(a, div, quot, shift) := s in
  let quot := u64 (Z.shiftl quot 1) in
  let '(a, quot) := if div <=? a then (u64 (a - div), Z.lor quot 1) else (a, quot) in
  if shift =? 0 then Done (quot, a)
  else Next (a, Z.shiftr div 1, quot, u32 (shift - 1)).

(** The quotient and the value stored through [rem]. *)
Definition __udivmoddi4 (a b : Z) : option (Z * Z) :=
  if b =? 0 then Some (0, 0)
  else if a <? b then Some (0, a)
  else
    '(div, shift) ← loop 65 (udivmod_align a) (b, 0);
    loop 65 udivmod_round (a, div, 0, shift).

Definition __udivdi3 (a b : Z) : option Z :=
  '(q, _) ← __udivmoddi4 a b; Some q.

Definition __umoddi3 (a b : Z) : option Z :=
  '(_, r) ← __udivmoddi4 a b; Some r.

Definition uabsdi (v : Z) : Z :=
  let uv := u64 v in
  if v <? 0 then u64 (0 - uv) else uv.

Definition __divdi3 (a b : Z) : option Z :=
  if b =? 0 then Some 0
  else
    let neg := xorb (a <? 0) (b <? 0) in
    let ua := uabsdi a in
    let ub := uabsdi b in
    uq ← __udivdi3 ua ub;
    Some (if neg then s64 (- s64 uq) else s64 uq).

Definition __moddi3 (a b : Z) : option Z :=
  if b =? 0 then Some 0
  else
    let ua := uabsdi a in
    let ub := uabsdi b in
    ur ← __umoddi3 ua ub;
    Some (if a <? 0 then s64 (- s64 ur) else s64 ur).

Definition di_split (v : Z) : Z * Z :=
  (u32 (Z.land v 0xFFFFFFFF), u32 (Z.shiftr v 32)).

Definition di_join (lo hi : Z) : Z := Z.lor lo (u64 (Z.shiftl hi 32)).

Definition __ashldi3 (a b : Z) : Z :=
  let '(lo, hi) := di_split a in
  if 64 <=? u32 b then 0
  else if 32 <=? u32 b then di_join 0 (u32 (Z.shiftl lo (u32 b - 32)))
  else if b =? 0 then a
  else di_join (u32 (Z.shiftl lo b))
               (Z.lor (u32 (Z.shiftl hi b)) (Z.shiftr lo (32 - b))).

Definition __lshrdi3 (a b : Z) : Z :=
  let '(lo, hi) := di_split a in
  if 64 <=? u32 b then 0
  else if 32 <=? u32 b then di_join (Z.shiftr hi (u32 b - 32)) 0
  else if b =? 0 then a
  else di_join (Z.lor (Z.shiftr lo b) (u32 (Z.shiftl hi (32 - b)))) (Z.shiftr hi b).

(** [a] is signed; the result is the signed reading of the joined halves. *)
Definition __ashrdi3 (a b : Z) : Z :=
  let '(lo, hi) := di_split (u64 a) in
  let sign := truthy (Z.land hi 0x80000000) in
  if 64 <=? u32 b then (if sign then -1 else 0)
  else if 32 <=? u32 b then
    let fill := if sign then 0xFFFFFFFF else 0 in
    let newlo := Z.shiftr hi (u32 b - 32) in
    let newlo :=
      if truthy fill then
        let sh := u32 b - 32 in
        if sh <? 32 then Z.lor newlo (u32 (Z.shiftl fill (32 - sh))) else newlo
      else newlo in
    s64 (di_join newlo fill)
  else if b =? 0 then a
  else
    let newlo := Z.lor (Z.shiftr lo b) (u32 (Z.shiftl hi (32 - b))) in
    let newhi := Z.shiftr hi b in
    let newhi :=
      if sign then
        let sh := u32 b in
        if sh <? 32 then Z.lor newhi (u32 (Z.shiftl 0xFFFFFFFF (32 - sh))) else newhi
      else newhi in
    s64 (di_join newlo newhi).

(** The shift-and-add loop: [(a, b, r)]. *)
Definition muldi3_round (s : Z * Z * Z) : step (Z * Z * Z) Z :=
  let '(a, b, r) := s in
  if b =? 0 then Done r
  else
    let r := if truthy (Z.land b 1) then u64 (r + a) else r in
    Next (u64 (Z.shiftl a 1), Z.shiftr b 1, r).

Definition __muldi3 (a b : Z) : option Z := loop 65 muldi3_round (a, b, 0).

(** ** Unsigned division *)

Section unsigned.
Context (a b : Z) (Ha : 0 <= a < 2 ^ 64) (Hb : 0 < b <= a).

Definition align_inv (s : Z * Z) : Prop :=
  fst s = b * 2 ^ snd s /\ 0 <= snd s /\ fst s <= a.

Lemma align_inv_bound s : align_inv s -> snd s < 64.
Proof using Ha Hb.
  intros (E & H0 & H). destruct (Z.ltb_spec (snd s) 64); [done|].
  pose proof (Z.pow_le_mono_r 2 64 (snd s)). nia.
Qed.

Lemma align_total :
  exists div shift, loop 65 (udivmod_align a) (b, 0) = Some (div, shift) /\
    align_inv (div, shift) /\ a < 2 * div.
Proof using Ha Hb.
  edestruct (loop_total (udivmod_align a) align_inv
      (fun r => align_inv r /\ a < 2 * fst r) (fun s => 64 - snd s))
    with (fuel := 65%nat) (s := (b, 0)) as ([div shift] & E & Hp); cbn [fst snd] in *; try lia.
  - intros [div shift] Hi. pose proof (align_inv_bound _ Hi). pose proof Hi as (E & H0 & H1).
    cbn [fst snd udivmod_align] in *. rewrite !shiftr_div by lia.
    destruct (Z.eqb_spec (div / 2 ^ 63) 0) as [Hd|Hd]; cbn [andb].
    + destruct (Z.leb_spec div (a / 2 ^ 1)) as [Hle|Hgt].
      * assert (div < 2 ^ 63) by (apply Z.div_small_iff in Hd; lia).
        change (2 ^ 1) with 2 in *. rewrite shiftl_mul by lia. change (2 ^ 1) with 2.
        assert (2 * div <= a) by (pose proof (Z.mul_div_le a 2); lia).
        assert (Hi' : align_inv (div * 2, shift + 1)).
        { unfold align_inv. cbn [fst snd]. split; [|lia].
          rewrite Z.pow_add_r by lia. change (2 ^ 1) with 2. rewrite E. ring. }
        rewrite u64_small, u32_small by lia.
        pose proof (align_inv_bound _ Hi'). cbn [fst snd] in *. split; [done|lia].
      * split; [done|]. change (2 ^ 1) with 2 in *.
        pose proof (Z.mul_succ_div_gt a 2). cbn [fst]. lia.
    + split; [done|].
      assert (1 <= div / 2 ^ 63) by (pose proof (Z.div_pos div (2 ^ 63)); lia).
      pose proof (Z.mul_div_le div (2 ^ 63)). cbn [fst]. lia.
  - unfold align_inv. cbn [fst snd]. change (2 ^ 0) with 1. lia.
  - exists div, shift. done.
Qed.

(** Before a round: [a = quot * 2 div + r] with [r < 2 div]. *)
Definition round_inv (s : Z * Z * Z * Z) : Prop :=
  let '(r, div, q, shift) := s in
  0 <= shift < 64 /\ div = b * 2 ^ shift /\ div <= a /\
  a = q * (2 * div) + r /\ 0 <= r < 2 * div /\ 0 <= q.

Lemma round_total div shift :
  align_inv (div, shift) -> a < 2 * div ->
  loop 65 udivmod_round (a, div, 0, shift) = Some (a / b, a mod b).
Proof using Ha Hb.
  intros Hi Hd. pose proof (align_inv_bound _ Hi). destruct Hi as (E & H0 & H1). cbn [fst snd] in *.
  edestruct (loop_total udivmod_round round_inv (fun r => r = (a / b, a mod b)) (fun s => snd s))
    with (fuel := 65%nat) (s := (a, div, 0, shift)) as (r & El & ->); cbn [snd]; [|unfold round_inv; lia|lia|lia|done].
  clear div shift H E H0 H1 Hd.
  intros [[[r div] q] sh] (Hsh & E & Hle & Eq & Hr & Hq). cbn [udivmod_round snd].
  rewrite shiftl_mul, shiftr_div by lia. change (2 ^ 1) with 2.
  assert (0 < div) by (subst div; pose proof (pow2_pos sh); nia).
  rewrite (u64_small (q * 2)) by nia.
  assert (exists q' r', (if div <=? r then (u64 (r - div), Z.lor (q * 2) 1) else (r, q * 2)) = (r', q')
            /\ a = q' * div + r' /\ 0 <= r' < div /\ 0 <= q') as (q' & r' & -> & Eq' & Hr' & Hq').
  { destruct (Z.leb_spec div r).
    - eexists _, _. split; [reflexivity|]. rewrite u64_small by lia.
      rewrite lor_double_1. nia.
    - eexists _, _. split; [reflexivity|]. nia. }
  destruct (Z.eqb_spec sh 0) as [->|Hne].
  - rewrite Z.pow_0_r, Z.mul_1_r in E. subst div.
    f_equal; [apply Z.div_unique with r'|apply Z.mod_unique with q']; lia.
  - rewrite u32_small by lia. split; [|cbn [snd]; lia].
    assert (div = 2 * (b * 2 ^ (sh - 1))) as E'.
    { subst div. replace (2 ^ sh) with (2 * 2 ^ (sh - 1)); [ring|].
      rewrite <- Z.pow_succ_r by lia. f_equal. lia. }
    assert (div / 2 = b * 2 ^ (sh - 1)) as ->.
    { rewrite E', Z.mul_comm. apply Z.div_mul. lia. }
    unfold round_inv. repeat split; try lia. rewrite <- E'. done.
Qed.
End unsigned.

Lemma udivmod_spec a b : 0 <= a < 2 ^ 64 -> 0 <= b < 2 ^ 64 ->
  __udivmoddi4 a b = Some (if b =? 0 then (0, 0) else (a / b, a mod b)).
Proof.
  intros Ha Hb. unfold __udivmoddi4.
  destruct (Z.eqb_spec b 0); [done|]. destruct (Z.ltb_spec a b).
  - rewrite Z.div_small, Z.mod_small by lia. done.
  - destruct (align_total a b) as (div & shift & -> & Hi & Hd); [lia..|].
    simpl. apply round_total; try done; lia.
Qed.

(** ** Signed division *)

Lemma uabsdi_abs v : - 2 ^ 63 <= v < 2 ^ 63 -> uabsdi v = Z.abs v.
Proof.
  intros Hv. unfold uabsdi. destruct (Z.ltb_spec v 0).
  - replace (u64 v) with (v + 2 ^ 64); [|unfold u64; apply Z.mod_unique with (-1); lia].
    unfold u64. replace (0 - (v + 2 ^ 64)) with (- v + (-1) * 2 ^ 64) by lia.
    rewrite Z_mod_plus_full, Z.mod_small; lia.
  - rewrite u64_small; lia.
Qed.

Lemma s64_neg_s64 z : s64 (- s64 z) = s64 (- z).
Proof.
  unfold s64. rewrite <- (swrap_of_mod 64 (- swrap 64 z)), <- (swrap_of_mod 64 (- z)) by lia.
  f_equal. rewrite <- !(Z.sub_0_l (_)). rewrite <- Zminus_mod_idemp_r.
  rewrite swrap_mod by lia. by rewrite Zminus_mod_idemp_r.
Qed.

Lemma quot_abs a b : b <> 0 ->
  Z.quot a b = if xorb (a <? 0) (b <? 0) then - (Z.abs a / Z.abs b) else Z.abs a / Z.abs b.
Proof.
  intros Hb. pose proof (Z.quot_div a b Hb) as ->.
  destruct (Z.ltb_spec a 0), (Z.ltb_spec b 0); cbn [xorb];
    rewrite ?(Z.sgn_neg a), ?(Z.sgn_neg b), ?(Z.sgn_pos b) by lia.
  - ring.
  - ring.
  - destruct (Z.eq_dec a 0) as [->|]; [done|]. rewrite Z.sgn_pos by lia. ring.
  - destruct (Z.eq_dec a 0) as [->|]; [done|]. rewrite Z.sgn_pos by lia. ring.
Qed.

Lemma rem_abs a b : b <> 0 ->
  Z.rem a b = if a <? 0 then - (Z.abs a mod Z.abs b) else Z.abs a mod Z.abs b.
Proof.
  intros Hb. pose proof (Z.rem_mod a b Hb) as ->.
  destruct (Z.ltb_spec a 0); [rewrite Z.sgn_neg by lia; ring|].
  destruct (Z.eq_dec a 0) as [->|]; [done|]. rewrite Z.sgn_pos by lia. ring.
Qed.

(** ** Shifts by halves *)

Lemma di_split_spec v : 0 <= v < 2 ^ 64 -> di_split v = (v mod 2 ^ 32, v / 2 ^ 32).
Proof.
  intros Hv. unfold di_split. change 0xFFFFFFFF with (2 ^ 32 - 1).
  rewrite land_mask, shiftr_div by lia.
  assert (v / 2 ^ 32 < 2 ^ 32) by (apply Z.div_lt_upper_bound; lia).
  assert (0 <= v / 2 ^ 32) by (apply Z.div_pos; lia).
  unfold u32. rewrite Z.mod_mod, (Z.mod_small (v / 2 ^ 32)) by lia. done.
Qed.

Lemma u32_sint b : - 2 ^ 31 <= b < 2 ^ 31 -> u32 b = if b <? 0 then b + 2 ^ 32 else b.
Proof.
  intros Hb. destruct (Z.ltb_spec b 0); [|apply u32_small; lia].
  unfold u32. symmetry. apply Z.mod_unique with (-1); lia.
Qed.

Lemma ashl_spec a b : 0 <= a < 2 ^ 64 -> - 2 ^ 31 <= b < 2 ^ 31 ->
  __ashldi3 a b = if (0 <=? b) && (b <? 64) then (a * 2 ^ b) mod 2 ^ 64 else 0.
Proof.
  intros Ha Hb. unfold __ashldi3. rewrite di_split_spec by done.
  rewrite u32_sint by done.
  destruct (Z.ltb_spec b 0); destruct (Z.leb_spec 0 b); try lia; cbn [andb].
  { destruct (Z.leb_spec 64 (b + 2 ^ 32)); lia. }
  destruct (Z.leb_spec 64 b), (Z.ltb_spec b 64); try lia.
  rewrite <- shiftl_mul by lia. rewrite <- shiftr_div by lia.
  destruct (Z.leb_spec 32 b); [|destruct (Z.eqb_spec b 0) as [->|]].
  - unfold di_join, u64, u32. zbits.
  - rewrite Z.shiftl_0_r, Z.mod_small; lia.
  - unfold di_join, u64, u32. zbits.
Qed.

Lemma lshr_spec a b : 0 <= a < 2 ^ 64 -> - 2 ^ 31 <= b < 2 ^ 31 ->
  __lshrdi3 a b = if (0 <=? b) && (b <? 64) then a / 2 ^ b else 0.
Proof.
  intros Ha Hb. unfold __lshrdi3. rewrite di_split_spec by done.
  rewrite u32_sint by done.
  destruct (Z.ltb_spec b 0); destruct (Z.leb_spec 0 b); try lia; cbn [andb].
  { destruct (Z.leb_spec 64 (b + 2 ^ 32)); lia. }
  destruct (Z.leb_spec 64 b), (Z.ltb_spec b 64); try lia.
  rewrite <- !shiftr_div by lia.
  destruct (Z.leb_spec 32 b); [|destruct (Z.eqb_spec b 0) as [->|]].
  - unfold di_join, u64. zbits.
  - by rewrite Z.shiftr_0_r.
  - unfold di_join, u64, u32. zbits.
Qed.

Lemma s64_u64_shiftr a b : - 2 ^ 63 <= a < 2 ^ 63 -> 0 <= b ->
  s64 (u64 (Z.shiftr a b)) = Z.shiftr a b.
Proof.
  intros Ha Hb. unfold s64, u64. rewrite swrap_of_mod by lia. apply swrap_small; [lia|].
  rewrite shiftr_div by lia. pose proof (pow2_pos b Hb).
  change (64 - 1) with 63. split.
  - apply Z.div_le_lower_bound; nia.
  - apply Z.div_lt_upper_bound; nia.
Qed.

Lemma ashr_sign a : - 2 ^ 63 <= a < 2 ^ 63 ->
  truthy (Z.land (u64 a / 2 ^ 32) 0x80000000) = (a <? 0).
Proof.
  intros Ha. change 0x80000000 with (2 ^ 31). rewrite truthy_land_bit, <- shiftr_div by lia.
  rewrite Z.shiftr_spec by lia. unfold u64. rewrite Z.testbit_mod_pow2 by lia.
  apply (testbit_sign 64); lia.
Qed.

(** Close a goal about one bit of [a] at or above its sign bit. *)
Ltac sign_bits a :=
  repeat match goal with
  | |- context [Z.testbit a ?k] => rewrite (testbit_sign 64 a k) by lia
  end;
  destruct (Z.ltb_spec a 0); first [done|lia].

Lemma ashr_spec a b : - 2 ^ 63 <= a < 2 ^ 63 -> - 2 ^ 31 <= b < 2 ^ 31 ->
  __ashrdi3 a b = if (0 <=? b) && (b <? 64) then a / 2 ^ b else if a <? 0 then -1 else 0.
Proof.
  intros Ha Hb. unfold __ashrdi3. rewrite di_split_spec by apply u64_range.
  rewrite ashr_sign, u32_sint by done.
  destruct (Z.ltb_spec b 0); destruct (Z.leb_spec 0 b); try lia; cbn [andb].
  { destruct (Z.leb_spec 64 (b + 2 ^ 32)); lia. }
  destruct (Z.leb_spec 64 b), (Z.ltb_spec b 64); try lia; try done.
  rewrite <- (shiftr_div a), <- (shiftr_div (u64 a)) by lia.
  destruct (Z.leb_spec 32 b); [|destruct (Z.eqb_spec b 0) as [->|]].
  - rewrite <- (s64_u64_shiftr a b) by lia. f_equal.
    destruct (Z.ltb_spec (b - 32) 32); [|lia].
    change 0xFFFFFFFF with (2 ^ 32 - 1).
    destruct (Z.ltb_spec a 0) as [Hs|Hs].
    + change (truthy (2 ^ 32 - 1)) with true. cbn iota. unfold di_join, u64, u32.
      zbits; sign_bits a.
    + change (truthy 0) with false. cbn iota. unfold di_join, u64. zbits; sign_bits a.
  - by rewrite Z.shiftr_0_r.
  - rewrite <- (s64_u64_shiftr a b) by lia. f_equal.
    destruct (Z.ltb_spec b 32); [|lia].
    change 0xFFFFFFFF with (2 ^ 32 - 1).
    destruct (Z.ltb_spec a 0) as [Hs|Hs]; cbn iota; unfold di_join, u64, u32;
      zbits; sign_bits a.
Qed.

(** ** Multiplication *)

Definition mul_inv (a0 b0 : Z) (s : Z * Z * Z) : Prop :=
  let '(a, b, r) := s in
  (r + a * b) mod 2 ^ 64 = (a0 * b0) mod 2 ^ 64 /\ 0 <= r < 2 ^ 64 /\ 0 <= b < 2 ^ 64.

Lemma mul_round_inv a0 b0 a b r : mul_inv a0 b0 (a, b, r) -> 0 < b ->
  mul_inv a0 b0 (u64 (Z.shiftl a 1), Z.shiftr b 1, if truthy (Z.land b 1) then u64 (r + a) else r).
Proof.
  intros (E & Hr & Hb) Hb0. unfold mul_inv.
  rewrite land_1_odd, shiftl_mul, shiftr_div by lia. change (2 ^ 1) with 2.
  pose proof (Z.div_mod b 2 ltac:(lia)) as Eb. rewrite Zmod_odd in Eb.
  assert (0 <= b / 2 < 2 ^ 64).
  { split; [apply Z.div_pos; lia|apply Z.div_lt_upper_bound; lia]. }
  destruct (Z.odd b); cbn [b2z truthy Z.eqb negb]; (split; [|split; [first [done|apply u64_range]|done]]);
    rewrite <- E; unfold u64.
  - rewrite Zplus_mod, Zmult_mod_idemp_l, Zmod_mod, <- Zplus_mod. f_equal.
    rewrite Eb at 2. ring.
  - rewrite Zplus_mod, Zmult_mod_idemp_l, <- Zplus_mod. f_equal.
    rewrite Eb at 2. ring.
Qed.

Lemma mul_spec a b : 0 <= a < 2 ^ 64 -> 0 <= b < 2 ^ 64 ->
  __muldi3 a b = Some ((a * b) mod 2 ^ 64).
Proof.
  intros Ha Hb. unfold __muldi3.
  edestruct (loop_total muldi3_round (mul_inv a b) (fun r => r = (a * b) mod 2 ^ 64)
      (fun s => bitlen (snd (fst s))))
    with (fuel := 65%nat) (s := (a, b, 0)) as (r & -> & ->); [| | | |done].
  - intros [[a' b'] r'] (E & Hr & Hb'). cbn [muldi3_round].
    destruct (Z.eqb_spec b' 0) as [->|Hne].
    + rewrite Z.mul_0_r, Z.add_0_r, Z.mod_small in E by lia. done.
    + split; [apply mul_round_inv; [done|lia]|].
      cbn [fst snd]. rewrite shiftr_div, bitlen_half by lia.
      pose proof (bitlen_nonneg (b' / 2)) as Hl. rewrite bitlen_half in Hl by lia. lia.
  - split; [f_equal; ring|lia].
  - pose proof (bitlen_bound b 64). cbn [fst snd]. lia.
  - apply bitlen_nonneg.
Qed.

(** ** Properties *)

(** C10: [__udivmoddi4] terminates on every pair of 64-bit words and returns
    the quotient and remainder of the Euclidean division; a zero divisor
    gives quotient and remainder 0 instead of a trap. *)
Theorem udivmoddi4_correct a b : 0 <= a < 2 ^ 64 -> 0 <= b < 2 ^ 64 ->
  __udivmoddi4 a b = Some (if b =? 0 then (0, 0) else (a / b, a mod b)).
Proof. apply udivmod_spec. Qed.

Lemma udivmoddi4_correct_witness :
  __udivmoddi4 18446744073709551615 10 = Some (1844674407370955161, 5).
Proof. exact (udivmoddi4_correct 18446744073709551615 10 ltac:(lia) ltac:(lia)). Defined.

(** Signed division and remainder truncate toward zero, as C requires,
    for every pair of signed 64-bit operands (the overflowing quotient
    [-2^63 / -1] wraps to [-2^63]); a zero divisor gives 0. *)
Lemma div_spec a b : - 2 ^ 63 <= a < 2 ^ 63 -> - 2 ^ 63 <= b < 2 ^ 63 ->
  __divdi3 a b = Some (if b =? 0 then 0 else s64 (Z.quot a b)) /\
  __moddi3 a b = Some (if b =? 0 then 0 else Z.rem a b).
Proof.
  intros Ha Hb. unfold __divdi3, __moddi3, __udivdi3, __umoddi3.
  destruct (Z.eqb_spec b 0) as [|Hne]; [done|].
  rewrite !uabsdi_abs, udivmod_spec by lia.
  destruct (Z.eqb_spec (Z.abs b) 0); [lia|]. cbn [mbind option_bind].
  rewrite quot_abs, rem_abs by done. split.
  - destruct (xorb (a <? 0) (b <? 0)); [by rewrite s64_neg_s64|done].
  - pose proof (Z.mod_pos_bound (Z.abs a) (Z.abs b) ltac:(lia)).
    destruct (a <? 0); [rewrite s64_neg_s64|]; unfold s64; rewrite swrap_small by lia; done.
Qed.

(** The three variable shifts built from 32-bit halves. *)
Lemma di_shifts_spec a b : 0 <= a < 2 ^ 64 -> - 2 ^ 31 <= b < 2 ^ 31 ->
  let inr := (0 <=? b) && (b <? 64) in
  __ashldi3 a b = (if inr then (a * 2 ^ b) mod 2 ^ 64 else 0) /\
  __lshrdi3 a b = (if inr then a / 2 ^ b else 0) /\
  __ashrdi3 (s64 a) b = (if inr then s64 a / 2 ^ b else if s64 a <? 0 then -1 else 0).
Proof.
  intros Ha Hb. split; [by apply ashl_spec|]. split; [by apply lshr_spec|].
  apply ashr_spec; [|done]. apply (swrap_range 64). lia.
Qed.

(** The routines on signed and shifted words compute what C requires.
    Signed division and remainder truncate toward zero for every pair of
    operands (the overflowing quotient [-2^63 / -1] wraps to [-2^63]) and give 0
    for a zero divisor; the three variable shifts built from 32-bit halves are
    the 64-bit shift for every count in [0, 64), and the saturated value (zero,
    or all sign bits) for every other count, negative ones included;
    shift-and-add multiplication terminates and is multiplication modulo
    2^64. *)
Theorem int64_runtime_correct a b n : 0 <= a < 2 ^ 64 -> 0 <= b < 2 ^ 64 -> - 2 ^ 31 <= n < 2 ^ 31 ->
  let inr := (0 <=? n) && (n <? 64) in
  __divdi3 (s64 a) (s64 b) = Some (if s64 b =? 0 then 0 else s64 (Z.quot (s64 a) (s64 b))) /\
  __moddi3 (s64 a) (s64 b) = Some (if s64 b =? 0 then 0 else Z.rem (s64 a) (s64 b)) /\
  __ashldi3 a n = (if inr then (a * 2 ^ n) mod 2 ^ 64 else 0) /\
  __lshrdi3 a n = (if inr then a / 2 ^ n else 0) /\
  __ashrdi3 (s64 a) n = (if inr then s64 a / 2 ^ n else if s64 a <? 0 then -1 else 0) /\
  __muldi3 a b = Some ((a * b) mod 2 ^ 64).
Proof.
  intros Ha Hb Hn inr. destruct (di_shifts_spec a n Ha Hn) as (H1 & H2 & H3).
  destruct (div_spec (s64 a) (s64 b)) as (H4 & H5); [apply (swrap_range 64); lia..|].
  repeat (split; [assumption|]). by apply mul_spec.
Qed.

Lemma int64_runtime_correct_witness :
  __divdi3 (-7) 2 = Some (-3) /\ __moddi3 (-7) 2 = Some (-1) /\
  __ashldi3 0x8000000180000001 33 = 0x200000000 /\
  __ashrdi3 (s64 0x8000000180000001) 33 = -0x40000000 /\
  __muldi3 0x8000000180000001 3 = Some 0x8000000480000003.
Proof.
  destruct (int64_runtime_correct (2 ^ 64 - 7) 2 0 ltac:(lia) ltac:(lia) ltac:(lia)) as (H1 & H2 & _).
  destruct (int64_runtime_correct 0x8000000180000001 3 33 ltac:(lia) ltac:(lia) ltac:(lia)) as (_ & _ & H3 & _ & H4 & H5).
  repeat split; assumption.
Defined.
