(* ===== verification/FloatSpec.v ===== *)
(** * IEEE-754 binary formats as integers

    The specification the soft-float runtime is proved against.  A finite
    magnitude of a binary format with [M] fraction bits is an integer
    multiple of the smallest subnormal, so its exact value is a [Z]; rounding
    to nearest, ties to even, is stated on exact rationals [N / D] in that
    unit.  The pattern of infinity takes the value the next exponent would
    have, which makes overflow a case of rounding to nearest. *)

From S2P Require Import Prelude.

(** The magnitude of the pattern [x] (sign bit removed), in units of the
    smallest subnormal. *)
Definition fmag (M x : Z) : Z :=
  if x <? 2 ^ M then x else (2 ^ M + x mod 2 ^ M) * 2 ^ (x / 2 ^ M - 1).

(** [r] is the pattern in [0, top] nearest to [N / D], ties to even. *)
Definition nearest_even (M top N D r : Z) : Prop :=
  0 <= r <= top /\
  forall p, 0 <= p <= top -> p <> r ->
    Z.abs (N - fmag M r * D) < Z.abs (N - fmag M p * D) \/
    Z.abs (N - fmag M r * D) = Z.abs (N - fmag M p * D) /\ Z.even r = true.

(** [r] is some pattern in [0, top] nearest to [N / D]. *)
Definition nearest (M top N D r : Z) : Prop :=
  0 <= r <= top /\
  forall p, 0 <= p <= top -> Z.abs (N - fmag M r * D) <= Z.abs (N - fmag M p * D).

(** The quotient, guard and sticky bits of [X / Y]. *)
Definition gs (X Y q : Z) (g s : bool) : Prop :=
  exists R, X = q * Y + R /\ 0 <= R < Y /\
    g = (Y <=? 2 * R) /\ s = negb (2 * R =? (if g then Y else 0)).

(** Binary64: 52 fraction bits, unit 2^-1074; binary32: 23, unit 2^-149. *)
Definition DINF : Z := 0x7FF0000000000000.
Definition FINF : Z := 0x7F800000.

Definition dmag (x : Z) : Z := fmag 52 (x mod 2 ^ 63).
Definition dneg (x : Z) : bool := Z.testbit x 63.
Definition dval (x : Z) : Z := if dneg x then - dmag x else dmag x.
Definition dfinite (x : Z) : Prop := 0 <= x < 2 ^ 64 /\ x mod 2 ^ 63 < DINF.
Definition dnan (x : Z) : Prop := 0 <= x < 2 ^ 64 /\ DINF < x mod 2 ^ 63.
Definition dinf (x : Z) : Prop := 0 <= x < 2 ^ 64 /\ x mod 2 ^ 63 = DINF.

Definition smag (x : Z) : Z := fmag 23 (x mod 2 ^ 31).
Definition sneg (x : Z) : bool := Z.testbit x 31.

(** [r] is the double nearest to the nonzero rational [N / D], with its
    sign; for [N = 0] it is a zero. *)
Definition drounds (N D r : Z) : Prop :=
  0 <= r < 2 ^ 64 /\
  nearest_even 52 DINF (Z.abs N) D (r mod 2 ^ 63) /\
  (N < 0 -> dneg r = true) /\ (0 < N -> dneg r = false).

(** ** The value function *)

Section format.
Context (M : Z) (HM : 0 < M).

Lemma pow2M_pos : 0 < 2 ^ M.
Proof using HM. apply pow2_pos. lia. Qed.

Lemma fmag_low q : 0 <= q <= 2 ^ (M + 1) -> fmag M q = q.
Proof using HM.
  intros Hq. unfold fmag. pose proof pow2M_pos.
  rewrite Z.pow_add_r in Hq by lia. change (2 ^ 1) with 2 in Hq.
  destruct (Z.ltb_spec q (2 ^ M)); [done|].
  destruct (Z.eq_dec q (2 ^ M * 2)) as [->|].
  - rewrite !(Z.mul_comm (2 ^ M) 2), Z.div_mul, Z_mod_mult by lia. change (2 ^ (2 - 1)) with 2. lia.
  - replace (q / 2 ^ M) with 1 by (apply Z.div_unique with (q - 2 ^ M); lia).
    replace (q mod 2 ^ M) with (q - 2 ^ M) by (apply Z.mod_unique with 1; lia).
    change (2 ^ (1 - 1)) with 1. lia.
Qed.

(** The pattern with exponent step [E] and significand [q]. *)
Lemma fmag_pattern E q : 0 <= E -> 2 ^ M <= q <= 2 ^ (M + 1) ->
  fmag M (E * 2 ^ M + q) = q * 2 ^ E.
Proof using HM.
  intros HE Hq. pose proof pow2M_pos.
  rewrite Z.pow_add_r in Hq by lia. change (2 ^ 1) with 2 in Hq.
  unfold fmag. destruct (Z.ltb_spec (E * 2 ^ M + q) (2 ^ M)); [nia|].
  destruct (Z.eq_dec q (2 ^ M * 2)) as [->|].
  - replace (E * 2 ^ M + 2 ^ M * 2) with ((E + 2) * 2 ^ M) by ring.
    rewrite Z.div_mul, Z_mod_mult by lia.
    replace (E + 2 - 1) with (E + 1) by lia. rewrite Z.pow_add_r by lia.
    change (2 ^ 1) with 2. ring.
  - replace ((E * 2 ^ M + q) / 2 ^ M) with (E + 1)
      by (apply Z.div_unique with (q - 2 ^ M); lia).
    replace ((E * 2 ^ M + q) mod 2 ^ M) with (q - 2 ^ M)
      by (apply Z.mod_unique with (E + 1); lia).
    replace (E + 1 - 1) with E by lia. f_equal. lia.
Qed.

(** Every pattern is one of these: [E = 0], or a normalised significand. *)
Lemma pattern_split x : 0 <= x ->
  exists E q, x = E * 2 ^ M + q /\ 0 <= E /\ 0 <= q < 2 ^ (M + 1) /\ (E = 0 \/ 2 ^ M <= q).
Proof using HM.
  intros Hx. pose proof pow2M_pos. rewrite Z.pow_add_r by lia. change (2 ^ 1) with 2.
  destruct (Z.ltb_spec x (2 ^ M)).
  - exists 0, x. lia.
  - exists (x / 2 ^ M - 1), (x mod 2 ^ M + 2 ^ M).
    pose proof (Z.mod_pos_bound x (2 ^ M) ltac:(lia)).
    pose proof (Z.div_mod x (2 ^ M) ltac:(lia)).
    assert (1 <= x / 2 ^ M) by (apply Z.div_le_lower_bound; lia).
    split; [lia|]. lia.
Qed.

(** The two ends of the interval a pattern starts. *)
Lemma fmag_step E q : 0 <= E -> 0 <= q < 2 ^ (M + 1) -> E = 0 \/ 2 ^ M <= q ->
  fmag M (E * 2 ^ M + q) = q * 2 ^ E /\ fmag M (E * 2 ^ M + q + 1) = (q + 1) * 2 ^ E.
Proof using HM.
  intros HE Hq [->|Hn].
  - rewrite Z.mul_0_l, Z.add_0_l, Z.pow_0_r, !Z.mul_1_r.
    split; apply fmag_low; lia.
  - rewrite <- Z.add_assoc. split; apply fmag_pattern; lia.
Qed.

Lemma fmag_succ x : 0 <= x -> fmag M x < fmag M (x + 1).
Proof using HM.
  intros Hx. destruct (pattern_split x Hx) as (E & q & -> & HE & Hq & Hn).
  destruct (fmag_step E q HE Hq Hn) as [-> ->]. pose proof (pow2_pos E HE). nia.
Qed.

Lemma fmag_mono x y : 0 <= x -> x < y -> fmag M x < fmag M y.
Proof using HM.
  intros Hx Hxy. replace y with (x + 1 + Z.of_nat (Z.to_nat (y - x - 1))) by lia.
  induction (Z.to_nat (y - x - 1)) as [|n IH].
  - rewrite Z.add_0_r. by apply fmag_succ.
  - etrans; [apply IH|]. rewrite Nat2Z.inj_succ.
    replace (x + 1 + Z.succ (Z.of_nat n)) with (x + 1 + Z.of_nat n + 1) by lia.
    apply fmag_succ. lia.
Qed.

Lemma fmag_mono_le x y : 0 <= x -> x <= y -> fmag M x <= fmag M y.
Proof using HM.
  intros Hx Hxy. destruct (Z.eq_dec x y) as [->|]; [done|].
  pose proof (fmag_mono x y). lia.
Qed.

Lemma fmag_nonneg x : 0 <= x -> 0 <= fmag M x.
Proof using HM.
  intros Hx. pose proof (fmag_mono_le 0 x). rewrite fmag_low in H; [lia|].
  pose proof (pow2_pos (M + 1)). lia.
Qed.

Lemma fmag_inj x y : 0 <= x -> 0 <= y -> fmag M x = fmag M y -> x = y.
Proof using HM.
  intros Hx Hy E. destruct (Z.lt_trichotomy x y) as [H|[H|H]]; [|done|].
  - pose proof (fmag_mono x y). lia.
  - pose proof (fmag_mono y x). lia.
Qed.

(** ** Rounding *)

Context (top : Z) (Htop : 0 <= top).

Lemma nearest_even_unique N D r1 r2 : 0 < D ->
  nearest_even M top N D r1 -> nearest_even M top N D r2 -> r1 = r2.
Proof using HM.
  intros HD [Hr1 H1] [Hr2 H2]. destruct (Z.eq_dec r1 r2) as [|Hne]; [done|].
  destruct (H1 r2 Hr2 ltac:(done)) as [L1|[L1 E1]], (H2 r1 Hr1 ltac:(done)) as [L2|[L2 E2]];
    try lia.
  (* equidistant, both even: they straddle N / D with nothing between *)
  exfalso. clear L2.
  assert (forall x y, 0 <= x <= top -> 0 <= y <= top -> x < y -> Z.even x = true -> Z.even y = true ->
    Z.abs (N - fmag M x * D) = Z.abs (N - fmag M y * D) ->
    (forall p, 0 <= p <= top -> p <> x -> Z.abs (N - fmag M x * D) < Z.abs (N - fmag M p * D) \/
       Z.abs (N - fmag M x * D) = Z.abs (N - fmag M p * D) /\ Z.even x = true) -> False) as Hw.
  { intros x y Hx Hy Hxy Ex Ey Exy Hp.
    assert (x + 1 <> y) by (intros <-; rewrite Z.even_add, Ex in Ey; done).
    pose proof (fmag_mono x (x + 1)). pose proof (fmag_mono (x + 1) y).
    pose proof (Hp (x + 1) ltac:(lia) ltac:(lia)). nia. }
  destruct (Z.lt_total r1 r2) as [?|[?|?]]; [|done|].
  - apply (Hw r1 r2); auto.
  - apply (Hw r2 r1); auto.
Qed.

Lemma nearest_even_nearest N D r : nearest_even M top N D r -> nearest M top N D r.
Proof.
  intros [Hr H]. split; [done|]. intros p Hp.
  destruct (Z.eq_dec p r) as [->|]; [lia|]. destruct (H p); lia.
Qed.

(** Only the ratio matters. *)
Lemma nearest_even_ratio N D N' D' r : 0 < D -> 0 < D' -> N * D' = N' * D ->
  nearest_even M top N D r -> nearest_even M top N' D' r.
Proof.
  intros HD HD' E [Hr H]. split; [done|]. intros p Hp Hne.
  specialize (H p Hp Hne).
  assert (forall x, Z.abs (N' - x * D') * D = Z.abs (N - x * D) * D') as S.
  { intros x. rewrite <- (Z.abs_eq D) at 1 by lia. rewrite <- (Z.abs_eq D') at 2 by lia.
    rewrite <- !Z.abs_mul. f_equal. lia. }
  pose proof (S (fmag M r)). pose proof (S (fmag M p)).
  destruct H as [H|[H He]]; [left; nia|right; split; [nia|done]].
Qed.

(** Round at a known pattern: [p0] starts the interval holding [N / D]. *)
Lemma nearest_even_round N D E q (up : bool) :
  0 < D -> 0 <= E -> 0 <= q < 2 ^ (M + 1) -> E = 0 \/ 2 ^ M <= q ->
  q * 2 ^ E * D <= N < (q + 1) * 2 ^ E * D ->
  (if up then (2 * q + 1) * 2 ^ E * D <= 2 * N else 2 * N <= (2 * q + 1) * 2 ^ E * D) ->
  (2 * N = (2 * q + 1) * 2 ^ E * D -> up = Z.odd q) ->
  nearest_even M top N D (Z.min (E * 2 ^ M + q + b2z up) top).
Proof using HM Htop.
  intros HD HE Hq Hn HN Hup Htie.
  destruct (fmag_step E q HE Hq Hn) as [F0 F1].
  pose proof pow2M_pos as HP. pose proof (pow2_pos E HE) as HPE.
  set (p0 := E * 2 ^ M + q) in *.
  assert (Z.even p0 = Z.even q) as Hev.
  { subst p0. rewrite Z.even_add, Z.even_mul, Z.even_pow by lia.
    change (Z.even 2) with true. rewrite orb_true_r. by destruct (Z.even q). }
  assert (0 <= p0) by nia.
  destruct (Z.leb_spec top p0) as [Hge|Hlt].
  - replace (Z.min (p0 + b2z up) top) with top by (destruct up; cbn [b2z]; lia).
    split; [lia|]. intros p Hp Hne. left.
    pose proof (fmag_mono_le top p0 ltac:(lia) ltac:(lia)).
    pose proof (fmag_mono p top ltac:(lia) ltac:(lia)). nia.
  - replace (Z.min (p0 + b2z up) top) with (p0 + b2z up) by (destruct up; cbn [b2z]; lia).
    split; [destruct up; cbn [b2z]; lia|]. intros p Hp Hne.
    assert (p < p0 \/ p = p0 \/ p = p0 + 1 \/ p0 + 1 < p) as C by lia.
    destruct up; cbn [b2z] in *.
    + destruct C as [C|[->|[C|C]]]; [left| |lia|left].
      * pose proof (fmag_mono p p0). nia.
      * rewrite F0, F1. destruct (Z.eq_dec (2 * N) ((2 * q + 1) * 2 ^ E * D)) as [T|]; [right|left; nia].
        split; [nia|]. rewrite Z.even_add, Hev. specialize (Htie T).
        rewrite <- Z.negb_odd, <- Htie. done.
      * pose proof (fmag_mono (p0 + 1) p). nia.
    + rewrite Z.add_0_r in *. destruct C as [C|[C|[->|C]]]; [left|lia| |left].
      * pose proof (fmag_mono p p0). nia.
      * rewrite F0, F1. destruct (Z.eq_dec (2 * N) ((2 * q + 1) * 2 ^ E * D)) as [T|]; [right|left; nia].
        split; [nia|]. rewrite Hev. specialize (Htie T). rewrite <- Z.negb_odd, <- Htie. done.
      * pose proof (fmag_mono (p0 + 1) p). nia.
Qed.

(** A pattern much closer to [N / D] than its own spacing is nearest. *)
Lemma nearest_even_close N D r : 0 < D -> 0 < r < top ->
  2 * Z.abs (N - fmag M r * D) < (fmag M r - fmag M (r - 1)) * D ->
  2 * Z.abs (N - fmag M r * D) < (fmag M (r + 1) - fmag M r) * D ->
  nearest_even M top N D r.
Proof using HM.
  intros HD Hr H1 H2. split; [lia|]. intros p Hp Hne. left.
  destruct (Z.lt_total p r) as [C|[C|C]]; [|done|].
  - pose proof (fmag_mono_le p (r - 1)). nia.
  - pose proof (fmag_mono_le (r + 1) p). nia.
Qed.

Lemma nearest_even_exact N D r : 0 < D -> 0 <= r <= top -> N = fmag M r * D ->
  nearest_even M top N D r.
Proof using HM.
  intros HD Hr ->. split; [done|]. intros p Hp Hne. left.
  rewrite Z.sub_diag. change (Z.abs 0) with 0.
  assert (fmag M p <> fmag M r) by (intros E; apply Hne, fmag_inj; lia). nia.
Qed.
End format.

(** ** Guard and sticky bits *)

Lemma gs_exact q Y : 0 < Y -> gs (q * Y) Y q false false.
Proof.
  intros HY. exists 0. destruct (Z.leb_spec Y (2 * 0)); [lia|]. repeat split; lia || done.
Qed.

Lemma gs_scale c X Y q g s : 0 < c -> gs X Y q g s -> gs (c * X) (c * Y) q g s.
Proof.
  intros Hc (R & -> & HR & -> & ->). exists (c * R).
  assert ((c * Y <=? 2 * (c * R)) = (Y <=? 2 * R)) as ->
    by (destruct (Z.leb_spec Y (2 * R)), (Z.leb_spec (c * Y) (2 * (c * R))); nia || done).
  split; [ring|]. split; [nia|]. split; [done|]. f_equal.
  destruct (Z.leb_spec Y (2 * R)).
  - destruct (Z.eqb_spec (2 * R) Y), (Z.eqb_spec (2 * (c * R)) (c * Y)); nia || done.
  - destruct (Z.eqb_spec (2 * R) 0), (Z.eqb_spec (2 * (c * R)) 0); nia || done.
Qed.

(** Nothing below the guard bit is lost by the pair. *)
Lemma gs_inexact X Y q g s : gs X Y q g s -> g || s = negb (X =? q * Y).
Proof.
  intros (R & -> & HR & -> & ->).
  destruct (Z.leb_spec Y (2 * R)); cbn [orb].
  - destruct (Z.eqb_spec (q * Y + R) (q * Y)); lia || done.
  - destruct (Z.eqb_spec (2 * R) 0), (Z.eqb_spec (q * Y + R) (q * Y)); lia || done.
Qed.

(** Dropping [n] low bits of the quotient: the last bit dropped is the new
    guard, everything else goes to sticky. *)
Lemma gs_shiftr X Y q g s n : 0 < Y -> 0 <= q -> 1 <= n -> gs X Y q g s ->
  gs X (Y * 2 ^ n) (q / 2 ^ n) (Z.testbit q (n - 1))
     (g || s || negb (q mod 2 ^ (n - 1) =? 0)).
Proof.
  intros HY Hq Hn H. pose proof (gs_inexact _ _ _ _ _ H) as ->.
  destruct H as (R & -> & HR & _ & _).
  set (P := 2 ^ (n - 1)). assert (0 < P) by (apply pow2_pos; lia).
  assert (2 ^ n = 2 * P) as E by (unfold P; rewrite <- Z.pow_succ_r by lia; f_equal; lia).
  rewrite E.
  pose proof (Z.div_mod q P ltac:(lia)) as D1. pose proof (Z.mod_pos_bound q P ltac:(lia)).
  pose proof (Z.div_mod (q / P) 2 ltac:(lia)) as D2.
  pose proof (Z.mod_pos_bound (q / P) 2 ltac:(lia)).
  assert (Z.testbit q (n - 1) = negb ((q / P) mod 2 =? 0)) as ->.
  { rewrite Z.testbit_odd, shiftr_div by lia. fold P. rewrite Zmod_odd.
    by destruct (Z.odd (q / P)). }
  rewrite (Z.mul_comm 2 P), <- Z.div_div by lia.
  set (b := (q / P) mod 2) in *. set (h := q / P / 2) in *. set (l := q mod P) in *.
  assert (q = P * (2 * h + b) + l) as Hq' by lia. clearbody b h l. clear D1 D2.
  exists ((P * b + l) * Y + R). split; [rewrite Hq'; ring|].
  assert (b = 0 \/ b = 1) as [->| ->] by lia.
  - split; [nia|]. destruct (Z.eqb_spec 0 0); [|done]. cbn [negb].
    destruct (Z.leb_spec (Y * (P * 2)) (2 * ((P * 0 + l) * Y + R))); [nia|]. split; [done|].
    destruct (Z.eqb_spec (q * Y + R) (q * Y)), (Z.eqb_spec l 0),
      (Z.eqb_spec (2 * ((P * 0 + l) * Y + R)) 0); cbn; try done; nia.
  - split; [nia|]. destruct (Z.eqb_spec 1 0); [lia|]. cbn [negb].
    destruct (Z.leb_spec (Y * (P * 2)) (2 * ((P * 1 + l) * Y + R))); [|nia]. split; [done|].
    destruct (Z.eqb_spec (q * Y + R) (q * Y)), (Z.eqb_spec l 0),
      (Z.eqb_spec (2 * ((P * 1 + l) * Y + R)) (Y * (P * 2))); cbn; try done; nia.
Qed.

(** The rounding decision of the code: guard, and sticky or odd. *)
Lemma gs_round M top X Y q g s E : 0 < M -> 0 <= top -> 0 < Y -> 0 <= E ->
  0 <= q < 2 ^ (M + 1) -> E = 0 \/ 2 ^ M <= q -> gs X Y q g s ->
  nearest_even M top (X * 2 ^ E) Y (Z.min (E * 2 ^ M + q + b2z (g && (s || Z.odd q))) top).
Proof.
  intros HM Ht HY HE Hq Hn (R & -> & HR & -> & ->). pose proof (pow2_pos E HE).
  apply nearest_even_round; try done.
  - split; nia.
  - destruct (Z.leb_spec Y (2 * R)); cbn [andb]; [|nia].
    destruct (Z.eqb_spec (2 * R) Y); cbn [negb orb]; [|nia].
    destruct (Z.odd q); nia.
  - intros T. assert (2 * R = Y) by nia. destruct (Z.leb_spec Y (2 * R)); [|lia].
    destruct (Z.eqb_spec (2 * R) Y); [|lia]. done.
Qed.
