(* ===== verification/SoftFloat.v ===== *)
(** * Binary64 soft-float runtime: [lib/compiler_rt_softfloat.c]

    A [double] is its 64-bit pattern, an unsigned [Z]; C's int flags are
    [bool].  Loops carry fuel, so the operations return [option]; [None] also
    stands for a shift by a negative count. *)

From S2P Require Import Prelude.

Definition D_SIGN : Z := 0x8000000000000000.
Definition D_EXP : Z := 0x7FF0000000000000.
Definition D_FRAC : Z := 0x000FFFFFFFFFFFFF.
Definition D_IMPL : Z := 0x0010000000000000.
Definition D_QUIET : Z := 0x0008000000000000.
Definition D_BIAS : Z := 1023.

(** [(dbits)sign << 63] *)
Definition sign_bit (sign : Z) : Z := u64 (Z.shiftl sign 63).

(** ** Compares *)

Definition df_is_nan (x : Z) : bool :=
  let hi := u32 (Z.shiftr x 32) in
  if negb (Z.land hi 0x7FF00000 =? 0x7FF00000) then false
  else truthy (Z.land hi 0x000FFFFF) || truthy (u32 x).

Definition df_cmp3way (ua ub nan_result : Z) : Z :=
  if df_is_nan ua || df_is_nan ub then nan_result
  else
    let ua := if u64 (Z.shiftl ua 1) =? 0 then 0 else ua in
    let ub := if u64 (Z.shiftl ub 1) =? 0 then 0 else ub in
    let ka := if truthy (Z.shiftr ua 63) then unot 64 ua else Z.lxor ua D_SIGN in
    let kb := if truthy (Z.shiftr ub 63) then unot 64 ub else Z.lxor ub D_SIGN in
    if ka <? kb then -1 else if kb <? ka then 1 else 0.

Definition __eqdf2 (a b : Z) : Z := df_cmp3way a b 1.
Definition __nedf2 (a b : Z) : Z := df_cmp3way a b 1.
Definition __ltdf2 (a b : Z) : Z := df_cmp3way a b 1.
Definition __ledf2 (a b : Z) : Z := df_cmp3way a b 1.
Definition __gtdf2 (a b : Z) : Z := df_cmp3way a b (-1).
Definition __gedf2 (a b : Z) : Z := df_cmp3way a b (-1).
Definition __unorddf2 (a b : Z) : Z := b2z (df_is_nan a || df_is_nan b).

(** ** Unpacking *)

(** What [df_unpack] returns and stores: the zero flag, sign, exponent and
    significand. *)
Record unpacked : Type := Unpacked {
  up_zero : bool;
  up_sign : Z;
  up_exp : Z;
  up_sig : Z
}.

(** The normalisation loop of a subnormal: [(m, k)]. *)
Definition subnormal_round (s : Z * Z) : step (Z * Z) (Z * Z) :=
  let '(m, k) := s in
  if Z.land m D_IMPL =? 0 then Next (u64 (Z.shiftl m 1), k + 1) else Done (m, k).

Definition df_unpack (x : Z) : option unpacked :=
  let sign := u32 (Z.shiftr x 63) in
  let f := Z.land (Z.shiftr x 52) 0x7FF in
  let m := Z.land x D_FRAC in
  if f =? 0x7FF then Some (Unpacked false sign 0x7FFF m)
  else if f =? 0 then
    if m =? 0 then Some (Unpacked true sign 0 0)
    else
      '(m, k) ← loop 64 subnormal_round (m, 0);
      Some (Unpacked false sign (-1074 - k) m)
  else Some (Unpacked false sign (f - 1075) (Z.lor m D_IMPL)).

(** ** Rounding and packing *)

Definition df_pack (sign e q : Z) (g s : bool) : Z :=
  let was_subnormal := e <? -1074 in
  let shift := -1074 - e in
  if was_subnormal && (54 <? shift) then sign_bit sign
  else
    let '(e, q, g, s) :=
      if was_subnormal then
        let ng := truthy (Z.land (Z.shiftr q (shift - 1)) 1) in
        let mask := u64 (Z.shiftl 1 (shift - 1)) - 1 in
        let s := s || (g || truthy (Z.land q mask)) in
        (e + shift, Z.shiftr q shift, ng, s)
      else (e, q, g, s) in
    let '(e, q) :=
      if g && (s || truthy (Z.land q 1)) then
        let q := u64 (q + 1) in
        if q =? u64 (Z.shiftl D_IMPL 1) then (e + 1, Z.shiftr q 1) else (e, q)
      else (e, q) in
    if 971 <? e then Z.lor (sign_bit sign) D_EXP
    else if was_subnormal then
      if q =? 0 then sign_bit sign
      else if q =? D_IMPL then Z.lor (sign_bit sign) D_IMPL
      else Z.lor (sign_bit sign) q
    else
      Z.lor (Z.lor (sign_bit sign) (u64 (Z.shiftl (u64 (e + 1075)) 52))) (Z.land q D_FRAC).

(** One of the 64 rounds of [df_umul128]: [(h, l, b)]. *)
Definition umul128_round (a : Z) (s : Z * Z * Z) : Z * Z * Z :=
  let '(h, l, b) := s in
  let nh := Z.lor (u64 (Z.shiftl h 1)) (Z.shiftr l 63) in
  let nl := u64 (Z.shiftl l 1) in
  let '(h, l) :=
    if truthy (Z.land (Z.shiftr b 63) 1) then
      let l := u64 (nl + a) in
      (if l <? nl then u64 (nh + 1) else nh, l)
    else (nh, nl) in
  (h, l, u64 (Z.shiftl b 1)).

(** The high and low words of the product. *)
Definition df_umul128 (a b : Z) : Z * Z :=
  let '(h, l, _) := nfold 64 (fun _ => umul128_round a) (0, 0, b) in (h, l).

Definition msb_round (s : Z * Z) : step (Z * Z) Z :=
  let '(v, t) := s in
  if v =? 0 then Done t else Next (Z.shiftr v 1, t + 1).

Definition df_msb (v : Z) : option Z := loop 65 msb_round (v, -1).

Definition df_norm_pack128 (sign whi wlo e : Z) (s_extra : bool) : option Z :=
  tp ← (if truthy whi then (t ← df_msb whi; Some (t + 64)) else df_msb wlo);
  if tp <? 0 then
    Some (if s_extra then Z.lor (sign_bit sign) 1 else sign_bit sign)
  else
    let cut := tp - 52 in
    if 64 <=? cut then
      let sh2 := cut - 64 in
      if sh2 - 1 <? 0 then None
      else
        let w := Z.shiftr whi sh2 in
        let g := truthy (Z.land (Z.shiftr whi (sh2 - 1)) 1) in
        let s := s_extra || (truthy (Z.land whi (u64 (Z.shiftl 1 (sh2 - 1)) - 1)) || truthy wlo) in
        Some (df_pack sign (e + cut) w g s)
    else if 0 <? cut then
      let w := Z.lor (Z.shiftr wlo cut)
                 (u64 (Z.shiftl (Z.land whi (u64 (Z.shiftl 1 cut) - 1)) (64 - cut))) in
      let g := truthy (Z.land (Z.shiftr wlo (cut - 1)) 1) in
      let s := s_extra || truthy (Z.land wlo (u64 (Z.shiftl 1 (cut - 1)) - 1)) in
      Some (df_pack sign (e + cut) w g s)
    else
      let w := u64 (Z.shiftl wlo (- cut)) in
      Some (df_pack sign (e + cut) w false s_extra).

Definition df_norm_pack (sign w e : Z) (g s : bool) : option Z :=
  t ← df_msb w;
  if t <? 0 then Some (sign_bit sign)
  else
    let '(w, e, g, s) :=
      if t <? 52 then (u64 (Z.shiftl w (52 - t)), e - (52 - t), g, s)
      else if 52 <? t then
        let sh := t - 52 in
        let mask := if 64 <=? sh then unot 64 0 else u64 (Z.shiftl 1 (sh - 1)) - 1 in
        let ng := truthy (Z.land (Z.shiftr w (sh - 1)) 1) in
        let s := s || (g || truthy (Z.land w mask)) in
        (Z.shiftr w sh, e + sh, ng, s)
      else (w, e, g, s) in
    Some (df_pack sign e (Z.land w (Z.lor D_FRAC D_IMPL)) g s).

(** ** Arithmetic *)

(** [__adddf3] after the special cases, with [|a| >= |b|]: align, add or
    subtract in a 64-bit frame with a carry word, renormalise. *)
Definition add_aligned (sa ma sb mb ea align : Z) : option Z :=
  let ga := u64 (Z.shiftl ma 6) in
  let bl := u64 (Z.shiftl mb 6) in
  let '(bl, s_extra) :=
    if 64 <=? align then (0, truthy bl)
    else if 0 <? align then
      (Z.shiftr bl align, truthy (Z.land bl (u64 (Z.shiftl 1 align) - 1)))
    else (bl, false) in
  let '(th, tl, res_zero) :=
    if sa =? sb then
      let tl := u64 (ga + bl) in
      (if tl <? ga then 1 else 0, tl, false)
    else
      let res_zero := ga <? bl in
      let tl := u64 (ga - bl) in
      if s_extra && truthy tl then (0, tl - 1, res_zero)
      else if tl =? 0 then (0, tl, true)
      else (0, tl, res_zero) in
  if res_zero then Some 0
  else df_norm_pack128 sa th tl (ea - 6) s_extra.

Definition __adddf3 (a b : Z) : option Z :=
  ua ← df_unpack a;
  ub ← df_unpack b;
  let '(Unpacked az sa ea ma) := ua in
  let '(Unpacked bz sb eb mb) := ub in
  if ea =? 0x7FFF then
    if truthy ma then Some (Z.lor a D_QUIET)
    else if (eb =? 0x7FFF) && negb (sb =? sa) then Some (Z.lor D_EXP D_QUIET)
    else Some a
  else if eb =? 0x7FFF then
    if truthy mb then Some (Z.lor b D_QUIET) else Some b
  else if az then
    if bz then Some (sign_bit (Z.land sa sb)) else Some b
  else if bz then Some a
  else
    let swapped := (ea <? eb) || ((ea =? eb) && (ma <? mb)) in
    let '(sa, sb, ea, eb, ma, mb) :=
      if swapped then (sb, sa, eb, ea, mb, ma) else (sa, sb, ea, eb, ma, mb) in
    let align := ea - eb in
    if 122 <? align then Some (if swapped then b else a)
    else add_aligned sa ma sb mb ea align.

Definition __subdf3 (a b : Z) : option Z := __adddf3 a (Z.lxor b D_SIGN).

Definition __muldf3 (a b : Z) : option Z :=
  ua ← df_unpack a;
  ub ← df_unpack b;
  let '(Unpacked az sa ea ma) := ua in
  let '(Unpacked bz sb eb mb) := ub in
  let rs := Z.lxor sa sb in
  if (ea =? 0x7FFF) || (eb =? 0x7FFF) then
    if ((ea =? 0x7FFF) && truthy ma) || ((eb =? 0x7FFF) && truthy mb) then
      Some (Z.lor D_EXP D_QUIET)
    else if ((ea =? 0x7FFF) && bz) || ((eb =? 0x7FFF) && az) then
      Some (Z.lor D_EXP D_QUIET)
    else Some (Z.lor (sign_bit rs) D_EXP)
  else if az || bz then Some (sign_bit rs)
  else
    let '(hi, lo) := df_umul128 ma mb in
    df_norm_pack128 rs hi lo (ea + eb) false.

(** The restoring division of the significands: round [i] of the loop
    counting down from 53, on [(q, r)]. *)
Definition div_round (mb : Z) (i : Z) (s : Z * Z) : Z * Z :=
  let '(q, r) := s in
  let r := u64 (Z.shiftl r 1) in
  if mb <=? r then (Z.lor q (u64 (Z.shiftl 1 (53 - i))), r - mb) else (q, r).

Definition df_divide (ma mb : Z) : Z * Z :=
  let '(q, r) := if mb <=? ma then (u64 (Z.shiftl 1 54), ma - mb) else (0, ma) in
  nfold 54 (div_round mb) (q, r).

Definition __divdf3 (a b : Z) : option Z :=
  ua ← df_unpack a;
  ub ← df_unpack b;
  let '(Unpacked az sa ea ma) := ua in
  let '(Unpacked bz sb eb mb) := ub in
  let rs := Z.lxor sa sb in
  if (ea =? 0x7FFF) || (eb =? 0x7FFF) then
    if ((ea =? 0x7FFF) && truthy ma) || ((eb =? 0x7FFF) && truthy mb) then
      Some (Z.lor D_EXP D_QUIET)
    else if ea =? 0x7FFF then
      if eb =? 0x7FFF then Some (Z.lor D_EXP D_QUIET)
      else Some (Z.lor (sign_bit rs) D_EXP)
    else if negb bz then Some (sign_bit rs)
    else Some (Z.lor D_EXP D_QUIET)
  else if bz then
    if az then Some (Z.lor D_EXP D_QUIET) else Some (Z.lor (sign_bit rs) D_EXP)
  else if az then Some (sign_bit rs)
  else
    let '(q, r) := df_divide ma mb in
    df_norm_pack rs q (ea - eb - 54) false (truthy r).

(** ** Conversions *)

(** The normalisation loop of a subnormal [float]: [(frac, shift)]. *)
Definition f32_subnormal_round (s : Z * Z) : step (Z * Z) (Z * Z) :=
  let '(frac, shift) := s in
  if Z.land frac 0x00800000 =? 0 then Next (u32 (Z.shiftl frac 1), shift + 1)
  else Done (frac, shift).

Definition __extendsfdf2 (a : Z) : option Z :=
  let sign := Z.land a 0x80000000 in
  let exp := Z.land (Z.shiftr a 23) 0xFF in
  let frac := Z.land a 0x007FFFFF in
  let r_sign := u64 (Z.shiftl sign 32) in
  if exp =? 0xFF then
    if frac =? 0 then Some (Z.lor r_sign D_EXP)
    else Some (Z.lor (Z.lor (Z.lor r_sign D_EXP) (u64 (Z.shiftl frac 29))) D_QUIET)
  else if (exp =? 0) && (frac =? 0) then Some r_sign
  else if exp =? 0 then
    '(frac, shift) ← loop 32 f32_subnormal_round (frac, 0);
    let frac := Z.land frac 0x007FFFFF in
    let dexp := -126 - shift + 1023 in
    let m := u64 (Z.shiftl frac 29) in
    Some (Z.lor (Z.lor r_sign (u64 (Z.shiftl (u64 dexp) 52))) m)
  else
    let dexp := u32 (exp + (1023 - 127)) in
    let m := u64 (Z.shiftl frac 29) in
    Some (Z.lor (Z.lor r_sign (u64 (Z.shiftl dexp 52))) m).

(** The extra right shift of a subnormal [float] result, once per missing
    exponent step: [(q24, g, s)]. *)
Definition trunc_shift (st : Z * bool * bool) : Z * bool * bool :=
  let '(q24, g, s) := st in
  (Z.shiftr q24 1, truthy (Z.land q24 1), s || g).

(** The normalisation loop of a subnormal [double] operand: [(q53, re)]. *)
Definition trunc_norm_round (s : Z * Z) : step (Z * Z) (Z * Z) :=
  let '(q53, re) := s in
  if Z.land q53 D_IMPL =? 0 then Next (u64 (Z.shiftl q53 1), re - 1) else Done (q53, re).

(** The rounding and encoding part of [__truncdfsf2]: the significand
    [q53], with its exponent [re] and its top bit [t]. *)
Definition trunc_round (sign q53 re t : Z) : Z :=
  let sh := t - 23 in
  let mask := if 64 <=? sh then unot 64 0 else u64 (Z.shiftl 1 sh) - 1 in
  let g := truthy (Z.land (Z.shiftr q53 (sh - 1)) 1) in
  let s := truthy (Z.land q53 mask) in
  let q24 := Z.shiftr q53 sh in
  let fe := re + sh - 29 in
  let '(q24, g, s, fe, subnormal_out) :=
    if fe <? -126 then
      let extra := -126 - fe in
      let '(q24, g, s) := nfold (Z.to_nat extra) (fun _ => trunc_shift) (q24, g, s) in
      (q24, g, s, -126, true)
    else (q24, g, s, fe, false) in
  let '(q24, fe, subnormal_out) :=
    if g && (s || truthy (Z.land q24 1)) then
      let q24 := u64 (q24 + 1) in
      if q24 =? u64 (Z.shiftl 1 24) then
        let q24 := Z.shiftr q24 1 in
        if subnormal_out : bool then (q24, -126, false) else (q24, fe + 1, subnormal_out)
      else (q24, fe, subnormal_out)
    else (q24, fe, subnormal_out) in
  if 127 <? fe then Z.lor sign 0x7F800000
  else if subnormal_out then
    if q24 =? 0 then sign else Z.lor sign (u32 q24)
  else if q24 =? 0 then sign
  else
    let fexp := u32 (fe + 127) in
    Z.lor (Z.lor sign (u32 (Z.shiftl fexp 23))) (u32 (Z.land q24 0x007FFFFF)).

Definition __truncdfsf2 (a : Z) : option Z :=
  let sign := Z.land (u32 (Z.shiftr a 32)) 0x80000000 in
  let e := Z.land (Z.shiftr a 52) 0x7FF in
  let m := Z.land a D_FRAC in
  if e =? 0x7FF then
    if m =? 0 then Some (Z.lor sign 0x7F800000)
    else
      let keep := u32 (Z.land (Z.shiftr (Z.lor m (Z.shiftr a 32)) 21) 0x003FFFFF) in
      Some (Z.lor (Z.lor sign 0x7FC00000) (if truthy keep then keep else 0x400000))
  else if (e =? 0) && (m =? 0) then Some sign
  else
    '(q53, re) ← (if e =? 0 then loop 64 trunc_norm_round (m, 1 - D_BIAS)
                  else Some (Z.lor m D_IMPL, e - D_BIAS));
    t ← df_msb q53;
    Some (trunc_round sign q53 re t).

Definition df_from_mag (mag sign : Z) : option Z :=
  if mag =? 0 then Some (sign_bit sign)
  else
    tm ← df_msb mag;
    let q := u64 (Z.shiftl mag (52 - tm)) in
    Some (Z.lor (Z.lor (sign_bit sign) (u64 (Z.shiftl (u64 (tm + D_BIAS)) 52))) (Z.land q D_FRAC)).

(** [v] is a signed [int]. *)
Definition __floatsidf (v : Z) : option Z :=
  if v <? 0 then
    let mag := u64 (u64 (- (v + 1)) + 1) in
    df_from_mag mag 1
  else df_from_mag (u64 v) 0.

Definition __floatunsidf (v : Z) : option Z := df_from_mag v 0.

(** The result is a signed [int]. *)
Definition df_to_i (a : Z) (is_signed : bool) : Z :=
  let saturated := if is_signed then s32 0x80000000 else 0x7FFFFFFF in
  let sign := u32 (Z.shiftr a 63) in
  let e := Z.land (Z.shiftr a 52) 0x7FF in
  let m := Z.land a D_FRAC in
  if e =? 0x7FF then saturated
  else if e =? 0 then 0
  else
    let q := Z.lor m D_IMPL in
    let re := e - D_BIAS in
    if re <? 0 then 0
    else
      let sh2 := re - 52 in
      if (52 <? re) && ((32 <=? sh2) || truthy (Z.shiftr (u64 (Z.shiftl q sh2)) 32))
      then saturated
      else
        let ip := if re <=? 52 then Z.shiftr q (52 - re) else u64 (Z.shiftl q sh2) in
        if is_signed then
          if truthy sign then
            if 0x80000000 <? ip then s32 0x80000000 else s32 (- ip)
          else if 0x7FFFFFFF <? ip then 0x7FFFFFFF else s32 ip
        else if truthy sign || (0xFFFFFFFF <? ip) then saturated
        else s32 ip.

Definition __fixdfsi (a : Z) : Z := df_to_i a true.
Definition __fixunsdfsi (a : Z) : Z := u32 (df_to_i a false).
