(* ===== verification/SoftFloatCorrect.v ===== *)
(** * Correctness of the soft-float runtime

    The operations of [SoftFloat] against the exact-value specification of
    [FloatSpec]: unpacking and packing, then the arithmetic, the compares and
    the conversions. *)

From S2P Require Import Prelude FloatSpec SoftFloat.

Lemma M52 : 0 < 52.
Proof. done. Qed.

Lemma DINF_pos : 0 <= DINF.
Proof. done. Qed.

#[local] Hint Resolve M52 DINF_pos : core.

(** ** Fields of a pattern *)

Lemma df_frac x : Z.land x D_FRAC = x mod 2 ^ 52.
Proof. change D_FRAC with (2 ^ 52 - 1). by apply land_mask. Qed.

Lemma df_field x : Z.land (Z.shiftr x 52) 0x7FF = (x / 2 ^ 52) mod 2 ^ 11.
Proof. change 0x7FF with (2 ^ 11 - 1). by rewrite land_mask, shiftr_div. Qed.

Lemma df_signw x : 0 <= x < 2 ^ 64 -> u32 (Z.shiftr x 63) = x / 2 ^ 63.
Proof.
  intros Hx. rewrite shiftr_div by lia. apply u32_small.
  split; [apply Z.div_pos; lia|apply Z.div_lt_upper_bound; lia].
Qed.

Lemma sign_cases x : 0 <= x < 2 ^ 64 -> x / 2 ^ 63 = b2z (dneg x).
Proof.
  intros Hx. unfold dneg. rewrite Z.testbit_odd, shiftr_div by lia.
  assert (0 <= x / 2 ^ 63 < 2) as H.
  { split; [apply Z.div_pos; lia|apply Z.div_lt_upper_bound; lia]. }
  assert (x / 2 ^ 63 = 0 \/ x / 2 ^ 63 = 1) as [->| ->] by lia; done.
Qed.

Lemma pattern_eq x : 0 <= x < 2 ^ 64 -> x = b2z (dneg x) * 2 ^ 63 + x mod 2 ^ 63.
Proof. intros Hx. rewrite <- sign_cases by done. pose proof (Z.div_mod x (2 ^ 63)). lia. Qed.

Lemma sign_bit_spec b : sign_bit (b2z b) = b2z b * 2 ^ 63.
Proof. by destruct b. Qed.

Lemma lor_sign b r : 0 <= r < 2 ^ 63 -> Z.lor (sign_bit (b2z b)) r = b2z b * 2 ^ 63 + r.
Proof. intros. rewrite sign_bit_spec. apply lor_add_disjoint'; lia. Qed.

Lemma join_sign b r : 0 <= r < 2 ^ 63 ->
  0 <= b2z b * 2 ^ 63 + r < 2 ^ 64 /\ (b2z b * 2 ^ 63 + r) mod 2 ^ 63 = r /\
  dneg (b2z b * 2 ^ 63 + r) = b.
Proof.
  intros Hr. assert (0 <= b2z b * 2 ^ 63 + r < 2 ^ 64) as H by (destruct b; cbn [b2z]; lia).
  split; [done|]. split.
  - symmetry. apply Z.mod_unique with (b2z b); lia.
  - pose proof (sign_cases _ H) as E.
    rewrite <- (Z.div_unique (b2z b * 2 ^ 63 + r) (2 ^ 63) (b2z b) r) in E by lia.
    by destruct b, (dneg _).
Qed.

(** The exponent field and fraction of the magnitude. *)
Lemma fields_mod63 x : 0 <= x < 2 ^ 64 ->
  (x / 2 ^ 52) mod 2 ^ 11 = x mod 2 ^ 63 / 2 ^ 52 /\ x mod 2 ^ 52 = (x mod 2 ^ 63) mod 2 ^ 52.
Proof.
  intros Hx. split.
  - change (2 ^ 63) with (2 ^ 52 * 2 ^ 11). rewrite Z.rem_mul_r by lia.
    rewrite Z.add_comm, Z.mul_comm, Z.div_add_l by lia.
    rewrite (Z.div_small (x mod 2 ^ 52)) by (apply Z.mod_pos_bound; lia). lia.
  - change (2 ^ 63) with (2 ^ 52 * 2 ^ 11). rewrite Z.rem_mul_r by lia.
    rewrite Z.mul_comm, Z_mod_plus_full, Z.mod_mod by lia. done.
Qed.

(** ** The most significant bit *)

Lemma df_msb_spec v : 0 <= v < 2 ^ 64 ->
  df_msb v = Some (if v =? 0 then -1 else Z.log2 v).
Proof.
  intros Hv. unfold df_msb.
  edestruct (loop_total msb_round
     (fun s => 0 <= fst s /\ snd s + bitlen (fst s) = bitlen v - 1)
     (fun r => r = bitlen v - 1) (fun s => bitlen (fst s)))
    with (fuel := 65%nat) (s := (v, -1)) as (r & -> & ->); cbn [fst snd].
  - intros [w t] [Hw E]. cbn [fst snd msb_round] in *. destruct (Z.eqb_spec w 0) as [->|Hne].
    + change (bitlen 0) with 0 in E. lia.
    + rewrite shiftr_div by lia. change (2 ^ 1) with 2. cbn [fst snd].
      pose proof (bitlen_nonneg (w / 2)). rewrite bitlen_half in * by lia.
      assert (0 <= w / 2) by (apply Z.div_pos; lia). lia.
  - lia.
  - pose proof (bitlen_bound v 64). lia.
  - apply bitlen_nonneg.
  - unfold bitlen. destruct (Z.eqb_spec v 0); [done|]. f_equal. lia.
Qed.

(** ** Unpacking *)

(** The test of the implicit bit in a word no wider than it. *)
Lemma top_bit_test w n : 0 <= n -> 0 <= w < 2 ^ (n + 1) -> (Z.land w (2 ^ n) =? 0) = (w <? 2 ^ n).
Proof.
  intros Hn Hw. rewrite Z.pow_add_r in Hw by lia. change (2 ^ 1) with 2 in Hw.
  pose proof (truthy_land_bit w n Hn) as T. pose proof (pow2_pos n Hn).
  unfold truthy in T. destruct (Z.land w (2 ^ n) =? 0); cbn [negb] in T.
  - destruct (Z.ltb_spec w (2 ^ n)); [done|exfalso].
    rewrite Z.testbit_odd, shiftr_div in T by lia.
    replace (w / 2 ^ n) with 1 in T by (apply Z.div_unique with (w - 2 ^ n); lia). done.
  - destruct (Z.ltb_spec w (2 ^ n)); [|done]. by rewrite (testbit_high w n) in T by lia.
Qed.

(** The normalisation loops: shift left until the implicit bit [n] is set,
    counting the shifts by [d]. *)
Lemma norm_loop f n d fuel m k0 :
  (forall w k, 0 < w < 2 ^ (n + 1) ->
     f (w, k) = if w <? 2 ^ n then Next (w * 2, k + d) else Done (w, k)) ->
  0 <= n < Z.of_nat fuel -> 0 < m < 2 ^ n ->
  exists m' j, loop fuel f (m, k0) = Some (m', k0 + d * j) /\
    2 ^ n <= m' < 2 ^ (n + 1) /\ 0 <= j <= n /\ m' = m * 2 ^ j.
Proof.
  intros Hf Hn Hm.
  assert (2 ^ (n + 1) = 2 * 2 ^ n) as Ep by (rewrite Z.pow_add_r by lia; change (2 ^ 1) with 2; lia).
  destruct (loop_total f
     (fun s => exists j, fst s = m * 2 ^ j /\ snd s = k0 + d * j /\ 0 < fst s < 2 ^ (n + 1) /\ 0 <= j <= n)
     (fun s => exists j, fst s = m * 2 ^ j /\ snd s = k0 + d * j /\ 2 ^ n <= fst s < 2 ^ (n + 1) /\ 0 <= j <= n)
     (fun s => n - Z.log2 (fst s)))
    with (fuel := fuel) (s := (m, k0)) as ([m' k] & E & Hp).
  - intros [w k] (j & E & Ek & Hw & Hj). cbn [fst snd] in *. rewrite Hf by done.
    destruct (Z.ltb_spec w (2 ^ n)); [|exists j; cbn [fst snd]; lia].
    cbn [fst snd].
    assert (j < n).
    { destruct (Z.ltb_spec j n); [done|]. replace j with n in * by lia. nia. }
    split.
    + exists (j + 1). rewrite Z.pow_add_r by lia. change (2 ^ 1) with 2. split; [rewrite E; ring|]. lia.
    + replace (w * 2) with (2 * w) by lia. rewrite Z.log2_double by lia.
      assert (Z.log2 w < n) by (apply Z.log2_lt_pow2; lia). lia.
  - exists 0. cbn [fst snd]. rewrite Z.pow_0_r. lia.
  - cbn [fst]. pose proof (Z.log2_nonneg m). lia.
  - cbn [fst]. assert (Z.log2 m < n) by (apply Z.log2_lt_pow2; lia). lia.
  - cbn [fst snd] in Hp. destruct Hp as (j & Em & -> & Hb & Hj). exists m', j. done.
Qed.

Lemma subnormal_norm m : 0 < m < 2 ^ 52 ->
  exists m' k, loop 64 subnormal_round (m, 0) = Some (m', k) /\
    2 ^ 52 <= m' < 2 ^ 53 /\ 0 <= k <= 52 /\ m' = m * 2 ^ k.
Proof.
  intros Hm. destruct (norm_loop subnormal_round 52 1 64 m 0) as (m' & j & E & H); [|lia|lia|].
  - intros w k Hw. cbn [subnormal_round]. change D_IMPL with (2 ^ 52). rewrite top_bit_test by lia.
    by rewrite shiftl_mul, u64_small by (change (52 + 1) with 53 in *; lia).
  - exists m', j. rewrite E. split; [do 2 f_equal; lia|done].
Qed.

(** What [df_unpack] delivers for a finite operand. *)
Inductive unpacks (x : Z) : unpacked -> Prop :=
| unpacks_zero :
    dmag x = 0 -> unpacks x (Unpacked true (b2z (dneg x)) 0 0)
| unpacks_finite e m :
    0 < dmag x -> 2 ^ 52 <= m < 2 ^ 53 -> -1126 <= e <= 971 ->
    dmag x * 2 ^ 52 = m * 2 ^ (e + 1126) ->
    unpacks x (Unpacked false (b2z (dneg x)) e m).

Lemma df_unpack_finite x : dfinite x -> exists u, df_unpack x = Some u /\ unpacks x u.
Proof.
  intros [Hx Hf]. unfold df_unpack. rewrite df_frac, df_field, df_signw, sign_cases by done.
  destruct (fields_mod63 x Hx) as [-> ->].
  pose proof (Z.mod_pos_bound x (2 ^ 63) ltac:(lia)).
  assert (dmag x = fmag 52 (x mod 2 ^ 63)) as Hd by done.
  set (y := x mod 2 ^ 63) in *. clearbody y.
  assert (y / 2 ^ 52 < 0x7FF) by (apply Z.div_lt_upper_bound; unfold DINF in Hf; lia).
  assert (0 <= y / 2 ^ 52) by (apply Z.div_pos; lia).
  destruct (Z.eqb_spec (y / 2 ^ 52) 0x7FF); [lia|].
  pose proof (Z.mod_pos_bound y (2 ^ 52) ltac:(lia)).
  pose proof (Z.div_mod y (2 ^ 52) ltac:(lia)) as Ey.
  destruct (Z.eqb_spec (y / 2 ^ 52) 0) as [E0|E0].
  - rewrite E0 in Ey. rewrite fmag_low in Hd by lia.
    destruct (Z.eqb_spec (y mod 2 ^ 52) 0) as [Em|Em].
    + eexists. split; [done|]. apply unpacks_zero. lia.
    + destruct (subnormal_norm (y mod 2 ^ 52)) as (m & k & -> & Hm & Hk & Emk); [lia|].
      eexists. split; [done|]. apply unpacks_finite; [lia|done|lia|].
      replace (-1074 - k + 1126) with (52 - k) by lia. rewrite Emk.
      replace 52 with (k + (52 - k)) at 1 by lia. rewrite Z.pow_add_r by lia. replace (y mod 2 ^ 52) with (dmag x) by lia. ring.
  - eexists. split; [done|].
    change (Z.lor (y mod 2 ^ 52) D_IMPL) with (Z.lor (y mod 2 ^ 52) (1 * 2 ^ 52)).
    rewrite lor_add_disjoint by lia.
    assert (dmag x = (y mod 2 ^ 52 + 1 * 2 ^ 52) * 2 ^ (y / 2 ^ 52 - 1)) as Ed.
    { rewrite Hd. rewrite <- (fmag_pattern 52) by lia. f_equal. lia. }
    pose proof (pow2_pos (y / 2 ^ 52 - 1) ltac:(lia)).
    apply unpacks_finite; [nia|lia|lia|].
    rewrite Ed. replace (y / 2 ^ 52 - 1075 + 1126) with (y / 2 ^ 52 - 1 + 52) by lia.
    rewrite (Z.pow_add_r 2 _ 52) by lia. ring.
Qed.

(** ** Packing *)

Lemma truthy_land_1 q : truthy (Z.land q 1) = Z.odd q.
Proof. rewrite land_1_odd. by destruct (Z.odd q). Qed.

Lemma truthy_bit q n : 0 <= n -> truthy (Z.land (Z.shiftr q n) 1) = Z.testbit q n.
Proof. intros. by rewrite truthy_land_1, Z.testbit_odd. Qed.

(** A sticky mask of [n] low bits. *)
Lemma truthy_low q n : 0 <= n < 64 ->
  truthy (Z.land q (u64 (Z.shiftl 1 n) - 1)) = negb (q mod 2 ^ n =? 0).
Proof.
  intros Hn. rewrite u64_shl1, land_mask by lia. done.
Qed.

Lemma df_pack_normal b e q g s : -1074 <= e <= 4096 -> 2 ^ 52 <= q < 2 ^ 53 ->
  df_pack (b2z b) e q g s =
    b2z b * 2 ^ 63 + Z.min ((e + 1074) * 2 ^ 52 + q + b2z (g && (s || Z.odd q))) DINF.
Proof.
  intros He Hq. unfold df_pack. destruct (Z.ltb_spec e (-1074)); [lia|].
  cbn [andb]. rewrite truthy_land_1. change (u64 (Z.shiftl D_IMPL 1)) with (2 ^ 53).
  assert (forall e' q', -1074 <= e' <= 4097 -> 2 ^ 52 <= q' < 2 ^ 53 ->
    (if 971 <? e' then Z.lor (sign_bit (b2z b)) D_EXP
     else Z.lor (Z.lor (sign_bit (b2z b)) (u64 (Z.shiftl (u64 (e' + 1075)) 52))) (Z.land q' D_FRAC)) =
    b2z b * 2 ^ 63 + Z.min ((e' + 1074) * 2 ^ 52 + q') DINF) as Henc.
  { intros e' q' He' Hq'. unfold DINF. destruct (Z.ltb_spec 971 e').
    - rewrite lor_sign by done. unfold D_EXP. lia.
    - rewrite df_frac, (u64_small (e' + 1075)), shiftl_mul, u64_small by lia.
      rewrite <- Z.lor_assoc.
      replace (q' mod 2 ^ 52) with (q' - 2 ^ 52) by (apply Z.mod_unique with 1; lia).
      rewrite lor_add_disjoint' by lia. rewrite lor_sign by lia. lia. }
  destruct (g && (s || Z.odd q)); cbn [b2z].
  - rewrite u64_small by lia. destruct (Z.eqb_spec (q + 1) (2 ^ 53)) as [Eq|].
    + rewrite Eq. change (Z.shiftr (2 ^ 53) 1) with (2 ^ 52). rewrite Henc by lia.
      f_equal. f_equal. lia.
    + rewrite Henc by lia. f_equal. f_equal. lia.
  - rewrite Henc by lia. f_equal. f_equal. lia.
Qed.

Lemma df_pack_subnormal b e q g s : -1128 <= e < -1074 -> 0 <= q < 2 ^ 53 ->
  let n := -1074 - e in
  df_pack (b2z b) e q g s =
    b2z b * 2 ^ 63 + Z.min (q / 2 ^ n + b2z (Z.testbit q (n - 1) &&
      ((g || s || negb (q mod 2 ^ (n - 1) =? 0)) || Z.odd (q / 2 ^ n)))) DINF.
Proof.
  intros He Hq n. unfold df_pack. fold n. assert (1 <= n <= 54) by lia.
  destruct (Z.ltb_spec e (-1074)); [|lia]. destruct (Z.ltb_spec 54 n); [lia|]. cbn [andb].
  rewrite truthy_bit, truthy_low, truthy_land_1, shiftr_div by lia.
  change (u64 (Z.shiftl D_IMPL 1)) with (2 ^ 53).
  replace (s || (g || negb (q mod 2 ^ (n - 1) =? 0)))
    with (g || s || negb (q mod 2 ^ (n - 1) =? 0)) by (by destruct g, s).
  replace (e + n) with (-1074) by lia.
  assert (0 <= q / 2 ^ n < 2 ^ 52) as Hh.
  { split; [apply Z.div_pos; [lia|apply pow2_pos; lia]|].
    apply Z.div_lt_upper_bound; [apply pow2_pos; lia|].
    replace n with (1 + (n - 1)) by lia. rewrite Z.pow_add_r by lia.
    pose proof (pow2_pos (n - 1)). change (2 ^ 1) with 2. nia. }
  clear H0. generalize (q / 2 ^ n) Hh. intros h Hh'.
  assert (forall h', 0 <= h' <= 2 ^ 52 ->
    (if 971 <? -1074 then Z.lor (sign_bit (b2z b)) D_EXP
     else if h' =? 0 then sign_bit (b2z b)
     else if h' =? D_IMPL then Z.lor (sign_bit (b2z b)) D_IMPL
     else Z.lor (sign_bit (b2z b)) h') = b2z b * 2 ^ 63 + Z.min h' DINF) as Henc.
  { intros h' Hh''. change (971 <? -1074) with false. cbn iota. unfold DINF, D_IMPL.
    destruct (Z.eqb_spec h' 0) as [->|]; [rewrite sign_bit_spec; cbn; lia|].
    destruct (Z.eqb_spec h' 0x0010000000000000) as [->|]; rewrite lor_sign by lia; lia. }
  destruct (Z.testbit q (n - 1) && _); cbn [b2z].
  - rewrite u64_small by lia. destruct (Z.eqb_spec (h + 1) (2 ^ 53)); [lia|].
    apply Henc. lia.
  - rewrite Z.add_0_r. apply Henc. lia.
Qed.

Lemma df_pack_tiny b e q g s : e < -1128 -> df_pack (b2z b) e q g s = b2z b * 2 ^ 63.
Proof.
  intros He. unfold df_pack. destruct (Z.ltb_spec e (-1074)); [|lia].
  destruct (Z.ltb_spec 54 (-1074 - e)); [|lia]. apply sign_bit_spec.
Qed.

(** The packer rounds correctly, through overflow and the subnormal range:
    the value is [X / Y * 2^e]. *)
Lemma df_pack_correct b e X Y q g s :
  e <= 4096 -> 2 ^ 52 <= q < 2 ^ 53 -> 0 < Y -> gs X Y q g s ->
  exists r, df_pack (b2z b) e q g s = b2z b * 2 ^ 63 + r /\
    nearest_even 52 DINF (X * 2 ^ Z.max 0 (e + 1074)) (Y * 2 ^ Z.max 0 (- (e + 1074))) r.
Proof.
  intros He Hq HY H. destruct (Z.leb_spec (-1074) e).
  - rewrite df_pack_normal by lia. eexists. split; [done|].
    rewrite Z.max_r, (Z.max_l 0 (- _)), Z.pow_0_r, Z.mul_1_r by lia.
    apply gs_round; try done; lia.
  - rewrite Z.max_l, (Z.max_r 0 (- _)), Z.pow_0_r, Z.mul_1_r by lia.
    replace (- (e + 1074)) with (-1074 - e) by lia. set (n := -1074 - e).
    pose proof (pow2_pos n ltac:(lia)).
    pose proof (gs_shiftr X Y q g s n HY ltac:(lia) ltac:(lia) H) as Hs.
    assert (0 <= q / 2 ^ n < 2 ^ 53).
    { split; [apply Z.div_pos; lia|]. apply Z.div_lt_upper_bound; nia. }
    pose proof (gs_round 52 DINF X (Y * 2 ^ n) (q / 2 ^ n) _ _ 0 M52 DINF_pos ltac:(nia)
      ltac:(lia) H2 ltac:(by left) Hs) as Hr. rewrite Z.pow_0_r, Z.mul_1_r, Z.mul_0_l, Z.add_0_l in Hr.
    destruct (Z.leb_spec (-1128) e).
    + rewrite df_pack_subnormal by lia. eexists. split; [done|]. exact Hr.
    + rewrite df_pack_tiny by lia. exists 0. split; [lia|].
      rewrite Z.div_small, (testbit_high q 53) in Hr
        by (first [lia | split; [lia|]; apply Z.lt_le_trans with (2 ^ 53); [lia|apply Z.pow_le_mono_r; lia]]).
      exact Hr.
Qed.

(** ** Normalisation *)

(** Moving a power of two between the value and its exponent. *)
Lemma scale_exponent M top X Y k c r : 0 < Y -> 0 <= c ->
  nearest_even M top (X * 2 ^ Z.max 0 (k + c)) (Y * 2 ^ c * 2 ^ Z.max 0 (- (k + c))) r ->
  nearest_even M top (X * 2 ^ Z.max 0 k) (Y * 2 ^ Z.max 0 (- k)) r.
Proof.
  intros HY Hc. pose proof (pow2_pos c Hc).
  pose proof (pow2_pos (Z.max 0 (- (k + c))) ltac:(lia)).
  pose proof (pow2_pos (Z.max 0 (- k)) ltac:(lia)).
  apply nearest_even_ratio; [nia|nia|].
  assert (2 ^ Z.max 0 (k + c) * 2 ^ Z.max 0 (- k) = 2 ^ Z.max 0 k * (2 ^ c * 2 ^ Z.max 0 (- (k + c)))) as E.
  { rewrite <- !Z.pow_add_r by lia. f_equal. lia. }
  transitivity (X * Y * (2 ^ Z.max 0 (k + c) * 2 ^ Z.max 0 (- k))); [ring|].
  rewrite E. ring.
Qed.

Lemma scale_exponent_up M top X Y k c r : 0 < Y -> 0 <= c ->
  nearest_even M top (X * 2 ^ c * 2 ^ Z.max 0 (k - c)) (Y * 2 ^ Z.max 0 (- (k - c))) r ->
  nearest_even M top (X * 2 ^ Z.max 0 k) (Y * 2 ^ Z.max 0 (- k)) r.
Proof.
  intros HY Hc. pose proof (pow2_pos c Hc).
  pose proof (pow2_pos (Z.max 0 (- (k - c))) ltac:(lia)).
  pose proof (pow2_pos (Z.max 0 (- k)) ltac:(lia)).
  apply nearest_even_ratio; [nia|nia|].
  assert (2 ^ c * 2 ^ Z.max 0 (k - c) * 2 ^ Z.max 0 (- k) = 2 ^ Z.max 0 k * 2 ^ Z.max 0 (- (k - c))) as E.
  { rewrite <- !Z.pow_add_r by lia. f_equal. lia. }
  transitivity (X * Y * (2 ^ c * 2 ^ Z.max 0 (k - c) * 2 ^ Z.max 0 (- k))); [ring|].
  rewrite E. ring.
Qed.

(** The normalised quotient of a significand with top bit [t]. *)
Lemma norm_quotient W n : 0 < W -> n = Z.log2 W - 52 -> 0 <= n -> 2 ^ 52 <= W / 2 ^ n < 2 ^ 53.
Proof.
  intros HW -> Hn. pose proof (Z.log2_spec W HW) as [L U]. set (n := Z.log2 W - 52) in *.
  replace (Z.log2 W) with (52 + n) in * by lia. rewrite Z.pow_add_r in L by lia.
  rewrite Z.pow_succ_r, Z.pow_add_r in U by lia. pose proof (pow2_pos n Hn). split.
  - apply Z.div_le_lower_bound; nia.
  - apply Z.div_lt_upper_bound; nia.
Qed.

Lemma norm_shl W n : 0 < W -> n = 52 - Z.log2 W -> 0 <= n -> 2 ^ 52 <= W * 2 ^ n < 2 ^ 53.
Proof.
  intros HW -> Hn. pose proof (Z.log2_spec W HW) as [L U]. pose proof (Z.log2_nonneg W).
  assert (2 ^ 52 = 2 ^ Z.log2 W * 2 ^ (52 - Z.log2 W)) as E by (rewrite <- Z.pow_add_r by lia; f_equal; lia).
  rewrite Z.pow_succ_r in U by lia. change (2 ^ 53) with (2 * 2 ^ 52). rewrite E.
  pose proof (pow2_pos (52 - Z.log2 W) Hn). nia.
Qed.

Lemma window_shiftr whi wlo n : 0 <= whi -> 0 <= wlo < 2 ^ 64 -> 0 < n < 64 -> whi < 2 ^ n ->
  Z.lor (Z.shiftr wlo n) (u64 (Z.shiftl (Z.land whi (u64 (Z.shiftl 1 n) - 1)) (64 - n))) =
  (whi * 2 ^ 64 + wlo) / 2 ^ n.
Proof.
  intros Hh Hl Hn Hb.
  assert (2 ^ 64 = 2 ^ (64 - n) * 2 ^ n) as E by (rewrite <- Z.pow_add_r by lia; f_equal; lia).
  pose proof (pow2_pos (64 - n) ltac:(lia)).
  assert (0 < 2 ^ n < 2 ^ 64) by (split; [apply pow2_pos; lia|apply Z.pow_lt_mono_r; lia]).
  rewrite u64_shl1, land_mask, Z.mod_small by lia.
  rewrite shiftl_mul, shiftr_div, u64_small by nia.
  rewrite lor_add_disjoint; [|lia|].
  - rewrite E, Z.mul_assoc, Z.div_add_l by (apply Z.pow_nonzero; lia). lia.
  - split; [apply Z.div_pos; lia|]. apply Z.div_lt_upper_bound; lia.
Qed.

Lemma df_norm_pack128_correct b whi wlo e X Y g s :
  0 <= whi < 2 ^ 51 -> 0 <= wlo < 2 ^ 64 -> 0 < whi * 2 ^ 64 + wlo -> e <= 3900 -> 0 < Y ->
  gs X Y (whi * 2 ^ 64 + wlo) g s -> (whi * 2 ^ 64 + wlo < 2 ^ 53 -> g || s = false) ->
  exists r, df_norm_pack128 (b2z b) whi wlo e (g || s) = Some (b2z b * 2 ^ 63 + r) /\
    nearest_even 52 DINF (X * 2 ^ Z.max 0 (e + 1074)) (Y * 2 ^ Z.max 0 (- (e + 1074))) r.
Proof.
  intros Hh Hl HW He HY Hgs Hex. set (W := whi * 2 ^ 64 + wlo) in *.
  unfold df_norm_pack128. rewrite !df_msb_spec by lia.
  assert ((if truthy whi then t ← Some (if whi =? 0 then -1 else Z.log2 whi); Some (t + 64)
           else Some (if wlo =? 0 then -1 else Z.log2 wlo)) = Some (Z.log2 W)) as ->.
  { unfold truthy. destruct (Z.eqb_spec whi 0) as [->|Hne]; cbn [negb mbind option_bind].
    - destruct (Z.eqb_spec wlo 0); [lia|]. done.
    - f_equal. symmetry. pose proof (Z.log2_spec whi ltac:(lia)) as [L U].
      pose proof (Z.log2_nonneg whi). apply Z.log2_unique; [lia|].
      rewrite <- Z.add_succ_l, !Z.pow_add_r by lia. lia. }
  cbn [mbind option_bind]. pose proof (Z.log2_nonneg W).
  destruct (Z.ltb_spec (Z.log2 W) 0); [lia|].
  assert (Z.log2 W < 115) by (apply Z.log2_lt_pow2; lia).
  set (cut := Z.log2 W - 52). destruct (Z.leb_spec 64 cut); [lia|].
  destruct (Z.ltb_spec 0 cut) as [Hc|Hc].
  - assert (whi < 2 ^ cut) as Hhc.
    { pose proof (Z.log2_spec W HW) as [_ U]. replace (Z.succ (Z.log2 W)) with (cut + 53) in U by lia.
      rewrite Z.pow_add_r in U by lia. lia. }
    rewrite window_shiftr, truthy_bit, truthy_low by lia. fold W.
    assert (Z.testbit wlo (cut - 1) = Z.testbit W (cut - 1)) as ->.
    { unfold W. rewrite <- (Z.mod_pow2_bits_low (whi * 2 ^ 64 + wlo) 64) by lia.
      rewrite Z.add_comm, Z_mod_plus_full, Z.mod_small by lia. done. }
    assert (wlo mod 2 ^ (cut - 1) = W mod 2 ^ (cut - 1)) as ->.
    { unfold W. replace (2 ^ 64) with (2 ^ (65 - cut) * 2 ^ (cut - 1))
        by (rewrite <- Z.pow_add_r by lia; f_equal; lia).
      by rewrite Z.mul_assoc, Z.add_comm, Z_mod_plus_full. }
    edestruct (df_pack_correct b (e + cut) X (Y * 2 ^ cut)) as (r & Er & Hr);
      [lia| | |apply gs_shiftr; [exact HY| |lia|exact Hgs]|]; [|pose proof (pow2_pos cut); nia|lia|].
    { apply norm_quotient; lia. }
    exists r. split; [by f_equal|].
    apply scale_exponent with cut; [lia|lia|].
    replace (e + 1074 + cut) with (e + cut + 1074) by lia. exact Hr.
  - assert (W < 2 ^ 53) as HW53.
    { pose proof (Z.log2_spec W HW) as [_ U].
      pose proof (Z.pow_le_mono_r 2 (Z.succ (Z.log2 W)) 53). lia. }
    specialize (Hex HW53). pose proof (gs_inexact _ _ _ _ _ Hgs) as Hi. rewrite Hex in Hi.
    assert (whi = 0) as -> by lia. destruct (Z.eqb_spec X (W * Y)) as [EX|]; [|done].
    pose proof (norm_shl W (- cut) HW ltac:(lia) ltac:(lia)) as Hn.
    replace wlo with W by lia. rewrite Hex, shiftl_mul, u64_small by lia.
    edestruct (df_pack_correct b (e + cut) (W * 2 ^ (- cut) * Y) Y) as (r & Er & Hr);
      [lia|exact Hn|lia|by apply gs_exact|].
    exists r. split; [by f_equal|].
    apply scale_exponent_up with (- cut); [lia|lia|].
    replace (e + 1074 - - cut) with (e + cut + 1074) by lia.
    replace (X * 2 ^ (- cut)) with (W * 2 ^ (- cut) * Y) by (rewrite EX; ring). exact Hr.
Qed.

Lemma df_norm_pack_correct b w e X Y g s :
  2 ^ 53 <= w < 2 ^ 64 -> e <= 3900 -> 0 < Y -> gs X Y w g s ->
  exists r, df_norm_pack (b2z b) w e false (g || s) = Some (b2z b * 2 ^ 63 + r) /\
    nearest_even 52 DINF (X * 2 ^ Z.max 0 (e + 1074)) (Y * 2 ^ Z.max 0 (- (e + 1074))) r.
Proof.
  intros Hw He HY Hgs. unfold df_norm_pack. rewrite df_msb_spec by lia.
  destruct (Z.eqb_spec w 0); [lia|]. cbn [mbind option_bind].
  assert (53 <= Z.log2 w < 64) as Hlog.
  { split; [apply Z.log2_le_pow2; lia|apply Z.log2_lt_pow2; lia]. }
  destruct (Z.ltb_spec (Z.log2 w) 0); [lia|]. destruct (Z.ltb_spec (Z.log2 w) 52); [lia|].
  destruct (Z.ltb_spec 52 (Z.log2 w)); [|lia]. set (sh := Z.log2 w - 52).
  destruct (Z.leb_spec 64 sh); [lia|].
  rewrite truthy_bit, truthy_low, shiftr_div by lia.
  pose proof (norm_quotient w sh ltac:(lia) ltac:(lia) ltac:(lia)) as Hq.
  change (Z.lor D_FRAC D_IMPL) with (2 ^ 53 - 1). rewrite land_mask, (Z.mod_small (w / 2 ^ sh)) by lia.
  pose proof (pow2_pos sh ltac:(lia)).
  edestruct (df_pack_correct b (e + sh) X (Y * 2 ^ sh)) as (r & Er & Hr);
    [lia|exact Hq|nia|apply gs_shiftr; [exact HY|lia|lia|exact Hgs]|].
  exists r. cbn [orb]. split; [by f_equal|].
  apply scale_exponent with sh; [lia|lia|].
  replace (e + 1074 + sh) with (e + sh + 1074) by lia. exact Hr.
Qed.

(** From the code's [X / Y * 2^k] to the exact result [N / D]. *)
Lemma value_ratio X Y k N D c r : 0 < Y -> 0 < D -> 0 <= c -> 0 <= k + c ->
  N * Y * 2 ^ c = X * D * 2 ^ (k + c) ->
  nearest_even 52 DINF (X * 2 ^ Z.max 0 k) (Y * 2 ^ Z.max 0 (- k)) r ->
  nearest_even 52 DINF N D r.
Proof.
  intros HY HD Hc Hk E. pose proof (pow2_pos (Z.max 0 (- k)) ltac:(lia)).
  pose proof (pow2_pos c Hc). apply nearest_even_ratio; [nia|lia|].
  apply Z.mul_reg_r with (2 ^ c); [lia|].
  transitivity (X * D * (2 ^ Z.max 0 k * 2 ^ c)); [ring|].
  transitivity (N * Y * 2 ^ c * 2 ^ Z.max 0 (- k)); [|ring].
  rewrite E, <- (Z.mul_assoc (X * D)), <- !Z.pow_add_r by lia. do 2 f_equal. lia.
Qed.

(** ** The wide product *)

Lemma umul128_spec a b : 0 <= a < 2 ^ 64 -> 0 <= b < 2 ^ 64 ->
  df_umul128 a b = ((a * b) / 2 ^ 64, (a * b) mod 2 ^ 64).
Proof.
  intros Ha Hb. unfold df_umul128.
  pose proof (nfold_ind (fun i s => let '(h, l, b') := s in
      0 <= h < 2 ^ 64 /\ 0 <= l < 2 ^ 64 /\ h * 2 ^ 64 + l = a * (b / 2 ^ (64 - i)) /\
      b' = (b * 2 ^ i) mod 2 ^ 64) (fun _ => umul128_round a) 64 (0, 0, b)) as H.
  destruct (nfold 64 (fun _ => umul128_round a) (0, 0, b)) as [[h l] b'].
  destruct H as (Hh & Hl & E & _).
  - split; [lia|]. split; [lia|]. split; [|rewrite Z.mul_1_r, Z.mod_small by lia; done].
    rewrite Z.div_small by (change (2 ^ (64 - 0)) with (2 ^ 64); lia). lia.
  - clear h l b'. intros i [[h l] b'] Hi (Hh & Hl & E & ->). cbn [umul128_round].
    rewrite truthy_bit by lia. rewrite !shiftl_mul, shiftr_div by lia. change (2 ^ 1) with 2.
    rewrite Z.testbit_mod_pow2, Z.mul_pow2_bits by lia. cbn [andb].
    change (63 <? 64) with true. cbn [andb].
    set (t := b / 2 ^ (64 - i)) in *.
    assert (b / 2 ^ (64 - (i + 1)) = 2 * t + b2z (Z.testbit b (63 - i))) as Et.
    { replace (64 - (i + 1)) with (63 - i) by lia. unfold t.
      replace (64 - i) with (63 - i + 1) by lia. rewrite Z.pow_add_r by lia. change (2 ^ 1) with 2.
      rewrite <- Z.div_div by (try apply Z.pow_nonzero; lia).
      rewrite Z.testbit_odd, shiftr_div by lia.
      pose proof (Z.div_mod (b / 2 ^ (63 - i)) 2 ltac:(lia)) as D. rewrite Zmod_odd in D.
      destruct (Z.odd _); cbn [b2z]; lia. }
    rewrite Et.
    assert (0 <= t) by (apply Z.div_pos; [lia|apply pow2_pos; lia]).
    assert (2 * t + b2z (Z.testbit b (63 - i)) < 2 ^ 64) as Hup.
    { rewrite <- Et. apply Z.le_lt_trans with b; [|lia]. apply Z.div_le_upper_bound; [apply pow2_pos; lia|].
      pose proof (pow2_pos (64 - (i + 1)) ltac:(lia)). nia. }
    assert (u64 ((b * 2 ^ i) mod 2 ^ 64 * 2) = (b * 2 ^ (i + 1)) mod 2 ^ 64) as ->.
    { unfold u64. rewrite Z.mul_mod_idemp_l by lia. f_equal. rewrite Z.pow_add_r by lia.
      change (2 ^ 1) with 2. ring. }
    assert (a * (2 * t + b2z (Z.testbit b (63 - i))) < 2 ^ 64 * 2 ^ 64) as Hbig by nia.
    assert (h < 2 ^ 63) as Hh63 by (destruct (Z.testbit b (63 - i)); cbn [b2z] in *; nia).
    pose proof (Z.div_mod l (2 ^ 63) ltac:(lia)) as Dl.
    assert (0 <= l / 2 ^ 63 < 2) by (split; [apply Z.div_pos; lia|apply Z.div_lt_upper_bound; lia]).
    pose proof (Z.mod_pos_bound l (2 ^ 63) ltac:(lia)).
    assert (Z.lor (u64 (h * 2)) (l / 2 ^ 63) = h * 2 + l / 2 ^ 63) as ->.
    { rewrite u64_small by lia. change (h * 2) with (h * 2 ^ 1). rewrite lor_add_disjoint' by lia. done. }
    assert (u64 (l * 2) = 2 * (l mod 2 ^ 63)) as ->.
    { unfold u64. symmetry. apply Z.mod_unique with (l / 2 ^ 63); lia. }
    set (lh := l / 2 ^ 63) in *. set (ll := l mod 2 ^ 63) in *. clearbody lh ll t.
    destruct (Z.testbit b (63 - i)); cbn [b2z] in *.
    + assert (u64 (2 * ll + a) = if 2 * ll + a <? 2 ^ 64 then 2 * ll + a else 2 * ll + a - 2 ^ 64) as ->.
      { destruct (Z.ltb_spec (2 * ll + a) (2 ^ 64)); [apply u64_small; lia|].
        unfold u64. symmetry. apply Z.mod_unique with 1; lia. }
      destruct (Z.ltb_spec (2 * ll + a) (2 ^ 64)).
      * destruct (Z.ltb_spec (2 * ll + a) (2 * ll)); [lia|]. repeat split; try lia; nia.
      * destruct (Z.ltb_spec (2 * ll + a - 2 ^ 64) (2 * ll)); [|lia].
        rewrite u64_small by nia. repeat split; try lia; nia.
    + repeat split; try lia; nia.
  - change (Z.of_nat 64) with 64 in E. change (2 ^ (64 - 64)) with 1 in E. rewrite Z.div_1_r in E.
    f_equal; [apply Z.div_unique with l|apply Z.mod_unique with h]; lia.
Qed.

(** ** The restoring division *)

Lemma df_divide_spec ma mb : 0 < mb -> 0 <= ma < 2 * mb -> mb < 2 ^ 53 ->
  df_divide ma mb = ((ma * 2 ^ 54) / mb, (ma * 2 ^ 54) mod mb).
Proof.
  intros Hmb Hma Hb. unfold df_divide.
  set (s0 := if mb <=? ma then (u64 (Z.shiftl 1 54), ma - mb) else (0, ma)).
  pose proof (nfold_ind (fun i s => exists Q, fst s = Q * 2 ^ (54 - i) /\ ma * 2 ^ i = Q * mb + snd s /\
     0 <= Q < 2 ^ (i + 1) /\ 0 <= snd s < mb) (div_round mb) 54 s0) as H.
  replace (let '(q, r) := s0 in nfold 54 (div_round mb) (q, r)) with (nfold 54 (div_round mb) s0)
    by (destruct s0; done).
  destruct (nfold 54 (div_round mb) s0) as [q r]. destruct H as (Q & Eq & E & HQ & Hr).
  - subst s0. destruct (Z.leb_spec mb ma); [exists 1|exists 0]; cbn [fst snd]; repeat split; lia || done.
  - clear q r. intros i [q r] Hi (Q & Eq & E & HQ & Hr). cbn [fst snd] in *. unfold div_round.
    rewrite shiftl_mul, u64_small by lia. change (2 ^ 1) with 2.
    replace (54 - (i + 1)) with (53 - i) by lia.
    replace (54 - i) with (53 - i + 1) in Eq by lia. rewrite Z.pow_add_r in Eq, HQ by lia.
    rewrite !(Z.pow_add_r 2 _ 1) in * by lia. change (2 ^ 1) with 2 in *.
    pose proof (pow2_pos (53 - i) ltac:(lia)). pose proof (pow2_pos i ltac:(lia)).
    destruct (Z.leb_spec mb (r * 2)).
    + exists (2 * Q + 1). cbn [fst snd]. repeat split; try lia.
      rewrite u64_shl1 by lia.
      rewrite Eq. replace (Q * (2 ^ (53 - i) * 2)) with (Z.shiftl (2 * Q) (53 - i)) by (rewrite shiftl_mul by lia; ring).
      replace (2 ^ (53 - i)) with (Z.shiftl 1 (53 - i)) at 1 by (rewrite shiftl_mul by lia; ring).
      rewrite <- Z.shiftl_lor. replace (Z.lor (2 * Q) 1) with (2 * Q + 1)
        by (rewrite Z.mul_comm, lor_double_1; done).
      rewrite shiftl_mul by lia. done.
    + exists (2 * Q). cbn [fst snd]. repeat split; lia.
  - cbn [fst snd] in *. change (Z.of_nat 54) with 54 in *. change (2 ^ (54 - 54)) with 1 in Eq.
    f_equal; [apply Z.div_unique with r|apply Z.mod_unique with Q]; lia.
Qed.

(** ** Finite arithmetic *)

Lemma dmag_nonneg x : 0 <= dmag x.
Proof. apply fmag_nonneg; [done|]. apply Z.mod_pos_bound. lia. Qed.

Lemma dval_abs x : Z.abs (dval x) = dmag x.
Proof. unfold dval. pose proof (dmag_nonneg x). destruct (dneg x); lia. Qed.

(** Assembling a result from its sign and its rounded magnitude. *)
Lemma drounds_join b N D m :
  nearest_even 52 DINF (Z.abs N) D m -> (N <> 0 -> b = (N <? 0)) ->
  drounds N D (b2z b * 2 ^ 63 + m) /\ dneg (b2z b * 2 ^ 63 + m) = b.
Proof.
  intros Hm Hs. pose proof Hm as [Hr _].
  destruct (join_sign b m) as (R1 & R2 & R3); [unfold DINF in Hr; lia|].
  split; [|done]. split; [done|]. rewrite R2, R3. split; [done|].
  split; intros; rewrite Hs by lia; destruct (Z.ltb_spec N 0); lia || done.
Qed.

Lemma nearest_zero D : 0 < D -> nearest_even 52 DINF 0 D 0.
Proof. intros. apply nearest_even_exact; done. Qed.

Lemma drounds_zero b D : 0 < D ->
  drounds 0 D (sign_bit (b2z b)) /\ dneg (sign_bit (b2z b)) = b.
Proof.
  intros HD. rewrite sign_bit_spec, <- (Z.add_0_r (b2z b * 2 ^ 63)).
  apply drounds_join; [by apply nearest_zero|done].
Qed.

Lemma xor_signs a b : Z.lxor (b2z a) (b2z b) = b2z (xorb a b).
Proof. by destruct a, b. Qed.

Lemma dval_mul_sign a b : dval a * dval b = (if xorb (dneg a) (dneg b) then - (dmag a * dmag b) else dmag a * dmag b).
Proof. unfold dval. destruct (dneg a), (dneg b); cbn [xorb]; ring. Qed.

Lemma mul_value da db ma mb ea eb :
  -1126 <= ea -> -1126 <= eb ->
  da * 2 ^ 52 = ma * 2 ^ (ea + 1126) -> db * 2 ^ 52 = mb * 2 ^ (eb + 1126) ->
  da * db * 1 * 2 ^ 1178 = ma * mb * 2 ^ 1074 * 2 ^ (ea + eb + 1074 + 1178).
Proof.
  intros Ha Hb Ea Eb.
  replace (ea + eb + 1074 + 1178) with ((ea + 1126) + (eb + 1126)) by lia. rewrite Z.pow_add_r by lia.
  change 1178 with (52 + 52 + 1074). rewrite !(Z.pow_add_r 2 _ 1074), (Z.pow_add_r 2 52 52) by lia.
  transitivity ((da * 2 ^ 52) * (db * 2 ^ 52) * 2 ^ 1074); [ring|]. rewrite Ea, Eb. ring.
Qed.

(** Dispose of the infinity and NaN tests on finite operands. *)
Ltac no_special :=
  repeat match goal with
  | |- context [?e =? 0x7FFF] => destruct (Z.eqb_spec e 0x7FFF); [lia|]
  end;
  cbn [orb andb negb].

Lemma muldf3_finite a b : dfinite a -> dfinite b ->
  exists r, __muldf3 a b = Some r /\ drounds (dval a * dval b) (2 ^ 1074) r /\
    dneg r = xorb (dneg a) (dneg b).
Proof.
  intros Ha Hb. unfold __muldf3.
  destruct (df_unpack_finite a Ha) as (ua & -> & Ua).
  destruct (df_unpack_finite b Hb) as (ub & -> & Ub). cbn [mbind option_bind].
  rewrite dval_mul_sign.
  destruct Ua as [Za|ea ma Pa Ma Ra Ea], Ub as [Zb|eb mb Pb Mb Rb Eb]; rewrite xor_signs;
    no_special.
  1-3: eexists; split; [done|]; (rewrite Za || rewrite Zb); rewrite ?Z.mul_0_r, ?Z.mul_0_l;
       destruct (xorb _ _) eqn:X; rewrite <- X; apply drounds_zero; done.
  rewrite umul128_spec by lia.
  edestruct (df_norm_pack128_correct (xorb (dneg a) (dneg b)) (ma * mb / 2 ^ 64) ((ma * mb) mod 2 ^ 64)
    (ea + eb) (ma * mb * 1) 1 false false) as (r & Er & Hr).
  - split; [apply Z.div_pos; nia|apply Z.div_lt_upper_bound; nia].
  - apply Z.mod_pos_bound. lia.
  - pose proof (Z.div_mod (ma * mb) (2 ^ 64)). nia.
  - lia.
  - lia.
  - replace (ma * mb / 2 ^ 64 * 2 ^ 64 + (ma * mb) mod 2 ^ 64) with (ma * mb)
      by (pose proof (Z.div_mod (ma * mb) (2 ^ 64)); lia).
    by apply gs_exact.
  - done.
  - cbn [orb] in Er. rewrite Er. eexists. split; [done|].
    apply (value_ratio _ _ _ (dmag a * dmag b) (2 ^ 1074) 1178) in Hr; [|done|done|done|lia|].
    + pose proof (dmag_nonneg a). pose proof (dmag_nonneg b).
      apply drounds_join.
      * replace (Z.abs _) with (dmag a * dmag b) by (destruct (xorb _ _); lia). done.
      * intros _. destruct (xorb _ _).
        -- destruct (Z.ltb_spec (- (dmag a * dmag b)) 0); [done|nia].
        -- destruct (Z.ltb_spec (dmag a * dmag b) 0); [nia|done].
    + rewrite (Z.mul_1_r (ma * mb)). apply mul_value; lia.
Qed.

Lemma div_value da db ma mb ea eb c :
  -1126 <= ea -> -1126 <= eb -> 0 <= c -> 0 <= ea - eb - 54 + 1074 + c ->
  da * 2 ^ 52 = ma * 2 ^ (ea + 1126) -> db * 2 ^ 52 = mb * 2 ^ (eb + 1126) ->
  da * 2 ^ 1074 * mb * 2 ^ c = ma * 2 ^ 54 * db * 2 ^ (ea - eb - 54 + 1074 + c).
Proof.
  intros Ha Hb Hc Hk Ea Eb.
  apply Z.mul_reg_r with (2 ^ 52 * 2 ^ (eb + 1126)); [pose proof (pow2_pos (eb + 1126)); nia|].
  transitivity ((da * 2 ^ 52) * (mb * 2 ^ (eb + 1126)) * (2 ^ 1074 * 2 ^ c)); [ring|].
  transitivity ((ma * 2 ^ 54) * (db * 2 ^ 52) * (2 ^ (ea - eb - 54 + 1074 + c) * 2 ^ (eb + 1126))); [|ring].
  rewrite Ea, Eb. rewrite <- !(Z.pow_add_r 2 1074), <- !(Z.pow_add_r 2 (ea - eb - 54 + 1074 + c)) by lia.
  transitivity (ma * (mb * 2 ^ (eb + 1126)) * (2 ^ (ea + 1126) * 2 ^ (1074 + c))); [ring|].
  transitivity (ma * (mb * 2 ^ (eb + 1126)) * (2 ^ 54 * 2 ^ (ea - eb - 54 + 1074 + c + (eb + 1126)))); [|ring].
  f_equal. rewrite <- !Z.pow_add_r by lia. f_equal. lia.
Qed.

(** Quotient and remainder of the significands as guard and sticky. *)
Lemma gs_div X Y : 0 < Y -> exists g s, gs X Y (X / Y) g s /\ truthy (X mod Y) = g || s.
Proof.
  intros HY. exists (Y <=? 2 * (X mod Y)), (negb (2 * (X mod Y) =? (if Y <=? 2 * (X mod Y) then Y else 0))).
  pose proof (Z.mod_pos_bound X Y HY). pose proof (Z.div_mod X Y ltac:(lia)).
  split; [exists (X mod Y); repeat split; lia|].
  unfold truthy. destruct (Z.leb_spec Y (2 * (X mod Y))); cbn [orb].
  - destruct (Z.eqb_spec (X mod Y) 0); [lia|done].
  - destruct (Z.eqb_spec (X mod Y) 0), (Z.eqb_spec (2 * (X mod Y)) 0); lia || done.
Qed.

Lemma divdf3_finite a b : dfinite a -> dfinite b -> dval b <> 0 ->
  exists r, __divdf3 a b = Some r /\
    drounds (Z.sgn (dval b) * dval a * 2 ^ 1074) (Z.abs (dval b)) r /\
    dneg r = xorb (dneg a) (dneg b).
Proof.
  intros Ha Hb Hnz. unfold __divdf3. rewrite dval_abs.
  destruct (df_unpack_finite a Ha) as (ua & -> & Ua).
  destruct (df_unpack_finite b Hb) as (ub & -> & Ub). cbn [mbind option_bind].
  destruct Ub as [Zb|eb mb Pb Mb Rb Eb]; [pose proof (dval_abs b); lia|].
  assert (Z.sgn (dval b) * dval a = if xorb (dneg a) (dneg b) then - dmag a else dmag a) as Hsg.
  { unfold dval at 1. destruct (dneg b); [rewrite Z.sgn_neg by lia|rewrite Z.sgn_pos by lia];
      unfold dval; destruct (dneg a); cbn [xorb]; lia. }
  rewrite Hsg.
  destruct Ua as [Za|ea ma Pa Ma Ra Ea]; rewrite xor_signs;
    no_special.
  - eexists. split; [done|]. rewrite Za. replace (_ * 2 ^ 1074) with 0 by (destruct (xorb _ _); lia).
    by apply drounds_zero.
  - rewrite df_divide_spec by lia.
    destruct (gs_div (ma * 2 ^ 54) mb) as (g & s & Hgs & ->); [lia|].
    edestruct (df_norm_pack_correct (xorb (dneg a) (dneg b)) (ma * 2 ^ 54 / mb) (ea - eb - 54)
      (ma * 2 ^ 54) mb g s) as (r & -> & Hr); [|lia|lia|done|].
    { split; [apply Z.div_le_lower_bound; lia|apply Z.div_lt_upper_bound; lia]. }
    eexists. split; [done|].
    apply (value_ratio _ _ _ (dmag a * 2 ^ 1074) (dmag b) 4000) in Hr; [|lia|lia|lia|lia|].
    + apply drounds_join.
      * replace (Z.abs _) with (dmag a * 2 ^ 1074) by (destruct (xorb _ _); lia). done.
      * intros _. destruct (xorb _ _).
        -- destruct (Z.ltb_spec (- dmag a * 2 ^ 1074) 0); [done|lia].
        -- destruct (Z.ltb_spec (dmag a * 2 ^ 1074) 0); [lia|done].
    + apply div_value; lia.
Qed.

(** ** Addition *)

(** The aligned frame: quotient and remainder of the exact sum [V] over the
    alignment [2^al], as the 64-bit code computes them. *)
Lemma shifted_small mb al : 0 <= mb < 2 ^ 53 -> 0 <= al ->
  (if 64 <=? al then (0, truthy (u64 (Z.shiftl mb 6)))
   else if 0 <? al then
     (Z.shiftr (u64 (Z.shiftl mb 6)) al,
      truthy (Z.land (u64 (Z.shiftl mb 6)) (u64 (Z.shiftl 1 al) - 1)))
   else (u64 (Z.shiftl mb 6), false)) =
  ((mb * 64) / 2 ^ al, truthy ((mb * 64) mod 2 ^ al)).
Proof.
  intros Hm Ha. rewrite shiftl_mul by lia. change (2 ^ 6) with 64. rewrite u64_small by lia.
  destruct (Z.leb_spec 64 al).
  - assert (2 ^ 64 <= 2 ^ al) by (apply Z.pow_le_mono_r; lia).
    rewrite Z.div_small, Z.mod_small by lia. done.
  - destruct (Z.ltb_spec 0 al).
    + assert (0 < 2 ^ al < 2 ^ 64) by (split; [apply pow2_pos; lia|apply Z.pow_lt_mono_r; lia]).
      rewrite u64_shl1, land_mask, shiftr_div by lia. done.
    + replace al with 0 by lia. change (2 ^ 0) with 1. by rewrite Z.div_1_r, Z.mod_1_r.
Qed.

(** Subtracting a fraction from an integer number of units borrows. *)
Lemma sub_units G m Y : 0 < Y ->
  (G * Y - m) / Y = G - m / Y - b2z (truthy (m mod Y)) /\
  truthy ((G * Y - m) mod Y) = truthy (m mod Y).
Proof.
  intros HY. pose proof (Z.div_mod m Y ltac:(lia)) as D. pose proof (Z.mod_pos_bound m Y HY).
  unfold truthy. destruct (Z.eqb_spec (m mod Y) 0) as [E|E]; cbn [negb b2z].
  - split; [symmetry; apply Z.div_unique with 0; lia|].
    replace ((G * Y - m) mod Y) with 0 by (apply Z.mod_unique with (G - m / Y); lia). done.
  - split; [symmetry; apply Z.div_unique with (Y - m mod Y); lia|].
    replace ((G * Y - m) mod Y) with (Y - m mod Y) by (apply Z.mod_unique with (G - m / Y - 1); lia).
    destruct (Z.eqb_spec (Y - m mod Y) 0); lia || done.
Qed.

(** An alignment of at most six loses nothing. *)
Lemma align_exact mb al : 0 <= al <= 6 -> (mb * 64) mod 2 ^ al = 0.
Proof.
  intros H. replace 64 with (2 ^ (6 - al) * 2 ^ al) by (rewrite <- Z.pow_add_r by lia; by replace (6 - al + al) with 6 by lia).
  rewrite Z.mul_assoc. apply Z_mod_mult.
Qed.

Lemma align_small mb al : 0 <= mb < 2 ^ 53 -> 7 <= al -> 0 <= (mb * 64) / 2 ^ al <= 2 ^ 52.
Proof.
  intros Hm Ha. assert (2 ^ 7 <= 2 ^ al) by (apply Z.pow_le_mono_r; lia).
  split; [apply Z.div_pos; lia|]. apply Z.div_le_upper_bound; lia.
Qed.

Definition frame_sum (same : bool) (ma mb al : Z) : Z :=
  if same then ma * 64 * 2 ^ al + mb * 64 else ma * 64 * 2 ^ al - mb * 64.

Lemma add_words ga B : 0 <= ga < 2 ^ 59 -> 0 <= B < 2 ^ 60 ->
  u64 (ga + B) = ga + B /\ (ga + B <? ga) = false.
Proof. intros. rewrite u64_small by lia. destruct (Z.ltb_spec (ga + B) ga); [lia|done]. Qed.

Lemma sub_words ga B x : 0 <= B <= ga -> ga < 2 ^ 59 -> (x = true -> B < ga) ->
  (if x && truthy (u64 (ga - B)) then (0, u64 (ga - B) - 1, ga <? B)
   else if u64 (ga - B) =? 0 then (0, u64 (ga - B), true)
   else (0, u64 (ga - B), ga <? B)) = (0, ga - B - b2z x, ga =? B).
Proof.
  intros HB Hg Hx. rewrite u64_small by lia. destruct (Z.ltb_spec ga B); [lia|]. unfold truthy.
  destruct (Z.eqb_spec (ga - B) 0), (Z.eqb_spec ga B), x; cbn [andb negb b2z]; try lia;
    rewrite ?Z.sub_0_r; done.
Qed.

(** The units [G - B] that remain, and when the result is inexact. *)
Lemma frame_exact ma mb al : 2 ^ 52 <= ma < 2 ^ 53 -> 0 <= mb < 2 ^ 53 -> 0 <= al ->
  truthy ((mb * 64) mod 2 ^ al) = true -> 7 <= al /\ (mb * 64) / 2 ^ al <= 2 ^ 52.
Proof.
  intros Ha Hb Hal Hx. destruct (Z.leb_spec al 6).
  - rewrite align_exact in Hx by lia. done.
  - split; [lia|]. apply align_small; lia.
Qed.

Lemma frame_small mb al ma : 0 <= mb < 2 ^ 53 -> 2 ^ 52 <= ma -> 0 <= al -> (al = 0 -> mb <= ma) ->
  0 <= (mb * 64) / 2 ^ al <= ma * 64 /\ (mb * 64) / 2 ^ al < 2 ^ 59.
Proof.
  intros Hm Ha Hal H0. pose proof (pow2_pos al Hal).
  assert ((mb * 64) / 2 ^ al <= mb * 64) by (apply Z.div_le_upper_bound; nia).
  split; [split; [apply Z.div_pos; lia|]|lia].
  destruct (Z.eq_dec al 0) as [->|]; [lia|].
  assert (2 ^ 1 <= 2 ^ al) by (apply Z.pow_le_mono_r; lia). apply Z.div_le_upper_bound; nia.
Qed.

Lemma add_aligned_correct ba bb ma mb ea al :
  2 ^ 52 <= ma < 2 ^ 53 -> 2 ^ 52 <= mb < 2 ^ 53 -> ea <= 971 -> 0 <= al -> (al = 0 -> mb <= ma) ->
  let V := frame_sum (Bool.eqb ba bb) ma mb al in
  0 <= V /\
  (V = 0 -> add_aligned (b2z ba) ma (b2z bb) mb ea al = Some 0) /\
  (0 < V -> exists r, add_aligned (b2z ba) ma (b2z bb) mb ea al = Some (b2z ba * 2 ^ 63 + r) /\
     nearest_even 52 DINF (V * 2 ^ Z.max 0 (ea - 6 + 1074))
       (2 ^ al * 2 ^ Z.max 0 (- (ea - 6 + 1074))) r).
Proof.
  intros Ha Hb He Hal H0 V. pose proof (pow2_pos al Hal) as HY.
  pose proof (frame_small mb al ma ltac:(lia) ltac:(lia) Hal H0) as [HB HB2].
  pose proof (frame_exact ma mb al ltac:(lia) ltac:(lia) Hal) as Hfx.
  assert (exists W, 0 <= V /\ W = V / 2 ^ al /\ 0 <= W < 2 ^ 64 /\
    truthy (V mod 2 ^ al) = truthy ((mb * 64) mod 2 ^ al) /\
    (W < 2 ^ 53 -> truthy ((mb * 64) mod 2 ^ al) = false) /\
    add_aligned (b2z ba) ma (b2z bb) mb ea al =
    if V =? 0 then Some 0
    else df_norm_pack128 (b2z ba) 0 W (ea - 6) (truthy ((mb * 64) mod 2 ^ al)))
    as (W & HV & HW & HWr & Hx & Hex & ->).
  { unfold add_aligned. rewrite shifted_small, shiftl_mul by lia. change (2 ^ 6) with 64.
    rewrite (u64_small (ma * 64)) by lia. subst V. unfold frame_sum.
    set (x := truthy ((mb * 64) mod 2 ^ al)) in *. set (B := (mb * 64) / 2 ^ al) in *.
    assert ((b2z ba =? b2z bb) = Bool.eqb ba bb) as -> by (by destruct ba, bb).
    destruct (Bool.eqb ba bb); cbn iota.
    - destruct (add_words (ma * 64) B) as [-> ->]; [lia..|]. exists (ma * 64 + B).
      rewrite Z.div_add_l by lia. rewrite (Z.add_comm (ma * 64 * 2 ^ al)), Z_mod_plus_full. fold B x.
      split; [nia|]. split; [done|]. split; [lia|]. split; [done|]. split; [destruct x; lia|].
      destruct (Z.eqb_spec (mb * 64 + ma * 64 * 2 ^ al) 0); [nia|done].
    - assert (x = true -> B < ma * 64) by (intros Ex; apply Hfx in Ex; lia). rewrite sub_words by (done || lia).
      destruct (sub_units (ma * 64) (mb * 64) (2 ^ al) HY) as [Q R]. fold B x in Q, R.
      exists (ma * 64 - B - b2z x). rewrite Q, R.
      pose proof (Z.div_mod (ma * 64 * 2 ^ al - mb * 64) (2 ^ al) ltac:(lia)) as D. rewrite Q in D.
      pose proof (Z.mod_pos_bound (ma * 64 * 2 ^ al - mb * 64) (2 ^ al) HY).
      assert (0 <= ma * 64 - B - b2z x) by (destruct x; cbn [b2z]; lia).
      split; [nia|]. split; [done|]. split; [destruct x; cbn [b2z]; lia|]. split; [done|].
      split; [intros; destruct x; cbn [b2z] in *; [lia|done]|].
      assert ((ma * 64 * 2 ^ al - mb * 64 =? 0) = (ma * 64 =? B)) as ->; [|done].
      destruct (Z.eqb_spec (ma * 64 * 2 ^ al - mb * 64) 0) as [E|E], (Z.eqb_spec (ma * 64) B) as [E'|E']; try done.
      + rewrite E, Zdiv_0_l in Q. rewrite E, Zmod_0_l in R. change (truthy 0) with false in R.
        rewrite <- R in Q. cbn [b2z] in Q. lia.
      + destruct x; [lia|]. cbn [b2z] in D. replace (ma * 64 - B - 0) with 0 in D by lia. rewrite Z.mul_0_r in D.
        unfold truthy in R. destruct (Z.eqb_spec ((ma * 64 * 2 ^ al - mb * 64) mod 2 ^ al) 0); [lia|done]. }
  clearbody V. split; [done|]. split; [by intros ->|]. intros HVp. destruct (Z.eqb_spec V 0); [lia|].
  destruct (gs_div V (2 ^ al) HY) as (g & s & Hgs & Hgx). rewrite <- HW in Hgs. rewrite Hgx in Hx.
  rewrite <- Hx. rewrite <- Hx in Hex.
  apply df_norm_pack128_correct; rewrite ?Z.mul_0_l, ?Z.add_0_l; try lia; [|done..].
  destruct (Z.eq_dec W 0) as [W0|]; [|lia]. rewrite Hex in Hgx by lia.
  unfold truthy in Hgx. pose proof (Z.div_mod V (2 ^ al) ltac:(lia)).
  destruct (Z.eqb_spec (V mod 2 ^ al) 0); [|done]. lia.
Qed.

(** The exact value of a frame. *)
Lemma frame_value same da db ma mb ea eb :
  -1126 <= eb <= ea -> ea <= 971 ->
  da * 2 ^ 52 = ma * 2 ^ (ea + 1126) -> db * 2 ^ 52 = mb * 2 ^ (eb + 1126) ->
  (if same : bool then da + db else da - db) * 2 ^ (ea - eb) * 2 ^ 58 =
  frame_sum same ma mb (ea - eb) * 1 * 2 ^ (ea - 6 + 1074 + 58).
Proof.
  intros Hb Ha Ea Eb. unfold frame_sum.
  replace (ea - 6 + 1074 + 58) with (ea - eb + (eb + 1126)) by lia.
  replace (ea + 1126) with (ea - eb + (eb + 1126)) in Ea by lia.
  rewrite Z.pow_add_r in Ea |- * by lia. change (2 ^ 58) with (2 ^ 52 * 64).
  destruct same.
  - transitivity ((da * 2 ^ 52 + db * 2 ^ 52) * 2 ^ (ea - eb) * 64); [ring|]. rewrite Ea, Eb. ring.
  - transitivity ((da * 2 ^ 52 - db * 2 ^ 52) * 2 ^ (ea - eb) * 64); [ring|]. rewrite Ea, Eb. ring.
Qed.

(** Order of the significands is order of the values. *)
Lemma unpacked_order da db ma mb ea eb : -1126 <= eb -> -1126 <= ea ->
  2 ^ 52 <= ma < 2 ^ 53 -> 2 ^ 52 <= mb < 2 ^ 53 ->
  da * 2 ^ 52 = ma * 2 ^ (ea + 1126) -> db * 2 ^ 52 = mb * 2 ^ (eb + 1126) ->
  (ea <? eb) || ((ea =? eb) && (ma <? mb)) = (da <? db).
Proof.
  intros Hb Ha Ma Mb Ea Eb. pose proof (pow2_pos (ea + 1126) ltac:(lia)). pose proof (pow2_pos (eb + 1126) ltac:(lia)).
  destruct (Z.ltb_spec ea eb) as [L|L]; cbn [orb].
  - destruct (Z.ltb_spec da db); [done|].
    assert (2 * 2 ^ (ea + 1126) <= 2 ^ (eb + 1126))
      by (rewrite <- Z.pow_succ_r by lia; apply Z.pow_le_mono_r; lia). nia.
  - destruct (Z.eqb_spec ea eb) as [->|N]; cbn [andb].
    + destruct (Z.ltb_spec ma mb), (Z.ltb_spec da db); try done; nia.
    + destruct (Z.ltb_spec da db); [|done].
      assert (2 * 2 ^ (eb + 1126) <= 2 ^ (ea + 1126))
        by (rewrite <- Z.pow_succ_r by lia; apply Z.pow_le_mono_r; lia). nia.
Qed.

Lemma fmag_spacing M r : 0 < M -> 0 < r -> fmag M r <= 2 ^ (M + 1) * (fmag M r - fmag M (r - 1)).
Proof.
  intros HM Hr. destruct (pattern_split M HM (r - 1)) as (E & q & Er & HE & Hq & Hn); [lia|].
  destruct (fmag_step M HM E q HE Hq Hn) as [F0 F1]. rewrite <- Er in F0, F1.
  replace (r - 1 + 1) with r in F1 by lia. rewrite F0, F1. pose proof (pow2_pos E HE). nia.
Qed.

(** An operand too small to matter: the larger one is the answer. *)
Lemma absorb x d : dfinite x -> 0 < dmag x -> 2 ^ 60 * d < dmag x -> 0 <= d -> forall N,
  Z.abs (N - dmag x) = d -> nearest_even 52 DINF N 1 (x mod 2 ^ 63).
Proof.
  intros [Hx Hf] Hp Hd Hd0 N HN. unfold dmag in *. set (r := x mod 2 ^ 63) in *.
  pose proof (Z.mod_pos_bound x (2 ^ 63) ltac:(lia)).
  assert (0 < r). { destruct (Z.eq_dec r 0) as [R|]; [|lia]. rewrite R, fmag_low in Hp by lia. lia. }
  pose proof (fmag_spacing 52 r M52 ltac:(lia)). pose proof (fmag_spacing 52 (r + 1) M52 ltac:(lia)).
  replace (r + 1 - 1) with r in * by lia. pose proof (fmag_mono 52 M52 r (r + 1)).
  change (2 ^ (52 + 1)) with (2 ^ 53) in *.
  apply nearest_even_close; rewrite ?Z.mul_1_r; lia.
Qed.

Lemma absorbed da db ma mb ea eb : -1126 <= eb -> eb + 123 <= ea ->
  2 ^ 52 <= ma -> 0 <= mb < 2 ^ 53 ->
  da * 2 ^ 52 = ma * 2 ^ (ea + 1126) -> db * 2 ^ 52 = mb * 2 ^ (eb + 1126) -> 2 ^ 60 * db < da.
Proof.
  intros Hb Ha Ma Mb Ea Eb. replace (ea + 1126) with (ea - eb + (eb + 1126)) in Ea by lia.
  rewrite Z.pow_add_r in Ea by lia. pose proof (pow2_pos (eb + 1126) ltac:(lia)).
  assert (2 ^ 123 <= 2 ^ (ea - eb)) by (apply Z.pow_le_mono_r; lia).
  set (P := 2 ^ (eb + 1126)) in *. set (Q := 2 ^ (ea - eb)) in *.
  assert (2 ^ 123 * P <= Q * P) by (apply Z.mul_le_mono_nonneg_r; lia).
  assert (2 ^ 52 * (2 ^ 123 * P) <= ma * (Q * P)) by (apply Z.mul_le_mono_nonneg; lia).
  assert (mb * P < 2 ^ 53 * P) by (apply Z.mul_lt_mono_pos_r; lia). lia.
Qed.

(** The two operands in order: the sum has the sign of the larger one. *)
Lemma signed_sum a b : dmag b <= dmag a ->
  Z.abs (dval a + dval b) = (if Bool.eqb (dneg a) (dneg b) then dmag a + dmag b else dmag a - dmag b) /\
  (dval a + dval b <> 0 -> dneg a = (dval a + dval b <? 0)).
Proof.
  intros H. pose proof (dmag_nonneg a). pose proof (dmag_nonneg b). unfold dval.
  destruct (dneg a), (dneg b); cbn [Bool.eqb]; (split; [lia|]);
    match goal with |- _ <> 0 -> _ = (?x <? 0) => destruct (Z.ltb_spec x 0) end; lia || done.
Qed.

(** The finite, nonzero case with [|b| <= |a|], by either path. *)
Lemma add_ordered a b ma mb ea eb : dfinite a -> 0 < dmag a -> dmag b <= dmag a ->
  2 ^ 52 <= ma < 2 ^ 53 -> 2 ^ 52 <= mb < 2 ^ 53 -> -1126 <= eb <= ea -> ea <= 971 ->
  (ea = eb -> mb <= ma) ->
  dmag a * 2 ^ 52 = ma * 2 ^ (ea + 1126) -> dmag b * 2 ^ 52 = mb * 2 ^ (eb + 1126) ->
  exists r, (if 122 <? ea - eb then Some a
             else add_aligned (b2z (dneg a)) ma (b2z (dneg b)) mb ea (ea - eb)) = Some r /\
    drounds (dval a + dval b) 1 r /\
    (dval a + dval b = 0 -> r = 0) /\ (dval a + dval b <> 0 -> dneg r = dneg a).
Proof.
  intros Fa Pa Hab Ma Mb He Hea Ho Ea Eb. destruct (signed_sum a b Hab) as [Hs Hn].
  pose proof (frame_value (Bool.eqb (dneg a) (dneg b)) _ _ _ _ _ _ He Hea Ea Eb) as HV.
  rewrite <- Hs in HV.
  destruct (Z.ltb_spec 122 (ea - eb)) as [L|L].
  - pose proof (absorbed _ _ ma mb ea eb ltac:(lia) ltac:(lia) ltac:(lia) ltac:(lia) Ea Eb) as Hd.
    pose proof (dmag_nonneg b).
    assert (dval a + dval b <> 0) by (destruct (Bool.eqb _ _); lia).
    exists a. split; [done|].
    pose proof (absorb a (dmag b) Fa Pa Hd ltac:(lia) (Z.abs (dval a + dval b))) as Hr.
    destruct (drounds_join (dneg a) (dval a + dval b) 1 (a mod 2 ^ 63)) as [D1 D2];
      [apply Hr; destruct (Bool.eqb _ _); lia|done|].
    rewrite <- pattern_eq in D1 by apply Fa. repeat split; try apply D1; done.
  - destruct (add_aligned_correct (dneg a) (dneg b) ma mb ea (ea - eb)) as (V0 & Hz & Hr);
      try lia. set (V := frame_sum _ _ _ _) in *.
    pose proof (pow2_pos (ea - eb) ltac:(lia)) as HY. pose proof (pow2_pos (ea - 6 + 1074 + 58) ltac:(lia)).
    destruct (Z.eq_dec V 0) as [E|E].
    + rewrite Hz by done. exists 0. split; [done|].
      assert (dval a + dval b = 0) as -> by (rewrite E in HV; nia).
      split; [|split; [done|lia]]. by apply (drounds_zero false 1).
    + destruct Hr as (r & -> & Hr); [lia|]. eexists. split; [done|].
      apply (value_ratio _ _ _ (Z.abs (dval a + dval b)) 1 58) in Hr; [|lia|lia|lia|lia|done].
      destruct (drounds_join (dneg a) _ _ _ Hr Hn) as [D1 D2].
      split; [done|]. split; [|done]. intros E0. rewrite E0 in HV. nia.
Qed.

Lemma adddf3_finite a b : dfinite a -> dfinite b ->
  exists r, __adddf3 a b = Some r /\ drounds (dval a + dval b) 1 r /\
    (dval a + dval b = 0 -> dneg r = dneg a && dneg b).
Proof.
  intros Ha Hb. unfold __adddf3.
  destruct (df_unpack_finite a Ha) as (ua & -> & Ua).
  destruct (df_unpack_finite b Hb) as (ub & -> & Ub). cbn [mbind option_bind].
  assert (forall x, dfinite x -> drounds (dval x) 1 x) as Hself.
  { intros x [Hx Hf]. split; [done|]. rewrite dval_abs. split; [|unfold dval; split; pose proof (dmag_nonneg x); destruct (dneg x); lia || done].
    apply nearest_even_exact; try done; [|unfold dmag; lia]. pose proof (Z.mod_pos_bound x (2 ^ 63)). lia. }
  destruct Ua as [Za|ea ma Pa Ma Ra Ea], Ub as [Zb|eb mb Pb Mb Rb Eb]; no_special.
  - assert (forall x, dmag x = 0 -> dval x = 0) as Hz by (intros x ?; pose proof (dval_abs x); lia).
    rewrite !Hz by done. replace (Z.land _ _) with (b2z (dneg a && dneg b)) by (by destruct (dneg a), (dneg b)).
    eexists. split; [done|]. destruct (drounds_zero (dneg a && dneg b) 1) as [D1 D2]; done.
  - exists b. split; [done|]. pose proof (dval_abs a). pose proof (dval_abs b).
    replace (dval a + dval b) with (dval b) by lia. split; [by apply Hself|lia].
  - exists a. split; [done|]. pose proof (dval_abs a). pose proof (dval_abs b).
    replace (dval a + dval b) with (dval a) by lia. split; [by apply Hself|lia].
  - rewrite (unpacked_order (dmag a) (dmag b)) by lia || done.
    pose proof (unpacked_order (dmag a) (dmag b) ma mb ea eb) as Ho.
    assert (forall r, (dval a + dval b = 0 -> r = 0) -> dmag a <> 0 -> dmag b <> 0 ->
      dval a + dval b = 0 -> dneg r = dneg a && dneg b) as Hzero.
    { intros r Hr ?? E. rewrite (Hr E). unfold dval in E. destruct (dneg a), (dneg b); lia || done. }
    destruct (Z.ltb_spec (dmag a) (dmag b)) as [L|L]; cbn iota.
    + destruct (add_ordered b a mb ma eb ea) as (r & -> & Hr & Hz & _); try done; try lia.
      rewrite Z.add_comm in Hr, Hz. exists r. split; [done|]. split; [done|]. apply Hzero; [done|lia..].
    + destruct (add_ordered a b ma mb ea eb) as (r & -> & Hr & Hz & _); try done; try lia.
      exists r. split; [done|]. split; [done|]. apply Hzero; [done|lia..].
Qed.
