(* ===== verification/SoftFloatArith.v ===== *)
(** * Soft-float arithmetic: the claims

    The finite case of every operation, assembled from [SoftFloatCorrect],
    and the special operands: infinities and NaNs. *)

From S2P Require Import Prelude FloatSpec SoftFloat SoftFloatCorrect.

(** ** Special operands *)

Lemma finite_or_special x : 0 <= x < 2 ^ 64 -> dfinite x \/ dinf x \/ dnan x.
Proof. intros Hx. unfold dfinite, dinf, dnan. lia. Qed.

Lemma mod63_range x : 0 <= x mod 2 ^ 63 < 2 ^ 63.
Proof. apply Z.mod_pos_bound. lia. Qed.

Lemma special_field x : DINF <= x mod 2 ^ 63 ->
  x mod 2 ^ 63 / 2 ^ 52 = 0x7FF /\ (x mod 2 ^ 63) mod 2 ^ 52 = x mod 2 ^ 63 - DINF.
Proof.
  intros H. pose proof (mod63_range x). unfold DINF in *.
  split; [symmetry; apply Z.div_unique with (x mod 2 ^ 63 - DINF)
         |symmetry; apply Z.mod_unique with 0x7FF]; unfold DINF; lia.
Qed.

Lemma df_unpack_special x : 0 <= x < 2 ^ 64 -> DINF <= x mod 2 ^ 63 ->
  df_unpack x = Some (Unpacked false (b2z (dneg x)) 0x7FFF (x mod 2 ^ 63 - DINF)).
Proof.
  intros Hx Hs. unfold df_unpack. rewrite df_frac, df_field, df_signw, sign_cases by done.
  destruct (fields_mod63 x Hx) as [-> ->]. destruct (special_field x Hs) as [-> ->]. done.
Qed.

Lemma unpack_inf x : dinf x -> df_unpack x = Some (Unpacked false (b2z (dneg x)) 0x7FFF 0).
Proof. intros [Hx E]. rewrite df_unpack_special, E by (done || lia). done. Qed.

Lemma unpack_nan x : dnan x ->
  exists m, df_unpack x = Some (Unpacked false (b2z (dneg x)) 0x7FFF m) /\ truthy m = true.
Proof.
  intros [Hx E]. exists (x mod 2 ^ 63 - DINF). rewrite df_unpack_special by (done || lia). split; [done|].
  unfold truthy. destruct (Z.eqb_spec (x mod 2 ^ 63 - DINF) 0); [lia|done].
Qed.

Lemma lor_ge a b : 0 <= a -> 0 <= b -> a <= Z.lor a b.
Proof.
  intros Ha Hb. pose proof (Z.add_lor_land a b) as E.
  assert (Z.land a b <= b); [|lia]. replace b with (Z.land a b + Z.land (Z.lnot a) b) at 2.
  - assert (0 <= Z.land (Z.lnot a) b) by (apply Z.land_nonneg; lia). lia.
  - pose proof (Z.add_lor_land (Z.land a b) (Z.land (Z.lnot a) b)) as E2.
    assert (Z.land (Z.land a b) (Z.land (Z.lnot a) b) = 0) as Z0.
    { apply Z.bits_inj'. intros i Hi. rewrite !Z.land_spec, Z.lnot_spec, Z.bits_0 by lia.
      by destruct (Z.testbit a i), (Z.testbit b i). }
    assert (Z.lor (Z.land a b) (Z.land (Z.lnot a) b) = b) as Z1.
    { apply Z.bits_inj'. intros i Hi. rewrite Z.lor_spec, !Z.land_spec, Z.lnot_spec by lia.
      by destruct (Z.testbit a i), (Z.testbit b i). }
    lia.
Qed.

Lemma quiet_nan x : dnan x -> dnan (Z.lor x D_QUIET).
Proof.
  intros [Hx Hn].
  assert (Z.lor x D_QUIET mod 2 ^ 64 = Z.lor x D_QUIET) as E64.
  { rewrite <- (Z.mod_small x (2 ^ 64)) at 2 by done. change D_QUIET with (D_QUIET mod 2 ^ 64) at 2. zbits. }
  split; [rewrite <- E64; apply Z.mod_pos_bound; lia|].
  assert (Z.lor x D_QUIET mod 2 ^ 63 = Z.lor (x mod 2 ^ 63) D_QUIET) as ->.
  { change D_QUIET with (D_QUIET mod 2 ^ 63) at 2. zbits. }
  pose proof (lor_ge (x mod 2 ^ 63) D_QUIET). unfold D_QUIET, DINF in *. lia.
Qed.

Lemma default_nan : dnan (Z.lor D_EXP D_QUIET).
Proof. split; vm_compute; intuition discriminate. Qed.

Lemma signed_inf b : dinf (Z.lor (sign_bit (b2z b)) D_EXP) /\ dneg (Z.lor (sign_bit (b2z b)) D_EXP) = b.
Proof. destruct b; (split; [split; vm_compute; intuition discriminate|reflexivity]). Qed.

Lemma signed_zero b : dval (sign_bit (b2z b)) = 0 /\ dneg (sign_bit (b2z b)) = b /\ dfinite (sign_bit (b2z b)).
Proof. destruct b; repeat split; vm_compute; intuition discriminate. Qed.

(** ** Subtraction *)

Lemma flip_mod63 b : 0 <= b < 2 ^ 64 ->
  Z.lxor b D_SIGN mod 2 ^ 63 = b mod 2 ^ 63 /\ dneg (Z.lxor b D_SIGN) = negb (dneg b) /\
  0 <= Z.lxor b D_SIGN < 2 ^ 64.
Proof.
  intros Hb. split; [|split].
  - apply Z.bits_inj'. intros i Hi. rewrite !Z.testbit_mod_pow2, Z.lxor_spec by lia.
    change D_SIGN with (2 ^ 63). rewrite Z.pow2_bits_eqb by lia.
    destruct (Z.ltb_spec i 63), (Z.eqb_spec 63 i); cbn [andb]; lia || done || by rewrite xorb_false_r.
  - unfold dneg. rewrite Z.lxor_spec. change (Z.testbit D_SIGN 63) with true. by destruct (Z.testbit b 63).
  - assert (Z.lxor b D_SIGN mod 2 ^ 64 = Z.lxor b D_SIGN) as <-; [|apply Z.mod_pos_bound; lia].
    rewrite <- (Z.mod_small b (2 ^ 64)) at 2 by done. change D_SIGN with (D_SIGN mod 2 ^ 64) at 2. zbits.
Qed.

Lemma flip_finite b : dfinite b -> dfinite (Z.lxor b D_SIGN) /\ dval (Z.lxor b D_SIGN) = - dval b.
Proof.
  intros [Hb Hf]. destruct (flip_mod63 b Hb) as (E & N & R). split; [split; [done|by rewrite E]|].
  unfold dval, dmag. rewrite E, N. destruct (dneg b); cbn [negb]; lia.
Qed.

(** ** Classification *)

Definition disnan (x : Z) : bool := DINF <? x mod 2 ^ 63.
Definition disinf (x : Z) : bool := x mod 2 ^ 63 =? DINF.
Definition diszero (x : Z) : bool := x mod 2 ^ 63 =? 0.

Lemma diszero_mag x : diszero x = (dmag x =? 0).
Proof.
  unfold diszero, dmag. pose proof (mod63_range x) as H. set (y := x mod 2 ^ 63) in *.
  destruct (Z.eqb_spec y 0) as [->|Hy]; [done|].
  destruct (Z.eqb_spec (fmag 52 y) 0) as [E|]; [|done].
  destruct Hy. apply (fmag_inj 52); try done. lia.
Qed.

(** Exactly one class holds, and [disinf]/[disnan] read off what
    [df_unpack] returns. *)
Lemma unpack_view x : 0 <= x < 2 ^ 64 -> exists z e m,
  df_unpack x = Some (Unpacked z (b2z (dneg x)) e m) /\ z = diszero x /\
  (e =? 0x7FFF) = disnan x || disinf x /\ (truthy m = true -> e = 0x7FFF -> disnan x = true) /\
  (disnan x = true -> truthy m = true /\ disinf x = false /\ diszero x = false) /\
  (disinf x = true -> diszero x = false).
Proof.
  intros Hx. pose proof (mod63_range x) as Hr.
  assert ((disnan x = true -> disinf x = false /\ diszero x = false) /\ (disinf x = true -> diszero x = false)) as [Hn Hi].
  { unfold disnan, disinf, diszero, DINF in *. split; intros; lia. }
  destruct (finite_or_special x Hx) as [F|[I|N]].
  - destruct (df_unpack_finite x F) as (u & -> & U).
    assert (disnan x = false /\ disinf x = false) as [-> ->].
    { destruct F. unfold disnan, disinf in *. lia. }
    destruct U as [Z0|e m P M R E]; do 3 eexists; (split; [done|]); rewrite diszero_mag.
    + rewrite Z0. repeat split; done.
    + destruct (Z.eqb_spec (dmag x) 0); [lia|]. destruct (Z.eqb_spec e 0x7FFF); [lia|]. repeat split; lia || done.
  - rewrite unpack_inf by done. do 3 eexists. split; [done|]. destruct I as [_ I].
    unfold disnan, disinf, diszero in *. rewrite I in *. repeat split; done.
  - destruct (unpack_nan x N) as (m & -> & Hm). do 3 eexists. split; [done|]. destruct N as [_ N].
    assert (disnan x = true) as E by (unfold disnan; lia). rewrite E. destruct (Hn E) as [-> ->]. repeat split; done.
Qed.

Lemma class_finite x : 0 <= x < 2 ^ 64 -> disnan x || disinf x = false -> dfinite x.
Proof. unfold disnan, disinf, dfinite. lia. Qed.

Lemma class_nan x : 0 <= x < 2 ^ 64 -> disnan x = true -> dnan x.
Proof. unfold disnan, dnan. lia. Qed.

Lemma class_inf x : 0 <= x < 2 ^ 64 -> disinf x = true -> dinf x.
Proof. unfold disinf, dinf. lia. Qed.

(** The outcome of a special case: a NaN, a signed infinity or a signed
    zero. *)
Inductive outcome : Type := ONan | OInf (neg : bool) | OZero (neg : bool) | OSame (x : Z).

Definition is_outcome (r : Z) (o : outcome) : Prop :=
  match o with
  | ONan => dnan r
  | OInf s => dinf r /\ dneg r = s
  | OZero s => dfinite r /\ dval r = 0 /\ dneg r = s
  | OSame x => r = x
  end.

Definition mul_special (a b : Z) : outcome :=
  if disnan a || disnan b || (disinf a && diszero b) || (disinf b && diszero a) then ONan
  else OInf (xorb (dneg a) (dneg b)).

Definition div_special (a b : Z) : outcome :=
  if disnan a || disnan b || (disinf a && disinf b) || (diszero a && diszero b) then ONan
  else if disinf a || diszero b then OInf (xorb (dneg a) (dneg b))
  else OZero (xorb (dneg a) (dneg b)).

Definition add_special (a b : Z) : outcome :=
  if disnan a || disnan b || (disinf a && disinf b && xorb (dneg a) (dneg b)) then ONan
  else OSame (if disinf a then a else b).

Definition special (x : Z) : bool := disnan x || disinf x.

Ltac outcome_done :=
  lazymatch goal with
  | |- exists r, Some ?x = Some r /\ _ => exists x; split; [done|]; cbn [is_outcome]
  end;
  first [apply default_nan | apply signed_inf | apply quiet_nan; by apply class_nan
    | match goal with |- context [sign_bit (b2z ?c)] => destruct (signed_zero c) as (? & ? & ?); done end
    | done ].

(** Unpack both operands and split on their classes. *)
Ltac special_cases a Va b Vb :=
  let za := fresh "za" in let ea := fresh "ea" in let ma := fresh "ma" in
  let zb := fresh "zb" in let eb := fresh "eb" in let mb := fresh "mb" in
  destruct Va as (za & ea & ma & -> & -> & ?Sa & ?Ta & ?Na & ?Ia);
  destruct Vb as (zb & eb & mb & -> & -> & ?Sb & ?Tb & ?Nb & ?Ib);
  cbn [mbind option_bind]; rewrite ?xor_signs;
  destruct (Z.eqb_spec ea 0x7FFF), (disnan a) eqn:?, (disinf a) eqn:?; try discriminate;
  destruct (Z.eqb_spec eb 0x7FFF), (disnan b) eqn:?, (disinf b) eqn:?; try discriminate;
  destruct (truthy ma) eqn:?, (truthy mb) eqn:?, (diszero a) eqn:?, (diszero b) eqn:?;
  cbn [orb andb negb b2z xorb Bool.eqb Z.eqb Pos.eqb] in *; try discriminate;
  try (exfalso; intuition congruence).

Lemma muldf3_special a b : 0 <= a < 2 ^ 64 -> 0 <= b < 2 ^ 64 -> special a || special b = true ->
  exists r, __muldf3 a b = Some r /\ is_outcome r (mul_special a b).
Proof.
  intros Ha Hb HS. unfold __muldf3, mul_special, special in *.
  pose proof (unpack_view a Ha) as Va. pose proof (unpack_view b Hb) as Vb.
  special_cases a Va b Vb; outcome_done.
Qed.

Lemma divdf3_special a b : 0 <= a < 2 ^ 64 -> 0 <= b < 2 ^ 64 ->
  special a || special b || diszero b = true ->
  exists r, __divdf3 a b = Some r /\ is_outcome r (div_special a b).
Proof.
  intros Ha Hb HS. unfold __divdf3, div_special, special in *.
  pose proof (unpack_view a Ha) as Va. pose proof (unpack_view b Hb) as Vb.
  special_cases a Va b Vb; outcome_done.
Qed.

Lemma adddf3_special a b : 0 <= a < 2 ^ 64 -> 0 <= b < 2 ^ 64 -> special a || special b = true ->
  disinf a && disnan b && Bool.eqb (dneg a) (dneg b) = false ->
  exists r, __adddf3 a b = Some r /\ is_outcome r (add_special a b).
Proof.
  intros Ha Hb HS HX. unfold __adddf3, add_special, special in *.
  pose proof (unpack_view a Ha) as Va. pose proof (unpack_view b Hb) as Vb.
  destruct (dneg a), (dneg b); special_cases a Va b Vb; outcome_done.
Qed.

(** The missing case: the NaN test of the second operand is not reached. *)
Lemma adddf3_inf_nan a b : dinf a -> dnan b -> dneg a = dneg b -> __adddf3 a b = Some a.
Proof.
  intros Ha Hb E. unfold __adddf3. rewrite (unpack_inf a) by done.
  destruct (unpack_nan b Hb) as (m & -> & _). cbn [mbind option_bind]. by rewrite E, !Z.eqb_refl.
Qed.

(** ** Claims *)

(** C2: addition and subtraction of finite doubles return the correctly
    rounded (nearest, ties to even, overflowing to infinity) exact sum or
    difference, and a zero result has IEEE's sign: negative only when both
    addends are. *)
Theorem adddf3_subdf3_correct a b : dfinite a -> dfinite b ->
  (exists r, __adddf3 a b = Some r /\ drounds (dval a + dval b) 1 r /\
     (dval a + dval b = 0 -> dneg r = dneg a && dneg b)) /\
  (exists r, __subdf3 a b = Some r /\ drounds (dval a - dval b) 1 r /\
     (dval a - dval b = 0 -> dneg r = dneg a && negb (dneg b))).
Proof.
  intros Ha Hb. split; [by apply adddf3_finite|].
  destruct (flip_finite b Hb) as [Hf E]. pose proof (flip_mod63 b (proj1 Hb)) as (_ & N & _).
  rewrite <- N, <- Z.add_opp_r, <- E. by apply adddf3_finite.
Qed.

(** 1.5 + 0.1 and the tie 2^53 + 1. *)
Lemma adddf3_subdf3_correct_witness :
  dfinite 0x3FF8000000000000 /\ dfinite 0x3FB999999999999A /\
  (exists r, __adddf3 0x3FF8000000000000 0x3FB999999999999A = Some r /\
     drounds (dval 0x3FF8000000000000 + dval 0x3FB999999999999A) 1 r).
Proof.
  assert (dfinite 0x3FF8000000000000) as Ha by (split; vm_compute; intuition discriminate).
  assert (dfinite 0x3FB999999999999A) as Hb by (split; vm_compute; intuition discriminate).
  split; [exact Ha|]. split; [exact Hb|].
  destruct (adddf3_subdf3_correct 0x3FF8000000000000 0x3FB999999999999A Ha Hb) as [(r & Er & Hr & _) _].
  exists r. split; [exact Er|exact Hr].
Defined.

(** C3: multiplication of finite doubles returns the correctly rounded exact
    product, with the exclusive-or of the signs. *)
Theorem muldf3_correct a b : dfinite a -> dfinite b ->
  exists r, __muldf3 a b = Some r /\ drounds (dval a * dval b) (2 ^ 1074) r /\
    dneg r = xorb (dneg a) (dneg b).
Proof. apply muldf3_finite. Qed.

(** A product of subnormal size: 2^-1000 * 1.5 * 2^-60. *)
Lemma muldf3_correct_witness :
  dfinite 0x0170000000000000 /\ dfinite 0x3C38000000000000 /\
  exists r, __muldf3 0x0170000000000000 0x3C38000000000000 = Some r /\
    drounds (dval 0x0170000000000000 * dval 0x3C38000000000000) (2 ^ 1074) r /\
    dneg r = xorb (dneg 0x0170000000000000) (dneg 0x3C38000000000000).
Proof.
  assert (dfinite 0x0170000000000000) as Ha by (split; vm_compute; intuition discriminate).
  assert (dfinite 0x3C38000000000000) as Hb by (split; vm_compute; intuition discriminate).
  split; [exact Ha|]. split; [exact Hb|].
  exact (muldf3_correct 0x0170000000000000 0x3C38000000000000 Ha Hb).
Defined.

(** C6: division of finite doubles by a nonzero one returns the correctly
    rounded exact quotient, with the exclusive-or of the signs. *)
Theorem divdf3_correct a b : dfinite a -> dfinite b -> dval b <> 0 ->
  exists r, __divdf3 a b = Some r /\
    drounds (Z.sgn (dval b) * dval a * 2 ^ 1074) (Z.abs (dval b)) r /\
    dneg r = xorb (dneg a) (dneg b).
Proof. apply divdf3_finite. Qed.

(** 1.0 / -3.0 *)
Lemma divdf3_correct_witness :
  dfinite 0x3FF0000000000000 /\ dfinite 0xC008000000000000 /\ dval 0xC008000000000000 <> 0 /\
  exists r, __divdf3 0x3FF0000000000000 0xC008000000000000 = Some r /\
    drounds (Z.sgn (dval 0xC008000000000000) * dval 0x3FF0000000000000 * 2 ^ 1074)
      (Z.abs (dval 0xC008000000000000)) r /\
    dneg r = xorb (dneg 0x3FF0000000000000) (dneg 0xC008000000000000).
Proof.
  assert (dfinite 0x3FF0000000000000) as Ha by (split; vm_compute; intuition discriminate).
  assert (dfinite 0xC008000000000000) as Hb by (split; vm_compute; intuition discriminate).
  assert (dval 0xC008000000000000 <> 0) as Hn by (vm_compute; discriminate).
  split; [exact Ha|]. split; [exact Hb|]. split; [exact Hn|].
  exact (divdf3_correct 0x3FF0000000000000 0xC008000000000000 Ha Hb Hn).
Defined.

Lemma adddf3_special_all a b : 0 <= a < 2 ^ 64 -> 0 <= b < 2 ^ 64 -> special a || special b = true ->
  exists r, __adddf3 a b = Some r /\
    is_outcome r (if disinf a && disnan b && Bool.eqb (dneg a) (dneg b) then OSame a else add_special a b).
Proof.
  intros Ha Hb HS.
  destruct (disinf a && disnan b && Bool.eqb (dneg a) (dneg b)) eqn:E; [|by apply adddf3_special].
  apply andb_prop in E as [E1 E3]. apply andb_prop in E1 as [E1 E2]. apply eqb_prop in E3.
  exists a. split; [|done]. apply adddf3_inf_nan; [by apply class_inf|by apply class_nan|done].
Qed.

(** C38: infinities, NaNs and division by zero: multiplication and division
    return IEEE's NaN, signed infinity or signed zero; addition returns a NaN
    or the infinite operand, except that an infinity plus a NaN of the same
    sign returns the infinity, dropping the NaN. *)
Theorem arithmetic_specials a b : 0 <= a < 2 ^ 64 -> 0 <= b < 2 ^ 64 ->
  (special a || special b = true ->
     exists r, __muldf3 a b = Some r /\ is_outcome r (mul_special a b)) /\
  (special a || special b || diszero b = true ->
     exists r, __divdf3 a b = Some r /\ is_outcome r (div_special a b)) /\
  (special a || special b = true ->
     exists r, __adddf3 a b = Some r /\
       is_outcome r (if disinf a && disnan b && Bool.eqb (dneg a) (dneg b) then OSame a
                     else add_special a b)).
Proof.
  intros Ha Hb. split; [by apply muldf3_special|]. split; [by apply divdf3_special|]. by apply adddf3_special_all.
Qed.

(** Infinity times zero, one over zero, and infinity plus a NaN. *)
Lemma arithmetic_specials_witness :
  (exists r, __muldf3 D_EXP 0 = Some r /\ dnan r) /\
  (exists r, __divdf3 0xBFF0000000000000 0 = Some r /\ dinf r /\ dneg r = true) /\
  (exists r, __adddf3 D_EXP (D_EXP + 5) = Some r /\ r = D_EXP).
Proof.
  assert (forall x y, (0 <=? x) = true -> (x <? 2 ^ 64) = true -> (0 <=? y) = true -> (y <? 2 ^ 64) = true ->
    0 <= x < 2 ^ 64 /\ 0 <= y < 2 ^ 64) as R by lia.
  split; [|split].
  - destruct (R D_EXP 0 eq_refl eq_refl eq_refl eq_refl) as [Ra Rb].
    exact (proj1 (arithmetic_specials _ _ Ra Rb) eq_refl).
  - destruct (R 0xBFF0000000000000 0 eq_refl eq_refl eq_refl eq_refl) as [Ra Rb].
    exact (proj1 (proj2 (arithmetic_specials _ _ Ra Rb)) eq_refl).
  - destruct (R D_EXP (D_EXP + 5) eq_refl eq_refl eq_refl eq_refl) as [Ra Rb].
    exact (proj2 (proj2 (arithmetic_specials _ _ Ra Rb)) eq_refl).
Defined.
