(* ===== verification/SoftFloatConv.v ===== *)
(** * Soft-float compares and conversions

    The comparison functions against the order of the exact values, the
    conversions between [double], [float] and [int]. *)

From S2P Require Import Prelude FloatSpec SoftFloat SoftFloatCorrect SoftFloatArith.

(** ** NaN test *)

Lemma df_is_nan_spec x : 0 <= x < 2 ^ 64 -> df_is_nan x = disnan x.
Proof.
  intros Hx. unfold df_is_nan, disnan.
  assert (u32 (Z.shiftr x 32) = x / 2 ^ 32) as ->.
  { rewrite shiftr_div by lia. apply u32_small. split; [apply Z.div_pos; lia|apply Z.div_lt_upper_bound; lia]. }
  assert (Z.land (x / 2 ^ 32) 0x7FF00000 = (x mod 2 ^ 63 / 2 ^ 52) * 2 ^ 20) as ->.
  { rewrite <- shiftl_mul, <- !shiftr_div by lia. change 0x7FF00000 with (Z.shiftl (2 ^ 11 - 1) 20). zbits. }
  change 0x000FFFFF with (2 ^ 20 - 1). rewrite land_mask by lia.
  assert (u32 x = x mod 2 ^ 32) as -> by done.
  assert ((x mod 2 ^ 63) mod 2 ^ 52 = (x / 2 ^ 32) mod 2 ^ 20 * 2 ^ 32 + x mod 2 ^ 32) as E.
  { destruct (fields_mod63 x Hx) as [_ <-]. change (2 ^ 52) with (2 ^ 32 * 2 ^ 20). rewrite Z.rem_mul_r by lia. lia. }
  pose proof (mod63_range x) as Hr. set (y := x mod 2 ^ 63) in *.
  pose proof (Z.mod_pos_bound x (2 ^ 32) ltac:(lia)). pose proof (Z.mod_pos_bound (x / 2 ^ 32) (2 ^ 20) ltac:(lia)).
  pose proof (Z.div_mod y (2 ^ 52) ltac:(lia)) as D. pose proof (Z.mod_pos_bound y (2 ^ 52) ltac:(lia)).
  unfold DINF, truthy in *. change 0x7FF00000 with (0x7FF * 2 ^ 20).
  destruct (Z.eqb_spec (y / 2 ^ 52 * 2 ^ 20) (0x7FF * 2 ^ 20)); cbn [negb].
  - destruct (Z.eqb_spec ((x / 2 ^ 32) mod 2 ^ 20) 0), (Z.eqb_spec (x mod 2 ^ 32) 0); cbn [negb orb]; lia.
  - lia.
Qed.

(** ** The order key *)

(** What the code compares: the pattern with the sign bit flipped, or its
    complement when negative. *)
Definition cmp_key (x : Z) : Z :=
  let x := if u64 (Z.shiftl x 1) =? 0 then 0 else x in
  if truthy (Z.shiftr x 63) then unot 64 x else Z.lxor x D_SIGN.

Lemma cmp_key_spec x : 0 <= x < 2 ^ 64 ->
  cmp_key x = if dneg x && negb (diszero x) then 2 ^ 63 - 1 - x mod 2 ^ 63 else 2 ^ 63 + x mod 2 ^ 63.
Proof.
  intros Hx. unfold cmp_key.
  assert ((u64 (Z.shiftl x 1) =? 0) = diszero x) as ->.
  { rewrite shiftl_mul by lia. unfold u64, diszero. change (2 ^ 64) with (2 ^ 63 * 2 ^ 1).
    rewrite Z.mul_mod_distr_r by lia.
    destruct (Z.eqb_spec (x mod 2 ^ 63 * 2 ^ 1) 0), (Z.eqb_spec (x mod 2 ^ 63) 0); lia. }
  pose proof (pattern_eq x Hx) as E. pose proof (mod63_range x) as Hr.
  destruct (diszero x) eqn:Z0; [|rewrite andb_true_r].
  - unfold diszero in Z0. rewrite andb_false_r. apply Z.eqb_eq in Z0. rewrite Z0. done.
  - rewrite shiftr_div, sign_cases by lia. destruct (dneg x) eqn:N; cbn [b2z] in *.
    + cbn. unfold unot. lia.
    + cbn [truthy Z.eqb negb].
      replace (Z.lxor x D_SIGN) with (Z.lor x (1 * 2 ^ 63)); [rewrite lor_add_disjoint by lia; lia|].
      change D_SIGN with (1 * 2 ^ 63). apply Z.bits_inj'. intros i Hi. rewrite Z.lor_spec, Z.lxor_spec.
      rewrite Z.mul_1_l, Z.pow2_bits_eqb by lia. destruct (Z.eqb_spec 63 i) as [<-|].
      * unfold dneg in N. by rewrite N.
      * by rewrite orb_false_r, xorb_false_r.
Qed.

Lemma cmp_key_order a b : 0 <= a < 2 ^ 64 -> 0 <= b < 2 ^ 64 -> cmp_key a < cmp_key b <-> dval a < dval b.
Proof.
  intros Ha Hb. rewrite !cmp_key_spec, !diszero_mag by done.
  pose proof (mod63_range a). pose proof (mod63_range b).
  assert (forall x y, 0 <= x -> 0 <= y -> x < y <-> fmag 52 x < fmag 52 y) as Hm.
  { intros x y Hx Hy. split; [apply fmag_mono; done|].
    intros. destruct (Z.le_gt_cases y x); [|done]. pose proof (fmag_mono_le 52 M52 y x). lia. }
  assert (forall x, 0 <= x -> 0 <= fmag 52 x /\ (fmag 52 x = 0 <-> x = 0)) as Hz.
  { intros x Hx. split; [by apply fmag_nonneg|]. split; [|by intros ->].
    intros E. apply (fmag_inj 52); done. }
  unfold dval, dmag. set (x := a mod 2 ^ 63) in *. set (y := b mod 2 ^ 63) in *.
  pose proof (Hm x y). pose proof (Hm y x). pose proof (Hz x). pose proof (Hz y).
  destruct (dneg a), (dneg b), (Z.eqb_spec (fmag 52 x) 0), (Z.eqb_spec (fmag 52 y) 0); cbn [negb andb]; lia.
Qed.

Lemma df_cmp3way_spec a b n : 0 <= a < 2 ^ 64 -> 0 <= b < 2 ^ 64 ->
  df_cmp3way a b n =
    if disnan a || disnan b then n
    else match dval a ?= dval b with Lt => -1 | Eq => 0 | Gt => 1 end.
Proof.
  intros Ha Hb. unfold df_cmp3way. rewrite !df_is_nan_spec by done.
  fold (cmp_key a) (cmp_key b). cbv zeta.
  pose proof (cmp_key_order a b Ha Hb). pose proof (cmp_key_order b a Hb Ha).
  destruct (disnan a || disnan b); [done|].
  destruct (Z.ltb_spec (cmp_key a) (cmp_key b)), (Z.ltb_spec (cmp_key b) (cmp_key a)),
    (Z.compare_spec (dval a) (dval b)); lia || done.
Qed.

(** ** [float] to [double] *)

Lemma sneg_bit a : 0 <= a < 2 ^ 32 -> Z.land a 0x80000000 = b2z (sneg a) * 2 ^ 31.
Proof.
  intros Ha. change 0x80000000 with (2 ^ 31). unfold sneg.
  pose proof (truthy_land_bit a 31 ltac:(lia)) as T. unfold truthy in T.
  apply Z.bits_inj'. intros i Hi. rewrite Z.land_spec, Z.mul_pow2_bits, Z.pow2_bits_eqb by lia.
  destruct (Z.eqb_spec 31 i) as [<-|].
  - rewrite andb_true_r. by destruct (Z.testbit a 31).
  - rewrite andb_false_r. symmetry. destruct (Z.ltb_spec i 31); [apply Z.testbit_neg_r; lia|].
    apply testbit_high with 1; [destruct (Z.testbit a 31); cbn; lia|lia].
Qed.

Lemma smag_fields a : 0 <= a < 2 ^ 32 ->
  Z.land (Z.shiftr a 23) 0xFF = a mod 2 ^ 31 / 2 ^ 23 /\ Z.land a 0x007FFFFF = (a mod 2 ^ 31) mod 2 ^ 23.
Proof.
  intros Ha. change 0xFF with (2 ^ 8 - 1). change 0x007FFFFF with (2 ^ 23 - 1).
  rewrite !land_mask, shiftr_div by lia. change (2 ^ 31) with (2 ^ 23 * 2 ^ 8). rewrite Z.rem_mul_r by lia. split.
  - rewrite Z.add_comm, Z.mul_comm, Z.div_add_l by lia.
    rewrite (Z.div_small (a mod 2 ^ 23)) by (apply Z.mod_pos_bound; lia). lia.
  - rewrite Z.mul_comm, Z_mod_plus_full, Z.mod_mod by lia. done.
Qed.

(** Assembling a pattern from its three fields. *)
Lemma join_fields b e m : 0 <= e <= 0x7FF -> 0 <= m < 2 ^ 52 ->
  Z.lor (Z.lor (sign_bit (b2z b)) (u64 (Z.shiftl e 52))) m = b2z b * 2 ^ 63 + (e * 2 ^ 52 + m).
Proof.
  intros He Hm. rewrite <- Z.lor_assoc, shiftl_mul, u64_small, lor_add_disjoint' by lia.
  by rewrite lor_sign by lia.
Qed.

Lemma wide_sign a : 0 <= a < 2 ^ 32 -> u64 (Z.shiftl (Z.land a 0x80000000) 32) = sign_bit (b2z (sneg a)).
Proof. intros Ha. rewrite sneg_bit by done. by destruct (sneg a). Qed.

Definition sinf (x : Z) : Prop := 0 <= x < 2 ^ 32 /\ x mod 2 ^ 31 = FINF.
Definition snan (x : Z) : Prop := 0 <= x < 2 ^ 32 /\ FINF < x mod 2 ^ 31.
Definition sfinite (x : Z) : Prop := 0 <= x < 2 ^ 32 /\ x mod 2 ^ 31 < FINF.

(** A normalised significand [q] of 24 bits, as a [double]. *)
Lemma widen b E q : 0 <= E <= 0x7FE - 1 -> 2 ^ 23 <= q < 2 ^ 24 ->
  let r := Z.lor (Z.lor (sign_bit (b2z b)) (u64 (Z.shiftl (E + 1) 52))) (u64 (Z.shiftl (q - 2 ^ 23) 29)) in
  dfinite r /\ dmag r = q * 2 ^ 29 * 2 ^ E /\ dneg r = b.
Proof.
  intros HE Hq r. subst r. rewrite (shiftl_mul (q - 2 ^ 23)), (u64_small ((q - 2 ^ 23) * 2 ^ 29)) by lia.
  rewrite join_fields by lia. set (y := (E + 1) * 2 ^ 52 + (q - 2 ^ 23) * 2 ^ 29).
  destruct (join_sign b y) as (R1 & R2 & R3); [lia|]. split; [split; [done|rewrite R2; unfold DINF; lia]|].
  split; [|done]. unfold dmag. rewrite R2. unfold y.
  replace ((E + 1) * 2 ^ 52 + (q - 2 ^ 23) * 2 ^ 29) with (E * 2 ^ 52 + q * 2 ^ 29) by lia.
  apply fmag_pattern; lia.
Qed.

Lemma extendsfdf2_finite a : sfinite a ->
  exists r, __extendsfdf2 a = Some r /\ dfinite r /\ dmag r = smag a * 2 ^ 925 /\ dneg r = sneg a.
Proof.
  intros [Ha Hf]. unfold __extendsfdf2. destruct (smag_fields a Ha) as [-> ->].
  rewrite wide_sign by done.
  assert (smag a = fmag 23 (a mod 2 ^ 31)) as -> by done.
  pose proof (Z.mod_pos_bound a (2 ^ 31) ltac:(lia)) as Hy. set (y := a mod 2 ^ 31) in *.
  unfold FINF in Hf.
  pose proof (Z.div_mod y (2 ^ 23) ltac:(lia)) as Ey. pose proof (Z.mod_pos_bound y (2 ^ 23) ltac:(lia)).
  assert (0 <= y / 2 ^ 23 < 255) by lia. unfold fmag.
  set (e := y / 2 ^ 23) in *. set (f := y mod 2 ^ 23) in *. clearbody e f y.
  destruct (Z.eqb_spec e 0xFF); [lia|].
  destruct (Z.eqb_spec e 0) as [->|]; cbn [andb].
  - destruct (Z.ltb_spec y (2 ^ 23)); [|lia]. replace y with f by lia.
    destruct (Z.eqb_spec f 0) as [->|].
    + eexists. split; [done|]. destruct (signed_zero (sneg a)) as (V & N & F). split; [done|].
      split; [|done]. pose proof (dval_abs (sign_bit (b2z (sneg a)))). lia.
    + destruct (norm_loop f32_subnormal_round 23 1 32 f 0) as (q & k & -> & Hq & Hk & Eq); [|lia|lia|].
      { intros w k Hw. cbn [f32_subnormal_round]. change 0x00800000 with (2 ^ 23). rewrite top_bit_test by lia.
        by rewrite shiftl_mul, u32_small by (change (23 + 1) with 24 in *; lia). }
      change (23 + 1) with 24 in *. cbn [mbind option_bind]. eexists. split; [done|].
      change 0x007FFFFF with (2 ^ 23 - 1). rewrite land_mask by lia.
      replace (q mod 2 ^ 23) with (q - 2 ^ 23) by (apply Z.mod_unique with 1; lia).
      rewrite (u64_small (_ + 1023)) by lia.
      replace (-126 - (0 + 1 * k) + 1023) with (896 - k + 1) by lia.
      destruct (widen (sneg a) (896 - k) q) as (F & V & N); [lia|lia|]. split; [done|]. split; [|done].
      rewrite V, Eq. replace 925 with (k + 29 + (896 - k)) by lia. rewrite !Z.pow_add_r by lia. ring.
  - destruct (Z.ltb_spec y (2 ^ 23)); [lia|].
    eexists. split; [done|]. rewrite u32_small by lia.
    replace (e + (1023 - 127)) with (e + 895 + 1) by lia.
    replace f with (2 ^ 23 + f - 2 ^ 23) at 1 2 4 by lia.
    destruct (widen (sneg a) (e + 895) (2 ^ 23 + f)) as (F & V & N); [lia|lia|].
    split; [done|]. split; [|done]. rewrite V.
    replace (e + 895) with (e - 1 + 896) by lia. rewrite Z.pow_add_r by lia.
    change 925 with (29 + 896). rewrite Z.pow_add_r by lia. ring.
Qed.

Lemma extendsfdf2_special a : sinf a \/ snan a ->
  exists r, __extendsfdf2 a = Some r /\ dneg r = sneg a /\ (sinf a -> dinf r) /\ (snan a -> dnan r).
Proof.
  intros Hs. assert (0 <= a < 2 ^ 32 /\ FINF <= a mod 2 ^ 31) as [Ha Hf] by (destruct Hs as [[]|[]]; lia).
  unfold __extendsfdf2, sinf, snan. destruct (smag_fields a Ha) as [-> ->]. rewrite wide_sign by done.
  pose proof (Z.mod_pos_bound a (2 ^ 31) ltac:(lia)) as Hy. set (y := a mod 2 ^ 31) in *. unfold FINF in *.
  replace (y / 2 ^ 23) with 0xFF by (apply Z.div_unique with (y - 0x7F800000); lia).
  replace (y mod 2 ^ 23) with (y - 0x7F800000) by (apply Z.mod_unique with 0xFF; lia).
  cbn [Z.eqb Pos.eqb]. destruct (Z.eqb_spec (y - 0x7F800000) 0); (eexists; split; [done|]).
  - destruct (signed_inf (sneg a)) as [I N]. split; [done|]. split; [done|lia].
  - change D_EXP with (u64 (Z.shiftl 0x7FF 52)).
    rewrite (shiftl_mul (y - _)), (u64_small ((y - _) * _)), join_fields by lia.
    set (m := 0x7FF * 2 ^ 52 + (y - 0x7F800000) * 2 ^ 29).
    destruct (join_sign (sneg a) m) as (R1 & R2 & R3); [lia|].
    split; [|split; [lia|]].
    + unfold dneg in *. rewrite Z.lor_spec, R3. by rewrite orb_false_r.
    + intros _. apply quiet_nan. split; [done|]. rewrite R2. unfold DINF. lia.
Qed.

(** ** [double] to [float] *)

(** On a tie the pattern above is as near as the even one. *)
Lemma nearest_tie M top N D E q r : 0 < M -> 0 < D -> 0 <= E -> 0 <= q < 2 ^ (M + 1) ->
  E = 0 \/ 2 ^ M <= q -> E * 2 ^ M + q + 1 <= top ->
  2 * N = (2 * q + 1) * 2 ^ E * D ->
  r = E * 2 ^ M + q \/ r = E * 2 ^ M + q + 1 -> nearest M top N D r ->
  nearest M top N D (E * 2 ^ M + q + 1).
Proof.
  intros HM HD HE Hq Hn Ht T Hr [Hrt H]. destruct (fmag_step M HM E q HE Hq Hn) as [F0 F1].
  pose proof (pow2_pos M ltac:(lia)). split; [nia|]. intros p Hp. specialize (H p Hp).
  enough (Z.abs (N - fmag M (E * 2 ^ M + q + 1) * D) = Z.abs (N - fmag M r * D)) by lia.
  destruct Hr as [-> | ->]; [|done]. rewrite F0, F1. lia.
Qed.

(** The repeated one-bit shifts, in closed form. *)
Lemma trunc_shifts n q g s : 0 <= q ->
  nfold (S n) (fun _ => trunc_shift) (q, g, s) =
  (q / 2 ^ (Z.of_nat n + 1), Z.testbit q (Z.of_nat n), s || g || negb (q mod 2 ^ Z.of_nat n =? 0)).
Proof.
  intros Hq. induction n as [|n IH].
  - cbn [nfold trunc_shift]. rewrite shiftr_div by lia. change (2 ^ Z.of_nat 0) with 1. rewrite Z.mod_1_r.
    rewrite truthy_land_1. cbn. by rewrite orb_false_r.
  - cbn [nfold] in *. rewrite IH. cbn [trunc_shift]. rewrite Nat2Z.inj_succ. unfold Z.succ.
    set (k := Z.of_nat n) in *. pose proof (pow2_pos k ltac:(lia)).
    rewrite shiftr_div, truthy_land_1, div_pow2_pow2 by lia.
    rewrite (Z.testbit_odd q (k + 1)), shiftr_div by lia. f_equal.
    rewrite <- orb_assoc. f_equal.
    rewrite (Z.testbit_odd q k), shiftr_div, Z.pow_add_r, Z.rem_mul_r by lia. change (2 ^ 1) with 2.
    rewrite Zmod_odd. pose proof (Z.mod_pos_bound q (2 ^ k) ltac:(lia)).
    destruct (Z.odd (q / 2 ^ k)), (Z.eqb_spec (q mod 2 ^ k) 0); cbn [negb orb];
      match goal with |- context [?x =? 0] => destruct (Z.eqb_spec x 0) end; nia || done.
Qed.

(** The significand of the operand, whatever its class. *)
Lemma trunc_operand a : dfinite a -> dmag a <> 0 ->
  exists q re, (if Z.land (Z.shiftr a 52) 0x7FF =? 0
                then loop 64 trunc_norm_round (Z.land a D_FRAC, 1 - D_BIAS)
                else Some (Z.lor (Z.land a D_FRAC) D_IMPL, Z.land (Z.shiftr a 52) 0x7FF - D_BIAS)) = Some (q, re) /\
    2 ^ 52 <= q < 2 ^ 53 /\ -1074 <= re <= 1023 /\ dmag a * 2 ^ 52 = q * 2 ^ (re + 1074).
Proof.
  intros [Ha Hf] Hnz. rewrite df_frac, df_field. destruct (fields_mod63 a Ha) as [-> ->].
  assert (dmag a = fmag 52 (a mod 2 ^ 63)) as Hd by done. rewrite Hd in *. clear Hd.
  pose proof (mod63_range a) as Hy. set (y := a mod 2 ^ 63) in *. unfold DINF in Hf.
  pose proof (Z.div_mod y (2 ^ 52) ltac:(lia)) as Ey. pose proof (Z.mod_pos_bound y (2 ^ 52) ltac:(lia)).
  assert (0 <= y / 2 ^ 52 < 0x7FF) by lia. unfold fmag in *. unfold D_BIAS.
  set (e := y / 2 ^ 52) in *. set (f := y mod 2 ^ 52) in *. clearbody e f y.
  destruct (Z.eqb_spec e 0) as [->|].
  - destruct (Z.ltb_spec y (2 ^ 52)); [|lia]. replace y with f in * by lia.
    destruct (norm_loop trunc_norm_round 52 (-1) 64 f (1 - 1023)) as (q & k & -> & Hq & Hk & Eq); [|lia|lia|].
    { intros w k Hw. cbn [trunc_norm_round]. change D_IMPL with (2 ^ 52). rewrite top_bit_test by lia.
      rewrite shiftl_mul, u64_small by (change (52 + 1) with 53 in *; lia).
      by replace (k - 1) with (k + -1) by lia. }
    eexists q, _. split; [done|]. split; [done|]. split; [lia|].
    rewrite Eq, <- Z.mul_assoc, <- Z.pow_add_r by lia. do 2 f_equal. lia.
  - destruct (Z.ltb_spec y (2 ^ 52)); [lia|]. eexists _, _. split; [done|].
    change D_IMPL with (1 * 2 ^ 52). rewrite lor_add_disjoint by lia. split; [lia|]. split; [lia|].
    rewrite Z.mul_comm. replace (e - 1023 + 1074) with (52 + (e - 1)) by lia. rewrite Z.pow_add_r by lia. ring.
Qed.

Lemma lor_sign32 b r : 0 <= r < 2 ^ 31 -> Z.lor (b2z b * 2 ^ 31) r = b2z b * 2 ^ 31 + r.
Proof. intros. apply lor_add_disjoint'; lia. Qed.

(** Encoding a rounded normal significand: a carry moves to the exponent. *)
Lemma encode_normal b fe q (up : bool) : -126 <= fe <= 1023 -> 2 ^ 23 <= q < 2 ^ 24 ->
  (let '(q24, fe, subnormal_out) :=
     if up then
       let q24 := u64 (q + 1) in
       if q24 =? u64 (Z.shiftl 1 24) then (Z.shiftr q24 1, fe + 1, false) else (q24, fe, false)
     else (q, fe, false) in
   if 127 <? fe then Z.lor (b2z b * 2 ^ 31) 0x7F800000
   else if subnormal_out : bool then if q24 =? 0 then b2z b * 2 ^ 31 else Z.lor (b2z b * 2 ^ 31) (u32 q24)
   else if q24 =? 0 then b2z b * 2 ^ 31
   else Z.lor (Z.lor (b2z b * 2 ^ 31) (u32 (Z.shiftl (u32 (fe + 127)) 23))) (u32 (Z.land q24 0x007FFFFF))) =
  b2z b * 2 ^ 31 + Z.min ((fe + 126) * 2 ^ 23 + q + b2z up) FINF.
Proof.
  intros Hfe Hq. unfold FINF.
  assert (forall fe q, -126 <= fe <= 127 -> 2 ^ 23 <= q < 2 ^ 24 ->
    Z.lor (Z.lor (b2z b * 2 ^ 31) (u32 (Z.shiftl (u32 (fe + 127)) 23))) (u32 (Z.land q 0x007FFFFF)) =
    b2z b * 2 ^ 31 + ((fe + 126) * 2 ^ 23 + q)) as Henc.
  { clear. intros fe q Hfe Hq. change 0x007FFFFF with (2 ^ 23 - 1). rewrite land_mask by lia.
    replace (q mod 2 ^ 23) with (q - 2 ^ 23) by (apply Z.mod_unique with 1; lia).
    rewrite (u32_small (fe + 127)), shiftl_mul, !u32_small by lia.
    rewrite <- Z.lor_assoc, (lor_add_disjoint' (q - 2 ^ 23) (fe + 127) 23), lor_sign32 by lia. lia. }
  change (u64 (Z.shiftl 1 24)) with (2 ^ 24).
  destruct up; cbn [b2z]; cbv zeta.
  - rewrite u64_small by lia. destruct (Z.eqb_spec (q + 1) (2 ^ 24)) as [E|E].
    + rewrite E. change (Z.shiftr (2 ^ 24) 1) with (2 ^ 23). destruct (Z.ltb_spec 127 (fe + 1)).
      * rewrite lor_sign32 by lia. lia.
      * rewrite Henc by lia. change (2 ^ 23 =? 0) with false. cbn iota. lia.
    + destruct (Z.ltb_spec 127 fe); [rewrite lor_sign32 by lia; lia|].
      destruct (Z.eqb_spec (q + 1) 0); [lia|]. rewrite Henc by lia. lia.
  - destruct (Z.ltb_spec 127 fe); [rewrite lor_sign32 by lia; lia|].
    destruct (Z.eqb_spec q 0); [lia|]. rewrite Henc by lia. lia.
Qed.

(** Guard and sticky of the first cut, as the code computes them: its
    sticky includes the guard bit. *)
Lemma trunc_gs q : 2 ^ 52 <= q < 2 ^ 53 ->
  exists s, gs q (2 ^ 29) (q / 2 ^ 29) (Z.testbit q 28) s /\
    truthy (q mod 2 ^ 29) = Z.testbit q 28 || s.
Proof.
  intros Hq. pose proof (gs_shiftr q 1 q false false 29 ltac:(lia) ltac:(lia) ltac:(lia)) as H.
  rewrite Z.mul_1_l in H. cbn [orb] in H.
  assert (gs q 1 q false false) as H0 by (rewrite <- (Z.mul_1_r q) at 1; apply gs_exact; lia).
  specialize (H H0). change (29 - 1) with 28 in H. eexists. split; [exact H|].
  rewrite (gs_inexact _ _ _ _ _ H). unfold truthy. f_equal.
  pose proof (Z.div_mod q (2 ^ 29) ltac:(lia)).
  destruct (Z.eqb_spec (q mod 2 ^ 29) 0), (Z.eqb_spec q (q / 2 ^ 29 * 2 ^ 29)); lia || done.
Qed.

Lemma trunc_round_normal b q re : 2 ^ 52 <= q < 2 ^ 53 -> -126 <= re <= 1023 ->
  exists r, trunc_round (b2z b * 2 ^ 31) q re 52 = b2z b * 2 ^ 31 + r /\
    nearest 23 FINF (q * 2 ^ (re + 126)) (2 ^ 29) r.
Proof.
  intros Hq Hre. unfold trunc_round.
  change (52 - 23) with 29. change (29 - 1) with 28. change (64 <=? 29) with false. cbn iota.
  change (u64 (Z.shiftl 1 29) - 1) with (2 ^ 29 - 1).
  rewrite truthy_bit, land_mask, shiftr_div by lia. replace (re + 29 - 29) with re by lia.
  destruct (Z.ltb_spec re (-126)); [lia|].
  destruct (trunc_gs q Hq) as (s & Hgs & ->).
  assert (2 ^ 23 <= q / 2 ^ 29 < 2 ^ 24) as Hq24 by (split; [apply Z.div_le_lower_bound|apply Z.div_lt_upper_bound]; lia).
  set (g := Z.testbit q 28) in *. set (q24 := q / 2 ^ 29) in *.
  assert (g && (g || s || truthy (Z.land q24 1)) = g) as -> by (by destruct g).
  rewrite encode_normal by lia. eexists. split; [reflexivity|].
  pose proof (gs_round 23 FINF q (2 ^ 29) q24 g s (re + 126) ltac:(lia) ltac:(done) ltac:(lia) ltac:(lia)
    ltac:(change (23 + 1) with 24; lia) ltac:(lia) Hgs) as Hr.
  apply nearest_even_nearest in Hr.
  destruct g; cbn [andb b2z] in *; [|done].
  destruct (s || Z.odd q24) eqn:Eso; cbn [b2z] in *; [done|].
  apply orb_false_elim in Eso as [-> Eo]. rewrite Z.add_0_r in Hr.
  destruct (Z.leb_spec ((re + 126) * 2 ^ 23 + q24 + 1) FINF) as [L|L].
  - replace (Z.min _ FINF) with ((re + 126) * 2 ^ 23 + q24 + 1) by lia.
    replace (Z.min _ FINF) with ((re + 126) * 2 ^ 23 + q24) in Hr by lia.
    eapply nearest_tie; [..|exact Hr]; try lia.
    destruct Hgs as (R & E & HR & Eg & Es). destruct (Z.leb_spec (2 ^ 29) (2 * R)); [|done].
    destruct (Z.eqb_spec (2 * R) (2 ^ 29)); [|done].
    rewrite Z.mul_assoc. replace (2 * q) with ((2 * q24 + 1) * 2 ^ 29) by lia. ring.
  - replace (Z.min _ FINF) with FINF by lia. replace (Z.min _ FINF) with FINF in Hr by (unfold FINF in *; lia). done.
Qed.

Lemma trunc_round_subnormal b q re : 2 ^ 52 <= q < 2 ^ 53 -> re < -126 ->
  exists r, trunc_round (b2z b * 2 ^ 31) q re 52 = b2z b * 2 ^ 31 + r /\
    nearest_even 23 FINF q (2 ^ 29 * 2 ^ (- 126 - re)) r.
Proof.
  intros Hq Hre. unfold trunc_round.
  change (52 - 23) with 29. change (29 - 1) with 28. change (64 <=? 29) with false. cbn iota.
  change (u64 (Z.shiftl 1 29) - 1) with (2 ^ 29 - 1).
  rewrite truthy_bit, land_mask, shiftr_div by lia. replace (re + 29 - 29) with re by lia.
  destruct (Z.ltb_spec re (-126)); [|lia].
  destruct (trunc_gs q Hq) as (s & Hgs & ->).
  assert (2 ^ 23 <= q / 2 ^ 29 < 2 ^ 24) as Hq24
    by (split; [apply Z.div_le_lower_bound|apply Z.div_lt_upper_bound]; lia).
  set (g := Z.testbit q 28) in *. set (q24 := q / 2 ^ 29) in *.
  assert (Z.to_nat (-126 - re) = S (Z.to_nat (-127 - re))) as -> by lia.
  rewrite trunc_shifts by lia. rewrite Z2Nat.id by lia. set (n := -126 - re) in *.
  replace (-127 - re) with (n - 1) by lia. replace (n - 1 + 1) with n by lia.
  pose proof (gs_shiftr q (2 ^ 29) q24 g s n ltac:(lia) ltac:(lia) ltac:(lia) Hgs) as Hgs'.
  assert (0 <= q24 / 2 ^ n < 2 ^ 23) as Hqn.
  { assert (2 ^ 1 <= 2 ^ n) by (apply Z.pow_le_mono_r; lia).
    split; [apply Z.div_pos; lia|apply Z.div_lt_upper_bound; nia]. }
  assert (g || s || g || negb (q24 mod 2 ^ (n - 1) =? 0) = g || s || negb (q24 mod 2 ^ (n - 1) =? 0)) as ->
    by (by destruct g, s).
  rewrite truthy_land_1.
  set (S' := g || s || negb (q24 mod 2 ^ (n - 1) =? 0)) in *. set (G := Z.testbit q24 (n - 1)) in *.
  set (Q := q24 / 2 ^ n) in *. pose proof (pow2_pos n ltac:(lia)).
  pose proof (gs_round 23 FINF q (2 ^ 29 * 2 ^ n) Q G S' 0 ltac:(lia) ltac:(done) ltac:(lia) ltac:(lia)
    ltac:(change (23 + 1) with 24; lia) ltac:(lia) Hgs') as Hr.
  rewrite Z.pow_0_r, Z.mul_1_r, Z.mul_0_l, Z.add_0_l in Hr.
  eexists. split; [|exact Hr]. change (u64 (Z.shiftl 1 24)) with (2 ^ 24).
  unfold FINF. destruct (G && (S' || Z.odd Q)); cbn [b2z].
  - rewrite u64_small by lia. destruct (Z.eqb_spec (Q + 1) (2 ^ 24)); [lia|].
    change (127 <? -126) with false. cbn iota. destruct (Z.eqb_spec (Q + 1) 0); [lia|].
    rewrite u32_small, lor_sign32 by lia. lia.
  - change (127 <? -126) with false. cbn iota. destruct (Z.eqb_spec Q 0) as [->|]; [lia|].
    rewrite u32_small, lor_sign32 by lia. lia.
Qed.

(** From the exponent of the operand to the scale of the result. *)
Lemma nearest_ratio M top N D N' D' r : 0 < D -> 0 < D' -> N * D' = N' * D ->
  nearest M top N D r -> nearest M top N' D' r.
Proof.
  intros HD HD' E [Hr H]. split; [done|]. intros p Hp. specialize (H p Hp).
  assert (forall x, Z.abs (N' - x * D') * D = Z.abs (N - x * D) * D') as S.
  { intros x. rewrite <- (Z.abs_eq D) at 1 by lia. rewrite <- (Z.abs_eq D') at 2 by lia.
    rewrite <- !Z.abs_mul. f_equal. lia. }
  pose proof (S (fmag M r)). pose proof (S (fmag M p)). nia.
Qed.

Lemma sign_word a : 0 <= a < 2 ^ 64 -> Z.land (u32 (Z.shiftr a 32)) 0x80000000 = b2z (dneg a) * 2 ^ 31.
Proof.
  intros Ha. rewrite sneg_bit by apply u32_range. f_equal. unfold sneg, dneg, u32.
  rewrite Z.testbit_mod_pow2, Z.shiftr_spec by lia. done.
Qed.

Lemma join_sign32 b r : 0 <= r < 2 ^ 31 ->
  0 <= b2z b * 2 ^ 31 + r < 2 ^ 32 /\ (b2z b * 2 ^ 31 + r) mod 2 ^ 31 = r /\ sneg (b2z b * 2 ^ 31 + r) = b.
Proof.
  intros Hr. split; [destruct b; cbn [b2z]; lia|]. split.
  - symmetry. apply Z.mod_unique with (b2z b); lia.
  - unfold sneg. rewrite Z.testbit_odd, shiftr_div by lia.
    rewrite <- (Z.div_unique (b2z b * 2 ^ 31 + r) (2 ^ 31) (b2z b) r) by lia. by destruct b.
Qed.

(** The smallest normal [float], 2^-126, in units of 2^-1074. *)
Definition FMIN : Z := 2 ^ 948.

Lemma truncdfsf2_finite a : dfinite a ->
  exists r, __truncdfsf2 a = Some r /\ 0 <= r < 2 ^ 32 /\ sneg r = dneg a /\
    nearest 23 FINF (dmag a) (2 ^ 925) (r mod 2 ^ 31) /\
    (dmag a < FMIN -> nearest_even 23 FINF (dmag a) (2 ^ 925) (r mod 2 ^ 31)).
Proof.
  intros Ha. unfold __truncdfsf2. rewrite sign_word by apply Ha.
  assert ((Z.land (Z.shiftr a 52) 0x7FF =? 0x7FF) = false /\
          (Z.land (Z.shiftr a 52) 0x7FF =? 0) && (Z.land a D_FRAC =? 0) = (dmag a =? 0)) as [-> ->].
  { destruct Ha as [Ha Hf]. rewrite <- diszero_mag. unfold diszero. rewrite df_frac, df_field.
    destruct (fields_mod63 a Ha) as [-> ->]. pose proof (mod63_range a) as Hy. unfold DINF in Hf.
    set (y := a mod 2 ^ 63) in *. pose proof (Z.div_mod y (2 ^ 52) ltac:(lia)).
    pose proof (Z.mod_pos_bound y (2 ^ 52) ltac:(lia)).
    destruct (Z.eqb_spec (y / 2 ^ 52) 0x7FF), (Z.eqb_spec (y / 2 ^ 52) 0), (Z.eqb_spec (y mod 2 ^ 52) 0), (Z.eqb_spec y 0);
      cbn [andb]; lia. }
  destruct (Z.eqb_spec (dmag a) 0) as [Z0|Hnz].
  - eexists. split; [done|]. destruct (join_sign32 (dneg a) 0) as (R1 & R2 & R3); [lia|].
    rewrite Z.add_0_r in R1, R2, R3. rewrite R2, Z0. split; [done|]. split; [done|].
    assert (nearest_even 23 FINF 0 (2 ^ 925) 0) by (by apply nearest_even_exact).
    split; [by apply nearest_even_nearest|done].
  - destruct (trunc_operand a Ha Hnz) as (q & re & -> & Hq & Hre & Ed). cbn [mbind option_bind].
    rewrite df_msb_spec by lia. destruct (Z.eqb_spec q 0); [lia|]. cbn [mbind option_bind].
    assert (Z.log2 q = 52) as -> by (apply Z.log2_unique; lia).
    pose proof (pow2_pos (re + 1074) ltac:(lia)) as Hp.
    assert (forall b r, 0 <= r <= FINF -> 0 <= b2z b * 2 ^ 31 + r < 2 ^ 32 /\
      (b2z b * 2 ^ 31 + r) mod 2 ^ 31 = r /\ sneg (b2z b * 2 ^ 31 + r) = b) as Hj
      by (intros; apply join_sign32; unfold FINF in *; lia).
    destruct (Z.ltb_spec re (-126)) as [Hlow|Hhigh].
    + destruct (trunc_round_subnormal (dneg a) q re Hq Hlow) as (r & -> & Hr). eexists. split; [done|].
      destruct (Hj (dneg a) r) as (R1 & -> & R3); [apply Hr|]. split; [done|]. split; [done|].
      assert (nearest_even 23 FINF (dmag a) (2 ^ 925) r); [|split; [by apply nearest_even_nearest|done]].
      pose proof (pow2_pos (-126 - re) ltac:(lia)).
      eapply nearest_even_ratio; [..|exact Hr]; [lia|lia|].
      apply Z.mul_reg_r with (2 ^ 52); [lia|].
      transitivity (q * 2 ^ 977); [ring|].
      transitivity ((dmag a * 2 ^ 52) * (2 ^ 29 * 2 ^ (-126 - re))); [|ring].
      rewrite Ed. rewrite <- Z.mul_assoc, <- !Z.pow_add_r by lia. do 2 f_equal. lia.
    + destruct (trunc_round_normal (dneg a) q re Hq) as (r & -> & Hr); [lia|]. eexists. split; [done|].
      destruct (Hj (dneg a) r) as (R1 & -> & R3); [apply Hr|]. split; [done|]. split; [done|]. split.
      * eapply nearest_ratio; [..|exact Hr]; [lia|lia|].
        apply Z.mul_reg_r with (2 ^ 52); [lia|].
        transitivity (q * (2 ^ (re + 126) * 2 ^ 977)); [change 977 with (925 + 52); rewrite (Z.pow_add_r 2 925 52) by lia; ring|].
        transitivity ((dmag a * 2 ^ 52) * 2 ^ 29); [|ring].
        rewrite Ed. rewrite <- !Z.mul_assoc, <- !Z.pow_add_r by lia. do 2 f_equal. lia.
      * intros Hlt. exfalso. unfold FMIN in Hlt.
        assert (2 ^ 948 <= 2 ^ (re + 1074)) by (apply Z.pow_le_mono_r; lia). nia.
Qed.

(** ** Integers *)

Lemma df_from_mag_correct b m : 0 <= m < 2 ^ 53 ->
  exists r, df_from_mag m (b2z b) = Some r /\ dfinite r /\ dmag r = m * 2 ^ 1074 /\ dneg r = b.
Proof.
  intros Hm. unfold df_from_mag. destruct (Z.eqb_spec m 0) as [->|].
  - eexists. split; [done|]. destruct (signed_zero b) as (V & N & F). split; [done|]. split; [|done].
    pose proof (dval_abs (sign_bit (b2z b))). lia.
  - rewrite df_msb_spec by lia. destruct (Z.eqb_spec m 0); [lia|]. cbn [mbind option_bind].
    pose proof (Z.log2_nonneg m). assert (Z.log2 m < 53) by (apply Z.log2_lt_pow2; lia).
    pose proof (norm_shl m (52 - Z.log2 m) ltac:(lia) eq_refl ltac:(lia)) as Hq.
    rewrite (shiftl_mul m), (u64_small (m * _)), df_frac by lia.
    replace ((m * 2 ^ (52 - Z.log2 m)) mod 2 ^ 52) with (m * 2 ^ (52 - Z.log2 m) - 2 ^ 52)
      by (apply Z.mod_unique with 1; lia).
    unfold D_BIAS. rewrite (u64_small (_ + 1023)), join_fields by lia.
    eexists. split; [done|]. set (q := m * 2 ^ (52 - Z.log2 m)) in *.
    set (y := (Z.log2 m + 1023) * 2 ^ 52 + (q - 2 ^ 52)).
    destruct (join_sign b y) as (R1 & R2 & R3); [lia|].
    split; [split; [done|rewrite R2; unfold DINF; lia]|]. split; [|done].
    unfold dmag. rewrite R2. unfold y.
    replace ((Z.log2 m + 1023) * 2 ^ 52 + (q - 2 ^ 52)) with ((Z.log2 m + 1022) * 2 ^ 52 + q) by lia.
    rewrite fmag_pattern by (try done; change (52 + 1) with 53; lia). unfold q.
    rewrite <- Z.mul_assoc, <- Z.pow_add_r by lia. do 2 f_equal. lia.
Qed.

Lemma floatsidf_exact v : - 2 ^ 31 <= v < 2 ^ 31 ->
  exists r, __floatsidf v = Some r /\ dfinite r /\ dval r = v * 2 ^ 1074 /\ dneg r = (v <? 0).
Proof.
  intros Hv. unfold __floatsidf. destruct (Z.ltb_spec v 0).
  - rewrite (u64_small (- (v + 1))), u64_small by lia.
    destruct (df_from_mag_correct true (- (v + 1) + 1)) as (r & E & F & V & N); [lia|].
    exists r. cbn [b2z] in E. split; [done|]. split; [done|]. unfold dval. rewrite N, V. split; [lia|done].
  - rewrite u64_small by lia.
    destruct (df_from_mag_correct false v) as (r & E & F & V & N); [lia|].
    exists r. cbn [b2z] in E. split; [done|]. split; [done|]. unfold dval. rewrite N, V. done.
Qed.

(** The truncated magnitude. *)
Definition dtrunc (a : Z) : Z := dmag a / 2 ^ 1074.

Definition fix_spec (neg is_signed : bool) (t : Z) : Z :=
  if t =? 0 then 0
  else if is_signed then
    if neg then Z.max (- t) (- 2 ^ 31)
    else if t <? 2 ^ 31 then t else if t <? 2 ^ 53 then 2 ^ 31 - 1 else - 2 ^ 31
  else if neg || (2 ^ 32 <=? t) then 2 ^ 31 - 1 else s32 t.

(** The test of the code on a shifted significand, in terms of the integer
    [q * 2^sh] modulo 2^64. *)
Lemma shift_test q sh : 0 <= q < 2 ^ 53 -> 0 < sh ->
  u64 (Z.shiftl q sh) = (q * 2 ^ sh) mod 2 ^ 64 /\
  truthy (Z.shiftr (u64 (Z.shiftl q sh)) 32) = (2 ^ 32 <=? (q * 2 ^ sh) mod 2 ^ 64).
Proof.
  intros Hq Hs. rewrite shiftl_mul by lia. split; [done|]. rewrite shiftr_div by lia. fold (u64 (q * 2 ^ sh)).
  pose proof (u64_range (q * 2 ^ sh)). unfold truthy.
  destruct (Z.leb_spec (2 ^ 32) (u64 (q * 2 ^ sh))).
  - assert (1 <= u64 (q * 2 ^ sh) / 2 ^ 32) by (apply Z.div_le_lower_bound; lia).
    destruct (Z.eqb_spec (u64 (q * 2 ^ sh) / 2 ^ 32) 0); [lia|done].
  - by rewrite Z.div_small by lia.
Qed.

(** The fields of a finite operand and its truncated magnitude. *)
Lemma dtrunc_fields a : dfinite a ->
  exists e m, Z.land (Z.shiftr a 52) 0x7FF = e /\ Z.lor (Z.land a D_FRAC) D_IMPL = m /\
    0 <= e < 0x7FF /\ 2 ^ 52 <= m < 2 ^ 53 /\
    dtrunc a = (if e <? 1023 then 0
                else if e <=? 1075 then m / 2 ^ (1075 - e) else m * 2 ^ (e - 1075)).
Proof.
  intros [Ha Hf]. do 2 eexists. split; [done|]. split; [done|].
  rewrite df_frac, df_field. destruct (fields_mod63 a Ha) as [-> ->].
  unfold dtrunc, dmag. pose proof (mod63_range a) as Hy. set (y := a mod 2 ^ 63) in *. unfold DINF in Hf.
  pose proof (Z.div_mod y (2 ^ 52) ltac:(lia)) as Ey. pose proof (Z.mod_pos_bound y (2 ^ 52) ltac:(lia)).
  assert (0 <= y / 2 ^ 52 < 0x7FF) by lia. unfold fmag.
  set (e := y / 2 ^ 52) in *. set (f := y mod 2 ^ 52) in *. clearbody e f y.
  change D_IMPL with (1 * 2 ^ 52). rewrite lor_add_disjoint by lia.
  split; [done|]. split; [lia|]. replace (f + 1 * 2 ^ 52) with (2 ^ 52 + f) by lia.
  destruct (Z.ltb_spec e 1023).
  - apply Z.div_small. destruct (Z.ltb_spec y (2 ^ 52)); [lia|].
    pose proof (pow2_pos (e - 1) ltac:(lia)).
    assert (2 ^ (e - 1) <= 2 ^ 1021) by (apply Z.pow_le_mono_r; lia). nia.
  - destruct (Z.ltb_spec y (2 ^ 52)); [lia|]. destruct (Z.leb_spec e 1075).
    + replace 1074 with (1075 - e + (e - 1)) at 1 by lia. rewrite Z.pow_add_r by lia.
      pose proof (pow2_pos (e - 1) ltac:(lia)). pose proof (pow2_pos (1075 - e) ltac:(lia)).
      apply Z.div_mul_cancel_r; lia.
    + replace (e - 1) with (e - 1075 + 1074) by lia. rewrite Z.pow_add_r, Z.mul_assoc by lia.
      apply Z.div_mul. lia.
Qed.

Lemma df_to_i_correct a is_signed : dfinite a -> dtrunc a < 2 ^ 64 \/ 2 ^ 84 <= dtrunc a ->
  df_to_i a is_signed = fix_spec (dneg a) is_signed (dtrunc a).
Proof.
  intros Ha Ht. unfold df_to_i. destruct (dtrunc_fields a Ha) as (e & m & -> & -> & He & Hm & ET).
  rewrite df_signw, sign_cases by apply Ha. unfold D_BIAS.
  destruct (Z.eqb_spec e 0x7FF); [lia|].
  destruct (Z.ltb_spec e 1023).
  - rewrite ET. destruct (Z.eqb_spec e 0); [done|]. destruct (Z.ltb_spec (e - 1023) 0); [done|lia].
  - destruct (Z.eqb_spec e 0); [lia|]. destruct (Z.ltb_spec (e - 1023) 0); [lia|].
    assert (truthy (b2z (dneg a)) = dneg a) as -> by (by destruct (dneg a)).
    change (s32 0x80000000) with (- 2 ^ 31).
    destruct (Z.leb_spec e 1075).
    + destruct (Z.ltb_spec 52 (e - 1023)); [lia|]. cbn [andb].
      destruct (Z.leb_spec (e - 1023) 52); [|lia].
      rewrite shiftr_div by lia. replace (52 - (e - 1023)) with (1075 - e) by lia. rewrite <- ET.
      assert (1 <= dtrunc a < 2 ^ 53).
      { rewrite ET. pose proof (pow2_pos (1075 - e) ltac:(lia)).
        assert (2 ^ (1075 - e) <= 2 ^ 52) by (apply Z.pow_le_mono_r; lia).
        split; [apply Z.div_le_lower_bound; lia|apply Z.div_lt_upper_bound; nia]. }
      set (t := dtrunc a) in *. clearbody t. unfold fix_spec.
      destruct (Z.eqb_spec t 0); [lia|].
      destruct is_signed, (dneg a); cbn [orb].
      * destruct (Z.ltb_spec 0x80000000 t); [lia|]. rewrite s32_small by lia. lia.
      * destruct (Z.ltb_spec 0x7FFFFFFF t), (Z.ltb_spec t (2 ^ 31)), (Z.ltb_spec t (2 ^ 53)); try lia.
        by rewrite s32_small by lia.
      * done.
      * destruct (Z.ltb_spec 0xFFFFFFFF t), (Z.leb_spec (2 ^ 32) t); lia || done.
    + destruct (Z.ltb_spec 52 (e - 1023)); [|lia]. cbn [andb].
      replace (e - 1023 - 52) with (e - 1075) by lia.
      destruct (shift_test m (e - 1075)) as [_ ->]; [lia|lia|].
      rewrite <- ET. assert (2 ^ 53 <= dtrunc a).
      { rewrite ET. assert (2 ^ 1 <= 2 ^ (e - 1075)) by (apply Z.pow_le_mono_r; lia). nia. }
      assert ((32 <=? e - 1075) || (2 ^ 32 <=? dtrunc a mod 2 ^ 64) = true) as ->.
      { destruct (Z.leb_spec 32 (e - 1075)); [done|]. cbn [orb]. destruct Ht as [Ht|Ht].
        - rewrite Z.mod_small by lia. lia.
        - exfalso. assert (2 ^ (e - 1075) <= 2 ^ 31) by (apply Z.pow_le_mono_r; lia). nia. }
      unfold fix_spec. set (t := dtrunc a) in *. destruct (Z.eqb_spec t 0); [lia|].
      destruct is_signed, (dneg a); cbn [orb]; try lia.
      * destruct (Z.ltb_spec t (2 ^ 31)); [lia|]. destruct (Z.ltb_spec t (2 ^ 53)); [lia|done].
      * destruct (Z.leb_spec (2 ^ 32) t); [done|lia].
Qed.

(** Between 2^64 and 2^84 the range test looks at a product that has wrapped
    around: an integer part small modulo 2^64 passes it. *)
Lemma df_to_i_wraps a : dfinite a -> 2 ^ 64 <= dtrunc a < 2 ^ 84 -> dtrunc a mod 2 ^ 64 < 2 ^ 31 ->
  df_to_i a true = (if dneg a then - (dtrunc a mod 2 ^ 64) else dtrunc a mod 2 ^ 64).
Proof.
  intros Ha Ht Hw. unfold df_to_i. destruct (dtrunc_fields a Ha) as (e & m & -> & -> & He & Hm & ET).
  rewrite df_signw, sign_cases by apply Ha. unfold D_BIAS.
  destruct (Z.ltb_spec e 1023); [lia|]. destruct (Z.eqb_spec e 0x7FF), (Z.eqb_spec e 0), (Z.ltb_spec (e - 1023) 0); try lia.
  destruct (Z.leb_spec e 1075).
  { exfalso. pose proof (pow2_pos (1075 - e) ltac:(lia)).
    assert (m / 2 ^ (1075 - e) <= m) by (apply Z.div_le_upper_bound; nia). lia. }
  assert (e - 1075 < 32).
  { destruct (Z.ltb_spec (e - 1075) 32); [done|]. assert (2 ^ 32 <= 2 ^ (e - 1075)) by (apply Z.pow_le_mono_r; lia). nia. }
  replace (e - 1023 - 52) with (e - 1075) by lia.
  destruct (shift_test m (e - 1075)) as [-> ->]; [lia|lia|]. rewrite <- ET.
  destruct (Z.ltb_spec 52 (e - 1023)), (Z.leb_spec 32 (e - 1075)), (Z.leb_spec (2 ^ 32) (dtrunc a mod 2 ^ 64)),
    (Z.leb_spec (e - 1023) 52); try lia. cbn [andb orb].
  pose proof (Z.mod_pos_bound (dtrunc a) (2 ^ 64) ltac:(lia)).
  assert (truthy (b2z (dneg a)) = dneg a) as -> by (by destruct (dneg a)).
  destruct (dneg a).
  - destruct (Z.ltb_spec 0x80000000 (dtrunc a mod 2 ^ 64)); [lia|]. apply s32_small. lia.
  - destruct (Z.ltb_spec 0x7FFFFFFF (dtrunc a mod 2 ^ 64)); [lia|]. apply s32_small. lia.
Qed.

(** ** Claims *)

(** The comparison functions order the exact values ([-0 = +0],
    infinities beyond every finite value), and are false on a NaN the way
    each one's caller tests it. *)
Theorem compare_correct a b : 0 <= a < 2 ^ 64 -> 0 <= b < 2 ^ 64 ->
  let ordered := disnan a || disnan b = false in
  (__eqdf2 a b = 0 <-> ordered /\ dval a = dval b) /\
  (__nedf2 a b <> 0 <-> ~ (ordered /\ dval a = dval b)) /\
  (__ltdf2 a b < 0 <-> ordered /\ dval a < dval b) /\
  (__ledf2 a b <= 0 <-> ordered /\ dval a <= dval b) /\
  (__gtdf2 a b > 0 <-> ordered /\ dval a > dval b) /\
  (__gedf2 a b >= 0 <-> ordered /\ dval a >= dval b) /\
  (__unorddf2 a b <> 0 <-> ~ ordered).
Proof.
  intros Ha Hb ordered. subst ordered.
  unfold __eqdf2, __nedf2, __ltdf2, __ledf2, __gtdf2, __gedf2, __unorddf2.
  rewrite !df_cmp3way_spec, !df_is_nan_spec by done.
  destruct (disnan a || disnan b); cbn [b2z].
  - repeat split; lia || (intros [? _]; done) || done || (intros; by intros [? _]).
  - destruct (Z.compare_spec (dval a) (dval b)); repeat split; try lia; tauto || lia.
Qed.

Lemma compare_correct_witness :
  __eqdf2 0 D_SIGN = 0 /\ __ltdf2 D_EXP (D_EXP + 1) = 1 /\
  (__ltdf2 0xBFF0000000000000 1 < 0 <->
   disnan 0xBFF0000000000000 || disnan 1 = false /\ dval 0xBFF0000000000000 < dval 1).
Proof.
  split; [reflexivity|]. split; [reflexivity|].
  apply (compare_correct 0xBFF0000000000000 1); split; lia.
Defined.

(** Widening a [float] is exact, keeps the sign, and maps infinities to
    infinities and NaNs to NaNs. *)
Lemma extendsfdf2_exact a : 0 <= a < 2 ^ 32 ->
  exists r, __extendsfdf2 a = Some r /\ dneg r = sneg a /\
    (sfinite a -> dfinite r /\ dmag r = smag a * 2 ^ 925) /\
    (sinf a -> dinf r) /\ (snan a -> dnan r).
Proof.
  intros Ha. destruct (Z.ltb_spec (a mod 2 ^ 31) FINF).
  - destruct (extendsfdf2_finite a) as (r & E & F & V & N); [done|]. exists r.
    split; [done|]. split; [done|]. split; [done|]. unfold sinf, snan. lia.
  - destruct (extendsfdf2_special a) as (r & E & N & I & Q); [unfold sinf, snan; lia|]. exists r.
    split; [done|]. split; [done|]. split; [|done]. unfold sfinite. lia.
Qed.

(** Narrowing a finite [double] returns a [float] nearest to it, with its
    sign; below the smallest normal [float] ties go to even as well. *)
Lemma truncdfsf2_nearest a : dfinite a ->
  exists r, __truncdfsf2 a = Some r /\ 0 <= r < 2 ^ 32 /\ sneg r = dneg a /\
    nearest 23 FINF (dmag a) (2 ^ 925) (r mod 2 ^ 31) /\
    (dmag a < FMIN -> nearest_even 23 FINF (dmag a) (2 ^ 925) (r mod 2 ^ 31)).
Proof. apply truncdfsf2_finite. Qed.

Lemma float_word a : 0 <= a < 2 ^ 32 -> a = b2z (sneg a) * 2 ^ 31 + a mod 2 ^ 31.
Proof.
  intros Ha. unfold sneg. pose proof (Z.testbit_spec' a 31 ltac:(lia)) as E. change (Z.b2z ?b) with (b2z b) in E.
  rewrite Z.mod_small in E by (split; [apply Z.div_pos; lia|apply Z.div_lt_upper_bound; lia]).
  replace (b2z (Z.testbit a 31)) with (a / 2 ^ 31) by (rewrite <- E; by destruct (Z.testbit a 31)).
  rewrite (Z.div_mod a (2 ^ 31)) at 1 by lia. lia.
Qed.

(** What a nearest float to a float is. *)
Lemma widen_narrow a : sfinite a -> exists r, __extendsfdf2 a = Some r /\ __truncdfsf2 r = Some a.
Proof.
  intros Hf. pose proof Hf as [Ha Hfin]. destruct (extendsfdf2_exact a Ha) as (r & E & Hn & Hfi & _). destruct (Hfi Hf) as [Hr Hm].
  exists r. split; [exact E|]. destruct (truncdfsf2_nearest r Hr) as (r' & -> & Hr' & Hs & [[H0 Ht] Hnear] & _). f_equal.
  pose proof (Z.mod_pos_bound a (2 ^ 31) ltac:(lia)) as Hb. specialize (Hnear (a mod 2 ^ 31) ltac:(lia)). rewrite Hm in Hnear. unfold smag in Hnear.
  rewrite Z.sub_diag in Hnear. change (Z.abs 0) with 0 in Hnear.
  assert (fmag 23 (a mod 2 ^ 31) = fmag 23 (r' mod 2 ^ 31)) as Em by (apply (Z.mul_reg_r _ _ (2 ^ 925)); [apply Z.pow_nonzero; lia|lia]).
  apply (fmag_inj 23) in Em; [|lia..]. rewrite (float_word r' Hr'), (float_word a Ha), Hs, Hn, Em. done.
Qed.

(** C39: the conversions between the floating-point formats.  Widening a
    [float] is exact, keeps the sign, and maps infinities to infinities and
    NaNs to NaNs; narrowing a finite [double] returns a [float] nearest to it,
    with its sign, and below the smallest normal [float] ties go to even as
    well; a widened [float] narrows back to itself. *)
Theorem float_conversions_correct :
  (forall a, 0 <= a < 2 ^ 32 -> exists r, __extendsfdf2 a = Some r /\ dneg r = sneg a /\
    (sfinite a -> dfinite r /\ dmag r = smag a * 2 ^ 925) /\ (sinf a -> dinf r) /\ (snan a -> dnan r)) /\
  (forall a, dfinite a -> exists r, __truncdfsf2 a = Some r /\ 0 <= r < 2 ^ 32 /\ sneg r = dneg a /\
    nearest 23 FINF (dmag a) (2 ^ 925) (r mod 2 ^ 31) /\
    (dmag a < FMIN -> nearest_even 23 FINF (dmag a) (2 ^ 925) (r mod 2 ^ 31))) /\
  (forall a, sfinite a -> exists r, __extendsfdf2 a = Some r /\ __truncdfsf2 r = Some a).
Proof. split; [apply extendsfdf2_exact|split; [apply truncdfsf2_nearest|apply widen_narrow]]. Qed.

(** -0.1 as a double, and the smallest subnormal float. *)
Lemma float_conversions_correct_witness :
  (exists r, __truncdfsf2 0xBFB999999999999A = Some r /\ sneg r = dneg 0xBFB999999999999A) /\
  (exists r, __extendsfdf2 1 = Some r /\ __truncdfsf2 r = Some 1).
Proof.
  split.
  - assert (dfinite 0xBFB999999999999A) as Ha by (split; vm_compute; intuition discriminate).
    destruct (proj1 (proj2 float_conversions_correct) _ Ha) as (r & E & _ & N & _). exists r. split; [exact E|exact N].
  - apply (proj2 (proj2 float_conversions_correct)). split; vm_compute; intuition discriminate.
Defined.

(** A tie in the normal range is not rounded to even: 1 + 2^-24 narrows to
    1 + 2^-23, although 1 is the even neighbour. *)
Theorem truncdfsf2_tie_not_even :
  exists r, __truncdfsf2 0x3FF0000010000000 = Some r /\
    nearest_even 23 FINF (dmag 0x3FF0000010000000) (2 ^ 925) 0x3F800000 /\ r = 0x3F800001.
Proof.
  exists 0x3F800001. split; [by vm_compute|]. split; [|done].
  change 0x3F800000 with (Z.min (126 * 2 ^ 23 + 2 ^ 23 + b2z false) FINF).
  apply nearest_even_round; try done; try lia; vm_compute; intuition discriminate.
Qed.

(** [int] and [unsigned] convert to [double] exactly, and converting back
    truncates to the same integer: the round trip is the identity. *)
Lemma int_double v :
  (- 2 ^ 31 <= v < 2 ^ 31 ->
     exists r, __floatsidf v = Some r /\ dfinite r /\ dval r = v * 2 ^ 1074 /\ __fixdfsi r = v) /\
  (0 <= v < 2 ^ 32 ->
     exists r, __floatunsidf v = Some r /\ dfinite r /\ dval r = v * 2 ^ 1074 /\ __fixunsdfsi r = v).
Proof.
  assert (forall r m, dmag r = m * 2 ^ 1074 -> dtrunc r = m) as Ht.
  { intros r m E. unfold dtrunc. rewrite E. apply Z.div_mul. lia. }
  split; intros Hv.
  - destruct (floatsidf_exact v Hv) as (r & E & F & V & N). exists r.
    split; [done|]. split; [done|]. split; [done|].
    assert (dtrunc r = Z.abs v) as T.
    { apply Ht. rewrite <- dval_abs, V, Z.abs_mul. by rewrite (Z.abs_eq (2 ^ 1074)) by lia. }
    unfold __fixdfsi. rewrite df_to_i_correct, T, N by (done || lia). unfold fix_spec.
    destruct (Z.eqb_spec (Z.abs v) 0), (Z.ltb_spec v 0), (Z.ltb_spec (Z.abs v) (2 ^ 31)); lia.
  - unfold __floatunsidf. destruct (df_from_mag_correct false v) as (r & E & F & V & N); [lia|].
    cbn [b2z] in E. exists r. split; [done|]. split; [done|].
    split; [unfold dval; by rewrite N|]. specialize (Ht r v V).
    unfold __fixunsdfsi. rewrite df_to_i_correct, Ht, N by (done || lia). unfold fix_spec.
    destruct (Z.eqb_spec v 0) as [->|]; [done|]. cbn [orb]. destruct (Z.leb_spec (2 ^ 32) v); [lia|].
    unfold u32, s32. rewrite swrap_mod by lia. apply Z.mod_small. lia.
Qed.

(** C40: the integer conversions.  [int] and [unsigned] convert to [double]
    exactly, and back to the same integer.  [double] to integer truncates
    toward zero and saturates: [INT_MIN] below the range, [INT_MAX] above it up
    to 2^53 (and for every unrepresentable unsigned result); from 2^53 on a
    positive overflow gives [INT_MIN].  Between 2^64 and 2^84 the test reads a
    wrapped product, and an integer part small modulo 2^64 is returned as if in
    range. *)
Theorem int_conversions_correct v a : dfinite a ->
  (- 2 ^ 31 <= v < 2 ^ 31 ->
     exists r, __floatsidf v = Some r /\ dfinite r /\ dval r = v * 2 ^ 1074 /\ __fixdfsi r = v) /\
  (0 <= v < 2 ^ 32 ->
     exists r, __floatunsidf v = Some r /\ dfinite r /\ dval r = v * 2 ^ 1074 /\ __fixunsdfsi r = v) /\
  (dtrunc a < 2 ^ 64 \/ 2 ^ 84 <= dtrunc a ->
     forall is_signed, df_to_i a is_signed = fix_spec (dneg a) is_signed (dtrunc a)) /\
  (2 ^ 64 <= dtrunc a < 2 ^ 84 -> dtrunc a mod 2 ^ 64 < 2 ^ 31 ->
     __fixdfsi a = (if dneg a then - (dtrunc a mod 2 ^ 64) else dtrunc a mod 2 ^ 64)).
Proof.
  intros Ha. split; [apply int_double|]. split; [apply int_double|]. split.
  - intros Ht is_signed. exact (df_to_i_correct a is_signed Ha Ht).
  - intros Ht Hw. exact (df_to_i_wraps a Ha Ht Hw).
Qed.

(** -2^31 and 2^32-1 survive; 2^64 converts to 0, -7.5 to -7. *)
Lemma int_conversions_correct_witness :
  (exists r, __floatsidf (- 2 ^ 31) = Some r /\ __fixdfsi r = - 2 ^ 31) /\
  (exists r, __floatunsidf (2 ^ 32 - 1) = Some r /\ __fixunsdfsi r = 2 ^ 32 - 1) /\
  __fixdfsi 0x43F0000000000000 = 0 /\ df_to_i 0xC01E000000000000 true = -7.
Proof.
  assert (- 2 ^ 31 <= - 2 ^ 31 < 2 ^ 31) as H1 by lia.
  assert (0 <= 2 ^ 32 - 1 < 2 ^ 32) as H2 by lia.
  assert (dfinite 0x43F0000000000000) as Ha by (split; vm_compute; intuition discriminate).
  assert (dfinite 0xC01E000000000000) as Hb by (split; vm_compute; intuition discriminate).
  split; [destruct (proj1 (int_conversions_correct (- 2 ^ 31) _ Ha) H1) as (r & E & _ & _ & F); exists r; exact (conj E F)|].
  split; [destruct (proj1 (proj2 (int_conversions_correct (2 ^ 32 - 1) _ Ha)) H2) as (r & E & _ & _ & F); exists r; exact (conj E F)|].
  split.
  - rewrite (proj2 (proj2 (proj2 (int_conversions_correct 0 _ Ha)))); [reflexivity|vm_compute; intuition discriminate|reflexivity].
  - rewrite (proj1 (proj2 (proj2 (int_conversions_correct 0 _ Hb)))); [reflexivity|left; reflexivity].
Defined.
