(* ===== verification/Runtime.v ===== *)
(** * The arithmetic runtime as a typed machine

    What the compiler makes of an arithmetic expression on [double], [float]
    and 64-bit integers: a tree of calls of [libc_softfloat.c] and
    [libc_divmod.c].  A value is the register contents: the pattern of a
    floating-point number, the number itself of an integer. *)

From S2P Require Import Prelude DivMod FloatSpec SoftFloat SoftFloatCorrect SoftFloatArith SoftFloatConv.

(** ** Types and calls *)

Inductive ty : Type := TInt | TUnsigned | TLong | TULong | TFloat | TDouble.

(** The values of a type. *)
Definition in_type (t : ty) (v : Z) : Prop :=
  match t with
  | TInt => - 2 ^ 31 <= v < 2 ^ 31
  | TUnsigned | TFloat => 0 <= v < 2 ^ 32
  | TLong => - 2 ^ 63 <= v < 2 ^ 63
  | TULong | TDouble => 0 <= v < 2 ^ 64
  end.

Inductive unop : Type := UFloat | UFloatUns | UFix | UFixUns | UExtend | UTrunc.

Inductive binop : Type :=
| BAdd | BSub | BMul | BDiv
| BEq | BNe | BLt | BLe | BGt | BGe | BUnord
| BUdiv | BUmod | BSdiv | BSmod | BMuldi | BShl | BShr | BSar.

Definition unop_type (o : unop) : ty * ty :=
  match o with
  | UFloat => (TInt, TDouble)
  | UFloatUns => (TUnsigned, TDouble)
  | UFix => (TDouble, TInt)
  | UFixUns => (TDouble, TUnsigned)
  | UExtend => (TFloat, TDouble)
  | UTrunc => (TDouble, TFloat)
  end.

Definition binop_type (o : binop) : ty * ty * ty :=
  match o with
  | BAdd | BSub | BMul | BDiv => (TDouble, TDouble, TDouble)
  | BEq | BNe | BLt | BLe | BGt | BGe | BUnord => (TDouble, TDouble, TInt)
  | BUdiv | BUmod | BMuldi => (TULong, TULong, TULong)
  | BSdiv | BSmod => (TLong, TLong, TLong)
  | BShl | BShr => (TULong, TInt, TULong)
  | BSar => (TLong, TInt, TLong)
  end.

Definition unop_run (o : unop) (a : Z) : option Z :=
  match o with
  | UFloat => __floatsidf a
  | UFloatUns => __floatunsidf a
  | UFix => Some (__fixdfsi a)
  | UFixUns => Some (__fixunsdfsi a)
  | UExtend => __extendsfdf2 a
  | UTrunc => __truncdfsf2 a
  end.

Definition binop_run (o : binop) (a b : Z) : option Z :=
  match o with
  | BAdd => __adddf3 a b
  | BSub => __subdf3 a b
  | BMul => __muldf3 a b
  | BDiv => __divdf3 a b
  | BEq => Some (__eqdf2 a b)
  | BNe => Some (__nedf2 a b)
  | BLt => Some (__ltdf2 a b)
  | BLe => Some (__ledf2 a b)
  | BGt => Some (__gtdf2 a b)
  | BGe => Some (__gedf2 a b)
  | BUnord => Some (__unorddf2 a b)
  | BUdiv => __udivdi3 a b
  | BUmod => __umoddi3 a b
  | BSdiv => __divdi3 a b
  | BSmod => __moddi3 a b
  | BMuldi => __muldi3 a b
  | BShl => Some (__ashldi3 a b)
  | BShr => Some (__lshrdi3 a b)
  | BSar => Some (__ashrdi3 a b)
  end.

(** ** Expressions *)

Inductive expr : Type :=
| EVar (x : nat)
| EUn (o : unop) (e : expr)
| EBin (o : binop) (e1 e2 : expr).

(** Under a context of types, and in an environment of values. *)
Inductive has_type (G : list ty) : expr -> ty -> Prop :=
| type_var x t : G !! x = Some t -> has_type G (EVar x) t
| type_un o e : has_type G e (fst (unop_type o)) -> has_type G (EUn o e) (snd (unop_type o))
| type_bin o e1 e2 : has_type G e1 (fst (fst (binop_type o))) -> has_type G e2 (snd (fst (binop_type o))) ->
    has_type G (EBin o e1 e2) (snd (binop_type o)).

Fixpoint eval (env : list Z) (e : expr) : option Z :=
  match e with
  | EVar x => env !! x
  | EUn o e => a ← eval env e; unop_run o a
  | EBin o e1 e2 => a ← eval env e1; b ← eval env e2; binop_run o a b
  end.

(** ** Every call returns a value of its type *)

Definition returns (t : ty) (r : option Z) : Prop := exists v, r = Some v /\ in_type t v.

Lemma returns_some t v : in_type t v -> returns t (Some v).
Proof. by exists v. Qed.

Lemma outcome_range r o a b : in_type TDouble a -> in_type TDouble b ->
  (forall x, o = OSame x -> x = a \/ x = b) -> is_outcome r o -> in_type TDouble r.
Proof.
  intros Ha Hb Hs Ho. destruct o as [|s|s|x]; cbn [is_outcome] in Ho.
  - apply Ho.
  - apply Ho.
  - destruct Ho as [[Hr _] _]. exact Hr.
  - destruct (Hs x eq_refl) as [-> | ->]; by subst.
Qed.

Lemma double_cases a : in_type TDouble a -> special a = true \/ dfinite a.
Proof. intros Ha. destruct (special a) eqn:E; [by left|right]. by apply class_finite. Qed.

Lemma add_returns a b : in_type TDouble a -> in_type TDouble b -> returns TDouble (__adddf3 a b).
Proof.
  intros Ha Hb.
  assert (special a || special b = true -> returns TDouble (__adddf3 a b)) as Hspecial.
  { intros Hs. destruct (adddf3_special_all a b Ha Hb Hs) as (r & -> & Ho). apply returns_some.
    eapply outcome_range; [exact Ha|exact Hb| |exact Ho]. intros x.
    destruct (_ && _ && _); [intros [= ->]; by left|]. unfold add_special. destruct (disnan a || disnan b || _); [done|].
    intros [= <-]. destruct (disinf a); auto. }
  destruct (double_cases a Ha) as [Sa|Fa]; [apply Hspecial; by rewrite Sa|].
  destruct (double_cases b Hb) as [Sb|Fb]; [apply Hspecial; by rewrite Sb, orb_true_r|].
  destruct (adddf3_finite a b Fa Fb) as (r & -> & [Hr _] & _). by apply returns_some.
Qed.

Lemma mul_returns a b : in_type TDouble a -> in_type TDouble b -> returns TDouble (__muldf3 a b).
Proof.
  intros Ha Hb.
  assert (special a || special b = true -> returns TDouble (__muldf3 a b)) as Hspecial.
  { intros Hs. destruct (muldf3_special a b Ha Hb Hs) as (r & -> & Ho). apply returns_some.
    eapply outcome_range; [exact Ha|exact Hb| |exact Ho]. intros x. unfold mul_special. by destruct (disnan a || disnan b || _ || _). }
  destruct (double_cases a Ha) as [Sa|Fa]; [apply Hspecial; by rewrite Sa|].
  destruct (double_cases b Hb) as [Sb|Fb]; [apply Hspecial; by rewrite Sb, orb_true_r|].
  destruct (muldf3_finite a b Fa Fb) as (r & -> & [Hr _] & _). by apply returns_some.
Qed.

Lemma div_returns a b : in_type TDouble a -> in_type TDouble b -> returns TDouble (__divdf3 a b).
Proof.
  intros Ha Hb.
  assert (special a || special b || diszero b = true -> returns TDouble (__divdf3 a b)) as Hspecial.
  { intros Hs. destruct (divdf3_special a b Ha Hb Hs) as (r & -> & Ho). apply returns_some.
    eapply outcome_range; [exact Ha|exact Hb| |exact Ho]. intros x. unfold div_special.
    destruct (disnan a || disnan b || _ || _); [done|]. by destruct (disinf a || _). }
  destruct (double_cases a Ha) as [Sa|Fa]; [apply Hspecial; by rewrite Sa|].
  destruct (double_cases b Hb) as [Sb|Fb]; [apply Hspecial; by rewrite Sb, orb_true_r|].
  destruct (diszero b) eqn:Z; [apply Hspecial; by rewrite orb_true_r|].
  destruct (divdf3_finite a b Fa Fb) as (r & -> & [Hr _] & _); [|by apply returns_some].
  rewrite diszero_mag in Z. unfold dval. destruct (Z.eqb_spec (dmag b) 0); [done|]. destruct (dneg b); lia.
Qed.

Lemma sub_returns a b : in_type TDouble a -> in_type TDouble b -> returns TDouble (__subdf3 a b).
Proof. intros Ha Hb. apply add_returns; [done|]. by destruct (flip_mod63 b Hb) as (_ & _ & ?). Qed.

Lemma cmp_range a b n : n = 1 \/ n = -1 -> in_type TInt (df_cmp3way a b n).
Proof. intros Hn. unfold df_cmp3way. cbn [in_type]. repeat case_match; lia. Qed.

Lemma fix_range a s : in_type TInt (df_to_i a s).
Proof.
  assert (forall z, - 2 ^ 31 <= s32 z < 2 ^ 31) as Hs by (intros; by apply (swrap_range 32)).
  assert (- 2 ^ 31 <= (if s then s32 0x80000000 else 0x7FFFFFFF) < 2 ^ 31) as Hsat by (destruct s; [apply Hs|lia]).
  unfold df_to_i. cbn [in_type]. cbv zeta. set (saturated := if s then _ else _) in *. clearbody saturated.
  repeat (case_match; try done; try lia); try apply Hs.
Qed.

Lemma bits_range n a b : 0 <= n -> 0 <= a < 2 ^ n -> 0 <= b < 2 ^ n -> 0 <= Z.lor a b < 2 ^ n.
Proof.
  intros Hn Ha Hb. replace (Z.lor a b) with (Z.lor a b mod 2 ^ n); [apply Z.mod_pos_bound, pow2_pos; done|].
  rewrite <- (Z.mod_small a (2 ^ n)) at 2 by done. rewrite <- (Z.mod_small b (2 ^ n)) at 2 by done. zbits.
Qed.

Lemma trunc_returns a : in_type TDouble a -> returns TFloat (__truncdfsf2 a).
Proof.
  intros Ha. destruct (double_cases a Ha) as [Sa|Fa].
  - unfold __truncdfsf2. rewrite sign_word by done.
    assert (0 <= b2z (dneg a) * 2 ^ 31 < 2 ^ 32) as Hsign by (destruct (dneg a); cbn; lia).
    assert (Z.land (Z.shiftr a 52) 0x7FF = 0x7FF) as E.
    { rewrite df_field. destruct (fields_mod63 a Ha) as [-> _]. apply special_field.
      unfold special, disnan, disinf in Sa. lia. }
    cbv zeta. rewrite E. cbn [Z.eqb Pos.eqb]. destruct (Z.land a D_FRAC =? 0); apply returns_some, bits_range; try lia.
    + apply bits_range; lia.
    + destruct (truthy _); [apply u32_range|lia].
  - destruct (truncdfsf2_finite a Fa) as (r & -> & Hr & _). by apply returns_some.
Qed.

Lemma extend_returns a : in_type TFloat a -> returns TDouble (__extendsfdf2 a).
Proof.
  intros Ha. destruct (extendsfdf2_exact a Ha) as (r & -> & _ & Hf & Hi & Hn). apply returns_some.
  destruct (Z.lt_trichotomy (a mod 2 ^ 31) FINF) as [L|[E|G]].
  - destruct (Hf ltac:(by split)) as [[Hr _] _]. exact Hr.
  - destruct (Hi ltac:(by split)) as [Hr _]. exact Hr.
  - destruct (Hn ltac:(by split)) as [Hr _]. exact Hr.
Qed.

Lemma unop_returns o a : in_type (fst (unop_type o)) a -> returns (snd (unop_type o)) (unop_run o a).
Proof.
  destruct o; cbn [unop_type fst snd unop_run]; intros Ha.
  - destruct (floatsidf_exact a Ha) as (r & -> & [Hr _] & _). by apply returns_some.
  - destruct (df_from_mag_correct false a) as (r & E & [Hr _] & _); [cbn [in_type] in Ha; lia|].
    unfold __floatunsidf. cbn [b2z] in E. rewrite E. by apply returns_some.
  - exact (returns_some TInt _ (fix_range a true)).
  - exact (returns_some TUnsigned _ (u32_range _)).
  - by apply extend_returns.
  - by apply trunc_returns.
Qed.

Lemma udivmod_returns a b : in_type TULong a -> in_type TULong b ->
  returns TULong (__udivdi3 a b) /\ returns TULong (__umoddi3 a b).
Proof.
  intros Ha Hb. unfold __udivdi3, __umoddi3. rewrite udivmod_spec by done. cbn [in_type] in *.
  destruct (Z.eqb_spec b 0); cbn [mbind option_bind]; (split; apply returns_some; cbn [in_type]); try lia.
  - pose proof (Z.div_le_upper_bound a b a). pose proof (Z.div_pos a b). nia.
  - pose proof (Z.mod_pos_bound a b). lia.
Qed.

Lemma divmod_returns a b : in_type TLong a -> in_type TLong b ->
  returns TLong (__divdi3 a b) /\ returns TLong (__moddi3 a b).
Proof.
  intros Ha Hb. destruct (div_spec a b Ha Hb) as [-> ->]. cbn [in_type] in *.
  destruct (Z.eqb_spec b 0); (split; apply returns_some; cbn [in_type]); try lia.
  - apply (swrap_range 64). lia.
  - pose proof (Z.rem_bound_abs a b). lia.
Qed.

Lemma shift_returns a n : in_type TInt n ->
  (in_type TULong a -> in_type TULong (__ashldi3 a n) /\ in_type TULong (__lshrdi3 a n)) /\
  (in_type TLong a -> in_type TLong (__ashrdi3 a n)).
Proof.
  intros Hn. assert (forall P : Prop, ((0 <=? n) && (n <? 64) = true -> 0 <= n < 64)) as Hr by lia.
  split.
  - intros Ha. rewrite ashl_spec, lshr_spec by done. cbn [in_type] in *. destruct (_ && _) eqn:E; [|lia].
    split; [apply Z.mod_pos_bound; lia|]. pose proof (pow2_pos n ltac:(lia)).
    pose proof (Z.div_mod a (2 ^ n) ltac:(lia)). pose proof (Z.mod_pos_bound a (2 ^ n) ltac:(lia)). nia.
  - intros Ha. rewrite ashr_spec by done. cbn [in_type] in *. destruct (_ && _) eqn:E; [|destruct (a <? 0); lia].
    pose proof (pow2_pos n ltac:(lia)).
    pose proof (Z.div_mod a (2 ^ n) ltac:(lia)). pose proof (Z.mod_pos_bound a (2 ^ n) ltac:(lia)). nia.
Qed.

Lemma binop_returns o a b : in_type (fst (fst (binop_type o))) a -> in_type (snd (fst (binop_type o))) b ->
  returns (snd (binop_type o)) (binop_run o a b).
Proof.
  destruct o; cbn [binop_type fst snd binop_run]; intros Ha Hb;
    try exact (returns_some TInt _ (cmp_range a b _ (or_introl eq_refl)));
    try exact (returns_some TInt _ (cmp_range a b _ (or_intror eq_refl))).
  - by apply add_returns.
  - by apply sub_returns.
  - by apply mul_returns.
  - by apply div_returns.
  - apply returns_some. unfold __unorddf2. cbn [in_type]. destruct (_ || _); cbn; lia.
  - by apply udivmod_returns.
  - by apply udivmod_returns.
  - by apply divmod_returns.
  - by apply divmod_returns.
  - rewrite mul_spec by done. apply returns_some, Z.mod_pos_bound. lia.
  - by apply returns_some, shift_returns.
  - by apply returns_some, shift_returns.
  - by apply returns_some, shift_returns.
Qed.

(** C14: type soundness of the arithmetic runtime: an expression of well-typed
    calls, over any values of its variables' types, evaluates - every loop
    of every routine ends, for NaNs, infinities, subnormals, zero divisors and
    out-of-range shift counts alike - and its value is one of its type. *)
Theorem runtime_type_sound G e t env : has_type G e t -> Forall2 in_type G env ->
  exists v, eval env e = Some v /\ in_type t v.
Proof.
  intros Ht Henv. induction Ht as [x t Hx|o e _ (v & E & Hv)|o e1 e2 _ (v1 & E1 & H1) _ (v2 & E2 & H2)]; cbn [eval].
  - destruct (Forall2_lookup_l _ _ _ _ _ Henv Hx) as (v & E & Hv). by exists v.
  - rewrite E. by apply unop_returns.
  - rewrite E1, E2. by apply binop_returns.
Qed.

(** [(int)((double)x / y + (float)y)] at [x = 7], [y] a NaN. *)
Lemma runtime_type_sound_witness :
  let e := EUn UFix (EBin BAdd (EBin BDiv (EUn UFloat (EVar 0)) (EVar 1)) (EUn UExtend (EUn UTrunc (EVar 1)))) in
  has_type [TInt; TDouble] e TInt /\ exists v, eval [7; 0x7FF8000000000001] e = Some v /\ in_type TInt v.
Proof.
  assert (has_type [TInt; TDouble]
    (EUn UFix (EBin BAdd (EBin BDiv (EUn UFloat (EVar 0)) (EVar 1)) (EUn UExtend (EUn UTrunc (EVar 1))))) TInt) as Ht.
  { apply (type_un _ UFix), (type_bin _ BAdd); [apply (type_bin _ BDiv)|apply (type_un _ UExtend), (type_un _ UTrunc)];
      [apply (type_un _ UFloat)|..]; by apply type_var. }
  split; [exact Ht|]. apply (runtime_type_sound _ _ _ _ Ht). repeat constructor; cbn; lia.
Defined.
