(* ===== verification/Ctype.v ===== *)
(** * Character classes: the ctype functions of [lib/libc_string.c]

    A character is the [int] the caller passes; the tests return [bool]. *)

From S2P Require Import Prelude.

Definition isdigit (c : Z) : bool := (48 <=? c) && (c <=? 57).
Definition isalpha (c : Z) : bool := ((97 <=? c) && (c <=? 122)) || ((65 <=? c) && (c <=? 90)).
Definition isalnum (c : Z) : bool := isalpha c || isdigit c.
Definition isxdigit (c : Z) : bool :=
  isdigit c || ((97 <=? c) && (c <=? 102)) || ((65 <=? c) && (c <=? 70)).
Definition isspace (c : Z) : bool :=
  (c =? 32) || (c =? 9) || (c =? 10) || (c =? 13) || (c =? 11) || (c =? 12).
Definition isprint (c : Z) : bool := (0x20 <=? c) && (c <? 0x7f).
Definition isupper (c : Z) : bool := (65 <=? c) && (c <=? 90).
Definition islower (c : Z) : bool := (97 <=? c) && (c <=? 122).
Definition tolower (c : Z) : Z := if isupper c then c + (97 - 65) else c.
Definition toupper (c : Z) : Z := if islower c then c - (97 - 65) else c.

(** [p[i]] in the string [p], the terminator included. *)
Definition peek (p : list Z) (i : nat) : Z := nth i p 0.

(** [while (isspace( *s)) s++;] *)
Fixpoint skip_spaces (s : list Z) : list Z :=
  match s with
  | c :: s' => if isspace c then skip_spaces s' else s
  | [] => []
  end.

(** Case folding is idempotent, and the two folds agree on what is equal. *)
Lemma tolower_idem c : tolower (tolower c) = tolower c.
Proof.
  unfold tolower at 2 3. destruct (isupper c) eqn:E; unfold tolower; [|by rewrite E].
  unfold isupper in *. destruct (Z.leb_spec 65 (c + (97 - 65))), (Z.leb_spec (c + (97 - 65)) 90); cbn [andb]; lia.
Qed.

Lemma fold_agree a b : tolower a = tolower b <-> toupper a = toupper b.
Proof.
  unfold tolower, toupper, isupper, islower.
  destruct (Z.leb_spec 65 a), (Z.leb_spec a 90), (Z.leb_spec 65 b), (Z.leb_spec b 90),
    (Z.leb_spec 97 a), (Z.leb_spec a 122), (Z.leb_spec 97 b), (Z.leb_spec b 122); cbn [andb]; lia.
Qed.
