(* ===== verification/Heap.v ===== *)
(** * The allocator: [lib/libc_stdlib.c]

    A first-fit heap in a static array.  Memory is bytes: a block is a
    12-byte header (size, next pointer, free flag) in front of its payload,
    read and written with the machine's 32-bit little-endian accesses, so a
    header can be destroyed by a stray write and a payload by the allocator.
    [g_heap], the address of the array, is a parameter. *)

From S2P Require Import Prelude.

(** ** Memory *)

Definition memory : Type := Z -> Z.

Definition wr8 (m : memory) (a v : Z) : memory := fun x => if x =? a then u8 v else m x.

Definition rd32 (m : memory) (a : Z) : Z :=
  m a + 2 ^ 8 * m (a + 1) + 2 ^ 16 * m (a + 2) + 2 ^ 24 * m (a + 3).

Definition wr32 (m : memory) (a v : Z) : memory :=
  wr8 (wr8 (wr8 (wr8 m a v) (a + 1) (v / 2 ^ 8)) (a + 2) (v / 2 ^ 16)) (a + 3) (v / 2 ^ 24).

(** [memset] and [memcpy] between places that do not overlap. *)
Definition memset_bytes (m : memory) (dst c n : Z) : memory :=
  fun x => if (dst <=? x) && (x <? dst + n) then u8 c else m x.
Definition memcpy_bytes (m : memory) (dst src n : Z) : memory :=
  fun x => if (dst <=? x) && (x <? dst + n) then m (src + (x - dst)) else m x.

(** ** The allocator *)

Definition HEAP_SIZE : Z := 256 * 1024.
Definition sizeof_block : Z := 12.
Definition ENOMEM : Z := 12.

(** The fields of a [heap_block_t] at address [b]. *)
Definition block_size (m : memory) (b : Z) : Z := rd32 m b.
Definition block_next (m : memory) (b : Z) : Z := rd32 m (b + 4).
Definition block_free (m : memory) (b : Z) : Z := m (b + 8).

Record heap : Type := Heap {
  h_mem : memory;
  h_head : Z;
  h_end : Z;
  h_errno : Z
}.

Definition align4 (n : Z) : Z := Z.land (u32 (n + 3)) (unot 32 3).

(** A bound on the blocks of the array. *)
Definition heap_fuel : nat := Z.to_nat 21846.

(** The search of [malloc]: the block found, or the last block. *)
Definition malloc_step (m : memory) (wanted : Z) (s : Z * Z) : step (Z * Z) (Z + Z) :=
  let '(block, tail) := s in
  if block =? 0 then Done (inr tail)
  else if truthy (block_free m block) && (wanted <=? block_size m block) then Done (inl block)
  else Next (block_next m block, block).

(** One round of the coalescing loop of [free]: the block, the one before it
    and the memory. *)
Definition coalesce_step (s : Z * Z * memory) : step (Z * Z * memory) memory :=
  let '(block, previous, m) := s in
  if block =? 0 then Done m
  else
    let merge := negb (previous =? 0) && truthy (block_free m previous) && truthy (block_free m block) in
    let m := if merge then
               wr32 (wr32 m previous (u32 (block_size m previous + align4 (u32 (sizeof_block + block_size m block)))))
                 (previous + 4) (block_next m block)
             else m in
    let block := if merge then previous else block in
    Next (block_next m block, block, m).

Section heap.
Context (g_heap : Z).

Definition heap_initial : heap := Heap (fun _ => 0) 0 g_heap 0.

(** A null result is 0; [None] is a search that does not end. *)
Definition malloc (h : heap) (size : Z) : option (heap * Z) :=
  let wanted := align4 (if truthy size then size else 1) in
  r ← loop heap_fuel (malloc_step (h_mem h) wanted) (h_head h, 0);
  match r with
  | inl block => Some (Heap (wr8 (h_mem h) (block + 8) 0) (h_head h) (h_end h) (h_errno h), block + sizeof_block)
  | inr tail =>
      if u32 (g_heap + HEAP_SIZE - h_end h) <? align4 (u32 (sizeof_block + wanted)) then
        Some (Heap (h_mem h) (h_head h) (h_end h) ENOMEM, 0)
      else
        let block := h_end h in
        let m := wr8 (wr32 (wr32 (h_mem h) block wanted) (block + 4) 0) (block + 8) 0 in
        let m := if truthy tail then wr32 m (tail + 4) block else m in
        Some (Heap m (if truthy tail then h_head h else block)
                (u32 (h_end h + align4 (u32 (sizeof_block + wanted)))) (h_errno h), block + sizeof_block)
  end.

Definition free (h : heap) (ptr : Z) : option heap :=
  if (ptr =? 0) || (ptr <? g_heap + sizeof_block) || (h_end h <=? ptr) then Some h
  else
    let block := ptr - sizeof_block in
    m ← loop heap_fuel coalesce_step (h_head h, 0, wr8 (h_mem h) (block + 8) 1);
    Some (Heap m (h_head h) (h_end h) (h_errno h)).

Definition calloc (h : heap) (nmemb size : Z) : option (heap * Z) :=
  if negb (size =? 0) && ((2 ^ 32 - 1) / size <? nmemb) then
    Some (Heap (h_mem h) (h_head h) (h_end h) ENOMEM, 0)
  else
    let total := u32 (nmemb * size) in
    '(h, p) ← malloc h total;
    Some (if truthy p then Heap (memset_bytes (h_mem h) p 0 total) (h_head h) (h_end h) (h_errno h) else h, p).

Definition realloc (h : heap) (ptr size : Z) : option (heap * Z) :=
  if ptr =? 0 then malloc h size
  else if size =? 0 then h ← free h ptr; Some (h, 0)
  else
    let block := ptr - sizeof_block in
    if size <=? block_size (h_mem h) block then Some (h, ptr)
    else
      '(h, p) ← malloc h size;
      if truthy p then
        let copy := if block_size (h_mem h) block <? size then block_size (h_mem h) block else size in
        h ← free (Heap (memcpy_bytes (h_mem h) p ptr copy) (h_head h) (h_end h) (h_errno h)) ptr;
        Some (h, p)
      else Some (h, p).

End heap.

(** ** Memory lemmas *)

Lemma wr8_other m a v x : x <> a -> wr8 m a v x = m x.
Proof. unfold wr8. destruct (Z.eqb_spec x a); congruence. Qed.

Lemma wr8_same m a v : wr8 m a v a = u8 v.
Proof. unfold wr8. by rewrite Z.eqb_refl. Qed.

Lemma wr32_other m a v x : x < a \/ a + 4 <= x -> wr32 m a v x = m x.
Proof. intros H. unfold wr32. rewrite !wr8_other by lia. done. Qed.

Lemma rd32_ext m m' a : (forall x, a <= x < a + 4 -> m' x = m x) -> rd32 m' a = rd32 m a.
Proof. intros H. unfold rd32. rewrite !H by lia. done. Qed.

Lemma rd32_wr32 m a v : 0 <= v < 2 ^ 32 -> rd32 (wr32 m a v) a = v.
Proof.
  intros Hv. unfold rd32, wr32.
  rewrite wr8_same, !(wr8_other _ (a + 3)), wr8_same, !(wr8_other _ (a + 2)), wr8_same, !(wr8_other _ (a + 1)), wr8_same
    by lia.
  unfold u8. Z.to_euclidean_division_equations. lia.
Qed.

Lemma rd32_wr32_any m a v : rd32 (wr32 m a v) a = u32 v.
Proof.
  unfold rd32, wr32.
  rewrite wr8_same, !(wr8_other _ (a + 3)), wr8_same, !(wr8_other _ (a + 2)), wr8_same, !(wr8_other _ (a + 1)), wr8_same by lia.
  unfold u8, u32. Z.to_euclidean_division_equations. lia.
Qed.

Lemma s32_u32 v : s32 (u32 v) = s32 v.
Proof. apply (swrap_of_mod 32). lia. Qed.

Lemma rd32_wr32_other m a b v : a + 4 <= b \/ b + 4 <= a -> rd32 (wr32 m b v) a = rd32 m a.
Proof. intros H. apply rd32_ext. intros x Hx. apply wr32_other. lia. Qed.

Lemma rd32_wr8_other m a b v : b < a \/ a + 4 <= b -> rd32 (wr8 m b v) a = rd32 m a.
Proof. intros H. apply rd32_ext. intros x Hx. apply wr8_other. lia. Qed.

Lemma align4_spec n : 0 <= n -> n + 3 < 2 ^ 32 -> align4 n = 4 * ((n + 3) / 4).
Proof.
  intros Hn Hb. unfold align4. rewrite u32_small by lia.
  assert (unot 32 3 = Z.ldiff (2 ^ 32 - 1) (2 ^ 2 - 1)) as -> by reflexivity.
  assert (Z.land (n + 3) (Z.ldiff (2 ^ 32 - 1) (2 ^ 2 - 1)) = Z.ldiff (Z.land (n + 3) (2 ^ 32 - 1)) (2 ^ 2 - 1)) as ->.
  { apply Z.bits_inj'. intros i _. rewrite Z.land_spec, !Z.ldiff_spec, Z.land_spec. by rewrite andb_assoc. }
  rewrite land_mask, Z.mod_small by lia. change (2 ^ 2 - 1) with (Z.ones 2). rewrite Z.ldiff_ones_r by lia.
  rewrite Z.shiftl_mul_pow2, Z.shiftr_div_pow2 by lia. change (2 ^ 2) with 4. lia.
Qed.

Lemma align4_id n : 0 <= n < 2 ^ 32 - 3 -> n mod 4 = 0 -> align4 n = n.
Proof. intros Hn Hm. rewrite align4_spec by lia. Z.to_euclidean_division_equations. lia. Qed.
