(* ===== verification/HeapInv.v ===== *)
(** * The heap invariant

    The blocks of the list tile the used part of the array: each header's
    next pointer is the address behind its payload.  [seg] relates a stretch
    of memory to the list of blocks it holds; the walks of [malloc] and
    [free] are followed on that list. *)

From S2P Require Import Prelude Heap.

Record block : Type := Blk {
  b_addr : Z;
  b_size : Z;
  b_free : bool
}.

#[global] Instance block_eq_dec : EqDecision block.
Proof. solve_decision. Defined.

Definition addr_of (l : list block) (nx : Z) : Z := match l with [] => nx | b :: _ => b_addr b end.

Definition b_end (b : block) : Z := b_addr b + sizeof_block + b_size b.

(** The header of [b] in memory. *)
Definition header (m : memory) (b : block) (nx : Z) : Prop :=
  block_size m (b_addr b) = b_size b /\ block_next m (b_addr b) = nx /\ block_free m (b_addr b) = b2z (b_free b).

(** The blocks [l] fill memory from [a] to [stop]; the last one's next
    pointer is [nx]. *)
Fixpoint seg (m : memory) (a : Z) (l : list block) (stop nx : Z) : Prop :=
  match l with
  | [] => a = stop
  | b :: l' =>
      b_addr b = a /\ header m b (addr_of l' nx) /\ 4 <= b_size b /\ b_size b mod 4 = 0 /\ seg m (b_end b) l' stop nx
  end.

(** The payloads in use. *)
Definition in_use (b : block) : bool := negb (b_free b).
Definition live (l : list block) : list block := List.filter in_use l.

Definition in_payload (b : block) (x : Z) : Prop := b_addr b + sizeof_block <= x < b_end b.
Definition in_header (b : block) (x : Z) : Prop := b_addr b <= x < b_addr b + 9.

Fixpoint no_adjacent (l : list block) : Prop :=
  match l with
  | b :: l' => match l' with b' :: _ => b_free b && b_free b' = false | [] => True end /\ no_adjacent l'
  | [] => True
  end.

(** [b] with the block [b'] behind it taken in. *)
Definition absorb (b b' : block) : block := Blk (b_addr b) (b_size b + (sizeof_block + b_size b')) true.

(** What coalescing does to the list: [b] absorbs the free blocks behind it. *)
Fixpoint merge_from (b : block) (l : list block) : list block :=
  match l with
  | [] => [b]
  | b' :: l' =>
      if b_free b && b_free b' then merge_from (absorb b b') l'
      else b :: merge_from b' l'
  end.
Definition coalesced (l : list block) : list block :=
  match l with [] => [] | b :: l' => merge_from b l' end.

(** ** Lemmas on stretches *)

Lemma header_ext m m' b nx : (forall x, in_header b x -> m' x = m x) -> header m b nx -> header m' b nx.
Proof.
  unfold header, in_header, block_size, block_next, block_free. intros H (E1 & E2 & E3).
  rewrite <- E1, <- E2, <- E3. repeat split; [apply rd32_ext| apply rd32_ext|]; intros; apply H; lia.
Qed.

Lemma seg_ext m m' a l stop nx : (forall b x, b ∈ l -> in_header b x -> m' x = m x) ->
  seg m a l stop nx -> seg m' a l stop nx.
Proof.
  revert a. induction l as [|b l IH]; intros a H; [done|]. intros (E & Hh & Hs & Hm & Hr).
  split; [done|]. split; [eapply header_ext, Hh; intros; eapply H; [apply elem_of_cons; by left|done]|].
  split; [done|]. split; [done|]. apply IH, Hr. intros b' x Hb. apply H, elem_of_cons. by right.
Qed.

Lemma seg_app m a l1 l2 stop nx :
  seg m a (l1 ++ l2) stop nx <-> exists mid, seg m a l1 mid (addr_of l2 nx) /\ seg m mid l2 stop nx.
Proof.
  revert a. induction l1 as [|b l1 IH]; intros a; cbn [app seg].
  - split; [intros H; by exists a|]. intros (mid & -> & H). done.
  - rewrite IH. assert (addr_of (l1 ++ l2) nx = addr_of l1 (addr_of l2 nx)) as -> by (by destruct l1).
    split; [intros (E & Hh & Hs & Hm & mid & H1 & H2)|intros (mid & (E & Hh & Hs & Hm & H1) & H2)]; eauto 10.
Qed.

Lemma seg_le m a l stop nx : seg m a l stop nx -> a + 16 * Z.of_nat (length l) <= stop.
Proof.
  revert a. induction l as [|b l IH]; intros a; cbn [seg length]; [lia|].
  intros (E & _ & Hs & _ & Hr). apply IH in Hr. unfold b_end, sizeof_block in Hr. lia.
Qed.

Lemma seg_bound m a l stop nx b : seg m a l stop nx -> b ∈ l -> a <= b_addr b /\ b_end b <= stop /\ 4 <= b_size b.
Proof.
  intros H (l1 & l2 & ->)%list_elem_of_split. apply seg_app in H as (mid & H1 & E & _ & Hs & _ & H2).
  apply seg_le in H1, H2. unfold b_end, sizeof_block in *. lia.
Qed.

(** Two blocks of a stretch are the same or apart. *)
Lemma seg_apart m a l1 b l2 stop nx b' : seg m a (l1 ++ b :: l2) stop nx -> b' ∈ l1 ++ l2 ->
  b_end b' <= b_addr b \/ b_end b <= b_addr b'.
Proof.
  intros H Hb. apply seg_app in H as (mid & H1 & E & _ & Hs & _ & H2).
  apply elem_of_app in Hb as [Hb|Hb]; [eapply seg_bound in H1; [|done]; lia|eapply seg_bound in H2; [|done]; lia].
Qed.

(** ** Coalescing on the list *)

Lemma merge_from_live b l : live (merge_from b l) = live (b :: l).
Proof.
  revert b. induction l as [|b' l IH]; intros b; cbn [merge_from]; [done|].
  destruct (b_free b) eqn:E1, (b_free b') eqn:E2; cbn [andb]; rewrite ?IH; unfold live, in_use in *;
    cbn [List.filter b_free]; rewrite ?E1, ?E2; cbn [negb]; rewrite ?IH; cbn [List.filter b_free negb]; rewrite ?E2; done.
Qed.

Lemma coalesced_live l : live (coalesced l) = live l.
Proof. destruct l; [done|]. apply merge_from_live. Qed.

Lemma merge_from_head b l : exists s f l', merge_from b l = Blk (b_addr b) s f :: l' /\ f = b_free b.
Proof.
  revert b. induction l as [|b' l IH]; intros b; cbn [merge_from].
  - destruct b. by do 3 eexists.
  - destruct (b_free b && b_free b') eqn:E.
    + destruct (IH (absorb b b')) as (s & f & l' & -> & ->).
      do 3 eexists. split; [reflexivity|]. apply andb_true_iff in E as [-> _]. done.
    + destruct b. by do 3 eexists.
Qed.

Lemma merge_from_no_adjacent b l : no_adjacent (merge_from b l).
Proof.
  revert b. induction l as [|b' l IH]; intros b; cbn [merge_from]; [done|].
  destruct (b_free b && b_free b') eqn:E; [apply IH|].
  pose proof (IH b') as H. destruct (merge_from_head b' l) as (s & f & l' & Em & ->). rewrite Em in H |- *.
  split; [exact E|exact H].
Qed.

Lemma coalesced_no_adjacent l : no_adjacent (coalesced l).
Proof. destruct l; [done|]. apply merge_from_no_adjacent. Qed.

(** Headers of the merged list are headers of the list. *)
Lemma merge_from_addr b l b' : b' ∈ merge_from b l -> exists b0, b0 ∈ b :: l /\ b_addr b0 = b_addr b'.
Proof.
  revert b. induction l as [|b1 l IH]; intros b; cbn [merge_from].
  - intros ->%list_elem_of_singleton. exists b. split; [apply elem_of_cons; by left|done].
  - destruct (b_free b && b_free b1) eqn:E.
    + intros (b0 & Hb0 & Ea)%IH. apply elem_of_cons in Hb0 as [->|Hb0].
      * exists b. split; [apply elem_of_cons; by left|done].
      * exists b0. split; [by do 2 (apply elem_of_cons; right)|done].
    + intros [->|Hb']%elem_of_cons; [exists b; split; [apply elem_of_cons; by left|done]|].
      apply IH in Hb' as (b0 & Hb0 & Ea). exists b0. split; [apply elem_of_cons; by right|done].
Qed.

(** ** The invariant *)

Section inv.
Context (g_heap : Z).

Definition heap_inv (h : heap) (l : list block) : Prop :=
  0 < g_heap /\ g_heap + HEAP_SIZE < 2 ^ 32 /\ h_end h <= g_heap + HEAP_SIZE /\
  h_head h = addr_of l 0 /\ seg (h_mem h) g_heap l (h_end h) 0 /\ no_adjacent l.

End inv.

(** ** The walks *)

(** The last block of the list, as [tail] of the search; [t] when empty. *)
Definition last_addr (l : list block) (t : Z) : Z := fold_left (fun _ b => b_addr b) l t.

Definition fits (wanted : Z) (b : block) : bool := b_free b && (wanted <=? b_size b).

Lemma truthy_b2z b : truthy (b2z b) = b.
Proof. by destruct b. Qed.

(** The search stops at the first block that fits. *)
Lemma malloc_walk m a l stop wanted fuel t : seg m a l stop 0 -> 0 < a -> (length l < fuel)%nat ->
  (exists l1 b l2, l = l1 ++ b :: l2 /\ Forall (fun b => fits wanted b = false) l1 /\ fits wanted b = true /\
     loop fuel (malloc_step m wanted) (addr_of l 0, t) = Some (inl (b_addr b))) \/
  (Forall (fun b => fits wanted b = false) l /\
     loop fuel (malloc_step m wanted) (addr_of l 0, t) = Some (inr (last_addr l t))).
Proof.
  revert a fuel t. induction l as [|b l IH]; intros a fuel t Hseg Ha Hf.
  - right. destruct fuel as [|n]; [cbn in Hf; lia|]. split; [constructor|reflexivity].
  - destruct Hseg as (E & (E1 & E2 & E3) & Hs & Hm & Hr). destruct fuel as [|n]; [cbn in Hf; lia|].
    assert (loop (S n) (malloc_step m wanted) (addr_of (b :: l) 0, t) =
      if fits wanted b then Some (inl (b_addr b)) else loop n (malloc_step m wanted) (addr_of l 0, b_addr b)) as Es.
    { cbn [loop malloc_step addr_of]. destruct (Z.eqb_spec (b_addr b) 0); [lia|].
      rewrite E3, E1, E2, truthy_b2z. unfold fits. by destruct (_ && _). }
    rewrite Es. destruct (fits wanted b) eqn:Ef.
    + left. exists [], b, l. repeat split; [constructor|done].
    + destruct (IH (b_end b) n (b_addr b)) as [(l1 & b' & l2 & -> & Hl1 & Hb' & El)|[Hl El]];
        [done|unfold b_end, sizeof_block; lia|cbn in Hf; lia|left|right].
      * exists (b :: l1), b', l2. split; [done|]. split; [by constructor|]. done.
      * split; [by constructor|]. exact El.
Qed.

(** The memory after [b] has absorbed [b']. *)
Definition absorb_mem (m : memory) (b b' : block) (nx : Z) : memory :=
  wr32 (wr32 m (b_addr b) (b_size b + (sizeof_block + b_size b'))) (b_addr b + 4) nx.

Lemma absorb_mem_other m b b' nx x : ~ in_header b x -> absorb_mem m b b' nx x = m x.
Proof. unfold in_header, absorb_mem. intros H. rewrite !wr32_other by lia. done. Qed.

(** Two neighbours in memory. *)
Lemma seg_pair m b b' l stop : seg m (b_addr b) (b :: b' :: l) stop 0 -> 0 < b_addr b -> stop < 2 ^ 32 ->
  b_addr b' = b_end b /\ header m b (b_addr b') /\ header m b' (addr_of l 0) /\ seg m (b_addr b') (b' :: l) stop 0 /\
  0 <= addr_of l 0 < 2 ^ 32 /\ b_addr b < b_addr b' /\ b_end b' < 2 ^ 32 /\
  4 <= b_size b /\ 4 <= b_size b' /\ b_size b mod 4 = 0 /\ b_size b' mod 4 = 0 /\ seg m (b_end b') l stop 0.
Proof.
  intros (_ & H1 & Hs & Hm & Hr) Hb Hstop. pose proof Hr as (Ea & H2 & Hs' & Hm' & Hr').
  pose proof (seg_le _ _ _ _ _ Hr') as Hle. rewrite <- Ea in Hr.
  assert (0 <= addr_of l 0 < 2 ^ 32) as Hnx.
  { unfold b_end, sizeof_block in *. destruct l as [|b2 l]; cbn [addr_of length] in *; [lia|].
    destruct Hr' as (? & ?). lia. }
  do 11 (split; [assumption || (unfold b_end, sizeof_block in *; lia)|]). exact Hr'.
Qed.

Lemma coalesce_round m b b' l stop n : seg m (b_addr b) (b :: b' :: l) stop 0 -> 0 < b_addr b -> stop < 2 ^ 32 ->
  loop (S n) coalesce_step (b_addr b', b_addr b, m) =
    if b_free b && b_free b'
    then loop n coalesce_step (addr_of l 0, b_addr b, absorb_mem m b b' (addr_of l 0))
    else loop n coalesce_step (addr_of l 0, b_addr b', m).
Proof.
  intros Hseg Hb Hstop.
  destruct (seg_pair _ _ _ _ _ Hseg Hb Hstop) as (Ea & (E1 & E2 & E3) & (F1 & F2 & F3) & _ & Hnx & Hlt & Hend & Hs & Hs' & Hm & Hm' & _).
  cbn [loop coalesce_step]. destruct (Z.eqb_spec (b_addr b') 0); [lia|]. destruct (Z.eqb_spec (b_addr b) 0); [lia|].
  cbn [negb andb]. rewrite E3, F3, !truthy_b2z. destruct (b_free b && b_free b'); [|by rewrite F2].
  rewrite E1, F1, F2. unfold b_end, sizeof_block in *. rewrite (u32_small (12 + b_size b')) by lia.
  rewrite align4_id by (try lia; Z.to_euclidean_division_equations; lia). rewrite u32_small by lia.
  assert (block_next (absorb_mem m b b' (addr_of l 0)) (b_addr b) = addr_of l 0) as E by (apply rd32_wr32; lia).
  change (wr32 (wr32 m (b_addr b) (b_size b + (12 + b_size b'))) (b_addr b + 4) (addr_of l 0))
    with (absorb_mem m b b' (addr_of l 0)). by rewrite E.
Qed.

Lemma absorb_seg m b b' l stop : seg m (b_addr b) (b :: b' :: l) stop 0 -> 0 < b_addr b -> stop < 2 ^ 32 ->
  b_free b = true -> seg (absorb_mem m b b' (addr_of l 0)) (b_addr b) (absorb b b' :: l) stop 0.
Proof.
  intros Hseg Hb Hstop Hf.
  destruct (seg_pair _ _ _ _ _ Hseg Hb Hstop) as (Ea & (E1 & E2 & E3) & _ & _ & Hnx & Hlt & Hend & Hs & Hs' & Hm & Hm' & Hr).
  unfold absorb. split; [done|]. unfold header, block_size, block_next, block_free, absorb_mem, b_end, sizeof_block in *.
  cbn [b_addr b_size b_free] in *. split; [split; [|split]|].
  - rewrite rd32_wr32_other by lia. apply rd32_wr32. lia.
  - apply rd32_wr32. lia.
  - rewrite !wr32_other by lia. by rewrite <- Hf.
  - split; [lia|]. split; [Z.to_euclidean_division_equations; lia|].
    replace (b_addr b + 12 + (b_size b + (12 + b_size b'))) with (b_addr b' + 12 + b_size b') by lia.
    apply seg_ext with m; [|exact Hr]. intros b2 x Hb2 Hx.
    destruct (seg_bound _ _ _ _ _ _ Hr Hb2) as (? & _). unfold in_header in Hx. rewrite !wr32_other by lia. done.
Qed.

(** The loop of [free] with [b] behind it and the stretch [l] ahead. *)
Lemma coalesce_walk l : forall m b stop fuel,
  0 < b_addr b -> seg m (b_addr b) (b :: l) stop 0 -> stop < 2 ^ 32 -> (length l < fuel)%nat ->
  exists m', loop fuel coalesce_step (addr_of l 0, b_addr b, m) = Some m' /\
    seg m' (b_addr b) (merge_from b l) stop 0 /\
    forall x, (forall b', b' ∈ b :: l -> ~ in_header b' x) -> m' x = m x.
Proof.
  induction l as [|b' l IH]; intros m b stop fuel Hb Hseg Hstop Hf; (destruct fuel as [|n]; [cbn in Hf; lia|]).
  { exists m. done. }
  pose proof (seg_pair _ _ _ _ _ Hseg Hb Hstop) as (Ea & Hh & _ & Hr & _ & Hlt & _ & Hs & _ & Hm & _).
  change (addr_of (b' :: l) 0) with (b_addr b'). rewrite (coalesce_round m b b' l stop n Hseg Hb Hstop).
  cbn [merge_from]. destruct (b_free b && b_free b') eqn:Ef.
  - apply andb_true_iff in Ef as [Ef _].
    destruct (IH (absorb_mem m b b' (addr_of l 0)) (absorb b b') stop n Hb) as (m' & El & Hsg & Hfr);
      [exact (absorb_seg _ _ _ _ _ Hseg Hb Hstop Ef)|done|cbn in Hf; lia|].
    exists m'. split; [exact El|]. split; [exact Hsg|]. intros x Hx. rewrite Hfr.
    + apply absorb_mem_other, Hx, elem_of_cons. by left.
    + intros b2 [->|Hb2]%elem_of_cons; [apply (Hx b), elem_of_cons; by left|].
      apply Hx. by do 2 (apply elem_of_cons; right).
  - destruct (IH m b' stop n) as (m' & El & Hsg & Hfr); [lia|done|done|cbn in Hf; lia|].
    exists m'. split; [exact El|]. split; [|intros x Hx; apply Hfr; intros b2 Hb2; apply Hx, elem_of_cons; by right].
    destruct (merge_from_head b' l) as (s & f & l' & Em & _). rewrite Em in Hsg |- *.
    split; [done|]. split; [|split; [done|]; split; [done|]; rewrite <- Ea; exact Hsg].
    apply header_ext with m; [|exact Hh]. intros x Hx. apply Hfr. intros b2 Hb2 Hx2.
    destruct (seg_bound _ _ _ _ _ _ Hr Hb2) as (? & _). unfold in_header, b_end, sizeof_block in *. lia.
Qed.
