(* ===== verification/HeapOps.v ===== *)
(** * The heap operations against the invariant

    What [malloc], [free], [calloc] and [realloc] do to the list of blocks,
    and the bytes they leave alone. *)

From S2P Require Import Prelude Heap HeapInv.

(** The bytes of no header of [l] keep their value. *)
Definition frame (l : list block) (m m' : memory) : Prop :=
  forall x, (forall b, b ∈ l -> ~ in_header b x) -> m' x = m x.

Definition set_used (b : block) : block := Blk (b_addr b) (b_size b) false.
Definition set_free (b : block) : block := Blk (b_addr b) (b_size b) true.

(** [b] with another free flag, in memory. *)
Lemma seg_flag m a l1 b l2 stop f : seg m a (l1 ++ b :: l2) stop 0 ->
  seg (wr8 m (b_addr b + 8) (b2z f)) a (l1 ++ Blk (b_addr b) (b_size b) f :: l2) stop 0.
Proof.
  intros H. pose proof H as H0. apply seg_app in H as (mid & H1 & E & (E1 & E2 & E3) & Hs & Hm & H2).
  apply seg_app. exists mid. split; [|split; [done|split; [split; [|split]|split; [done|split; [done|]]]]].
  - apply seg_ext with m; [|exact H1]. intros b2 x Hb2 Hx.
    destruct (seg_bound _ _ _ _ _ _ H1 Hb2) as (_ & Hend & Hs2). unfold in_header, b_end, sizeof_block in *.
    rewrite wr8_other by lia. done.
  - unfold block_size. cbn [b_addr b_size]. rewrite rd32_wr8_other by lia. exact E1.
  - unfold block_next. cbn [b_addr b_size]. rewrite rd32_wr8_other by lia. exact E2.
  - unfold block_free. cbn [b_addr b_free]. rewrite wr8_same. by destruct f.
  - apply seg_ext with m; [|exact H2]. intros b2 x Hb2 Hx.
    destruct (seg_bound _ _ _ _ _ _ H2 Hb2) as (Hlo & _). unfold in_header, b_end, sizeof_block in *.
    rewrite wr8_other by lia. done.
Qed.

Lemma last_addr_snoc l b t : last_addr (l ++ [b]) t = b_addr b.
Proof. unfold last_addr. by rewrite fold_left_app. Qed.

(** The last block of a stretch is one of its blocks. *)
Lemma last_addr_seg m a l stop nx : seg m a l stop nx -> 0 < a ->
  l = [] /\ truthy (last_addr l 0) = false \/
  truthy (last_addr l 0) = true /\ exists b, b ∈ l /\ b_addr b = last_addr l 0.
Proof.
  intros H Ha. destruct l as [|b l _] using rev_ind; [by left|]. right. rewrite last_addr_snoc.
  assert (b ∈ l ++ [b]) as Hb by (apply elem_of_app; right; by apply list_elem_of_singleton).
  split; [|by exists b]. destruct (seg_bound _ _ _ _ _ _ H Hb) as (? & _).
  unfold truthy. destruct (Z.eqb_spec (b_addr b) 0); [lia|done].
Qed.

(** A new last block at [stop]. *)
Lemma seg_snoc m a l stop wanted : seg m a l stop 0 -> 0 < a -> a <= stop -> stop + sizeof_block + wanted < 2 ^ 32 ->
  4 <= wanted -> wanted mod 4 = 0 ->
  let m1 := wr8 (wr32 (wr32 m stop wanted) (stop + 4) 0) (stop + 8) 0 in
  let m2 := if truthy (last_addr l 0) then wr32 m1 (last_addr l 0 + 4) stop else m1 in
  seg m2 a (l ++ [Blk stop wanted false]) (stop + sizeof_block + wanted) 0.
Proof.
  intros H Ha Hle Hfit Hw Hm m1 m2.
  assert (header m1 (Blk stop wanted false) 0) as Hh.
  { unfold header, block_size, block_next, block_free, m1, sizeof_block in *. cbn [b_addr b_size b_free].
    split; [|split].
    - rewrite rd32_wr8_other, rd32_wr32_other by lia. apply rd32_wr32. lia.
    - rewrite rd32_wr8_other by lia. by apply rd32_wr32.
    - by rewrite wr8_same. }
  assert (forall x, x < stop -> m1 x = m x) as Hm1
    by (intros x Hx; unfold m1; rewrite wr8_other, !wr32_other by lia; done).
  apply seg_app. exists stop. cbn [addr_of b_addr].
  destruct l as [|b l'] eqn:El using rev_ind.
  - cbn in m2. split; [cbn in H; exact H|]. split; [done|]. split; [exact Hh|]. done.
  - clear IHl'.
    pose proof H as (mid & H1 & E & (E1 & E2 & E3) & Hs & Hms & Hend)%seg_app. cbn [seg] in Hend.
    assert (a <= b_addr b) as Hab by (apply seg_le in H1; lia).
    assert (m2 = wr32 m1 (b_addr b + 4) stop) as -> by (unfold m2; rewrite last_addr_snoc; unfold truthy; destruct (Z.eqb_spec (b_addr b) 0); [lia|done]).
    unfold b_end, sizeof_block in *. split.
    + apply seg_app. exists mid. split; [|split; [done|split; [split; [|split]|split; [done|split; [done|]]]]].
      * cbn [addr_of]. apply seg_ext with m; [|exact H1]. intros b2 x Hb2 Hx.
        destruct (seg_bound _ _ _ _ _ _ H1 Hb2) as (_ & Hend2 & Hs2). unfold in_header, b_end, sizeof_block in *.
        rewrite wr32_other by lia. apply Hm1. lia.
      * unfold block_size. rewrite rd32_wr32_other by lia. rewrite <- E1. apply rd32_ext. intros; apply Hm1; lia.
      * apply rd32_wr32. cbn [addr_of]. lia.
      * unfold block_free. rewrite wr32_other by lia. rewrite Hm1 by lia. exact E3.
      * exact Hend.
    + split; [done|]. split; [|done]. apply header_ext with m1; [|exact Hh].
      intros x Hx. unfold in_header in Hx. cbn [b_addr] in Hx. apply wr32_other. lia.
Qed.

(** ** The shape of the list *)

Lemma live_app l1 l2 : live (l1 ++ l2) = live l1 ++ live l2.
Proof. apply List.filter_app. Qed.

Lemma live_mid l1 b l2 : b_free b = false -> live (l1 ++ b :: l2) ≡ₚ b :: live (l1 ++ l2).
Proof.
  intros H. rewrite !live_app. unfold live at 2. cbn [List.filter]. unfold in_use at 1. rewrite H. cbn [negb].
  symmetry. apply Permutation_middle.
Qed.

Lemma live_mid_free l1 b l2 : b_free b = true -> live (l1 ++ b :: l2) = live (l1 ++ l2).
Proof. intros H. rewrite !live_app. unfold live at 2. cbn [List.filter]. unfold in_use at 1. by rewrite H. Qed.

Lemma elem_of_live b l : b ∈ live l <-> b ∈ l /\ b_free b = false.
Proof.
  unfold live. rewrite !list_elem_of_In, List.filter_In. unfold in_use. by rewrite negb_true_iff.
Qed.

Lemma no_adjacent_used l1 b b' l2 : b_free b' = false -> no_adjacent (l1 ++ b :: l2) -> no_adjacent (l1 ++ b' :: l2).
Proof.
  intros Hb. induction l1 as [|b1 l1 IH].
  - intros [_ H]. cbn [app no_adjacent]. split; [|done]. destruct l2; [done|]. by rewrite Hb.
  - intros [H1 H2]. split; [|by apply IH]. destruct l1; [|done]. cbn [app] in *. by rewrite Hb, andb_false_r.
Qed.

Lemma no_adjacent_snoc l b : b_free b = false -> no_adjacent l -> no_adjacent (l ++ [b]).
Proof.
  intros Hb. induction l as [|b1 l IH]; [done|]. intros [H1 H2]. split; [|by apply IH].
  destruct l; [|done]. cbn [app]. by rewrite Hb, andb_false_r.
Qed.

(** ** The operations *)

(** The size a request is rounded to. *)
Definition wanted_of (size : Z) : Z := align4 (if truthy size then size else 1).

Lemma wanted_of_spec size : 0 <= size < 2 ^ 32 - 16 ->
  4 <= wanted_of size /\ size <= wanted_of size < 2 ^ 32 - 12 /\ wanted_of size mod 4 = 0.
Proof.
  intros H. unfold wanted_of, truthy. destruct (Z.eqb_spec size 0); cbn [negb]; rewrite align4_spec by lia;
    Z.to_euclidean_division_equations; lia.
Qed.

Section ops.
Context (g_heap : Z).
Abbreviation heap_inv := (heap_inv g_heap).

Lemma heap_inv_length h l : heap_inv h l -> (length l < heap_fuel)%nat.
Proof.
  intros (Hg & Hfit & Hend & _ & Hseg & _). apply seg_le in Hseg. unfold HEAP_SIZE, heap_fuel in *. lia.
Qed.

(** The two outcomes of [malloc]. *)
Definition malloc_post (h : heap) (l : list block) (size : Z) (h' : heap) (p : Z) : Prop :=
  (p = 0 /\ h' = Heap (h_mem h) (h_head h) (h_end h) ENOMEM /\ Forall (fun b => fits (wanted_of size) b = false) l /\
     g_heap + HEAP_SIZE - h_end h < sizeof_block + wanted_of size) \/
  (exists l' b, p = b_addr b + sizeof_block /\ b_free b = false /\ wanted_of size <= b_size b /\
     h_errno h' = h_errno h /\ heap_inv h' l' /\ live l' ≡ₚ b :: live l /\ frame (b :: l) (h_mem h) (h_mem h')).

Lemma malloc_found h l1 b l2 : heap_inv h (l1 ++ b :: l2) ->
  heap_inv (Heap (wr8 (h_mem h) (b_addr b + 8) 0) (h_head h) (h_end h) (h_errno h)) (l1 ++ set_used b :: l2).
Proof.
  intros (Hg & Hfit & Hend & Hh & Hseg & Hna). split; [done|]. split; [done|]. split; [done|].
  split; [cbn; rewrite Hh; by destruct l1|]. split; [|by apply no_adjacent_used with b].
  apply (seg_flag _ _ _ _ _ _ false Hseg).
Qed.

Lemma malloc_appended h l wanted : heap_inv h l -> 4 <= wanted -> wanted mod 4 = 0 ->
  sizeof_block + wanted <= g_heap + HEAP_SIZE - h_end h ->
  let m := wr8 (wr32 (wr32 (h_mem h) (h_end h) wanted) (h_end h + 4) 0) (h_end h + 8) 0 in
  heap_inv (Heap (if truthy (last_addr l 0) then wr32 m (last_addr l 0 + 4) (h_end h) else m)
      (if truthy (last_addr l 0) then addr_of l 0 else h_end h) (h_end h + (sizeof_block + wanted)) (h_errno h))
    (l ++ [Blk (h_end h) wanted false]).
Proof.
  intros (Hg & Hfit & Hend & Hh & Hseg & Hna) Hw Hm Hroom m. pose proof (seg_le _ _ _ _ _ Hseg) as Hle.
  split; [done|]. split; [done|]. split; [cbn; lia|]. split; [|split; [|by apply no_adjacent_snoc]].
  - cbn [h_head]. destruct (last_addr_seg _ _ _ _ _ Hseg Hg) as [[-> ->]|(-> & b & Hb & _)]; [done|].
    destruct l; [by apply elem_of_nil in Hb|done].
  - cbn [h_mem h_end]. rewrite Z.add_assoc. apply seg_snoc; try done; lia.
Qed.

Lemma malloc_spec h l size : heap_inv h l -> 0 <= size < 2 ^ 32 - 16 ->
  exists h' p, malloc g_heap h size = Some (h', p) /\ malloc_post h l size h' p.
Proof.
  intros Hinv Hsize. pose proof (heap_inv_length h l Hinv) as Hlen. pose proof Hinv as (Hg & Hfit & Hend & Hh & Hseg & Hna).
  destruct (wanted_of_spec size Hsize) as (Hw & Hw2 & Hw3). unfold malloc, malloc_post. fold (wanted_of size). rewrite Hh.
  destruct (malloc_walk _ _ _ _ (wanted_of size) heap_fuel 0 Hseg Hg Hlen)
    as [(l1 & b & l2 & -> & Hl1 & Hb & ->)|[Hl ->]]; cbn [mbind option_bind].
  - do 2 eexists. split; [reflexivity|]. right. apply andb_true_iff in Hb as [Hb1 Hb2].
    exists (l1 ++ set_used b :: l2), (set_used b). split; [done|]. split; [done|]. split; [cbn; lia|]. split; [done|].
    split; [rewrite <- Hh; by apply malloc_found|].
    split; [rewrite live_mid by done; by rewrite live_mid_free|].
    intros x Hx. cbn [h_mem]. apply wr8_other. assert (~ in_header (set_used b) x) as Hx' by (apply Hx, elem_of_cons; by left).
    unfold in_header in Hx'. cbn in Hx'. lia.
  - pose proof (seg_le _ _ _ _ _ Hseg) as Hle. unfold HEAP_SIZE, sizeof_block in *.
    rewrite (u32_small (12 + wanted_of size)), align4_id by (try lia; Z.to_euclidean_division_equations; lia).
    rewrite u32_small by lia. destruct (Z.ltb_spec (g_heap + 256 * 1024 - h_end h) (12 + wanted_of size)) as [Hno|Hyes].
    + do 2 eexists. split; [reflexivity|]. left. rewrite <- Hh. done.
    + do 2 eexists. split; [reflexivity|]. right. set (b := Blk (h_end h) (wanted_of size) false).
      exists (l ++ [b]), b. split; [done|]. split; [done|]. split; [cbn; lia|]. split; [done|]. rewrite u32_small by lia.
      split; [by apply malloc_appended|]. split; [rewrite live_mid by done; by rewrite app_nil_r|].
      intros x Hx. cbn [h_mem]. assert (~ in_header b x) as Hxb by (apply Hx, elem_of_cons; by left).
      unfold in_header in Hxb. cbn [b b_addr] in Hxb.
      destruct (last_addr_seg _ _ _ _ _ Hseg Hg) as [[_ ->]|(-> & b' & Hb' & <-)].
      * rewrite wr8_other, !wr32_other by lia. done.
      * assert (~ in_header b' x) as Hxb' by (apply Hx, elem_of_cons; by right). unfold in_header in Hxb'.
        rewrite wr32_other, wr8_other, !wr32_other by lia. done.
Qed.

(** The coalescing loop over a whole list. *)
Lemma coalesce_list m l stop fuel : seg m g_heap l stop 0 -> 0 < g_heap -> stop < 2 ^ 32 -> (length l < fuel)%nat ->
  exists m', loop fuel coalesce_step (addr_of l 0, 0, m) = Some m' /\ seg m' g_heap (coalesced l) stop 0 /\ frame l m m'.
Proof.
  intros Hseg Hg Hstop Hf. destruct fuel as [|n]; [lia|]. destruct l as [|b l]; [by exists m|].
  pose proof Hseg as (E & (_ & E2 & _) & _). cbn [length] in Hf.
  assert (loop (S n) coalesce_step (addr_of (b :: l) 0, 0, m) = loop n coalesce_step (addr_of l 0, b_addr b, m)) as ->.
  { cbn [loop coalesce_step addr_of]. destruct (Z.eqb_spec (b_addr b) 0); [lia|]. cbn [Z.eqb negb andb]. by rewrite E2. }
  rewrite <- E in Hseg |- *. apply coalesce_walk; (done || lia).
Qed.

Lemma seg_heap_fuel m l stop : seg m g_heap l stop 0 -> stop <= g_heap + HEAP_SIZE -> (length l < heap_fuel)%nat.
Proof. intros Hseg%seg_le Hend. unfold HEAP_SIZE, heap_fuel in *. lia. Qed.

Lemma free_spec h l b : heap_inv h l -> b ∈ l -> b_free b = false ->
  exists h' l', free g_heap h (b_addr b + sizeof_block) = Some h' /\ heap_inv h' l' /\ live l ≡ₚ b :: live l' /\
    frame l (h_mem h) (h_mem h') /\ h_errno h' = h_errno h /\ h_end h' = h_end h.
Proof.
  intros (Hg & Hfit & Hend & Hh & Hseg & Hna) (l1 & l2 & ->)%list_elem_of_split Hb.
  assert (b ∈ l1 ++ b :: l2) as Hin by (apply elem_of_app; right; apply elem_of_cons; by left).
  destruct (seg_bound _ _ _ _ _ _ Hseg Hin) as (Hlo & Hhi & Hs).
  unfold free. unfold b_end, sizeof_block in Hhi |- *.
  destruct (Z.eqb_spec (b_addr b + 12) 0), (Z.ltb_spec (b_addr b + 12) (g_heap + 12)), (Z.leb_spec (h_end h) (b_addr b + 12)); try lia.
  cbn [orb]. replace (b_addr b + 12 - 12) with (b_addr b) by lia. rewrite Hh.
  pose proof (seg_flag _ _ _ _ _ _ true Hseg) as Hseg'. cbn [b2z] in Hseg'. fold (set_free b) in Hseg'.
  assert (addr_of (l1 ++ b :: l2) 0 = addr_of (l1 ++ set_free b :: l2) 0) as Ea by (by destruct l1).
  destruct (coalesce_list _ _ _ heap_fuel Hseg' Hg ltac:(lia)) as (m' & El & Hsg & Hfr); [by apply (seg_heap_fuel _ _ _ Hseg')|].
  rewrite Ea, El. cbn [mbind option_bind]. do 2 eexists. split; [reflexivity|]. split.
  - split; [done|]. split; [done|]. split; [done|]. split; [|split; [exact Hsg|apply coalesced_no_adjacent]].
    cbn [h_head]. rewrite <- Ea. destruct l1 as [|b1 l1]; cbn [app coalesced addr_of].
    + destruct (merge_from_head (set_free b) l2) as (? & ? & ? & -> & _). done.
    + destruct (merge_from_head b1 (l1 ++ set_free b :: l2)) as (? & ? & ? & -> & _). done.
  - split; [rewrite coalesced_live, live_mid by done; by rewrite live_mid_free|]. split; [|done].
    intros x Hx. cbn [h_mem]. rewrite Hfr.
    + apply wr8_other. specialize (Hx b Hin). unfold in_header in Hx. lia.
    + intros b' [Hb'|[->|Hb']%elem_of_cons]%elem_of_app.
      * apply Hx, elem_of_app. by left.
      * apply (Hx b Hin).
      * apply Hx, elem_of_app. right. apply elem_of_cons. by right.
Qed.

(** Payloads are apart from headers and from each other. *)
Lemma payload_not_header h l b b' x : heap_inv h l -> b ∈ l -> b' ∈ l -> in_payload b x -> ~ in_header b' x.
Proof.
  intros (_ & _ & _ & _ & Hseg & _) (l1 & l2 & ->)%list_elem_of_split Hb' Hx. unfold in_payload, in_header in *.
  assert (4 <= b_size b') as Hs' by (destruct (seg_bound _ _ _ _ _ _ Hseg Hb') as (_ & _ & ?); done).
  assert (b' = b \/ b' ∈ l1 ++ l2) as [->|Hb'']
    by (apply elem_of_app in Hb' as [?|[?|?]%elem_of_cons]; rewrite elem_of_app; tauto).
  - unfold sizeof_block in *. lia.
  - destruct (seg_apart _ _ _ _ _ _ _ _ Hseg Hb''); unfold b_end, sizeof_block in *; lia.
Qed.

Lemma live_apart h l b L : heap_inv h l -> live l ≡ₚ b :: L -> forall b', b' ∈ L -> b_end b' <= b_addr b \/ b_end b <= b_addr b'.
Proof.
  intros (_ & _ & _ & _ & Hseg & _) Hp b' Hb'.
  assert (b ∈ live l) as [Hb Hf]%elem_of_live by (rewrite Hp; apply elem_of_cons; by left).
  apply list_elem_of_split in Hb as (l1 & l2 & ->). rewrite live_mid in Hp by done. apply Permutation_cons_inv in Hp.
  rewrite <- Hp in Hb'. apply elem_of_live in Hb' as [Hb' _]. by apply (seg_apart _ _ _ _ _ _ _ _ Hseg).
Qed.

(** A write into a payload in use is invisible to the allocator. *)
Lemma payload_write h l m' : heap_inv h l ->
  (forall x, (forall b, b ∈ live l -> ~ in_payload b x) -> m' x = h_mem h x) ->
  heap_inv (Heap m' (h_head h) (h_end h) (h_errno h)) l.
Proof.
  intros Hinv Hm. pose proof Hinv as (Hg & Hfit & Hend & Hh & Hseg & Hna).
  split; [done|]. split; [done|]. split; [done|]. split; [done|]. split; [|done]. cbn [h_mem h_end].
  apply seg_ext with (h_mem h); [|done]. intros b x Hb Hx. apply Hm. intros b' [Hb' _]%elem_of_live Hx'.
  exact (payload_not_header _ _ _ _ _ Hinv Hb' Hb Hx' Hx).
Qed.

(** What a block in use holds survives an operation that keeps it. *)
Lemma frame_payload h l m' b L : heap_inv h l -> frame L (h_mem h) m' -> b ∈ l -> (forall b', b' ∈ L -> b' ∈ l) ->
  forall x, in_payload b x -> m' x = h_mem h x.
Proof. intros Hinv Hf Hb HL x Hx. apply Hf. intros b' Hb'. eapply payload_not_header; eauto. Qed.
End ops.
