(* ===== verification/HeapClaims.v ===== *)
(** * The heap refines a map from pointers to contents

    The abstract heap is a finite map: each pointer handed out and not yet
    freed, with the bytes its user sees.  Every call allowed by that map runs
    to completion on the concrete heap and does to it what the specification
    does to the map. *)

From stdpp Require Import gmap.
From S2P Require Import Prelude Heap HeapInv HeapOps.

(** ** The specification *)

Inductive call : Type :=
| Malloc (size : Z)
| Calloc (nmemb size : Z)
| Realloc (ptr size : Z)
| Free (ptr : Z)
| Read (ptr : Z) (i : nat)
| Write (ptr : Z) (i : nat) (v : Z).

Abbreviation pointers := (gmap Z (list Z)).

Definition size_ok (n : Z) : Prop := 0 <= n < 2 ^ 32 - 16.

(** What the caller must respect. *)
Definition allowed (A : pointers) (c : call) : Prop :=
  match c with
  | Malloc n => size_ok n
  | Calloc a b => 0 <= a < 2 ^ 32 /\ 0 <= b < 2 ^ 32 /\ (size_ok (a * b) \/ 2 ^ 32 <= a * b)
  | Realloc p n => size_ok n /\ (p = 0 \/ is_Some (A !! p))
  | Free p => p = 0 \/ is_Some (A !! p)
  | Read p i | Write p i _ => exists c, A !! p = Some c /\ (i < length c)%nat
  end.

(** [r] is a new pointer to the bytes [c]. *)
Definition fresh (A : pointers) (r : Z) (c : list Z) : Prop :=
  r <> 0 /\ A !! r = None /\
  forall q d, A !! q = Some d -> r + Z.of_nat (length c) <= q \/ q + Z.of_nat (length d) <= r.

Definition spec (A : pointers) (c : call) (r : Z) (A' : pointers) : Prop :=
  let alloc A n (Q : list Z -> Prop) :=
    r = 0 /\ A' = A \/ exists new, Z.of_nat (length new) = n /\ fresh A r new /\ Q new /\ A' = <[r := new]> A in
  match c with
  | Malloc n => alloc A n (fun _ => True)
  | Calloc a b =>
      if 2 ^ 32 <=? a * b then r = 0 /\ A' = A else alloc A (a * b) (Forall (fun v => v = 0))
  | Realloc p n =>
      if p =? 0 then alloc A n (fun _ => True)
      else if n =? 0 then r = 0 /\ A' = delete p A
      else r = 0 /\ A' = A \/
        exists old new, A !! p = Some old /\ Z.of_nat (length new) = n /\ fresh (delete p A) r new /\
          (forall i v, old !! i = Some v -> Z.of_nat i < n -> new !! i = Some v) /\ A' = <[r := new]> (delete p A)
  | Free p => A' = delete p A
  | Read p i => A' = A /\ exists old, A !! p = Some old /\ old !! i = Some r
  | Write p i v => exists old, A !! p = Some old /\ A' = <[p := <[i := u8 v]> old]> A
  end.

(** Bytes stored one after the other. *)
Fixpoint store_bytes (m : memory) (a : Z) (bytes : list Z) : memory :=
  match bytes with
  | [] => m
  | b :: rest => store_bytes (wr8 m a b) (a + 1) rest
  end.

(** What holds of a block after single stores holds after a run of them. *)
Lemma store_bytes_sim (R : memory -> list Z -> Prop) p :
  (forall m c i v, R m c -> (i < length c)%nat -> R (wr8 m (p + Z.of_nat i) v) (<[i := u8 v]> c)) ->
  forall bytes m c i, R m c -> (bytes <> [] -> (i + length bytes <= length c)%nat) -> Forall (fun b => 0 <= b < 256) bytes ->
    R (store_bytes m (p + Z.of_nat i) bytes) (overwritten c i bytes).
Proof.
  intros Hw bytes. induction bytes as [|b bytes IH]; intros m c i Hr Hl Hb; cbn [store_bytes]; [by rewrite overwritten_nil|].
  specialize (Hl ltac:(done)). cbn [length] in Hl. inversion Hb as [|? ? Hb1 Hb2]; subst.
  rewrite overwritten_cons by lia. replace (p + Z.of_nat i + 1) with (p + Z.of_nat (S i)) by lia. apply IH; [|rewrite length_insert; lia|done].
  rewrite <- (u8_small b) at 2 by done. apply Hw; [done|lia].
Qed.

Section claims.
Context (g_heap : Z).

(** ** The concrete side *)

Definition set_mem (h : heap) (m : memory) : heap := Heap m (h_head h) (h_end h) (h_errno h).

Definition run_call (h : heap) (c : call) : option (heap * Z) :=
  match c with
  | Malloc n => malloc g_heap h n
  | Calloc a b => calloc g_heap h a b
  | Realloc p n => realloc g_heap h p n
  | Free p => h ← free g_heap h p; Some (h, 0)
  | Read p i => Some (h, h_mem h (p + Z.of_nat i))
  | Write p i v => Some (set_mem h (wr8 (h_mem h) (p + Z.of_nat i) v), 0)
  end.

(** The bytes from [p] on are [c]. *)
Definition holds (m : memory) (p : Z) (c : list Z) : Prop :=
  forall i v, c !! i = Some v -> m (p + Z.of_nat i) = v.

Definition owns (m : memory) (l : list block) (A : pointers) : Prop :=
  forall p c, A !! p = Some c -> exists b, b ∈ live l /\ p = b_addr b + sizeof_block /\
    Z.of_nat (length c) <= b_size b /\ holds m p c.

(** The simulation relation: the pointers are the payloads in use. *)
Definition represents (h : heap) (A : pointers) : Prop :=
  exists l, heap_inv g_heap h l /\ owns (h_mem h) l A /\
    forall b, b ∈ live l -> is_Some (A !! (b_addr b + sizeof_block)).

(** ** The simulation *)

(** The bytes a fresh pointer shows. *)
Definition bytes_at (m : memory) (p : Z) (n : nat) : list Z := (fun i => m (p + Z.of_nat i)) <$> seq 0 n.

Lemma bytes_at_length m p n : length (bytes_at m p n) = n.
Proof. unfold bytes_at. by rewrite length_fmap, length_seq. Qed.

Lemma bytes_at_lookup m p n i : (i < n)%nat -> bytes_at m p n !! i = Some (m (p + Z.of_nat i)).
Proof. intros H. unfold bytes_at. rewrite list_lookup_fmap, lookup_seq_lt by done. done. Qed.

Lemma bytes_at_holds m p n : holds m p (bytes_at m p n).
Proof.
  intros i v E. pose proof (lookup_lt_Some _ _ _ E) as Hi. rewrite bytes_at_length in Hi.
  rewrite bytes_at_lookup in E by done. congruence.
Qed.

Lemma holds_payload m m' b c : Z.of_nat (length c) <= b_size b -> holds m (b_addr b + sizeof_block) c ->
  (forall x, in_payload b x -> m' x = m x) -> holds m' (b_addr b + sizeof_block) c.
Proof.
  intros Hc Hh Hm i v E. rewrite Hm; [by apply Hh|]. apply lookup_lt_Some in E. unfold in_payload, b_end. lia.
Qed.

(** The state of a represented heap, its list exposed. *)
Definition rep (h : heap) (l : list block) (A : pointers) : Prop :=
  heap_inv g_heap h l /\ owns (h_mem h) l A /\ forall b, b ∈ live l -> is_Some (A !! (b_addr b + sizeof_block)).

(** The pointer of an allocated block determines the block. *)
Lemma block_unique h l b b' : heap_inv g_heap h l -> b ∈ l -> b' ∈ l -> b_addr b = b_addr b' -> b = b'.
Proof.
  intros (_ & _ & _ & _ & Hseg & _) Hb Hb' E.
  destruct (seg_bound _ _ _ _ _ _ Hseg Hb) as (_ & _ & ?), (seg_bound _ _ _ _ _ _ Hseg Hb') as (_ & _ & ?).
  destruct (decide (b' = b)) as [->|Hne]; [done|exfalso]. apply list_elem_of_split in Hb as (k1 & k2 & ->).
  assert (b' ∈ k1 ++ k2) as Hb'' by (apply elem_of_app in Hb' as [?|[?|?]%elem_of_cons]; rewrite elem_of_app; tauto).
  destruct (seg_apart _ _ _ _ _ _ _ _ Hseg Hb''); unfold b_end, sizeof_block in *; lia.
Qed.

(** Allocation: a new block [b], whose payload only may differ from what
    [malloc] left. *)
Lemma alloc_rep h l A h' l' b m n : rep h l A -> heap_inv g_heap h' l' -> live l' ≡ₚ b :: live l ->
  frame (b :: l) (h_mem h) (h_mem h') -> 0 <= n <= b_size b ->
  (forall x, ~ (in_payload b x) -> m x = h_mem h' x) ->
  let p := b_addr b + sizeof_block in let new := bytes_at m p (Z.to_nat n) in
  fresh A p new /\ rep (set_mem h' m) l' (<[p := new]> A).
Proof.
  intros (Hi & Ho & Hc) Hi' Hp Hf Hn Hm p new.
  assert (b ∈ live l') as Hb by (rewrite Hp; apply elem_of_cons; by left).
  assert (b ∈ l') as Hb' by (by apply elem_of_live in Hb as [? _]).
  assert (forall c, c ∈ live l -> c ∈ l') as Hsub
    by (intros c H; assert (c ∈ live l') as [? _]%elem_of_live by (rewrite Hp; apply elem_of_cons; by right); done).
  assert (length new = Z.to_nat n) as Hlen by apply bytes_at_length.
  assert (forall q d, A !! q = Some d -> p + Z.of_nat (length new) <= q /\ p < q \/ q + Z.of_nat (length d) <= p /\ q < p) as Hdis.
  { intros q d (c & Hcl & -> & Hcs & _)%Ho. rewrite Hlen.
    destruct Hi' as (Hg & ? & ? & ? & Hseg & ?).
    destruct (seg_bound _ _ _ _ _ _ Hseg Hb') as (_ & _ & ?), (seg_bound _ _ _ _ _ _ Hseg (Hsub c Hcl)) as (_ & _ & ?).
    destruct (live_apart g_heap h' l' b (live l) (ltac:(repeat split; done)) Hp c Hcl); unfold p, b_end, sizeof_block in *; lia. }
  split; [split; [|split]|].
  - destruct Hi' as (Hg & ? & ? & ? & Hseg & ?). destruct (seg_bound _ _ _ _ _ _ Hseg Hb') as (? & _ & _). unfold p, sizeof_block. lia.
  - destruct (A !! p) as [d|] eqn:E; [|done]. destruct (Hdis p d E); lia.
  - intros q d E. destruct (Hdis q d E); lia.
  - split; [|split].
    + apply (payload_write g_heap h' l' m Hi'). intros x Hx. apply Hm, Hx, Hb.
    + intros q d. destruct (decide (p = q)) as [<-|Hne].
      * rewrite lookup_insert_eq. intros [= <-]. exists b. split; [done|]. split; [done|]. split; [lia|]. apply bytes_at_holds.
      * rewrite lookup_insert_ne by done. intros E. destruct (Ho q d E) as (c & Hcl & -> & Hcs & Hh).
        exists c. split; [rewrite Hp; apply elem_of_cons; by right|]. split; [done|]. split; [done|].
        apply holds_payload with (h_mem h); [done|done|]. intros x Hx. pose proof Hcl as [Hcl' _]%elem_of_live.
        cbn [h_mem set_mem]. rewrite Hm.
        -- apply Hf. intros b2 [->|Hb2]%elem_of_cons; [eapply payload_not_header; [exact Hi'|by apply Hsub|exact Hb'|done]|].
           exact (payload_not_header g_heap h l c b2 x Hi Hcl' Hb2 Hx).
        -- intros Hxb. destruct (live_apart g_heap h' l' b (live l) Hi' Hp c Hcl); unfold in_payload, sizeof_block in *; lia.
    + intros c Hcl. destruct (decide (p = b_addr c + sizeof_block)) as [<-|Hne]; [rewrite lookup_insert_eq; by eexists|].
      rewrite lookup_insert_ne by done. rewrite Hp in Hcl. apply elem_of_cons in Hcl as [->|Hcl]; [done|]. by apply Hc.
Qed.

Lemma free_rep h l A p c : rep h l A -> A !! p = Some c -> exists h' l', free g_heap h p = Some h' /\ rep h' l' (delete p A) /\
  forall b, b ∈ live l -> p <> b_addr b + sizeof_block -> forall x, in_payload b x -> h_mem h' x = h_mem h x.
Proof.
  intros (Hi & Ho & Hc) E. destruct (Ho p c E) as (b & Hbl & -> & Hs & Hh). pose proof Hbl as [Hb Hbf]%elem_of_live.
  destruct (free_spec g_heap h l b Hi Hb Hbf) as (h' & l' & Ef & Hi' & Hp & Hfr & _).
  assert (forall b', b' ∈ live l -> forall x, in_payload b' x -> h_mem h' x = h_mem h x) as Hkeep.
  { intros b' [Hb' _]%elem_of_live x Hx. apply Hfr. intros b2 Hb2.
    exact (payload_not_header g_heap h l b' b2 x Hi Hb' Hb2 Hx). }
  exists h', l'. split; [done|]. split; [|intros b' Hb' _; by apply Hkeep]. split; [done|]. split.
  - intros q d [Hne Eq]%lookup_delete_Some. destruct (Ho q d Eq) as (b' & Hb' & -> & Hs' & Hh').
    exists b'. split; [|split; [done|split; [done|]]].
    + rewrite Hp in Hb'. apply elem_of_cons in Hb' as [->|?]; done.
    + apply holds_payload with (h_mem h); [done|done|]. by apply Hkeep.
  - intros b' Hb'. assert (b' ∈ live l) as Hbl' by (rewrite Hp; apply elem_of_cons; by right).
    rewrite lookup_delete_ne; [by apply Hc|]. intros Ea.
    pose proof Hbl' as [Hbm _]%elem_of_live. assert (b = b') as <- by (apply (block_unique h l b b' Hi Hb Hbm); lia).
    destruct (seg_bound (h_mem h) g_heap l (h_end h) 0 b) as (_ & _ & ?); [by destruct Hi as (_ & _ & _ & _ & ? & _)|done|].
    destruct (live_apart g_heap h l b (live l') Hi Hp b Hb'); unfold b_end, sizeof_block in *; lia.
Qed.


(** [malloc] as the client sees it; [m] may set the new payload. *)
Lemma malloc_rep h l A n : rep h l A -> size_ok n -> exists h' r, malloc g_heap h n = Some (h', r) /\
  (r = 0 /\ rep h' l A /\ h_mem h' = h_mem h \/
   exists l' b, r = b_addr b + sizeof_block /\ r <> 0 /\ n <= b_size b /\ b ∈ live l' /\
     (forall c, c ∈ live l -> c ∈ live l' /\ c <> b /\ forall x, in_payload c x -> h_mem h' x = h_mem h x /\ ~ in_payload b x) /\
     forall m, (forall x, ~ in_payload b x -> m x = h_mem h' x) ->
       let new := bytes_at m r (Z.to_nat n) in fresh A r new /\ rep (set_mem h' m) l' (<[r := new]> A)).
Proof.
  intros Hrep Hn. pose proof Hrep as (Hi & Ho & Hc).
  destruct (malloc_spec g_heap h l n Hi Hn) as (h' & r & E & [(-> & -> & _)|(l' & b & -> & Hf & Hw & _ & Hi' & Hp & Hfr)]).
  - do 2 eexists. split; [exact E|]. by left.
  - do 2 eexists. split; [exact E|]. right. exists l', b.
    destruct (wanted_of_spec n Hn) as (_ & Hwn & _).
    assert (b ∈ live l') as Hb by (rewrite Hp; apply elem_of_cons; by left). pose proof Hb as [Hb' _]%elem_of_live.
    pose proof Hi' as (Hg & _ & _ & _ & Hseg & _). destruct (seg_bound _ _ _ _ _ _ Hseg Hb') as (Hlo & _ & Hs).
    split; [done|]. split; [unfold sizeof_block; lia|]. split; [lia|]. split; [done|]. split.
    + intros c Hcl. assert (c ∈ live l') as Hcl' by (rewrite Hp; apply elem_of_cons; by right).
      pose proof (live_apart g_heap h' l' b (live l) Hi' Hp c Hcl) as Hap.
      pose proof Hcl as [Hcm _]%elem_of_live. pose proof Hcl' as [Hcm' _]%elem_of_live.
      destruct (seg_bound _ _ _ _ _ _ Hseg Hcm') as (_ & _ & Hs').
      split; [done|]. split; [intros ->; unfold b_end, sizeof_block in *; lia|]. intros x Hx. split.
      * apply Hfr. intros b2 [->|Hb2]%elem_of_cons;
          [exact (payload_not_header g_heap h' l' c b x Hi' Hcm' Hb' Hx)|exact (payload_not_header g_heap h l c b2 x Hi Hcm Hb2 Hx)].
      * intros Hxb. unfold in_payload, sizeof_block in *. lia.
    + intros m Hm new. unfold size_ok in Hn. eapply alloc_rep; eauto; lia.
Qed.

Lemma rep_represents h l A : rep h l A -> represents h A.
Proof. by exists l. Qed.

Lemma set_mem_id h : set_mem h (h_mem h) = h.
Proof. by destruct h. Qed.

(** The allocation outcome common to the calls. *)
Definition alloc_spec (A : pointers) (r n : Z) (Q : list Z -> Prop) (A' : pointers) : Prop :=
  r = 0 /\ A' = A \/ exists new, Z.of_nat (length new) = n /\ fresh A r new /\ Q new /\ A' = <[r := new]> A.

Lemma malloc_sim h A n : represents h A -> size_ok n -> exists h' r A',
  malloc g_heap h n = Some (h', r) /\ alloc_spec A r n (fun _ => True) A' /\ represents h' A'.
Proof.
  intros [l Hrep] Hn. destruct (malloc_rep h l A n Hrep Hn) as (h' & r & E & [(-> & Hrep' & _)|(l' & b & _ & _ & _ & _ & _ & Hm)]).
  - exists h', 0, A. split; [done|]. split; [by left|]. by exists l.
  - destruct (Hm (h_mem h')) as [Hf Hr]; [done|]. rewrite set_mem_id in Hr.
    exists h', r, (<[r := bytes_at (h_mem h') r (Z.to_nat n)]> A). split; [done|]. split; [|by exists l'].
    right. eexists. split; [|split; [exact Hf|done]]. rewrite bytes_at_length. unfold size_ok in Hn. lia.
Qed.

Lemma free_sim h A p : represents h A -> p = 0 \/ is_Some (A !! p) ->
  exists h', free g_heap h p = Some h' /\ represents h' (delete p A).
Proof.
  intros [l Hrep] [->|[c E]].
  - exists h. split; [done|]. rewrite delete_id; [by exists l|].
    destruct (A !! 0) as [c|] eqn:E; [|done]. destruct Hrep as ((Hg & _ & _ & _ & Hseg & _) & Ho & _).
    destruct (Ho 0 c E) as (b & [Hb _]%elem_of_live & Ea & _). destruct (seg_bound _ _ _ _ _ _ Hseg Hb) as (? & _).
    unfold sizeof_block in Ea. lia.
  - destruct (free_rep h l A p c Hrep E) as (h' & l' & Ef & Hr & _). exists h'. split; [done|]. by exists l'.
Qed.

Lemma calloc_sim h A a b : represents h A -> allowed A (Calloc a b) -> exists h' r A',
  calloc g_heap h a b = Some (h', r) /\ spec A (Calloc a b) r A' /\ represents h' A'.
Proof.
  intros [l Hrep] (Ha & Hb & Hab). unfold calloc, spec.
  assert (negb (b =? 0) && ((2 ^ 32 - 1) / b <? a) = (2 ^ 32 <=? a * b)) as ->.
  { destruct (Z.eqb_spec b 0) as [->|Hb0]; cbn [negb andb]; [destruct (Z.leb_spec (2 ^ 32) (a * 0)); [lia|done]|].
    pose proof (Z.div_mod (2 ^ 32 - 1) b Hb0). pose proof (Z.mod_pos_bound (2 ^ 32 - 1) b ltac:(lia)).
    destruct (Z.ltb_spec ((2 ^ 32 - 1) / b) a), (Z.leb_spec (2 ^ 32) (a * b)); try done; nia. }
  destruct (Z.leb_spec (2 ^ 32) (a * b)) as [Hbig|Hsmall].
  - do 3 eexists. split; [reflexivity|]. split; [done|]. exists l. destruct Hrep as ((? & ? & ? & ? & ? & ?) & ? & ?).
    done.
  - assert (size_ok (a * b)) as Hn by (destruct Hab; [done|lia]). pose proof Hn as Hn'. unfold size_ok in Hn'.
    rewrite u32_small by lia.
    destruct (malloc_rep h l A (a * b) Hrep Hn) as (h' & r & -> & [(-> & Hrep' & _)|(l' & c & Er & Hr0 & Hsz & _ & _ & Hm)]);
      cbn [mbind option_bind].
    + exists h', 0, A. split; [done|]. split; [by left|]. by exists l.
    + assert (truthy r = true) as -> by (unfold truthy; by destruct (Z.eqb_spec r 0)).
      destruct (Hm (memset_bytes (h_mem h') r 0 (a * b))) as [Hf Hr].
      { intros x Hx. unfold memset_bytes. unfold in_payload, b_end in Hx.
        destruct (Z.leb_spec r x), (Z.ltb_spec x (r + a * b)); try done. lia. }
      do 3 eexists. split; [reflexivity|]. split; [|exists l'; exact Hr].
      right. eexists. split; [|split; [exact Hf|split; [|done]]]; [rewrite bytes_at_length; lia|].
      apply Forall_lookup. intros i v Ev. pose proof (lookup_lt_Some _ _ _ Ev) as Hi. rewrite bytes_at_length in Hi.
      rewrite bytes_at_lookup in Ev by done. injection Ev as <-. unfold memset_bytes.
      destruct (Z.leb_spec r (r + Z.of_nat i)), (Z.ltb_spec (r + Z.of_nat i) (r + a * b)); (done || lia).
Qed.


Lemma fresh_delete A r new p : fresh A r new -> fresh (delete p A) r new.
Proof.
  intros (H0 & Hn & Hd). split; [done|]. split; [by apply lookup_delete_None; right|].
  intros q d [_ E]%lookup_delete_Some. by apply (Hd q d).
Qed.

(** A block that is large enough already. *)
Lemma realloc_in_place h l A b old n : rep h l A -> b ∈ live l -> A !! (b_addr b + sizeof_block) = Some old ->
  holds (h_mem h) (b_addr b + sizeof_block) old -> 0 <= n <= b_size b ->
  let p := b_addr b + sizeof_block in let new := bytes_at (h_mem h) p (Z.to_nat n) in
  fresh (delete p A) p new /\ rep h l (<[p := new]> (delete p A)) /\
  forall i v, old !! i = Some v -> Z.of_nat i < n -> new !! i = Some v.
Proof.
  intros (Hi & Ho & Hc) Hbl E Hh Hn p new. pose proof Hbl as [Hb _]%elem_of_live.
  pose proof Hi as (Hg & _ & _ & _ & Hseg & _). destruct (seg_bound _ _ _ _ _ _ Hseg Hb) as (Hlo & _ & Hs).
  assert (Z.of_nat (length new) = n) as Hlen by (unfold new; rewrite bytes_at_length; lia).
  split; [split; [|split]|split; [split; [done|split]|]].
  - unfold p, sizeof_block. lia.
  - apply lookup_delete_eq.
  - intros q d [Hne Eq]%lookup_delete_Some. destruct (Ho q d Eq) as (c & [Hcm _]%elem_of_live & -> & Hcs & _).
    destruct (seg_bound _ _ _ _ _ _ Hseg Hcm) as (_ & _ & Hs').
    assert (b <> c) as Hbc by (intros <-; done). apply list_elem_of_split in Hb as (l1 & l2 & ->).
    assert (c ∈ l1 ++ l2) as Hcm' by (apply elem_of_app in Hcm as [?|[->|?]%elem_of_cons]; rewrite elem_of_app; tauto || done).
    destruct (seg_apart _ _ _ _ _ _ _ _ Hseg Hcm'); unfold p, b_end, sizeof_block in *; lia.
  - intros q d. rewrite insert_delete_eq. destruct (decide (p = q)) as [<-|Hne].
    + rewrite lookup_insert_eq. intros [= <-]. exists b. split; [done|]. split; [done|]. split; [lia|]. apply bytes_at_holds.
    + rewrite lookup_insert_ne by done. apply Ho.
  - intros c Hcl. rewrite insert_delete_eq. destruct (decide (p = b_addr c + sizeof_block)) as [<-|Hne];
      [rewrite lookup_insert_eq; by eexists|]. rewrite lookup_insert_ne by done. by apply Hc.
  - intros i v Ev Hiv. unfold new. rewrite bytes_at_lookup by lia. f_equal. exact (Hh i v Ev).
Qed.

Lemma live_block_size h l b : heap_inv g_heap h l -> b ∈ live l -> block_size (h_mem h) (b_addr b) = b_size b.
Proof.
  intros (_ & _ & _ & _ & Hseg & _) [(l1 & l2 & ->)%list_elem_of_split _]%elem_of_live.
  apply seg_app in Hseg as (mid & _ & _ & (E & _) & _). exact E.
Qed.

(** The move to a new block. *)
Lemma realloc_move h l A b old n h' l' c : rep h l A -> b ∈ live l -> A !! (b_addr b + sizeof_block) = Some old ->
  Z.of_nat (length old) <= b_size b -> holds (h_mem h) (b_addr b + sizeof_block) old -> b_size b < n <= b_size c ->
  (forall x, in_payload b x -> h_mem h' x = h_mem h x) -> b_addr c + sizeof_block <> b_addr b + sizeof_block ->
  let r := b_addr c + sizeof_block in let p := b_addr b + sizeof_block in
  let m := memcpy_bytes (h_mem h') r p (b_size b) in let new := bytes_at m r (Z.to_nat n) in
  rep (set_mem h' m) l' (<[r := new]> A) ->
  (exists h2, free g_heap (set_mem h' m) p = Some h2 /\ represents h2 (<[r := new]> (delete p A))) /\
  forall i v, old !! i = Some v -> new !! i = Some v.
Proof.
  intros _ _ E Hos Hh Hn Hkeep Hne r p m new Hrep. split.
  - destruct (free_rep _ l' _ p old Hrep) as (h2 & l2 & Ef & Hr & _); [by rewrite lookup_insert_ne by done|].
    exists h2. split; [done|]. exists l2. rewrite delete_insert_ne in Hr by done. exact Hr.
  - intros i v Ev. pose proof (lookup_lt_Some _ _ _ Ev) as Hlt. unfold new. rewrite bytes_at_lookup by lia. f_equal.
    unfold m, memcpy_bytes. destruct (Z.leb_spec r (r + Z.of_nat i)), (Z.ltb_spec (r + Z.of_nat i) (r + b_size b)); try lia.
    cbn [andb]. replace (p + (r + Z.of_nat i - r)) with (p + Z.of_nat i) by lia.
    rewrite Hkeep; [by apply Hh|]. unfold in_payload, b_end, p. lia.
Qed.

Lemma realloc_sim h A p n : represents h A -> allowed A (Realloc p n) -> exists h' r A',
  realloc g_heap h p n = Some (h', r) /\ spec A (Realloc p n) r A' /\ represents h' A'.
Proof.
  intros Hrep (Hn & Hp). unfold realloc, spec. destruct (Z.eqb_spec p 0) as [->|Hp0]; [by apply malloc_sim|].
  destruct Hp as [?|[old E]]; [done|]. destruct (Z.eqb_spec n 0) as [->|Hn0].
  - destruct (free_sim h A p Hrep) as (h' & -> & Hr); [right; by eexists|]. by exists h', 0, (delete p A).
  - destruct Hrep as [l Hrep]. pose proof Hrep as (Hi & Ho & _). destruct (Ho p old E) as (b & Hb & -> & Hos & Hh).
    replace (b_addr b + sizeof_block - sizeof_block) with (b_addr b) by lia. rewrite (live_block_size h l b Hi Hb).
    pose proof Hn as Hn'. unfold size_ok in Hn'. destruct (Z.leb_spec n (b_size b)) as [Hin|Hgrow].
    + destruct (realloc_in_place h l A b old n Hrep Hb E Hh ltac:(lia)) as (Hf & Hr & Hpre).
      do 3 eexists. split; [reflexivity|]. split; [|exists l; exact Hr]. right.
      refine (ex_intro _ old (ex_intro _ _ (conj E (conj _ (conj Hf (conj Hpre eq_refl)))))). rewrite bytes_at_length. lia.
    + destruct (malloc_rep h l A n Hrep Hn) as (h' & r & -> & [(-> & Hrep' & _)|(l' & c & -> & Hr0 & Hsz & _ & Hk & Hm)]);
        cbn [mbind option_bind].
      { exists h', 0, A. split; [done|]. split; [by left|]. by exists l. }
      destruct (Hk b Hb) as (Hb' & Hbc & Hkb).
      assert (truthy (b_addr c + sizeof_block) = true) as -> by (unfold truthy; by destruct (Z.eqb_spec (b_addr c + sizeof_block) 0)).
      destruct (Hm (h_mem h') ltac:(done)) as [_ (Hi' & _ & _)]. rewrite set_mem_id in Hi'.
      rewrite (live_block_size h' l' b Hi' Hb'). destruct (Z.ltb_spec (b_size b) n); [|lia].
      destruct (Hm (memcpy_bytes (h_mem h') (b_addr c + sizeof_block) (b_addr b + sizeof_block) (b_size b))) as [Hf Hr].
      { intros x Hx. unfold memcpy_bytes. unfold in_payload, b_end in Hx.
        destruct (Z.leb_spec (b_addr c + sizeof_block) x), (Z.ltb_spec x (b_addr c + sizeof_block + b_size b)); try done. lia. }
      assert (b_addr c + sizeof_block <> b_addr b + sizeof_block) as Hne
        by (intros Ecb; destruct Hf as (_ & Hf & _); rewrite Ecb in Hf; congruence).
      destruct (realloc_move h l A b old n h' l' c Hrep Hb E Hos Hh ltac:(lia) ltac:(intros; by apply Hkb) Hne Hr) as ((h2 & Ef & Hr2) & Hpre).
      unfold set_mem in Ef. rewrite Ef. cbn [mbind option_bind]. do 3 eexists. split; [reflexivity|]. split; [|exact Hr2]. right.
      refine (ex_intro _ old (ex_intro _ _ (conj E (conj _ (conj (fresh_delete _ _ _ _ Hf) (conj (fun i v Ev _ => Hpre i v Ev) eq_refl)))))).
      rewrite bytes_at_length. lia.
Qed.

Lemma write_sim h A p i v old : represents h A -> A !! p = Some old -> (i < length old)%nat ->
  represents (set_mem h (wr8 (h_mem h) (p + Z.of_nat i) v)) (<[p := <[i := u8 v]> old]> A).
Proof.
  intros (l & Hi & Ho & Hc) E Hlt. destruct (Ho p old E) as (b & Hb & -> & Hs & Hh). exists l.
  assert (in_payload b (b_addr b + sizeof_block + Z.of_nat i)) as Hin by (unfold in_payload, b_end; lia).
  split; [|split].
  - apply (payload_write g_heap h l _ Hi). intros x Hx. apply wr8_other. intros ->. by apply (Hx b).
  - intros q d. destruct (decide (b_addr b + sizeof_block = q)) as [<-|Hne].
    + rewrite lookup_insert_eq. intros [= <-]. exists b. split; [done|]. split; [done|]. split; [by rewrite length_insert|].
      intros j w Ew. cbn [set_mem h_mem]. apply list_lookup_insert_Some in Ew as [(<- & <- & _)|[Hij Ew]]; [apply wr8_same|].
      rewrite wr8_other by lia. by apply Hh.
    + rewrite lookup_insert_ne by done. intros Eq. destruct (Ho q d Eq) as (c & Hcl & -> & Hcs & Hch). exists c.
      split; [done|]. split; [done|]. split; [done|]. apply holds_payload with (h_mem h); [done|done|].
      intros x Hx. apply wr8_other. intros ->. pose proof Hb as [Hbm _]%elem_of_live. pose proof Hcl as [Hcm _]%elem_of_live.
      pose proof Hi as (_ & _ & _ & _ & Hseg & _). assert (c <> b) as Hcb by (intros ->; done).
      apply list_elem_of_split in Hbm as (l1 & l2 & ->).
      assert (c ∈ l1 ++ l2) as Hcm' by (apply elem_of_app in Hcm as [?|[->|?]%elem_of_cons]; rewrite elem_of_app; tauto || done).
      destruct (seg_apart _ _ _ _ _ _ _ _ Hseg Hcm'); unfold in_payload, b_end, sizeof_block in *; lia.
  - intros c Hcl. destruct (decide (b_addr b + sizeof_block = b_addr c + sizeof_block)) as [->|Hne];
      [rewrite lookup_insert_eq; by eexists|]. rewrite lookup_insert_ne by done. by apply Hc.
Qed.


Lemma read_sim h A p i old : represents h A -> A !! p = Some old -> (i < length old)%nat ->
  old !! i = Some (h_mem h (p + Z.of_nat i)).
Proof.
  intros (l & _ & Ho & _) E Hlt. destruct (Ho p old E) as (b & _ & -> & _ & Hh).
  destruct (lookup_lt_is_Some_2 old i Hlt) as [v Ev]. rewrite Ev. f_equal. symmetry. by apply Hh.
Qed.

(** A run of stores inside an allocation changes its bytes and no others. *)
Lemma store_sim h A p c i bytes : represents h (<[p := c]> A) -> (bytes <> [] -> (i + length bytes <= length c)%nat) ->
  Forall (fun b => 0 <= b < 256) bytes ->
  represents (set_mem h (store_bytes (h_mem h) (p + Z.of_nat i) bytes)) (<[p := overwritten c i bytes]> A).
Proof.
  intros Hr. apply (store_bytes_sim (fun m c => represents (set_mem h m) (<[p := c]> A))); [|by destruct h].
  intros m d j v Hm Hj. pose proof (write_sim _ _ p j v d Hm (lookup_insert_eq _ _ _) Hj) as H1. by rewrite insert_insert_eq in H1.
Qed.

(** Freeing everything leaves at most one block. *)
Lemma represents_empty h : represents h ∅ -> exists l, heap_inv g_heap h l /\
  (l = [] \/ exists s, l = [Blk g_heap s true] /\ h_end h = g_heap + sizeof_block + s).
Proof.
  intros (l & Hi & _ & Hc). exists l. split; [done|].
  assert (forall b, b ∈ l -> b_free b = true) as Hall.
  { intros b Hb. destruct (b_free b) eqn:Ef; [done|]. destruct (Hc b) as [c E]; [by apply elem_of_live|]. by rewrite lookup_empty in E. }
  destruct Hi as (_ & _ & _ & _ & Hseg & Hna). destruct l as [|b l]; [by left|]. right. destruct l as [|b2 l].
  - destruct Hseg as (E & _ & _ & _ & Hend). exists (b_size b). split; [|cbn in Hend; unfold b_end in Hend; lia].
    specialize (Hall b ltac:(apply elem_of_cons; by left)). destruct b as [a s f]. cbn in *. by subst.
  - destruct Hna as [Hna _]. rewrite (Hall b), (Hall b2) in Hna; [done|..]; repeat (apply elem_of_cons; auto; right); apply elem_of_cons; by left.
Qed.

(** The walk over one free block finds it. *)
Lemma malloc_reuses h s n : heap_inv g_heap h [Blk g_heap s true] -> size_ok n -> wanted_of n <= s ->
  malloc g_heap h n = Some (Heap (wr8 (h_mem h) (g_heap + 8) 0) (h_head h) (h_end h) (h_errno h), g_heap + sizeof_block).
Proof.
  intros Hinv Hn Hw. pose proof (heap_inv_length g_heap h _ Hinv) as Hlen. pose proof Hinv as (Hg & _ & _ & Hh & Hseg & _).
  unfold malloc. fold (wanted_of n). rewrite Hh.
  destruct (malloc_walk _ _ _ _ (wanted_of n) heap_fuel 0 Hseg Hg Hlen) as [(l1 & b & l2 & El & Hl1 & Hb & ->)|[Hl _]].
  - destruct l1 as [|b1 l1]; [injection El as <- _; done|]. injection El as <- El. destruct l1; discriminate.
  - inversion Hl as [|? ? Hb _]. unfold fits in Hb. cbn in Hb. destruct (Z.leb_spec (wanted_of n) s); [discriminate|lia].
Qed.
End claims.

(** ** The properties *)

(** Every call, one operation at a time. *)
Lemma call_sim g_heap h A c (HR : represents g_heap h A) (Hc : allowed A c) :
  exists h' r A', run_call g_heap h c = Some (h', r) /\ spec A c r A' /\ represents g_heap h' A'.
Proof.
  destruct c as [n|a b|p n|p|p i|p i v]; cbn [run_call].
  - by apply malloc_sim.
  - by apply calloc_sim.
  - by apply realloc_sim.
  - destruct (free_sim g_heap h A p HR Hc) as (h' & -> & Hr). by exists h', 0, (delete p A).
  - destruct Hc as (old & E & Hlt). do 3 eexists. split; [reflexivity|]. split; [|exact HR]. split; [done|].
    exists old. split; [done|]. by eapply read_sim.
  - destruct Hc as (old & E & Hlt). do 3 eexists. split; [reflexivity|]. split; [by exists old|]. by apply write_sim.
Qed.

(** C1: the allocator is correct.  Every call of [malloc], [calloc],
    [realloc], [free] and every access to a byte of a pointer in use, made as
    the abstract map allows, returns on the concrete heap, and the result and
    the new heap are one of those the map specification allows: a null
    pointer leaves every allocation alone; a fresh pointer is not null and its
    bytes overlap no other allocation; [calloc] bytes are zero and its product
    does not overflow; [realloc] keeps the contents up to the smaller size;
    no call changes a byte of another allocation. *)
Theorem heap_refines_map g_heap h A c (HR : represents g_heap h A) (Hc : allowed A c) :
  exists h' r A', run_call g_heap h c = Some (h', r) /\ spec A c r A' /\ represents g_heap h' A'.
Proof. by apply call_sim. Qed.

Lemma initial_represents g_heap : 0 < g_heap -> g_heap + HEAP_SIZE < 2 ^ 32 -> represents g_heap (heap_initial g_heap) ∅.
Proof.
  intros Hg Hfit. exists []. split; [|split].
  - unfold HEAP_SIZE in *. repeat split; try done; cbn; unfold HEAP_SIZE; lia.
  - intros p c E. by rewrite lookup_empty in E.
  - intros b Hb. by apply elem_of_nil in Hb.
Qed.

Lemma heap_refines_map_witness : exists h' r A',
  run_call 65536 (heap_initial 65536) (Malloc 10) = Some (h', r) /\ spec ∅ (Malloc 10) r A' /\ represents 65536 h' A'.
Proof.
  apply (heap_refines_map 65536 (heap_initial 65536) ∅ (Malloc 10)).
  - apply initial_represents; reflexivity.
  - split; [discriminate|reflexivity].
Defined.

(** C13: [malloc] refuses a request only when the heap has no room for it: a
    null pointer means that errno is ENOMEM, no free block is as large as the
    rounded size, and the unused end of the array is too short for a header
    and that size; the heap is otherwise unchanged. *)
Theorem malloc_refusal g_heap h l size h' (Hinv : heap_inv g_heap h l) (Hsize : 0 <= size < 2 ^ 32 - 16)
    (Hnull : malloc g_heap h size = Some (h', 0)) :
  h' = Heap (h_mem h) (h_head h) (h_end h) ENOMEM /\
  (forall b, b ∈ l -> b_free b = true -> b_size b < wanted_of size) /\
  g_heap + HEAP_SIZE - h_end h < sizeof_block + wanted_of size.
Proof.
  destruct (malloc_spec g_heap h l size Hinv Hsize) as (h2 & p & E & [(Hp & Hh & Hl & Hroom)|(l' & b & Hp & _ & _ & _ & Hi & Hl & _)]);
    rewrite Hnull in E; injection E as <- <-.
  - split; [done|]. split; [|done]. intros b Hb Hf.
    assert (fits (wanted_of size) b = false) as Hfit by (rewrite Forall_forall in Hl; apply Hl; by apply list_elem_of_In).
    unfold fits in Hfit. rewrite Hf in Hfit. cbn in Hfit. by apply Z.leb_gt in Hfit.
  - exfalso. destruct Hi as (Hg & _ & _ & _ & Hseg & _).
    assert (b ∈ live l') as [Hb _]%elem_of_live by (rewrite Hl; apply elem_of_cons; by left).
    destruct (seg_bound _ _ _ _ _ _ Hseg Hb) as (? & _). unfold sizeof_block in Hp. lia.
Qed.

Lemma malloc_refusal_witness : exists h', malloc 65536 (heap_initial 65536) 300000 = Some (h', 0) /\
  h' = Heap (fun _ => 0) 0 65536 ENOMEM.
Proof.
  eexists. split; [vm_compute; reflexivity|].
  refine (proj1 (malloc_refusal 65536 (heap_initial 65536) [] 300000 _ _ _ _)).
  - unfold HEAP_SIZE. repeat split; try done; cbn; unfold HEAP_SIZE; lia.
  - lia.
  - vm_compute. reflexivity.
Defined.

(** ** Sessions

    What a program has done to the heap and still owns: the sizes of the
    pointers it holds, kept by the results of its calls alone. *)
Abbreviation sizes := (gmap Z Z).

Definition may (S : sizes) (c : call) : Prop :=
  match c with
  | Malloc n => size_ok n
  | Calloc a b => 0 <= a < 2 ^ 32 /\ 0 <= b < 2 ^ 32 /\ (size_ok (a * b) \/ 2 ^ 32 <= a * b)
  | Realloc p n => size_ok n /\ (p = 0 \/ is_Some (S !! p))
  | Free p => p = 0 \/ is_Some (S !! p)
  | Read p i | Write p i _ => exists n, S !! p = Some n /\ Z.of_nat i < n
  end.

Definition granted (S : sizes) (n r : Z) : sizes := if r =? 0 then S else <[r := n]> S.

Definition owned_after (S : sizes) (c : call) (r : Z) : sizes :=
  match c with
  | Malloc n => granted S n r
  | Calloc a b => granted S (a * b) r
  | Realloc p n =>
      if p =? 0 then granted S n r
      else if n =? 0 then delete p S
      else if r =? 0 then S else <[r := n]> (delete p S)
  | Free p => delete p S
  | Read _ _ | Write _ _ _ => S
  end.

Inductive session (g_heap : Z) : heap -> sizes -> Prop :=
  | session_start : session g_heap (heap_initial g_heap) ∅
  | session_call h S c h' r : session g_heap h S -> may S c -> run_call g_heap h c = Some (h', r) ->
      session g_heap h' (owned_after S c r).

Definition sizes_of (A : pointers) : sizes := (fun c => Z.of_nat (length c)) <$> A.

Lemma sizes_of_lookup A p n : sizes_of A !! p = Some n <-> exists c, A !! p = Some c /\ Z.of_nat (length c) = n.
Proof. unfold sizes_of. rewrite lookup_fmap, fmap_Some. split; intros (c & ? & ?); eauto. Qed.

Lemma sizes_of_is_Some A p : is_Some (sizes_of A !! p) <-> is_Some (A !! p).
Proof. unfold sizes_of. by rewrite lookup_fmap, fmap_is_Some. Qed.

Lemma may_allowed A c : may (sizes_of A) c -> allowed A c.
Proof.
  destruct c as [n|a b|p n|p|p i|p i v]; cbn [may allowed]; rewrite ?sizes_of_is_Some; [done..| |];
    intros (n & (c & E & <-)%sizes_of_lookup & Hi); exists c; (split; [done|lia]).
Qed.

Lemma granted_sizes A r new n : Z.of_nat (length new) = n -> r <> 0 -> granted (sizes_of A) n r = sizes_of (<[r := new]> A).
Proof. intros <- Hr. unfold granted, sizes_of. rewrite (proj2 (Z.eqb_neq _ _) Hr). by rewrite fmap_insert. Qed.

Lemma spec_sizes A c r A' : allowed A c -> spec A c r A' -> sizes_of A' = owned_after (sizes_of A) c r.
Proof.
  assert (forall A n (Q : list Z -> Prop) A', (r = 0 /\ A' = A \/ exists new, Z.of_nat (length new) = n /\ fresh A r new /\ Q new /\ A' = <[r := new]> A) ->
    sizes_of A' = granted (sizes_of A) n r) as Halloc.
  { intros B n Q B' [[-> ->]|(new & En & (Hr & _) & _ & ->)]; [done|]. symmetry. by apply granted_sizes. }
  destruct c as [n|a b|p n|p|p i|p i v]; cbn [allowed spec owned_after].
  - intros _. by apply Halloc.
  - intros _. destruct (2 ^ 32 <=? a * b); [intros [-> ->]; done|]. by apply Halloc.
  - intros _. destruct (p =? 0); [by apply Halloc|]. destruct (n =? 0).
    + intros [_ ->]. unfold sizes_of. by rewrite fmap_delete.
    + intros [[-> ->]|(old & new & _ & En & (Hr & _) & _ & ->)]; [done|].
      rewrite <- (granted_sizes _ _ _ _ En Hr). unfold granted, sizes_of. by rewrite (proj2 (Z.eqb_neq _ _) Hr), fmap_delete.
  - intros _ ->. unfold sizes_of. by rewrite fmap_delete.
  - intros _ [-> _]. done.
  - intros _ (old & E & ->). unfold sizes_of. rewrite fmap_insert, length_insert. apply insert_id. by rewrite lookup_fmap, E.
Qed.

Lemma session_represents g_heap h S : 0 < g_heap -> g_heap + HEAP_SIZE < 2 ^ 32 -> session g_heap h S ->
  exists A, represents g_heap h A /\ S = sizes_of A.
Proof.
  intros Hg Hfit. induction 1 as [|h S c h' r _ (A & HR & ->) Hmay E].
  - exists ∅. split; [by apply initial_represents|]. unfold sizes_of. by rewrite fmap_empty.
  - apply may_allowed in Hmay. destruct (call_sim g_heap h A c HR Hmay) as (h2 & r2 & A' & E' & Hs & HR').
    rewrite E in E'. injection E' as <- <-. exists A'. split; [done|]. symmetry. by apply spec_sizes.
Qed.

(** C12: freed memory is not fragmented.  Whatever sequence of calls and
    accesses a program makes, starting from the fresh heap and using only what
    it holds, every call returns; and once it has freed everything, in
    whatever order, the list of the heap is empty or is one free block that
    fills the used part of the array from its start to its end, and a request
    that fits in this block is granted there without taking more. *)
Theorem heap_coalesces g_heap h (Hg : 0 < g_heap) (Hfit : g_heap + HEAP_SIZE < 2 ^ 32) :
  (forall S c, session g_heap h S -> may S c -> is_Some (run_call g_heap h c)) /\
  (session g_heap h ∅ ->
    (h_head h = 0 /\ h_end h = g_heap) \/
    (h_head h = g_heap /\ block_free (h_mem h) g_heap = 1 /\ block_next (h_mem h) g_heap = 0 /\
     g_heap + sizeof_block + block_size (h_mem h) g_heap = h_end h /\
     forall n, size_ok n -> wanted_of n <= block_size (h_mem h) g_heap ->
       exists h', malloc g_heap h n = Some (h', g_heap + sizeof_block) /\ h_end h' = h_end h)).
Proof.
  split.
  - intros S c Hs Hmay. destruct (session_represents g_heap h S Hg Hfit Hs) as (A & HR & ->).
    destruct (call_sim g_heap h A c HR (may_allowed _ _ Hmay)) as (h' & r & _ & -> & _). by eexists.
  - intros Hs. destruct (session_represents g_heap h ∅ Hg Hfit Hs) as (A & HR & E).
    assert (A = ∅) as -> by (symmetry in E; by apply fmap_empty_inv in E).
    destruct (represents_empty g_heap h HR) as (l & Hi & [->|(s & -> & Eend)]).
    + left. destruct Hi as (_ & _ & _ & -> & Hend & _). by cbn in Hend.
    + right. pose proof Hi as (_ & _ & _ & Hh & (_ & (Hsz & Hnx & Hf) & _) & _). cbn in Hsz, Hnx, Hf.
      rewrite Hsz, Eend. do 4 (split; [done|]).
      intros n Hn Hw. eexists. split; [by apply (malloc_reuses g_heap h s n Hi Hn)|by rewrite <- Eend].
Qed.

(** Replaces the result of a run of the allocator by its value. *)
Ltac computed E := vm_compute in E; first [discriminate E | injection E as <- | injection E as <- <-].

(** Two blocks, freed in order of address: the second is merged into the first. *)
Lemma heap_coalesces_witness : exists h1 h2 h3 h4 h5,
  malloc 65536 (heap_initial 65536) 10 = Some (h1, 65548) /\ malloc 65536 h1 20 = Some (h2, 65572) /\
  free 65536 h2 65548 = Some h3 /\ free 65536 h3 65572 = Some h4 /\
  block_size (h_mem h4) 65536 = 44 /\ malloc 65536 h4 44 = Some (h5, 65536 + sizeof_block) /\ h_end h5 = h_end h4.
Proof.
  destruct (heap_coalesces 65536 (heap_initial 65536) eq_refl eq_refl) as [Hreturns _].
  pose proof (session_start 65536) as S0.
  destruct (Hreturns _ (Malloc 10) S0 ltac:(unfold may, size_ok; lia)) as [[h1 r1] E1]. assert (r1 = 65548) as -> by (by computed E1).
  pose proof (session_call 65536 _ _ (Malloc 10) h1 65548 S0 ltac:(unfold may, size_ok; lia) E1) as S1.
  destruct (malloc 65536 h1 20) as [[h2 r2]|] eqn:E2; [|computed E1; computed E2].
  assert (r2 = 65572) as -> by (computed E1; by computed E2).
  pose proof (session_call 65536 _ _ (Malloc 20) h2 65572 S1 ltac:(unfold may, size_ok; lia) E2) as S2.
  destruct (free 65536 h2 65548) as [h3|] eqn:E3; [|computed E1; computed E2; computed E3].
  pose proof (session_call 65536 _ _ (Free 65548) h3 0 S2 ltac:(right; by eexists) ltac:(cbn; by rewrite E3)) as S3.
  destruct (free 65536 h3 65572) as [h4|] eqn:E4; [|computed E1; computed E2; computed E3; computed E4].
  pose proof (session_call 65536 _ _ (Free 65572) h4 0 S3 ltac:(right; by eexists) ltac:(cbn; by rewrite E4)) as S4.
  assert (block_size (h_mem h4) 65536 = 44 /\ h_head h4 = 65536) as [Esz Eh]
    by (computed E1; computed E2; computed E3; computed E4; split; vm_compute; reflexivity).
  destruct (heap_coalesces 65536 h4 eq_refl eq_refl) as [_ Hc].
  destruct (Hc S4) as [[Hh _]|(_ & _ & _ & _ & Hm)]; [rewrite Eh in Hh; discriminate|].
  destruct (Hm 44 ltac:(unfold size_ok; lia)) as (h5 & E5 & E6); [rewrite Esz; vm_compute; discriminate|].
  by exists h1, h2, h3, h4, h5.
Defined.

(** The rounding of a size wraps around.  A request for 4294967295 bytes
    is granted with an empty payload, and a request for 4294967284 bytes is
    granted without moving the end of the heap: the next request gets the
    same pointer and ties the list into a loop, on which every later search
    for a larger block runs forever. *)
Theorem malloc_size_wraps :
  (exists h, malloc 65536 (heap_initial 65536) (2 ^ 32 - 1) = Some (h, 65548) /\ block_size (h_mem h) 65536 = 0) /\
  exists h1 h2, malloc 65536 (heap_initial 65536) (2 ^ 32 - 12) = Some (h1, 65548) /\
    malloc 65536 h1 8 = Some (h2, 65548) /\
    forall fuel, loop fuel (malloc_step (h_mem h2) 12) (h_head h2, 0) = None.
Proof.
  split; [eexists; split; [lazy; reflexivity|reflexivity]|].
  do 2 eexists. split; [lazy; reflexivity|]. split; [lazy; reflexivity|].
  match goal with |- forall fuel, loop fuel (malloc_step ?m _) _ = None => assert (malloc_step m 12 (65536, 0) = Next (65536, 65536) /\
    malloc_step m 12 (65536, 65536) = Next (65536, 65536)) as [E1 E2] by (split; reflexivity) end.
  intros fuel. destruct fuel as [|n]; [reflexivity|]. cbn [loop h_mem h_head] in *. rewrite E1. clear E1.
  induction n as [|n IH]; [reflexivity|]. cbn [loop]. rewrite E2. exact IH.
Qed.
