(* ===== verification/Regex.v ===== *)
(** * Regular expressions: [lib/libc_regex.c]

    The compiler turns a pattern into a program for a backtracking virtual
    machine; [regexec] runs it from every start position with a visited mark
    per (instruction, position).  A C string is the list of its bytes, the
    cursor the suffix still to read, so [c->cursor[i]] is [peek]. *)

From S2P Require Import Prelude Ctype.

(** What the component asks of the allocator and its memory: a null pointer
    is 0, sizes are in bytes, and [al_store h p i bytes] stores bytes at
    [p + i], whether or not they lie inside the block at [p]. *)
Class Allocator (A : Type) : Type := {
  al_malloc : A -> Z -> A * Z;
  al_realloc : A -> Z -> Z -> A * Z;
  al_free : A -> Z -> A;
  al_store : A -> Z -> Z -> list Z -> A;
}.

Inductive re_op : Type :=
| RE_CHAR | RE_ANY | RE_CLASS | RE_SPLIT | RE_JMP | RE_SAVE
| RE_BOL | RE_EOL | RE_WORDB | RE_NOT_WORDB | RE_MATCH.

#[global] Instance re_op_eq_dec : EqDecision re_op.
Proof. solve_decision. Defined.

Record re_inst : Type := Inst {
  i_op : re_op;
  i_ch : Z;
  i_set : list Z;
  i_x : Z;
  i_y : Z
}.

(** [sizeof(re_inst)]: 34 bytes padded to 36, and two ints. *)
Definition sizeof_inst : Z := 44.

(** The operations are numbered in the order of the enumeration. *)
Definition op_code (op : re_op) : Z :=
  match op with
  | RE_CHAR => 0 | RE_ANY => 1 | RE_CLASS => 2 | RE_SPLIT => 3 | RE_JMP => 4 | RE_SAVE => 5
  | RE_BOL => 6 | RE_EOL => 7 | RE_WORDB => 8 | RE_NOT_WORDB => 9 | RE_MATCH => 10
  end.

(** A 32-bit word in memory. *)
Definition word_bytes (v : Z) : list Z := [u8 v; u8 (v / 2 ^ 8); u8 (v / 2 ^ 16); u8 (v / 2 ^ 24)].

(** A [re_inst] in memory, and an array of them. *)
Definition inst_bytes (i : re_inst) : list Z :=
  [op_code (i_op i); u8 (i_ch i)] ++ map u8 (resize 32 0 (i_set i)) ++ [0; 0] ++ word_bytes (i_x i) ++ word_bytes (i_y i).
Definition program_bytes (l : list re_inst) : list Z := concat (map inst_bytes l).

(** Flags and error codes of [sysroot/include/regex.h]. *)
Definition REG_EXTENDED : Z := 1.
Definition REG_ICASE : Z := 2.
Definition REG_NEWLINE : Z := 4.
Definition REG_NOSUB : Z := 8.
Definition REG_NOMATCH : Z := 1.
Definition REG_BADPAT : Z := 2.
Definition REG_ECTYPE : Z := 4.
Definition REG_EESCAPE : Z := 5.
Definition REG_EBRACK : Z := 7.
Definition REG_EPAREN : Z := 8.
Definition REG_BADBR : Z := 10.
Definition REG_ERANGE : Z := 11.
Definition REG_ESPACE : Z := 12.
Definition REG_NOTBOL : Z := 1.
Definition REG_NOTEOL : Z := 2.

Definition flag (flags f : Z) : bool := truthy (Z.land flags f).

(** ** Character sets: [unsigned char set[32]] *)

Definition empty_set : list Z := replicate 32 0.

Definition re_set_char (set : list Z) (ch : Z) : list Z :=
  alter (fun b => Z.lor b (u8 (Z.shiftl 1 (Z.land ch 7)))) (Z.to_nat (Z.shiftr ch 3)) set.

(** [for (ch = first; ch <= last; ch++)], [n] rounds left. *)
Fixpoint set_range_loop (n : nat) (set : list Z) (ch : Z) : list Z :=
  match n with
  | O => set
  | S k => set_range_loop k (re_set_char set ch) (ch + 1)
  end.

Definition re_set_range (set : list Z) (first last : Z) : list Z :=
  if last <? first then set
  else set_range_loop (Z.to_nat (last - first + 1)) set first.

(** [set[ch >> 3] & (1 << (ch & 7))] *)
Definition set_has (set : list Z) (ch : Z) : bool :=
  truthy (Z.land (nth (Z.to_nat (Z.shiftr ch 3)) set 0) (Z.shiftl 1 (Z.land ch 7))).

Definition set_negate (set : list Z) : list Z := map (fun b => unot 8 b) set.

(** ** Parsing of single characters *)

(** The character and the new cursor, or the error. *)
Definition re_parse_escape (p : list Z) : Z * list Z + Z :=
  if negb (peek p 0 =? 92) then inl (peek p 0, drop 1 p)
  else
    let p := drop 1 p in
    let c := peek p 0 in
    if c =? 110 then inl (10, drop 1 p)
    else if c =? 116 then inl (9, drop 1 p)
    else if c =? 114 then inl (13, drop 1 p)
    else if c =? 102 then inl (12, drop 1 p)
    else if c =? 118 then inl (11, drop 1 p)
    else if c =? 97 then inl (7, drop 1 p)
    else if c =? 48 then inl (0, drop 1 p)
    else if c =? 0 then inr REG_EESCAPE
    else inl (c, drop 1 p).

(** The table of named classes: the name with its colon, first, last. *)
Definition classes : list (list Z * Z * Z) :=
  let alpha := [97; 108; 112; 104; 97; 58] in
  let digit := [100; 105; 103; 105; 116; 58] in
  let lower := [108; 111; 119; 101; 114; 58] in
  let upper := [117; 112; 112; 101; 114; 58] in
  let space := [115; 112; 97; 99; 101; 58] in
  let blank := [98; 108; 97; 110; 107; 58] in
  let punct := [112; 117; 110; 99; 116; 58] in
  let cntrl := [99; 110; 116; 114; 108; 58] in
  let xdigit := [120; 100; 105; 103; 105; 116; 58] in
  let alnum := [97; 108; 110; 117; 109; 58] in
  let print := [112; 114; 105; 110; 116; 58] in
  let graph := [103; 114; 97; 112; 104; 58] in
  [(alpha, 97, 122); (alpha, 65, 90); (digit, 48, 57); (lower, 97, 122);
   (upper, 65, 90); (space, 9, 13); (space, 32, 32); (blank, 9, 9);
   (blank, 32, 32); (punct, 33, 47); (punct, 58, 64); (punct, 91, 96);
   (punct, 123, 126); (cntrl, 0, 31); (cntrl, 127, 127); (xdigit, 48, 57);
   (xdigit, 65, 70); (xdigit, 97, 102); (alnum, 48, 57); (alnum, 65, 90);
   (alnum, 97, 122); (print, 32, 126); (graph, 33, 126)].

(** [strncmp(p, name, length) == 0 && p[length] == ']'] *)
Definition class_here (p name : list Z) : bool :=
  bool_decide (take (length name) p = name) && (peek p (length name) =? 93).

(** The first entry that applies; the set and the cursor behind it. *)
Fixpoint find_class (table : list (list Z * Z * Z)) (p set : list Z) : option (list Z * list Z) :=
  match table with
  | [] => None
  | (name, first, last) :: rest =>
      if class_here p name then Some (re_set_range set first last, drop (length name + 1) p)
      else find_class rest p set
  end.

Definition re_named_class (p set : list Z) : option (list Z * list Z) :=
  if negb (peek p 0 =? 91) || negb (peek p 1 =? 58) then None
  else find_class classes (drop 2 p) set.

(** ** The compiler state *)

(** [c_program] is the program as the array of instructions that the block
    [c_block] of the heap [c_heap] holds: every change of it is also a store
    of the same bytes through the pointer. *)
Record re_compiler (A : Type) : Type := Compiler {
  c_program : list re_inst;
  c_capacity : Z;
  c_cursor : list Z;
  c_extended : bool;
  c_groups : Z;
  c_error : Z;
  c_block : Z;
  c_heap : A
}.
Arguments Compiler {A}.
Arguments c_program {A}.
Arguments c_capacity {A}.
Arguments c_cursor {A}.
Arguments c_extended {A}.
Arguments c_groups {A}.
Arguments c_error {A}.
Arguments c_block {A}.
Arguments c_heap {A}.

Section compiler.
Context {A : Type} `{Allocator A}.
Abbreviation compiler := (re_compiler A).

Definition c_length (c : compiler) : Z := Z.of_nat (length (c_program c)).

Definition set_program (c : compiler) (p : list re_inst) : compiler :=
  Compiler p (c_capacity c) (c_cursor c) (c_extended c) (c_groups c) (c_error c) (c_block c) (c_heap c).
(** The instructions [l] are stored at [c->program[i]]. *)
Definition stored (c : compiler) (i : nat) (l : list re_inst) : compiler :=
  Compiler (c_program c) (c_capacity c) (c_cursor c) (c_extended c) (c_groups c) (c_error c) (c_block c)
    (al_store (c_heap c) (c_block c) (Z.of_nat i * sizeof_inst) (program_bytes l)).
Definition set_cursor (c : compiler) (p : list Z) : compiler :=
  Compiler (c_program c) (c_capacity c) p (c_extended c) (c_groups c) (c_error c) (c_block c) (c_heap c).
Definition set_error (c : compiler) (e : Z) : compiler :=
  Compiler (c_program c) (c_capacity c) (c_cursor c) (c_extended c) (c_groups c) e (c_block c) (c_heap c).
Definition add_group (c : compiler) : compiler :=
  Compiler (c_program c) (c_capacity c) (c_cursor c) (c_extended c) (c_groups c + 1) (c_error c) (c_block c) (c_heap c).

(** [c->cursor += n] *)
Definition advance (n : nat) (c : compiler) : compiler := set_cursor c (drop n (c_cursor c)).

(** [c->program[i].f = ...], the bytes of the instruction included. *)
Definition upd (i : Z) (f : re_inst -> re_inst) (c : compiler) : compiler :=
  let program := alter f (Z.to_nat i) (c_program c) in
  set_program (stored c (Z.to_nat i) (take 1 (drop (Z.to_nat i) program))) program.
Definition set_op (op : re_op) (i : re_inst) : re_inst := Inst op (i_ch i) (i_set i) (i_x i) (i_y i).
Definition set_ch (ch : Z) (i : re_inst) : re_inst := Inst (i_op i) ch (i_set i) (i_x i) (i_y i).
Definition set_set (s : list Z) (i : re_inst) : re_inst := Inst (i_op i) (i_ch i) s (i_x i) (i_y i).
Definition set_x (x : Z) (i : re_inst) : re_inst := Inst (i_op i) (i_ch i) (i_set i) x (i_y i).
Definition set_y (y : Z) (i : re_inst) : re_inst := Inst (i_op i) (i_ch i) (i_set i) (i_x i) y.

Definition zero_inst : re_inst := Inst RE_CHAR 0 empty_set 0 0.

(** [realloc(c->program, capacity * sizeof( *program))] *)
Definition re_grow (c : compiler) (capacity : Z) : compiler * bool :=
  let '(h, p) := al_realloc (c_heap c) (c_block c) (u32 (capacity * sizeof_inst)) in
  if p =? 0 then
    (Compiler (c_program c) (c_capacity c) (c_cursor c) (c_extended c) (c_groups c) REG_ESPACE (c_block c) h, false)
  else
    (Compiler (c_program c) capacity (c_cursor c) (c_extended c) (c_groups c) (c_error c) p h, true).

(** Room for one more instruction. *)
Definition re_room (c : compiler) : compiler * bool :=
  if c_length c =? c_capacity c then
    re_grow c (if truthy (c_capacity c) then u32 (c_capacity c * 2) else 32)
  else (c, true).

Definition re_emit (c : compiler) (op : re_op) : compiler * Z :=
  let '(c, ok) := re_room c in
  if ok : bool then
    let i := length (c_program c) in
    (set_program (stored (stored c i [zero_inst]) i [set_op op zero_inst]) (c_program c ++ [set_op op zero_inst]), c_length c)
  else (c, -1).

(** The adjustment of an operand [v >= index]. *)
Definition shift_operand (index v : Z) : Z := if index <=? v then v + 1 else v.

Definition shift_inst (index : Z) (i : re_inst) : re_inst :=
  Inst (i_op i) (i_ch i) (i_set i) (shift_operand index (i_x i)) (shift_operand index (i_y i)).

(** The tail moves up, the place is cleared, and every operand is adjusted. *)
Definition re_insert (c : compiler) (index : Z) : compiler * Z :=
  let '(c, ok) := re_room c in
  if ok : bool then
    let i := Z.to_nat index in
    let tail := drop i (c_program c) in
    let p := map (shift_inst index) (take i (c_program c) ++ zero_inst :: tail) in
    (set_program (stored (stored (stored c (S i) tail) i [zero_inst]) 0 p) p, index)
  else (c, -1).

(** [while (capacity < need) capacity = capacity ? capacity * 2 : 32;] *)
Definition double_round (need capacity : Z) : step Z Z :=
  if capacity <? need then Next (if truthy capacity then u32 (capacity * 2) else 32) else Done capacity.

(** An operand inside the copied block, its end included. *)
Definition move_operand (start stop delta v : Z) : Z :=
  if (start <=? v) && (v <=? stop) then v + delta else v.

Definition move_inst (start stop delta : Z) (i : re_inst) : re_inst :=
  Inst (i_op i) (i_ch i) (i_set i) (move_operand start stop delta (i_x i))
    (move_operand start stop delta (i_y i)).

Definition re_copy_block (c : compiler) (start stop : Z) : option (compiler * Z) :=
  let count := stop - start in
  let old_length := c_length c in
  let delta := old_length - start in
  if (count =? 0) || truthy (c_error c) then Some (c, old_length)
  else
    '(c, ok) ← (if c_capacity c <? c_length c + count then
                  capacity ← loop 64 (double_round (c_length c + count)) (c_capacity c);
                  Some (re_grow c capacity)
                else Some (c, true));
    if ok : bool then
      let block := take (Z.to_nat count) (drop (Z.to_nat start) (c_program c)) in
      let moved := map (move_inst start stop delta) block in
      let i := length (c_program c) in
      Some (set_program (stored (stored c i block) i moved) (c_program c ++ moved), old_length)
    else Some (c, -1).

(** ** Atoms *)

(** The items of a bracket expression: the set and the rest, or the error.
    [n] bounds the items; every item consumes a character. *)
Fixpoint class_items (n : nat) (p set : list Z) : option (list Z * list Z + Z) :=
  match n with
  | O => None
  | S k =>
      if (peek p 0 =? 0) || (peek p 0 =? 93) then Some (inl (set, p))
      else
        match re_named_class p set with
        | Some (set, p) => class_items k p set
        | None =>
            if (peek p 0 =? 91) && (peek p 1 =? 58) then Some (inr REG_ECTYPE)
            else
              match re_parse_escape p with
              | inr e => Some (inr e)
              | inl (first, p) =>
                  if (peek p 0 =? 45) && negb (peek p 1 =? 93) && negb (peek p 1 =? 0) then
                    match re_parse_escape (drop 1 p) with
                    | inr e => Some (inr e)
                    | inl (last, p) =>
                        if last <? first then Some (inr REG_ERANGE)
                        else class_items k p (re_set_range set first last)
                    end
                  else class_items k p (re_set_char set first)
              end
        end
  end.

(** The bracket expression at [p], behind its opening bracket: the set, with
    any negation applied, and the cursor behind the closing one. *)
Definition parse_class (p : list Z) : option (list Z * list Z + Z) :=
  let negated := peek p 0 =? 94 in
  let p := if negated then drop 1 p else p in
  let '(set, p) := if peek p 0 =? 93 then (re_set_char empty_set 93, drop 1 p) else (empty_set, p) in
  r ← class_items (S (length p)) p set;
  match r with
  | inr e => Some (inr e)
  | inl (set, p) =>
      if negb (peek p 0 =? 93) then Some (inr REG_EBRACK)
      else Some (inl (if negated then set_negate set else set, drop 1 p))
  end.

Definition re_compile_class (c : compiler) : option (compiler * Z) :=
  r ← parse_class (drop 1 (c_cursor c));
  match r with
  | inr e => Some (set_error c e, -1)
  | inl (set, p) =>
      let '(c, index) := re_emit c RE_CLASS in
      if index <? 0 then Some (c, -1)
      else Some (set_cursor (upd index (set_set set) c) p, index)
  end.

Definition simple_set (kind : Z) : list Z :=
  if (kind =? 119) || (kind =? 100) then
    let set := re_set_range empty_set 48 57 in
    if kind =? 119 then re_set_char (re_set_range (re_set_range set 97 122) 65 90) 95 else set
  else if kind =? 115 then
    re_set_char (re_set_char (re_set_char (re_set_char (re_set_char (re_set_char empty_set 32) 9) 10) 13) 12) 11
  else empty_set.

Definition re_compile_simple_class (c : compiler) (kind : Z) (negate : bool) : compiler :=
  let set := simple_set kind in
  let set := if negate then set_negate set else set in
  let '(c, index) := re_emit c RE_CLASS in
  if 0 <=? index then upd index (set_set set) c else c.

Definition re_is_alt_delimiter (c : compiler) : bool :=
  if c_extended c then peek (c_cursor c) 0 =? 124
  else (peek (c_cursor c) 0 =? 92) && (peek (c_cursor c) 1 =? 124).

Definition re_is_group_close (c : compiler) (in_group : bool) : bool :=
  if negb in_group then false
  else if c_extended c then peek (c_cursor c) 0 =? 41
  else (peek (c_cursor c) 0 =? 92) && (peek (c_cursor c) 1 =? 41).

(** ** Quantifiers *)

(** A run of digits: the value (started at 0), whether there was one, the
    rest; [None] when the value passes 10000. *)
Fixpoint interval_digits (p : list Z) (value : Z) (have : bool) : option (Z * bool * list Z) :=
  match p with
  | d :: q =>
      if isdigit d then
        let value := value * 10 + (d - 48) in
        if 10000 <? value then None else interval_digits q value true
      else Some (value, have, p)
  | [] => Some (value, have, p)
  end.

(** [min], [max] (-1 for none) and the cursor behind the brace. *)
Definition parse_interval (p : list Z) : option (Z * Z * list Z) :=
  '(value, have, p) ← interval_digits p 0 false;
  let min := if have : bool then value else 0 in
  '(max, p) ← (if peek p 0 =? 44 then
                 let p := drop 1 p in
                 if isdigit (peek p 0) then
                   '(value, _, p) ← interval_digits p 0 false; Some (value, p)
                 else Some (-1, p)
               else Some (min, p));
  if negb (peek p 0 =? 125) then None else Some (min, max, drop 1 p).

Definition re_parse_interval (c : compiler) : compiler * option (Z * Z) :=
  match parse_interval (c_cursor c) with
  | None => (set_error c REG_BADBR, None)
  | Some (min, max, p) => (set_cursor c p, Some (min, max))
  end.

Definition re_wrap_optional (c : compiler) (start : Z) : compiler * Z :=
  let '(c, split) := re_insert c start in
  if split <? 0 then (c, -1)
  else (upd split (fun i => set_y (c_length c) (set_x (start + 1) (set_op RE_SPLIT i))) c, 0).

Definition re_wrap_star (c : compiler) (start : Z) : compiler * Z :=
  let '(c, split) := re_insert c start in
  if split <? 0 then (c, -1)
  else
    let c := upd split (fun i => set_y (c_length c) (set_x (start + 1) (set_op RE_SPLIT i))) c in
    let '(c, jump) := re_emit c RE_JMP in
    if jump <? 0 then (c, -1) else (upd jump (set_x split) c, 0).

(** One optional copy: SPLIT over a copy of the block. *)
Definition optional_copy (c : compiler) (start stop : Z) : option (compiler * Z) :=
  let '(c, split) := re_emit c RE_SPLIT in
  if split <? 0 then Some (c, -1)
  else
    '(c, body) ← re_copy_block c start stop;
    if body <? 0 then Some (c, -1)
    else Some (upd split (fun i => set_y (c_length c) (set_x body i)) c, 1).

(** The counted loops; -1 leaves them. *)
Fixpoint optional_copies (n : nat) (c : compiler) (start stop : Z) : option (compiler * Z) :=
  match n with
  | O => Some (c, 1)
  | S k =>
      '(c, r) ← optional_copy c start stop;
      if r <? 0 then Some (c, -1) else optional_copies k c start stop
  end.

Fixpoint plain_copies (n : nat) (c : compiler) (start stop : Z) : option (compiler * Z) :=
  match n with
  | O => Some (c, 1)
  | S k =>
      '(c, r) ← re_copy_block c start stop;
      if r <? 0 then Some (c, -1) else plain_copies k c start stop
  end.

(** The interval [{min,max}] behind an atom. *)
Definition compile_interval (c : compiler) (atom_start min max : Z) : option (compiler * Z) :=
  let atom_end := c_length c in
  if min =? 0 then
    if max =? -1 then
      let '(c, r) := re_wrap_star c atom_start in Some (c, if r =? 0 then 1 else -1)
    else
      let '(c, r) := re_wrap_optional c atom_start in
      if r <? 0 then Some (c, -1)
      else if 1 <? max then optional_copies (Z.to_nat (max - 1)) c atom_start atom_end
      else Some (c, 1)
  else
    '(c, r) ← plain_copies (Z.to_nat (min - 1)) c atom_start atom_end;
    if r <? 0 then Some (c, -1)
    else if max =? -1 then
      '(c, split) ← Some (re_emit c RE_SPLIT);
      if split <? 0 then Some (c, -1)
      else
        '(c, body) ← re_copy_block c atom_start atom_end;
        if body <? 0 then Some (c, -1)
        else
          let c := upd split (fun i => set_y (c_length c) (set_x body i)) c in
          let '(c, jump) := re_emit c RE_JMP in
          if jump <? 0 then Some (c, -1) else Some (upd jump (set_x split) c, 1)
    else optional_copies (Z.to_nat (max - min)) c atom_start atom_end.

(** Which quantifier is at the cursor. *)
Inductive quantifier : Type := QStar | QPlus | QQuestion | QInterval | QNone.

Definition quantifier_at (c : compiler) : quantifier :=
  let p := c_cursor c in
  if peek p 0 =? 42 then QStar
  else if (peek p 0 =? 43) && c_extended c then QPlus
  else if (peek p 0 =? 63) && c_extended c then QQuestion
  else if (peek p 0 =? 92) && negb (c_extended c) && ((peek p 1 =? 43) || (peek p 1 =? 63)) then
    if peek p 1 =? 43 then QPlus else QQuestion
  else if ((peek p 0 =? 123) && c_extended c) ||
          ((peek p 0 =? 92) && (peek p 1 =? 123) && negb (c_extended c)) then QInterval
  else QNone.

(** The width of an operator that is escaped in basic syntax. *)
Definition op_width (c : compiler) : nat := if c_extended c then 1 else 2.

Definition re_compile_quantifier (c : compiler) (atom_start : Z) : option (compiler * Z) :=
  match quantifier_at c with
  | QStar => Some (re_wrap_star (advance 1 c) atom_start)
  | QNone => Some (c, 0)
  | QPlus =>
      let c := advance (op_width c) c in
      let '(c, split) := re_emit c RE_SPLIT in
      if split <? 0 then Some (c, -1)
      else Some (upd split (fun i => set_y (c_length c) (set_x atom_start i)) c, 1)
  | QQuestion =>
      let '(c, r) := re_wrap_optional (advance (op_width c) c) atom_start in
      Some (c, if r =? 0 then 1 else -1)
  | QInterval =>
      let '(c, r) := re_parse_interval (advance (op_width c) c) in
      match r with
      | None => Some (c, -1)
      | Some (min, max) =>
          if negb (max =? -1) && (max <? min) then Some (set_error c REG_BADBR, -1)
          else compile_interval c atom_start min max
      end
  end.

(** [save = re_emit(c, RE_SAVE); c->program[save].x = slot] *)
Definition emit_save (c : compiler) (slot : compiler -> Z) : compiler * Z :=
  let '(c, save) := re_emit c RE_SAVE in
  if save <? 0 then (c, -1) else (upd save (set_x (slot c)) c, save).

(** ** The recursive descent

    [fuel] bounds the depth of the calls; [regcomp] supplies enough. *)

(** The atoms that do not recurse; the first test of [re_compile_atom] and
    the two kinds of group are in [re_compile_atom] below. *)
Definition compile_simple_atom (c : compiler) : option (compiler * Z) :=
  let p := c_cursor c in
  if peek p 0 =? 94 then Some (re_emit (advance 1 c) RE_BOL)
  else if peek p 0 =? 36 then Some (re_emit (advance 1 c) RE_EOL)
  else if peek p 0 =? 46 then Some (re_emit (advance 1 c) RE_ANY)
  else if peek p 0 =? 91 then re_compile_class c
  else
    let kind := peek p 1 in
    if (peek p 0 =? 92) && ((kind =? 119) || (kind =? 87) || (kind =? 115) || (kind =? 83) || (kind =? 100) || (kind =? 68))
    then Some (re_compile_simple_class (advance 2 c) kind ((65 <=? kind) && (kind <=? 90)), 1)
    else if (peek p 0 =? 92) && ((kind =? 98) || (kind =? 66)) then
      Some (re_emit (advance 2 c) (if kind =? 98 then RE_WORDB else RE_NOT_WORDB))
    else
      match re_parse_escape p with
      | inr e => Some (set_error c e, -1)
      | inl (ch, p) =>
          let '(c, index) := re_emit (set_cursor c p) RE_CHAR in
          if index <? 0 then Some (c, -1) else Some (upd index (set_ch ch) c, 1)
      end.

(** Patch the alternatives: every jump and the last split lead to the end. *)
Definition patch_alternatives (c : compiler) (last_split : Z) (jumps : list Z) : compiler :=
  let stop := c_length c in
  fold_left (fun c j => upd j (set_x stop) c) jumps (upd last_split (set_y stop) c).

(** The bodies of the four mutually recursive functions, each over the
    functions it calls. *)
Section bodies.
Context (compile_alternation : compiler -> bool -> option compiler).
Context (compile_alternatives : compiler -> bool -> Z -> list Z -> option compiler).
Context (compile_sequence : compiler -> bool -> option compiler).
Context (compile_atom : compiler -> bool -> option (compiler * Z)).

Definition alternation_body (c : compiler) (in_group : bool) : option compiler :=
  let first_start := c_length c in
  c ← compile_sequence c in_group;
  if truthy (c_error c) then Some c
  else if negb (re_is_alt_delimiter c) then Some c
  else
    let '(c, first_split) := re_insert c first_start in
    if first_split <? 0 then Some c
    else
      let c := upd first_split
                 (fun i => set_y (c_length c) (set_x (first_start + 1) (set_op RE_SPLIT i))) c in
      let '(c, jump) := re_emit c RE_JMP in
      if jump <? 0 then Some c else compile_alternatives c in_group first_split [jump].

(** The loop over the alternatives; [jumps] in the order they were stored. *)
Definition alternatives_body (c : compiler) (in_group : bool) (last_split : Z) (jumps : list Z) : option compiler :=
  if negb (re_is_alt_delimiter c) then Some (patch_alternatives c last_split jumps)
  else
    let c := advance (op_width c) c in
    let '(c, split) := re_emit c RE_SPLIT in
    if split <? 0 then Some c
    else
      let c := upd last_split (set_y split) c in
      let body := c_length c in
      c ← compile_sequence c in_group;
      if truthy (c_error c) then Some c
      else
        let c := upd split (fun i => set_y (c_length c) (set_x body i)) c in
        let '(c, jump) := re_emit c RE_JMP in
        if jump <? 0 then Some c
        else if (128 <=? length jumps)%nat then Some (set_error c REG_BADPAT)
        else compile_alternatives c in_group split (jumps ++ [jump]).

(** One round of the loop over the atoms, and the rounds after it. *)
Definition sequence_body (c : compiler) (in_group : bool) : option compiler :=
  if negb (truthy (c_error c)) && negb (peek (c_cursor c) 0 =? 0) && negb (re_is_alt_delimiter c)
     && negb (re_is_group_close c in_group)
  then
    let atom_start := c_length c in
    '(c, atom) ← compile_atom c in_group;
    if atom <? 0 then Some c
    else if atom =? 0 then Some c
    else
      '(c, r) ← re_compile_quantifier c atom_start;
      if r <? 0 then Some c else compile_sequence c in_group
  else Some c.

Definition atom_body (c : compiler) (in_group : bool) : option (compiler * Z) :=
  let p := c_cursor c in
  if (peek p 0 =? 0) || re_is_alt_delimiter c || re_is_group_close c in_group then Some (c, 0)
  else if (peek p 0 =? 40) && c_extended c then
    let capture := negb ((peek p 1 =? 63) && (peek p 2 =? 58)) in
    let c := advance (if capture then 1 else 3) c in
    let '(c, save) := if capture then emit_save (add_group c) (fun c => c_groups c * 2) else (c, 0) in
    if save <? 0 then Some (c, -1)
    else
      c ← compile_alternation c true;
      if truthy (c_error c) then Some (c, -1)
      else if negb (peek (c_cursor c) 0 =? 41) then Some (set_error c REG_EPAREN, -1)
      else
        let c := advance 1 c in
        let '(c, save) := if capture then emit_save c (fun c => c_groups c * 2 + 1) else (c, 0) in
        if save <? 0 then Some (c, -1) else Some (c, 1)
  else if (peek p 0 =? 92) && (peek p 1 =? 40) && negb (c_extended c) then
    let '(c, save) := emit_save (add_group (advance 2 c)) (fun c => c_groups c * 2) in
    if save <? 0 then Some (c, -1)
    else
      c ← compile_alternation c true;
      if truthy (c_error c) then Some (c, -1)
      else if negb (peek (c_cursor c) 0 =? 92) || negb (peek (c_cursor c) 1 =? 41) then
        Some (set_error c REG_EPAREN, -1)
      else
        let '(c, save) := emit_save (advance 2 c) (fun c => c_groups c * 2 + 1) in
        if save <? 0 then Some (c, -1) else Some (c, 1)
  else compile_simple_atom c.
End bodies.

Fixpoint re_compile_alternation (fuel : nat) (c : compiler) (in_group : bool) : option compiler :=
  match fuel with
  | O => None
  | S n => alternation_body (alternatives n) (re_compile_sequence n) c in_group
  end
with alternatives (fuel : nat) (c : compiler) (in_group : bool) (last_split : Z) (jumps : list Z) : option compiler :=
  match fuel with
  | O => None
  | S n => alternatives_body (alternatives n) (re_compile_sequence n) c in_group last_split jumps
  end
with re_compile_sequence (fuel : nat) (c : compiler) (in_group : bool) : option compiler :=
  match fuel with
  | O => None
  | S n => sequence_body (re_compile_sequence n) (re_compile_atom n) c in_group
  end
with re_compile_atom (fuel : nat) (c : compiler) (in_group : bool) : option (compiler * Z) :=
  match fuel with
  | O => None
  | S n => atom_body (re_compile_alternation n) c in_group
  end.

(** ** regcomp *)

Record regex_t : Type := Regex {
  re_program : option (list re_inst);
  re_block : Z;
  re_nsub : Z;
  re_cflags : Z
}.

Definition regex_cleared : regex_t := Regex None 0 0 0.

(** [free(compiler.program)], the cleared [regex_t] and the error. *)
Definition regcomp_fail (c : compiler) (e : Z) : A * regex_t * Z :=
  (al_free (c_heap c) (c_block c), regex_cleared, e).

(** The depth of calls a pattern can need. *)
Definition compile_fuel (regex : list Z) : nat := 3 * length regex + 4.

Definition regcomp (heap : A) (regex : list Z) (cflags : Z) : option (A * regex_t * Z) :=
  let c := Compiler [] 0 regex (flag cflags REG_EXTENDED) 0 0 0 heap in
  let '(c, save) := emit_save c (fun _ => 0) in
  if save <? 0 then Some (regcomp_fail c REG_ESPACE)
  else
    c ← re_compile_alternation (compile_fuel regex) c false;
    let c := if negb (truthy (c_error c)) && negb (peek (c_cursor c) 0 =? 0)
             then set_error c REG_BADPAT else c in
    if truthy (c_error c) then Some (regcomp_fail c (c_error c))
    else
      let '(c, save) := emit_save c (fun _ => 1) in
      if save <? 0 then Some (regcomp_fail c REG_ESPACE)
      else
        let '(c, mtch) := re_emit c RE_MATCH in
        if mtch <? 0 then Some (regcomp_fail c REG_ESPACE)
        else Some (c_heap c, Regex (Some (c_program c)) (c_block c) (c_groups c) cflags, 0).

Definition regfree (heap : A) (preg : regex_t) : A * regex_t :=
  (al_free heap (re_block preg), regex_cleared).
End compiler.
