(* ===== verification/RegexVM.v ===== *)
(** * The matcher of [lib/libc_regex.c]: [re_run] and [regexec]

    [re_run] carries the capture and generation arrays; an access outside
    either array is a fault.  [fuel] bounds the depth of the recursion. *)

From Stdlib Require Import String Ascii.
From stdpp Require Import strings.
From S2P Require Import Prelude Ctype Regex.

Inductive vm_result : Type :=
| NoFuel
| Fault
| Ret (matched : bool) (captures generations : list Z).

Definition re_class_match (set : list Z) (ch cflags : Z) : bool :=
  set_has set ch ||
  (flag cflags REG_ICASE && (set_has set (tolower ch) || set_has set (toupper ch))).

Definition re_is_word (ch : Z) : bool := isalnum ch || (ch =? 95).

Section vm.
Context (program : list re_inst) (text : list Z) (cflags eflags generation : Z).

Definition text_length : Z := Z.of_nat (length text).
Definition program_length : Z := Z.of_nat (length program).

Definition char_at (pos : Z) : Z := peek text (Z.to_nat pos).

(** Does the consuming instruction [i] accept the character at [pos]? *)
Definition consumes (i : re_inst) (pos : Z) : bool :=
  (pos <? text_length) &&
  match i_op i with
  | RE_CHAR =>
      if flag cflags REG_ICASE then tolower (char_at pos) =? tolower (i_ch i)
      else char_at pos =? i_ch i
  | RE_ANY => negb (flag cflags REG_NEWLINE && (char_at pos =? 10))
  | RE_CLASS => re_class_match (i_set i) (char_at pos) cflags
  | _ => false
  end.

(** Does the assertion [op] hold at [pos]? *)
Definition asserts (op : re_op) (pos : Z) : bool :=
  match op with
  | RE_BOL =>
      if pos =? 0 then negb (flag eflags REG_NOTBOL)
      else flag cflags REG_NEWLINE && (char_at (pos - 1) =? 10)
  | RE_EOL =>
      if pos =? text_length then negb (flag eflags REG_NOTEOL)
      else flag cflags REG_NEWLINE && (char_at pos =? 10)
  | RE_WORDB | RE_NOT_WORDB =>
      let before := (0 <? pos) && re_is_word (char_at (pos - 1)) in
      let after := (pos <? text_length) && re_is_word (char_at pos) in
      Bool.eqb (match op with RE_WORDB => true | _ => false end) (negb (Bool.eqb before after))
  | _ => false
  end.

(** [(size_t)pc * (length + 1) + pos] *)
Definition state_index (pc pos : Z) : Z := pc * (text_length + 1) + pos.

Fixpoint re_run (fuel : nat) (pc pos : Z) (captures generations : list Z) : vm_result :=
  match fuel with
  | O => NoFuel
  | S n =>
      if (pc <? 0) || (program_length <=? pc) then Ret false captures generations
      else
        let state := Z.to_nat (u32 (state_index pc pos)) in
        match generations !! state with
        | None => Fault
        | Some g =>
            if g =? generation then Ret false captures generations
            else
              let generations := <[state := generation]> generations in
              let i := nth (Z.to_nat pc) program zero_inst in
              match i_op i with
              | RE_CHAR | RE_ANY | RE_CLASS =>
                  if consumes i pos then re_run n (pc + 1) (pos + 1) captures generations
                  else Ret false captures generations
              | RE_SPLIT =>
                  match re_run n (i_x i) pos captures generations with
                  | Ret false captures generations => re_run n (i_y i) pos captures generations
                  | r => r
                  end
              | RE_JMP => re_run n (i_x i) pos captures generations
              | RE_SAVE =>
                  if i_x i <? 0 then Fault
                  else
                    match captures !! Z.to_nat (i_x i) with
                    | None => Fault
                    | Some old =>
                        match re_run n (pc + 1) pos (<[Z.to_nat (i_x i) := pos]> captures) generations with
                        | Ret false captures generations =>
                            Ret false (<[Z.to_nat (i_x i) := old]> captures) generations
                        | r => r
                        end
                    end
              | RE_BOL | RE_EOL | RE_WORDB | RE_NOT_WORDB =>
                  if asserts (i_op i) pos then re_run n (pc + 1) pos captures generations
                  else Ret false captures generations
              | RE_MATCH => Ret true captures generations
              end
        end
  end.
End vm.

(** One fresh mark per state, plus the call that finds the mark. *)
Definition run_fuel (program : list re_inst) (text : list Z) : nat :=
  length program * (length text + 1) + 1.

Record regmatch_t : Type := Regmatch { rm_so : Z; rm_eo : Z }.

Inductive exec_result : Type :=
| ExecNoFuel
| ExecFault
| ExecRet (result : Z) (captures generations : list Z).

Section exec.
Context (program : list re_inst) (nsub cflags : Z) (text : list Z) (eflags : Z).

Definition capture_count : Z := u32 (u32 (nsub + 1) * 2).

(** The loop over the start positions, [n] of them left. *)
Fixpoint start_loop (n : nat) (start generation : Z) (captures generations : list Z) : exec_result :=
  match n with
  | O => ExecRet REG_NOMATCH captures generations
  | S k =>
      let generation := u32 (generation + 1) in
      let '(generations, generation) :=
        if generation =? 0 then (replicate (length generations) 0, 1) else (generations, generation) in
      let captures := <[0%nat := start]> (replicate (length captures) (-1)) in
      match re_run program text cflags eflags generation (run_fuel program text) 0 start captures generations with
      | NoFuel => ExecNoFuel
      | Fault => ExecFault
      | Ret true captures generations => ExecRet 0 captures generations
      | Ret false captures generations => start_loop k (start + 1) generation captures generations
      end
  end.
End exec.

(** [program_length]: up to the first RE_MATCH; [None] reads past the end. *)
Fixpoint match_length (program : list re_inst) : option nat :=
  match program with
  | [] => None
  | i :: rest => if decide (i_op i = RE_MATCH) then Some 1%nat else n ← match_length rest; Some (S n)
  end.

(** What [regexec] leaves in [pmatch]. *)
Fixpoint fill_matches (n : nat) (captures : list Z) (pmatch : list regmatch_t) : list regmatch_t :=
  match n with
  | O => pmatch
  | S k =>
      <[k := Regmatch (nth (k * 2) captures 0) (nth (k * 2 + 1) captures 0)]> (fill_matches k captures pmatch)
  end.

Section regexec.
Context {A : Type} `{Allocator A}.

(** [dirty p n] is what the first [n] words of a fresh block hold: [malloc]
    does not clear it. *)
Context (dirty : Z -> nat -> list Z).

(** [pmatch] is the caller's array, [None] for a null pointer; [nmatch] at
    most its length. *)
Definition regexec (heap : A) (preg : regex_t) (text : list Z) (nmatch : Z)
    (pmatch : option (list regmatch_t)) (eflags : Z) : option (A * Z * option (list regmatch_t)) :=
  match re_program preg with
  | None => Some (heap, REG_BADPAT, pmatch)
  | Some whole =>
      plen ← match_length whole;
      let program := take plen whole in
      let ccount := capture_count (re_nsub preg) in
      let scount := u32 (Z.of_nat plen * u32 (Z.of_nat (length text) + 1)) in
      let '(heap, cp) := al_malloc heap (u32 (ccount * 4)) in
      let '(heap, gp) := al_malloc heap (u32 (scount * 4)) in
      if (cp =? 0) || (gp =? 0) then
        let heap := if cp =? 0 then heap else al_free heap cp in
        let heap := if gp =? 0 then heap else al_free heap gp in
        Some (heap, REG_ESPACE, pmatch)
      else
        match start_loop program (re_cflags preg) text eflags (S (length text)) 0 0
                (dirty cp (Z.to_nat (u32 (ccount * 4) / 4)))
                (dirty gp (Z.to_nat (u32 (scount * 4) / 4))) with
        | ExecNoFuel => None
        | ExecFault => None
        | ExecRet result captures _ =>
            let pmatch :=
              if (result =? 0) && negb (flag (re_cflags preg) REG_NOSUB) then
                p ← pmatch;
                let count := if re_nsub preg + 1 <? nmatch then re_nsub preg + 1 else nmatch in
                Some (fill_matches (Z.to_nat count) captures p)
              else pmatch in
            Some (al_free (al_free heap cp) gp, result, pmatch)
        end
  end.
End regexec.

(** ** regerror *)

(** A string literal as the bytes of its characters. *)
Definition bytes (s : string) : list Z :=
  map (fun a => Z.of_N (Ascii.N_of_ascii a)) (String.list_ascii_of_string s).

Definition messages : list string :=
  ["No error"; "No match"; "Invalid regular expression"; "Invalid collating element";
   "Invalid character class"; "Trailing backslash"; "Invalid back reference";
   "Unmatched bracket"; "Unmatched parenthesis"; "Unmatched brace"; "Invalid repeat range";
   "Invalid character range"; "Out of memory"]%string.

(** The size the message needs, and the first [errbuf_size] bytes of the
    buffer afterwards; [None] for a null pointer. *)
Definition regerror (errcode : Z) (errbuf : option (list Z)) (errbuf_size : Z) : Z * option (list Z) :=
  let message :=
    bytes (if (errcode <? 0) || (Z.of_nat (length messages) <=? errcode)
           then "Unknown regular expression error"%string
           else nth (Z.to_nat errcode) messages ""%string) in
  let len := Z.of_nat (length message) + 1 in
  match errbuf with
  | Some _ =>
      if 0 <? errbuf_size then
        let n := Z.to_nat (errbuf_size - 1) in
        (* strncpy pads with zeros *)
        (len, Some (take n (message ++ replicate n 0) ++ [0]))
      else (len, errbuf)
  | None => (len, None)
  end.
