(* ===== verification/RegexVMCorrect.v ===== *)
(** * Correctness of the matcher

    [accepts] is the matcher's specification: an instruction-by-instruction
    path from a state to RE_MATCH, with the captures it records.  [re_run]
    finds such a path exactly when there is one, although it visits every
    (instruction, position) at most once. *)

From S2P Require Import Prelude Ctype Regex RegexVM.

Section spec.
Context (program : list re_inst) (text : list Z) (cflags eflags : Z).

Definition inst_at (pc : Z) : re_inst := nth (Z.to_nat pc) program zero_inst.
Definition in_program (pc : Z) : Prop := 0 <= pc < program_length program.

Definition is_consuming (op : re_op) : bool :=
  match op with RE_CHAR | RE_ANY | RE_CLASS => true | _ => false end.

Definition is_assertion (op : re_op) : bool :=
  match op with RE_BOL | RE_EOL | RE_WORDB | RE_NOT_WORDB => true | _ => false end.

(** One transition of the machine. *)
Inductive vstep (pc pos : Z) : Z -> Z -> Prop :=
| vstep_consume : is_consuming (i_op (inst_at pc)) = true ->
    consumes text cflags (inst_at pc) pos = true -> vstep pc pos (pc + 1) (pos + 1)
| vstep_split_x : i_op (inst_at pc) = RE_SPLIT -> vstep pc pos (i_x (inst_at pc)) pos
| vstep_split_y : i_op (inst_at pc) = RE_SPLIT -> vstep pc pos (i_y (inst_at pc)) pos
| vstep_jmp : i_op (inst_at pc) = RE_JMP -> vstep pc pos (i_x (inst_at pc)) pos
| vstep_save : i_op (inst_at pc) = RE_SAVE -> vstep pc pos (pc + 1) pos
| vstep_assert : is_assertion (i_op (inst_at pc)) = true ->
    asserts text cflags eflags (i_op (inst_at pc)) pos = true -> vstep pc pos (pc + 1) pos.

(** What a transition out of [pc] does to the captures. *)
Definition record_capture (pc pos : Z) (captures : list Z) : list Z :=
  if decide (i_op (inst_at pc) = RE_SAVE) then <[Z.to_nat (i_x (inst_at pc)) := pos]> captures else captures.

Inductive accepts : Z -> Z -> list Z -> list Z -> Prop :=
| accepts_match pc pos captures : in_program pc -> i_op (inst_at pc) = RE_MATCH ->
    accepts pc pos captures captures
| accepts_step pc pos pc' pos' captures captures' : in_program pc -> vstep pc pos pc' pos' ->
    accepts pc' pos' (record_capture pc pos captures) captures' -> accepts pc pos captures captures'.

(** Every capture slot the program writes exists. *)
Definition slots_ok (n : nat) : Prop :=
  forall i, i ∈ program -> i_op i = RE_SAVE -> 0 <= i_x i < Z.of_nat n.

(** The generation array holds one word per state, and its size in bytes
    does not wrap around. *)
Definition states : nat := length program * (length text + 1).
Definition states_fit : Prop := 4 * Z.of_nat states < 2 ^ 32.

Lemma inst_in pc : in_program pc -> inst_at pc ∈ program.
Proof.
  intros [H0 H1]. unfold program_length in H1. unfold inst_at.
  apply list_elem_of_lookup. exists (Z.to_nat pc).
  destruct (program !! Z.to_nat pc) as [i|] eqn:E.
  - by rewrite (nth_lookup_Some _ _ _ _ E).
  - apply lookup_ge_None in E. lia.
Qed.

(** State indices are in range and distinct. *)
Lemma state_index_range pc pos : states_fit -> in_program pc -> 0 <= pos <= text_length text ->
  0 <= state_index text pc pos < Z.of_nat states /\
  u32 (state_index text pc pos) = state_index text pc pos.
Proof.
  unfold states_fit, in_program, states, state_index, program_length, text_length. intros Hf Hpc Hpos.
  assert (0 <= pc * (Z.of_nat (length text) + 1) + pos < Z.of_nat (length program * (length text + 1))) as H by nia.
  split; [done|]. apply u32_small. lia.
Qed.

Lemma state_index_inj pc pos pc' pos' :
  0 <= pos <= text_length text -> 0 <= pos' <= text_length text -> 0 <= pc -> 0 <= pc' ->
  state_index text pc pos = state_index text pc' pos' -> pc = pc' /\ pos = pos'.
Proof.
  unfold state_index, text_length. intros. assert (pc = pc'); [|lia].
  destruct (Z.lt_trichotomy pc pc') as [|[|]]; nia.
Qed.
End spec.

(** ** Marks *)

Section marks.
Context (generation : Z).

(** The states not yet visited. *)
Definition unmarked (gens : list Z) : nat := length (filter (fun g => g <> generation) gens).

Lemma unmarked_le gens : (unmarked gens <= length gens)%nat.
Proof. apply length_filter. Qed.

Lemma unmarked_mark gens k g : gens !! k = Some g -> g <> generation ->
  S (unmarked (<[k := generation]> gens)) = unmarked gens.
Proof.
  intros Hk Hg. unfold unmarked. revert k Hk. induction gens as [|h gens IH]; intros [|k] Hk; simplify_eq/=.
  - rewrite !filter_cons, decide_False by tauto. by rewrite decide_True.
  - specialize (IH k Hk). rewrite !filter_cons. destruct (decide (h <> generation)); cbn [length]; lia.
Qed.

(** [gens'] is [gens] with some more marks. *)
Definition marks_more (gens gens' : list Z) : Prop :=
  length gens' = length gens /\
  (unmarked gens' <= unmarked gens)%nat /\
  forall k, gens' !! k = gens !! k \/ (gens' !! k = Some generation /\ (k < length gens)%nat).

Lemma marks_more_refl gens : marks_more gens gens.
Proof. split; [done|]. split; [done|]. auto. Qed.

Lemma marks_more_trans g1 g2 g3 : marks_more g1 g2 -> marks_more g2 g3 -> marks_more g1 g3.
Proof.
  intros (L1 & U1 & H1) (L2 & U2 & H2). split; [congruence|]. split; [lia|]. intros k.
  destruct (H2 k) as [->|[-> ?]]; [apply H1|right; split; [done|lia]].
Qed.

Lemma marks_more_mark gens k g : gens !! k = Some g -> g <> generation ->
  marks_more gens (<[k := generation]> gens).
Proof.
  intros Hk Hg. split; [by rewrite length_insert|].
  split; [pose proof (unmarked_mark gens k g Hk Hg); lia|]. intros j.
  pose proof (lookup_lt_Some _ _ _ Hk).
  destruct (decide (k = j)) as [<-|]; [right; by rewrite list_lookup_insert_eq|left; by rewrite list_lookup_insert_ne].
Qed.

Lemma marks_keep gens gens' k : marks_more gens gens' -> gens !! k = Some generation -> gens' !! k = Some generation.
Proof. intros (_ & _ & H) Hk. destruct (H k) as [->|[? _]]; done. Qed.
End marks.

(** ** The search *)

Section search.
Context (program : list re_inst) (text : list Z) (cflags eflags generation : Z) (slots : nat).
Context (Hfit : states_fit program text) (Hslots : slots_ok program slots).

Abbreviation vstep := (vstep program text cflags eflags).
Abbreviation accepts := (accepts program text cflags eflags).
Abbreviation op_at pc := (i_op (inst_at program pc)).

Definition marked (gens : list Z) (pc pos : Z) : Prop :=
  gens !! Z.to_nat (state_index text pc pos) = Some generation.

#[local] Instance marked_dec gens pc pos : Decision (marked gens pc pos).
Proof. unfold marked. apply _. Defined.

(** Every state marked in [gens'] but not in [gens] is a dead end: it does
    not match, and its successors are marked as well. *)
Definition explored (gens gens' : list Z) : Prop :=
  forall pc pos, in_program program pc -> 0 <= pos <= text_length text ->
    marked gens' pc pos -> ~ marked gens pc pos ->
    op_at pc <> RE_MATCH /\
    forall pc' pos', vstep pc pos pc' pos' -> in_program program pc' -> marked gens' pc' pos'.

Lemma explored_refl gens : explored gens gens.
Proof. intros ?????. tauto. Qed.

(** One more call: [s] is [self] or was reached later. *)
Lemma explored_self gens gens' pc pos :
  in_program program pc -> 0 <= pos <= text_length text -> ~ marked gens pc pos ->
  marks_more generation (<[Z.to_nat (state_index text pc pos) := generation]> gens) gens' ->
  explored (<[Z.to_nat (state_index text pc pos) := generation]> gens) gens' ->
  op_at pc <> RE_MATCH ->
  (forall pc' pos', vstep pc pos pc' pos' -> in_program program pc' -> marked gens' pc' pos') ->
  explored gens gens'.
Proof.
  intros Hpc Hpos Hn Hm He Hop Hs p q Hp Hq Hpq Hnq.
  destruct (decide (p = pc /\ q = pos)) as [[-> ->]|Hne]; [done|].
  apply He; try done. unfold marked in *. rewrite list_lookup_insert_ne; [done|].
  intros E. apply Hne. destruct (state_index_range program text pc pos Hfit Hpc Hpos).
  destruct (state_index_range program text p q Hfit Hp Hq).
  apply (state_index_inj text); unfold in_program in *; lia.
Qed.

Lemma explored_trans g1 g2 g3 : marks_more generation g2 g3 ->
  explored g1 g2 -> explored g2 g3 -> explored g1 g3.
Proof.
  intros Hm H1 H2 pc pos Hpc Hpos Hk Hn.
  destruct (decide (marked g2 pc pos)) as [Hd|Hd]; [|by apply H2].
  destruct (H1 pc pos Hpc Hpos Hd Hn) as [Ho Hs]. split; [done|].
  intros pc' pos' ??. apply (marks_keep generation g2 g3); [done|]. by apply Hs.
Qed.

(** What a call returns. *)
Definition run_post (pc pos : Z) (caps gens : list Z) (r : vm_result) : Prop :=
  exists b caps' gens', r = Ret b caps' gens' /\ length caps' = slots /\
    marks_more generation gens gens' /\
    if b : bool then accepts pc pos caps caps'
    else caps' = caps /\ explored gens gens' /\ (in_program program pc -> marked gens' pc pos).

Lemma consumes_bound i pos : consumes text cflags i pos = true -> pos < text_length text.
Proof. unfold consumes. intros H. apply andb_prop in H as [H _]. lia. Qed.

(** Passing a single continuation on. *)
Lemma post_tail pc pos pc' pos' caps caps1 gens r : let idx := Z.to_nat (state_index text pc pos) in
  in_program program pc -> 0 <= pos <= text_length text -> ~ marked gens pc pos ->
  (exists g, gens !! idx = Some g /\ g <> generation) ->
  op_at pc <> RE_MATCH ->
  vstep pc pos pc' pos' -> (forall p q, vstep pc pos p q -> p = pc' /\ q = pos') ->
  caps1 = record_capture program pc pos caps ->
  run_post pc' pos' caps1 (<[idx := generation]> gens) r ->
  exists b caps' gens', r = Ret b caps' gens' /\ length caps' = slots /\
    marks_more generation gens gens' /\
    if b : bool then accepts pc pos caps caps'
    else caps' = caps1 /\ explored gens gens' /\ (in_program program pc -> marked gens' pc pos).
Proof.
  intros idx Hpc Hpos Hn (g & Hg & Hne) Hop Hv Hu -> (b & caps' & gens' & -> & Hl & Hm & Hb).
  exists b, caps', gens'. split; [done|]. split; [done|].
  split; [eapply marks_more_trans; [by eapply marks_more_mark|done]|].
  destruct b; [by eapply accepts_step|]. destruct Hb as (-> & He & Hk). split; [done|].
  split; [|intros _; eapply marks_keep; [done|]; apply list_lookup_insert_eq; by eapply lookup_lt_Some].
  eapply explored_self; try done. intros p q Hpq. destruct (Hu p q Hpq) as [-> ->]. done.
Qed.

(** A state with no continuation. *)
Lemma post_dead pc pos caps gens : let idx := Z.to_nat (state_index text pc pos) in
  in_program program pc -> 0 <= pos <= text_length text -> ~ marked gens pc pos ->
  (exists g, gens !! idx = Some g /\ g <> generation) -> length caps = slots ->
  op_at pc <> RE_MATCH -> (forall p q, ~ vstep pc pos p q) ->
  run_post pc pos caps gens (Ret false caps (<[idx := generation]> gens)).
Proof.
  intros idx Hpc Hpos Hn (g & Hg & Hne) Hl Hop Hu.
  exists false, caps, (<[idx := generation]> gens). split; [done|]. split; [done|].
  split; [by eapply marks_more_mark|]. split; [done|].
  split; [|intros _; apply list_lookup_insert_eq; by eapply lookup_lt_Some].
  eapply explored_self; [done..|apply marks_more_refl|apply explored_refl|done|].
  intros p q Hpq. by destruct (Hu p q).
Qed.

Lemma vstep_inv pc pos p q : vstep pc pos p q ->
  match op_at pc with
  | RE_CHAR | RE_ANY | RE_CLASS => p = pc + 1 /\ q = pos + 1 /\ consumes text cflags (inst_at program pc) pos = true
  | RE_SPLIT => q = pos /\ (p = i_x (inst_at program pc) \/ p = i_y (inst_at program pc))
  | RE_JMP => q = pos /\ p = i_x (inst_at program pc)
  | RE_SAVE => q = pos /\ p = pc + 1
  | RE_BOL | RE_EOL | RE_WORDB | RE_NOT_WORDB =>
      q = pos /\ p = pc + 1 /\ asserts text cflags eflags (op_at pc) pos = true
  | RE_MATCH => False
  end.
Proof. intros H. inversion H as [E|E|E|E|E|E]; subst; destruct (op_at pc); try done; eauto. Qed.

Lemma record_other pc pos caps : op_at pc <> RE_SAVE -> record_capture program pc pos caps = caps.
Proof. intros H. unfold record_capture. by rewrite decide_False. Qed.

Abbreviation run := (re_run program text cflags eflags generation).

Definition run_ok (fuel : nat) : Prop := forall pc pos caps gens,
  (unmarked generation gens < fuel)%nat -> length gens = states program text ->
  0 <= pos <= text_length text -> length caps = slots ->
  run_post pc pos caps gens (run fuel pc pos caps gens).

(** The two continuations of a split. *)
Lemma post_split n pc pos caps gens g : run_ok n ->
  let idx := Z.to_nat (state_index text pc pos) in
  (unmarked generation (<[idx := generation]> gens) < n)%nat -> length gens = states program text ->
  in_program program pc -> 0 <= pos <= text_length text -> ~ marked gens pc pos ->
  gens !! idx = Some g -> g <> generation -> length caps = slots ->
  op_at pc = RE_SPLIT ->
  run_post pc pos caps gens
    (match run n (i_x (inst_at program pc)) pos caps (<[idx := generation]> gens) with
     | Ret false captures generations => run n (i_y (inst_at program pc)) pos captures generations
     | r => r
     end).
Proof.
  intros IH idx Hun Hl Hpc Hpos Hn Hg Hne Hc Hop.
  assert (marks_more generation gens (<[idx := generation]> gens)) as Hm0 by (by eapply marks_more_mark).
  assert (record_capture program pc pos caps = caps) as Hrc by (apply record_other; by rewrite Hop).
  destruct (IH (i_x (inst_at program pc)) pos caps (<[idx := generation]> gens))
    as (b & c1 & g1 & -> & L1 & M1 & P1); [done|by rewrite length_insert|done|done|].
  destruct b.
  - exists true, c1, g1. split; [done|]. split; [done|]. split; [by eapply marks_more_trans|].
    eapply accepts_step; [done|by apply vstep_split_x|by rewrite Hrc].
  - destruct P1 as (-> & E1 & K1).
    destruct (IH (i_y (inst_at program pc)) pos caps g1) as (b & c2 & g2 & -> & L2 & M2 & P2);
      [destruct M1 as (_ & ? & _); lia|destruct M1 as (-> & _); by rewrite length_insert|done|done|].
    exists b, c2, g2. split; [done|]. split; [done|].
    assert (marks_more generation (<[idx := generation]> gens) g2) as M12 by (by eapply marks_more_trans).
    split; [by eapply marks_more_trans|]. destruct b.
    + eapply accepts_step; [done|by apply vstep_split_y|by rewrite Hrc].
    + destruct P2 as (-> & E2 & K2). split; [done|].
      split; [|intros _; eapply marks_keep; [exact M12|]; apply list_lookup_insert_eq; by eapply lookup_lt_Some].
      eapply explored_self; [done..|exact M12|by apply (explored_trans _ g1)|by rewrite Hop|].
      intros p q Hpq Hp. apply vstep_inv in Hpq. rewrite Hop in Hpq.
      destruct Hpq as (-> & [-> | ->]); [|by apply K2].
      eapply marks_keep; [exact M2|by apply K1].
Qed.

(** One guarded continuation: the instructions that move on or fail. *)
Lemma post_cond n pc pos pc' pos' (ok : bool) caps gens g : run_ok n ->
  let idx := Z.to_nat (state_index text pc pos) in
  (unmarked generation (<[idx := generation]> gens) < n)%nat -> length gens = states program text ->
  in_program program pc -> 0 <= pos <= text_length text -> ~ marked gens pc pos ->
  gens !! idx = Some g -> g <> generation -> length caps = slots ->
  op_at pc <> RE_MATCH -> op_at pc <> RE_SAVE ->
  (ok = true -> vstep pc pos pc' pos' /\ 0 <= pos' <= text_length text) ->
  (forall p q, vstep pc pos p q -> ok = true /\ p = pc' /\ q = pos') ->
  run_post pc pos caps gens
    (if ok then run n pc' pos' caps (<[idx := generation]> gens)
     else Ret false caps (<[idx := generation]> gens)).
Proof.
  intros IH idx Hun Hl Hpc Hpos Hn Hg Hne Hc Hop Hsave Hok Hu. destruct ok.
  - destruct (Hok eq_refl) as [Hv Hp'].
    assert (record_capture program pc pos caps = caps) as Hrc by (by apply record_other).
    destruct (post_tail pc pos pc' pos' caps caps gens (run n pc' pos' caps (<[idx := generation]> gens)))
      as (b & c & g' & E & H); try done; eauto.
    + intros p q Hpq. by destruct (Hu p q Hpq).
    + apply IH; try done. by rewrite length_insert.
    + exists b, c, g'. done.
  - apply post_dead; try done; [eauto|]. intros p q Hpq. by destruct (Hu p q Hpq).
Qed.

(** A saved capture, restored when the rest fails. *)
Lemma post_save n pc pos caps gens g old : run_ok n ->
  let idx := Z.to_nat (state_index text pc pos) in
  let slot := Z.to_nat (i_x (inst_at program pc)) in
  (unmarked generation (<[idx := generation]> gens) < n)%nat -> length gens = states program text ->
  in_program program pc -> 0 <= pos <= text_length text -> ~ marked gens pc pos ->
  gens !! idx = Some g -> g <> generation -> length caps = slots ->
  op_at pc = RE_SAVE -> caps !! slot = Some old ->
  run_post pc pos caps gens
    (match run n (pc + 1) pos (<[slot := pos]> caps) (<[idx := generation]> gens) with
     | Ret false captures generations => Ret false (<[slot := old]> captures) generations
     | r => r
     end).
Proof.
  intros IH idx slot Hun Hl Hpc Hpos Hn Hg Hne Hc Hop Hold.
  destruct (post_tail pc pos (pc + 1) pos caps (<[slot := pos]> caps) gens
     (run n (pc + 1) pos (<[slot := pos]> caps) (<[idx := generation]> gens)))
    as (b & c & g' & -> & Lc & Mm & P); try done; eauto.
  - by rewrite Hop.
  - by apply vstep_save.
  - intros p q Hpq. apply vstep_inv in Hpq. rewrite Hop in Hpq. tauto.
  - unfold record_capture. by rewrite decide_True.
  - apply IH; try done; by rewrite length_insert.
  - destruct b; [exists true, c, g'; done|].
    destruct P as (-> & E & K). eexists false, _, g'. split; [done|].
    split; [by rewrite !length_insert|]. split; [done|]. split; [|done].
    by rewrite list_insert_insert_eq, list_insert_id.
Qed.

Lemma re_run_post fuel : run_ok fuel.
Proof.
  induction fuel as [|n IH]; intros pc pos caps gens Hun Hl Hpos Hc; [lia|]. cbn [re_run].
  destruct (Z.ltb_spec pc 0), (Z.leb_spec (program_length program) pc); cbn [orb].
  1-3: exists false, caps, gens; split; [done|]; split; [done|]; split; [apply marks_more_refl|];
    split; [done|]; split; [apply explored_refl|unfold in_program; lia].
  assert (in_program program pc) as Hpc by (split; lia).
  destruct (state_index_range program text pc pos Hfit Hpc Hpos) as [Hi ->].
  destruct (gens !! Z.to_nat (state_index text pc pos)) as [g|] eqn:Hg; [|apply lookup_ge_None in Hg; lia].
  destruct (Z.eqb_spec g generation) as [->|Hne].
  { exists false, caps, gens. split; [done|]. split; [done|]. split; [apply marks_more_refl|].
    split; [done|]. split; [apply explored_refl|done]. }
  assert (~ marked gens pc pos) as Hnm by (unfold marked; rewrite Hg; congruence).
  pose proof (unmarked_mark generation gens _ g Hg Hne) as Hun'.
  fold (inst_at program pc).
  destruct (i_op (inst_at program pc)) eqn:Hop.
  1-3: eapply post_cond; [done|lia|done..|by rewrite Hop|by rewrite Hop| |];
    [intros Hcon; pose proof (consumes_bound _ _ Hcon); split; [by apply vstep_consume; rewrite ?Hop|lia]
    |intros p q Hpq; apply vstep_inv in Hpq; rewrite Hop in Hpq; tauto].
  4-7: rewrite <- Hop; eapply post_cond; [done|lia|done..|by rewrite Hop|by rewrite Hop| |];
    [intros Has; split; [by apply vstep_assert; rewrite ?Hop in *|lia]
    |intros p q Hpq; apply vstep_inv in Hpq; rewrite Hop in Hpq |- *; tauto].
  - by eapply post_split; try done; lia.
  - eapply (post_cond n pc pos _ _ true); [done|lia|done..|by rewrite Hop|by rewrite Hop| |].
    + split; [by apply vstep_jmp|lia].
    + intros p q Hpq. apply vstep_inv in Hpq. rewrite Hop in Hpq. tauto.
  - pose proof (Hslots _ (inst_in program pc Hpc) Hop) as Hx.
    destruct (Z.ltb_spec (i_x (inst_at program pc)) 0); [lia|].
    destruct (caps !! Z.to_nat (i_x (inst_at program pc))) as [old|] eqn:Hold;
      [|apply lookup_ge_None in Hold; lia].
    by eapply post_save; try done; lia.
  - exists true, caps, (<[Z.to_nat (state_index text pc pos) := generation]> gens). split; [done|]. split; [done|].
    split; [by eapply marks_more_mark|]. by apply accepts_match.
Qed.

(** From a fresh array, a failed call proves that no path exists. *)
Lemma explored_no_path gens gens' pc pos caps caps' :
  (forall p q, in_program program p -> 0 <= q <= text_length text -> ~ marked gens p q) ->
  explored gens gens' -> accepts pc pos caps caps' ->
  0 <= pos <= text_length text -> marked gens' pc pos -> False.
Proof.
  intros Hfresh He Ha. induction Ha as [pc pos c Hpc Hop|pc pos pc' pos' c c' Hpc Hv Ha IH]; intros Hpos Hm.
  - by destruct (He pc pos Hpc Hpos Hm (Hfresh _ _ Hpc Hpos)).
  - destruct (He pc pos Hpc Hpos Hm (Hfresh _ _ Hpc Hpos)) as [_ Hs].
    assert (in_program program pc') as Hpc' by (inversion Ha; done).
    apply IH; [|by apply Hs].
    apply vstep_inv in Hv. destruct (op_at pc); try done; try lia;
      destruct Hv as (_ & -> & Hc); apply consumes_bound in Hc; lia.
Qed.
End search.

(** ** The search over start positions *)

Section starts.
Context (program : list re_inst) (text : list Z) (cflags eflags : Z) (slots : nat).
Context (Hfit : states_fit program text) (Hslots : slots_ok program slots).

Definition init_captures (s : Z) : list Z := <[0%nat := s]> (replicate slots (-1)).

(** A match starting at [s], with the captures it records. *)
Definition match_at (s : Z) (captures : list Z) : Prop :=
  accepts program text cflags eflags 0 s (init_captures s) captures.

Definition no_match_at (s : Z) : Prop := forall captures, ~ match_at s captures.

(** No word of [gens] is one of the next [n] generations: what the
    uninitialised array has to satisfy. *)
Definition clean (generation : Z) (n : nat) (gens : list Z) : Prop :=
  forall k e, gens !! k = Some e -> ~ (generation < e <= generation + Z.of_nat n).

Definition start_post (start : Z) (r : exec_result) : Prop :=
  exists result captures gens, r = ExecRet result captures gens /\ length captures = slots /\
    ((result = 0 /\ exists s, start <= s <= text_length text /\ match_at s captures /\
        forall s', start <= s' < s -> no_match_at s') \/
     (result = REG_NOMATCH /\ forall s, start <= s <= text_length text -> no_match_at s)).

Lemma run_at start generation gens : generation <> 0 -> 0 <= start <= text_length text ->
  length gens = states program text -> clean (generation - 1) 1 gens ->
  exists b captures gens',
    re_run program text cflags eflags generation (run_fuel program text) 0 start (init_captures start) gens
      = Ret b captures gens' /\ length captures = slots /\ marks_more generation gens gens' /\
    if b : bool then match_at start captures else no_match_at start.
Proof.
  intros Hg Hs Hl Hc.
  assert (forall p q, in_program program p -> 0 <= q <= text_length text -> ~ marked text generation gens p q) as Hfresh.
  { intros p q _ _ Hm. apply (Hc _ _ Hm). lia. }
  destruct (re_run_post program text cflags eflags generation slots Hfit Hslots (run_fuel program text)
    0 start (init_captures start) gens) as (b & c & g' & E & L & M & P); [|done|done| |].
  - pose proof (unmarked_le generation gens). unfold run_fuel, states in *. lia.
  - unfold init_captures. by rewrite length_insert, length_replicate.
  - exists b, c, g'. split; [done|]. split; [done|]. split; [done|].
    destruct b; [done|]. destruct P as (-> & He & Hk). intros c' Ha.
    eapply explored_no_path; [exact Hfresh|exact He|exact Ha|done|].
    apply Hk. by inversion Ha.
Qed.

Lemma start_loop_post n : forall start generation captures gens,
  0 <= generation -> generation + Z.of_nat n < 2 ^ 32 -> 0 <= start -> start + Z.of_nat n = text_length text + 1 ->
  length gens = states program text -> length captures = slots -> clean generation n gens ->
  start_post start (start_loop program cflags text eflags n start generation captures gens).
Proof.
  induction n as [|n IH]; intros start generation captures gens Hg Hn Hs Ht Hl Hc Hcl; cbn [start_loop].
  - exists REG_NOMATCH, captures, gens. split; [done|]. split; [done|]. right. split; [done|]. lia.
  - rewrite u32_small by lia. destruct (Z.eqb_spec (generation + 1) 0); [lia|]. rewrite Hc.
    fold (init_captures start).
    destruct (run_at start (generation + 1) gens) as (b & c & g' & -> & Lc & Mm & P); [lia|lia|done| |].
    { intros k e Hk He. apply (Hcl k e Hk). lia. }
    destruct b.
    + exists 0, c, g'. split; [done|]. split; [done|]. left. split; [done|]. exists start.
      split; [lia|]. split; [done|]. lia.
    + destruct (IH (start + 1) (generation + 1) c g') as (r & c2 & g2 & E & L2 & D); try lia.
      * by destruct Mm as (-> & _).
      * intros k e Hk He. destruct Mm as (_ & _ & Hm). destruct (Hm k) as [Ek|[Ek _]]; rewrite Hk in Ek.
        -- apply (Hcl k e); [by rewrite <- Ek|lia].
        -- simplify_eq. lia.
      * exists r, c2, g2. split; [exact E|]. split; [done|].
        assert (forall s, start <= s -> s = start \/ start + 1 <= s) as Hsplit by lia.
        destruct D as [(-> & s & Hs1 & Hm & Hno)|(-> & Hno)].
        -- left. split; [done|]. exists s. split; [lia|]. split; [done|]. intros s' Hs'.
           destruct (Hsplit s') as [->|]; [lia|done|]. apply Hno. lia.
        -- right. split; [done|]. intros s' Hs'. destruct (Hsplit s') as [->|]; [lia|done|]. apply Hno. lia.
Qed.
End starts.

(** ** regexec *)

Lemma match_length_bound program n : match_length program = Some n -> (1 <= n <= length program)%nat.
Proof.
  revert n. induction program as [|i rest IH]; intros n E; simplify_eq/=.
  destruct (decide (i_op i = RE_MATCH)); simplify_eq; [lia|].
  destruct (match_length rest) as [m|] eqn:Em; simplify_eq/=. specialize (IH m eq_refl). lia.
Qed.

Lemma length_fill n captures pmatch : length (fill_matches n captures pmatch) = length pmatch.
Proof. induction n as [|n IH]; [done|]. cbn [fill_matches]. by rewrite length_insert. Qed.

Lemma fill_matches_lookup n captures pmatch i : (n <= length pmatch)%nat ->
  fill_matches n captures pmatch !! i =
    if decide (i < n)%nat then Some (Regmatch (nth (i * 2) captures 0) (nth (i * 2 + 1) captures 0))
    else pmatch !! i.
Proof.
  induction n as [|n IH]; intros Hn; cbn [fill_matches]; [done|].
  destruct (decide (n = i)) as [<-|Hne].
  - rewrite list_lookup_insert_eq by (rewrite length_fill; lia). by rewrite decide_True by lia.
  - rewrite list_lookup_insert_ne, IH by (done || lia).
    destruct (decide (i < n)%nat), (decide (i < S n)%nat); lia || done.
Qed.

Section regexec_spec.
Context {A : Type} `{Allocator A} (dirty : Z -> nat -> list Z).

(** What [regexec] promises about its result and [pmatch]. *)
Definition regexec_post (program : list re_inst) (nsub cflags : Z) (text : list Z) (nmatch : Z)
    (pmatch : option (list regmatch_t)) (eflags : Z) (result : Z) (pmatch' : option (list regmatch_t)) : Prop :=
  let slots := Z.to_nat (2 * (nsub + 1)) in
  (result = REG_ESPACE /\ pmatch' = pmatch) \/
  (result = REG_NOMATCH /\ pmatch' = pmatch /\
     forall s, 0 <= s <= text_length text -> no_match_at program text cflags eflags slots s) \/
  (result = 0 /\ exists s captures, 0 <= s <= text_length text /\
     match_at program text cflags eflags slots s captures /\
     (forall s', 0 <= s' < s -> no_match_at program text cflags eflags slots s') /\
     if flag cflags REG_NOSUB then pmatch' = pmatch
     else
       match pmatch, pmatch' with
       | Some old, Some new =>
           length new = length old /\
           forall i, new !! i = if decide (Z.of_nat i < Z.min nmatch (nsub + 1))
                                then Some (Regmatch (nth (i * 2) captures 0) (nth (i * 2 + 1) captures 0))
                                else old !! i
       | None, None => True
       | _, _ => False
       end).

Lemma regexec_post_holds heap preg whole plen text nmatch pmatch eflags :
  re_program preg = Some whole -> match_length whole = Some plen ->
  0 <= re_nsub preg < 2 ^ 28 -> slots_ok (take plen whole) (Z.to_nat (2 * (re_nsub preg + 1))) ->
  states_fit (take plen whole) text ->
  (forall p n, length (dirty p n) = n /\ clean 0 (S (length text)) (dirty p n)) ->
  0 <= nmatch -> (forall l, pmatch = Some l -> nmatch <= Z.of_nat (length l)) ->
  exists heap' result pmatch',
    regexec dirty heap preg text nmatch pmatch eflags = Some (heap', result, pmatch') /\
    regexec_post (take plen whole) (re_nsub preg) (re_cflags preg) text nmatch pmatch eflags result pmatch'.
Proof.
  intros Hp Hm Hsub Hslots Hfit Hdirty Hn0 Hnm. unfold regexec. rewrite Hp, Hm. cbn [mbind option_bind].
  pose proof (match_length_bound _ _ Hm) as Hpl.
  assert (length (take plen whole) = plen) as Hlen by (rewrite length_take; lia).
  unfold states_fit, states in Hfit. rewrite Hlen in Hfit.
  assert (Z.of_nat (length text) + 1 < 2 ^ 30) as Htl by nia.
  rewrite (u32_small (Z.of_nat (length text) + 1)) by lia.
  rewrite (u32_small (Z.of_nat plen * _)) by lia. rewrite (u32_small (Z.of_nat plen * _ * 4)) by lia.
  unfold capture_count. rewrite (u32_small (re_nsub preg + 1)), (u32_small ((re_nsub preg + 1) * 2)) by lia.
  rewrite (u32_small ((re_nsub preg + 1) * 2 * 4)) by lia. rewrite !Z.div_mul by lia.
  destruct (al_malloc heap _) as [h1 cp]. destruct (al_malloc h1 _) as [h2 gp].
  destruct ((cp =? 0) || (gp =? 0)); [by do 3 eexists; split; [done|left]|].
  destruct (start_loop_post (take plen whole) text (re_cflags preg) eflags (Z.to_nat (2 * (re_nsub preg + 1)))
    ltac:(unfold states_fit, states; rewrite Hlen; lia) Hslots (S (length text)) 0 0
    (dirty cp (Z.to_nat ((re_nsub preg + 1) * 2)))
    (dirty gp (Z.to_nat (Z.of_nat plen * (Z.of_nat (length text) + 1)))))
    as (r & c & g & -> & Lc & D); try lia.
  { unfold text_length. lia. }
  { rewrite (proj1 (Hdirty _ _)). unfold states. rewrite Hlen. nia. }
  { rewrite (proj1 (Hdirty _ _)). lia. }
  { apply Hdirty. }
  destruct D as [(-> & s & Hs & Ha & Hno)|(-> & Hno)].
  - cbn [Z.eqb andb]. do 3 eexists. split; [done|]. right. right. split; [done|]. exists s, c.
    split; [done|]. split; [done|]. split; [done|].
    destruct (flag (re_cflags preg) REG_NOSUB); cbn [negb]; [done|].
    destruct pmatch as [old|]; cbn [mbind option_bind]; [|done]. specialize (Hnm old eq_refl).
    split; [apply length_fill|]. intros i.
    assert ((if re_nsub preg + 1 <? nmatch then re_nsub preg + 1 else nmatch) = Z.min nmatch (re_nsub preg + 1)) as ->
      by (destruct (Z.ltb_spec (re_nsub preg + 1) nmatch); lia).
    rewrite fill_matches_lookup by lia.
    destruct (decide (i < _)%nat), (decide (Z.of_nat i < _)); lia || done.
  - do 3 eexists. split; [done|]. right. left. done.
Qed.
End regexec_spec.
