(* ===== verification/RegexCompile.v ===== *)
(** * The pattern compiler: growth, termination, literal patterns

    What the compiler needs of the allocator is that it refuses blocks larger
    than the heap; with that every loop of the compiler ends. *)

From S2P Require Import Prelude Ctype Regex RegexVM RegexVMCorrect.

(** The bytes an allocator can hand out: the 256 KiB heap. *)
Definition HEAP_LIMIT : Z := 2 ^ 18.

(** [al_holds h p c]: the heap is well formed, and [p] is a null pointer or the
    one allocation of it the client owns, of [length c] bytes, which are
    [c].  Only a store inside the block is known to do no harm.  Sizes near
    [2^32] are left out: the allocator's own rounding wraps there. *)
Class AllocatorLaws (A : Type) `{Allocator A} : Type := {
  al_holds : A -> Z -> list Z -> Prop;
  null_holds : forall h c, al_holds h 0 c -> c = [];
  realloc_ok : forall h p c n, al_holds h p c -> 0 < n < 2 ^ 32 - 2 ^ 20 ->
    let '(h', r) := al_realloc h p n in
    r = 0 /\ al_holds h' p c \/
    r <> 0 /\ exists c', al_holds h' r c' /\ Z.of_nat (length c') = n /\ forall i v, c !! i = Some v -> Z.of_nat i < n -> c' !! i = Some v;
  free_ok : forall h p c, al_holds h p c -> al_holds (al_free h p) 0 [];
  store_ok : forall h p c i bytes, al_holds h p c -> (bytes <> [] -> (i + length bytes <= length c)%nat) -> Forall (fun b => 0 <= b < 256) bytes ->
    al_holds (al_store h p (Z.of_nat i) bytes) p (overwritten c i bytes);
  realloc_limit : forall h p c n, al_holds h p c -> HEAP_LIMIT < n < 2 ^ 32 - 2 ^ 20 -> snd (al_realloc h p n) = 0;
}.

Definition al_ok {A : Type} `{AllocatorLaws A} (h : A) (p : Z) : Prop := exists c, al_holds h p c.

(** A quota: every request up to the limit is granted. *)
#[global] Instance quota : Allocator unit := {|
  al_malloc _ n := (tt, if n <=? HEAP_LIMIT then 1 else 0);
  al_realloc _ _ n := (tt, if n <=? HEAP_LIMIT then 1 else 0);
  al_free _ _ := tt;
  al_store _ _ _ _ := tt;
|}.

Lemma prefix_of_lookup (l1 l2 : list Z) : (forall i v, l1 !! i = Some v -> l2 !! i = Some v) -> l1 `prefix_of` l2.
Proof.
  intros Hi. exists (drop (length l1) l2). rewrite <- (take_drop (length l1) l2) at 1. f_equal. apply list_eq. intros i.
  destruct (decide (i < length l1)%nat) as [Hl|Hl].
  - rewrite lookup_take_lt by done. destruct (lookup_lt_is_Some_2 l1 i Hl) as [v E]. rewrite E. by apply Hi.
  - rewrite lookup_take_ge, lookup_ge_None_2 by lia. done.
Qed.

Lemma kept_prefix (c : list Z) n : 0 <= n -> exists c', Z.of_nat (length c') = n /\
  forall i v, c !! i = Some v -> Z.of_nat i < n -> c' !! i = Some v.
Proof.
  intros Hn. exists (resize (Z.to_nat n) 0 c). split; [rewrite length_resize; lia|].
  intros i v E Hi. rewrite lookup_resize by (lia || by eapply lookup_lt_Some). done.
Qed.

#[global] Instance quota_laws : AllocatorLaws unit.
Proof.
  refine {| al_holds _ p c := p = 0 -> c = [] |}; [intros _ c Hc; by apply Hc| |done| |].
  - intros h p c n Hc Hn. cbn. destruct (n <=? HEAP_LIMIT); [right|by left]. split; [done|].
    destruct (kept_prefix c n ltac:(lia)) as (c' & Hl & Hk). by exists c'.
  - intros h p c i bytes Hc Hl _ Hp. rewrite (Hc Hp) in *. destruct bytes as [|v bytes]; [by destruct i|].
    specialize (Hl ltac:(done)). cbn [length] in Hl. lia.
  - intros h p c n _ Hn. cbn. destruct (Z.leb_spec n HEAP_LIMIT); [lia|done].
Defined.

Lemma quota_ok h p : al_ok (A := unit) h p.
Proof. by exists []. Qed.

(** ** The program in its block *)

Lemma inst_bytes_length i : length (inst_bytes i) = 44%nat.
Proof. unfold inst_bytes. rewrite !length_app, length_map, length_resize. done. Qed.

Lemma program_bytes_length l : length (program_bytes l) = (44 * length l)%nat.
Proof. unfold program_bytes. induction l as [|i l IH]; [done|]. cbn [map concat length]. rewrite length_app, inst_bytes_length, IH. lia. Qed.

Lemma program_bytes_app l1 l2 : program_bytes (l1 ++ l2) = program_bytes l1 ++ program_bytes l2.
Proof. unfold program_bytes. by rewrite map_app, concat_app. Qed.

Lemma program_bytes_drop n l rest : program_bytes (drop n l) `prefix_of` drop (44 * n) (program_bytes l ++ rest).
Proof.
  destruct (decide (n <= length l)%nat) as [Hn|Hn]; [|rewrite drop_ge by lia; by eexists].
  exists rest. rewrite <- (take_drop n l) at 1. rewrite program_bytes_app, <- app_assoc.
  assert (length (program_bytes (take n l)) = (44 * n)%nat) as <- by (rewrite program_bytes_length, length_take; lia).
  by rewrite drop_app_length.
Qed.

Lemma program_bytes_range l : Forall (fun b => 0 <= b < 256) (program_bytes l).
Proof.
  unfold program_bytes. induction l as [|i l IH]; [done|]. cbn [map concat]. apply Forall_app_2; [|done]. unfold inst_bytes, word_bytes.
  repeat apply Forall_app_2; repeat apply Forall_cons_2; try apply Forall_nil_2; try apply u8_range; try (cbn; lia).
  - by destruct (i_op i).
  - apply List.Forall_map, list.Forall_forall. intros b _. apply u8_range.
Qed.

Section compile.
Context {A : Type} `{AllocatorLaws A}.
Abbreviation compiler := (re_compiler A).

(** The block at [b] has room for [cap] instructions and begins with [l]. *)
Definition program_at (h : A) (b cap : Z) (l : list re_inst) : Prop :=
  exists bytes, al_holds h b bytes /\ Z.of_nat (length bytes) = cap * sizeof_inst /\ program_bytes l `prefix_of` bytes.

(** Storing [l] at place [i] of the program [p], at most one behind its end. *)
Lemma store_program h b cap p i l : program_at h b cap p -> (i <= length p)%nat -> Z.of_nat (i + length l) <= cap ->
  program_at (al_store h b (Z.of_nat i * sizeof_inst) (program_bytes l)) b cap (take i p ++ l ++ drop (i + length l) p).
Proof.
  intros (bytes & Hh & Hl & (rest & ->)) Hi Hcap. unfold sizeof_inst in *. rewrite length_app, program_bytes_length in Hl.
  replace (Z.of_nat i * 44) with (Z.of_nat (44 * i)) by lia.
  eexists. split; [apply store_ok; [exact Hh| |apply program_bytes_range]|].
  { intros _. rewrite length_app, !program_bytes_length. lia. }
  assert (program_bytes p = program_bytes (take i p) ++ program_bytes (drop i p)) as Ep by (by rewrite <- program_bytes_app, take_drop).
  assert (length (program_bytes (take i p)) = (44 * i)%nat) as Et by (rewrite program_bytes_length, length_take; lia).
  unfold overwritten. split.
  - rewrite !length_app, length_take, length_drop, length_app, !program_bytes_length. unfold sizeof_inst. lia.
  - rewrite !program_bytes_app, Ep, <- app_assoc, <- Et, take_app_length, program_bytes_length, length_take.
    rewrite Nat.min_l by lia. do 2 apply prefix_app. rewrite <- Et, drop_app_add, <- drop_drop, program_bytes_length. apply program_bytes_drop.
Qed.

(** The program fits its block, the block fits the heap, is an allocation of
    it and holds the program. *)
Definition cinv (c : compiler) : Prop :=
  0 <= c_length c <= c_capacity c /\ c_capacity c * sizeof_inst <= HEAP_LIMIT /\
  program_at (c_heap c) (c_block c) (c_capacity c) (c_program c).

Lemma cinv_start h p e : al_ok h 0 -> cinv (Compiler [] 0 p e 0 0 0 h).
Proof.
  intros [c Hc]. split; [done|]. split; [vm_compute; discriminate|]. exists c. split; [exact Hc|].
  rewrite (null_holds _ _ Hc). split; [done|]. by exists [].
Qed.

Lemma cinv_ok c : cinv c -> al_ok (c_heap c) (c_block c).
Proof. intros (_ & _ & bytes & Hb & _). by exists bytes. Qed.

(** [c'] differs from [c] in program, allocation and error only. *)
Definition same_frame (c c' : compiler) : Prop :=
  c_cursor c' = c_cursor c /\ c_extended c' = c_extended c /\ c_groups c' = c_groups c.

Lemma same_frame_refl c : same_frame c c.
Proof. done. Qed.

Lemma re_grow_spec c cap : cinv c -> c_length c <= cap < 2 ^ 26 -> 0 < cap ->
  exists c' ok, re_grow c cap = (c', ok) /\ same_frame c c' /\ cinv c' /\ c_program c' = c_program c /\
    if ok : bool then c_capacity c' = cap /\ c_error c' = c_error c else c_error c' = REG_ESPACE.
Proof.
  intros (Hl & Hc & bytes & Ha & Hb & rest & E) Hcap Hpos. unfold re_grow, sizeof_inst in *.
  pose proof (realloc_limit (c_heap c) (c_block c) bytes (u32 (cap * 44)) Ha) as Hlim.
  pose proof (realloc_ok (c_heap c) (c_block c) bytes (u32 (cap * 44)) Ha) as Hok.
  rewrite u32_small in Hlim, Hok |- * by lia.
  destruct (al_realloc _ _ _) as [h p]. cbn [snd] in Hlim. destruct (Hok ltac:(lia)) as [[-> Hok']|(Hp & new & Hn & Hnl & Hk)].
  - do 2 eexists. split; [done|]. split; [done|]. split; [|done]. split; [done|]. split; [done|]. exists bytes. split; [done|]. split; [done|]. by exists rest.
  - destruct (Z.eqb_spec p 0); [done|]. do 2 eexists. split; [done|]. split; [done|].
    assert (cap * 44 <= HEAP_LIMIT) by (destruct (Z.leb_spec (cap * 44) HEAP_LIMIT); [done|]; destruct Hp; apply Hlim; lia).
    split; [|done]. split; [unfold c_length in *; cbn [c_program c_capacity]; lia|]. split; [done|].
    exists new. split; [exact Hn|]. split; [exact Hnl|]. cbn [c_program]. apply prefix_of_lookup.
    subst bytes. intros i v Ev. pose proof (lookup_lt_Some _ _ _ Ev) as Hi. rewrite program_bytes_length in Hi.
    apply Hk; [by apply lookup_app_l_Some|]. unfold c_length in *. lia.
Qed.

Lemma re_room_spec c : cinv c ->
  exists c' ok, re_room c = (c', ok) /\ same_frame c c' /\ cinv c' /\ c_program c' = c_program c /\
    if ok : bool then c_length c < c_capacity c' /\ c_error c' = c_error c else c_error c' = REG_ESPACE.
Proof.
  intros Hc. pose proof Hc as [Hl Hcap]. unfold re_room.
  destruct (Z.eqb_spec (c_length c) (c_capacity c)) as [E|].
  - unfold HEAP_LIMIT, sizeof_inst, truthy in *.
    assert (exists k, (if negb (c_capacity c =? 0) then u32 (c_capacity c * 2) else 32) = k /\
      c_length c < k < 2 ^ 26) as (k & -> & Hk).
    { destruct (Z.eqb_spec (c_capacity c) 0); cbn [negb]; eexists; (split; [done|]); [lia|]. rewrite u32_small; lia. }
    destruct (re_grow_spec c k Hc) as (c' & ok & -> & Hf & Hi & Hp & P); [lia|lia|].
    do 2 eexists. split; [done|]. split; [done|]. split; [done|]. split; [done|].
    destruct ok; [|done]. destruct P as [-> ->]. split; [lia|done].
  - do 2 eexists. split; [done|]. split; [done|]. split; [done|]. split; [done|]. split; [lia|done].
Qed.

(** A store at place [i], and the program it makes. *)
Lemma cinv_stored c i l : cinv c -> (i <= length (c_program c))%nat -> Z.of_nat (i + length l) <= c_capacity c ->
  cinv (set_program (stored c i l) (take i (c_program c) ++ l ++ drop (i + length l) (c_program c))).
Proof.
  intros (Hl & Hc & Hp) Hi Hr. split; [|split; [exact Hc|by apply store_program]].
  unfold c_length in *. cbn [c_program set_program stored c_capacity]. rewrite !length_app, length_take, length_drop. lia.
Qed.

Lemma cinv_stored_nil c i : cinv c -> cinv (stored c i []).
Proof.
  intros (Hl & Hc & bytes & Hb & Hn & Hp). split; [exact Hl|]. split; [exact Hc|]. exists bytes. split; [|done].
  pose proof (store_ok _ _ _ (44 * i) [] Hb ltac:(done) ltac:(done)) as Hs. unfold overwritten in Hs.
  rewrite Nat.add_0_r, app_nil_l, take_drop in Hs. cbn [stored c_heap c_block]. unfold sizeof_inst. by replace (Z.of_nat i * 44) with (Z.of_nat (44 * i)) by lia.
Qed.

(** A store behind the program that is not yet part of it. *)
Lemma cinv_beyond c l : cinv c -> c_length c + Z.of_nat (length l) <= c_capacity c ->
  cinv (stored c (length (c_program c)) l).
Proof.
  intros (Hl & Hc & Hp) Hr. split; [exact Hl|]. split; [exact Hc|]. unfold c_length in *.
  destruct (store_program _ _ _ _ (length (c_program c)) l Hp ltac:(lia) ltac:(lia)) as (bytes & Hb & Hn & rest & E).
  exists bytes. split; [exact Hb|]. split; [exact Hn|]. rewrite take_ge, program_bytes_app, <- app_assoc in E by lia. by eexists.
Qed.

(** Appending instructions: a first version [l0] of them, then the final one. *)
Lemma cinv_extend c l0 l : cinv c -> length l0 = length l -> c_length c + Z.of_nat (length l) <= c_capacity c ->
  cinv (set_program (stored (stored c (length (c_program c)) l0) (length (c_program c)) l) (c_program c ++ l)).
Proof.
  intros Hc E Hr. pose proof (cinv_beyond c l0 Hc ltac:(lia)) as H1.
  pose proof (cinv_stored _ (length (c_program c)) l H1 ltac:(done) ltac:(unfold c_length in Hr; cbn [stored c_capacity]; lia)) as H2.
  cbn [stored c_program] in H2 |- *. by rewrite take_ge, drop_ge, app_nil_r in H2 by lia.
Qed.

Lemma re_emit_spec c op : cinv c ->
  exists c' i, re_emit c op = (c', i) /\ same_frame c c' /\ cinv c' /\
    ((i = -1 /\ c_error c' = REG_ESPACE /\ c_program c' = c_program c) \/
     (i = c_length c /\ c_error c' = c_error c /\ c_program c' = c_program c ++ [set_op op zero_inst])).
Proof.
  intros Hc. unfold re_emit. destruct (re_room_spec c Hc) as (c1 & ok & -> & Hf & Hi & Hp & P).
  destruct ok; do 2 eexists; (split; [done|]).
  - destruct P as [Hl He]. split; [done|].
    split; [apply cinv_extend; [done|done|]; unfold c_length in *; rewrite Hp; cbn [length]; lia|].
    right. cbn [c_program set_program c_error]. unfold c_length. by rewrite Hp.
  - split; [done|]. split; [done|]. left. done.
Qed.

Lemma upd_cinv c i f : cinv c -> cinv (upd i f c).
Proof.
  intros Hc. unfold upd. set (n := Z.to_nat i). destruct (c_program c !! n) as [x|] eqn:E.
  - pose proof (lookup_lt_Some _ _ _ E) as Hn.
    assert (alter f n (c_program c) = take n (c_program c) ++ [f x] ++ drop (n + 1) (c_program c)) as Ea.
    { rewrite <- (take_drop_middle _ _ _ E) at 1. rewrite alter_app_r_alt, length_take, Nat.min_l, Nat.sub_diag by (rewrite ?length_take; lia).
      cbn. by rewrite Nat.add_1_r. }
    assert (take 1 (drop n (alter f n (c_program c))) = [f x]) as ->.
    { rewrite Ea, drop_app_length' by (rewrite length_take; lia). done. }
    rewrite Ea. apply cinv_stored; [done|lia|]. destruct Hc as (Hl & _). unfold c_length in Hl. cbn [length]. lia.
  - assert (alter f n (c_program c) = c_program c) as -> by (apply list_eq; intros j; destruct (decide (n = j)) as [<-|]; [by rewrite list_lookup_alter_eq, E|by rewrite list_lookup_alter_ne]).
    rewrite drop_ge by (by apply lookup_ge_None). exact (cinv_stored_nil c n Hc).
Qed.

Lemma upd_length (c : compiler) i f : c_length (upd i f c) = c_length c.
Proof. unfold c_length. cbn [c_program upd set_program]. by rewrite length_alter. Qed.

Lemma set_cursor_cinv c p : cinv c -> cinv (set_cursor c p).
Proof. done. Qed.

Lemma set_error_cinv c e : cinv c -> cinv (set_error c e).
Proof. done. Qed.

(** The three stores of [re_insert]. *)
Lemma cinv_inserted c i p : cinv c -> (i <= length (c_program c))%nat -> c_length c < c_capacity c -> length p = S (length (c_program c)) ->
  let tail := drop i (c_program c) in
  cinv (set_program (stored (stored (stored c (S i) tail) i [zero_inst]) 0 p) p).
Proof.
  intros Hc Hi Hr Hlen tail. unfold c_length in Hr.
  assert (exists c1, cinv (set_program (stored c (S i) tail) c1) /\ (i <= length c1)%nat /\
    length (take i c1 ++ [zero_inst] ++ drop (i + 1) c1) = length p) as (c1 & H1 & Hl1 & Hl2).
  { assert (length tail = length (c_program c) - i)%nat as Ht by apply length_drop. destruct (decide (i = length (c_program c))) as [->|Hne].
    - exists (c_program c). unfold tail. rewrite drop_ge by done. split; [exact (cinv_stored_nil c _ Hc)|]. split; [done|].
      rewrite take_ge, drop_ge, !length_app by lia. cbn [length]. lia.
    - pose proof (cinv_stored c (S i) tail Hc ltac:(lia) ltac:(lia)) as H1. rewrite drop_ge, app_nil_r in H1 by lia.
      eexists. split; [exact H1|]. repeat first [rewrite length_app | rewrite length_take | rewrite length_drop]. cbn [length]. lia. }
  pose proof (cinv_stored _ i [zero_inst] H1 ltac:(done)) as H2. cbn [c_program set_program c_capacity stored length] in H2.
  specialize (H2 ltac:(lia)). pose proof (cinv_stored _ 0 p H2 ltac:(lia)) as H3. cbn [c_program set_program c_capacity stored] in H3.
  specialize (H3 ltac:(lia)). rewrite take_0, (drop_ge (take i c1 ++ _)), app_nil_r in H3 by (cbn [length] in *; lia). exact H3.
Qed.

Lemma re_insert_spec c i : cinv c -> 0 <= i <= c_length c ->
  exists c' j, re_insert c i = (c', j) /\ same_frame c c' /\ cinv c' /\
    ((j = -1 /\ c_error c' = REG_ESPACE /\ c_program c' = c_program c) \/
     (j = i /\ c_error c' = c_error c /\ c_length c' = c_length c + 1 /\
      c_program c' = map (shift_inst i)
        (take (Z.to_nat i) (c_program c) ++ zero_inst :: drop (Z.to_nat i) (c_program c)))).
Proof.
  intros Hc Hi. unfold re_insert. destruct (re_room_spec c Hc) as (c1 & ok & -> & Hf & Hi1 & Hp & P).
  destruct ok; do 2 eexists; (split; [done|]).
  - destruct P as [Hl He]. rewrite Hp.
    assert (length (map (shift_inst i) (take (Z.to_nat i) (c_program c) ++ zero_inst :: drop (Z.to_nat i) (c_program c))) = S (length (c_program c))) as EL.
    { unfold c_length in *. rewrite length_map, length_app, length_take. cbn [length]. rewrite length_drop. lia. }
    split; [done|]. split; [|right; split; [done|]; split; [done|]; split; [|done]; unfold c_length; cbn [c_program set_program]; lia].
    rewrite <- Hp. rewrite <- Hp in EL. apply cinv_inserted; [done|unfold c_length in *; rewrite Hp; lia| |done].
    unfold c_length in *. rewrite Hp. lia.
  - split; [done|]. split; [done|]. left. done.
Qed.

Lemma double_loop need cap : 0 <= cap < 2 ^ 20 -> need < 2 ^ 20 ->
  exists r, loop 64 (double_round need) cap = Some r /\ need <= r /\ cap <= r < 2 ^ 21.
Proof.
  intros Hc Hn.
  apply (loop_total (double_round need) (fun k => cap <= k < 2 ^ 21)
    (fun k => need <= k /\ cap <= k < 2 ^ 21) (fun k => if k <? need then 21 - bitlen k else 0)).
  - intros k Hk. unfold double_round. destruct (Z.ltb_spec k need) as [L|]; [|lia].
    pose proof (bitlen_bound k 20 ltac:(lia)).
    unfold truthy. destruct (Z.eqb_spec k 0) as [->|]; cbn [negb].
    + split; [lia|]. change (bitlen 32) with 6. change (bitlen 0) with 0. destruct (32 <? need); lia.
    + rewrite u32_small by lia. pose proof (bitlen_half (k * 2) ltac:(lia)) as Hb. rewrite Z.div_mul in Hb by lia.
      pose proof (bitlen_bound (k * 2) 21 ltac:(lia)). split; [lia|].
      destruct (Z.ltb_spec (k * 2) need); [|lia]. pose proof (bitlen_bound (k * 2) 20). lia.
  - lia.
  - pose proof (bitlen_nonneg cap). destruct (cap <? need); lia.
  - pose proof (bitlen_bound cap 20 ltac:(lia)). destruct (cap <? need); lia.
Qed.

(** The block is appended with its operands moved, unless memory runs out or
    an error is already set. *)
Lemma re_copy_block_spec c start stop : cinv c -> 0 <= start <= stop -> stop <= c_length c ->
  exists c' i, re_copy_block c start stop = Some (c', i) /\ same_frame c c' /\ cinv c' /\
    ((i = -1 /\ c_error c' = REG_ESPACE /\ c_program c' = c_program c) \/
     (i = c_length c /\ c_error c' = c_error c /\
      c_program c' = c_program c ++ if truthy (c_error c) then [] else
        map (move_inst start stop (c_length c - start))
          (take (Z.to_nat (stop - start)) (drop (Z.to_nat start) (c_program c))))).
Proof.
  intros Hc Hs He. pose proof Hc as [Hl Hcap]. unfold re_copy_block.
  destruct (Z.eqb_spec (stop - start) 0) as [E0|Hne]; cbn [orb].
  { do 2 eexists. split; [done|]. split; [done|]. split; [done|]. right. split; [done|]. split; [done|].
    rewrite E0. cbn [Z.to_nat take map]. destruct (truthy _); by rewrite app_nil_r. }
  destruct (truthy (c_error c)) eqn:Et.
  { do 2 eexists. split; [done|]. split; [done|]. split; [done|]. right. by rewrite app_nil_r. }
  unfold HEAP_LIMIT, sizeof_inst in Hcap.
  assert (exists c1 ok, (if c_capacity c <? c_length c + (stop - start)
     then capacity ← loop 64 (double_round (c_length c + (stop - start))) (c_capacity c); Some (re_grow c capacity)
     else Some (c, true)) = Some (c1, ok) /\ same_frame c c1 /\ cinv c1 /\ c_program c1 = c_program c /\
     if ok : bool then c_length c + (stop - start) <= c_capacity c1 /\ c_error c1 = c_error c else c_error c1 = REG_ESPACE)
    as (c1 & ok & -> & Hf & Hi & Hp & P).
  { destruct (Z.ltb_spec (c_capacity c) (c_length c + (stop - start))).
    - destruct (double_loop (c_length c + (stop - start)) (c_capacity c)) as (r & -> & Hr); [lia|lia|].
      cbn [mbind option_bind]. destruct (re_grow_spec c r Hc) as (c1 & ok & -> & Hf & Hi & Hp & P); [lia|lia|].
      exists c1, ok. split; [done|]. split; [done|]. split; [done|]. split; [done|].
      destruct ok; [|done]. destruct P as [-> ->]. lia.
    - exists c, true. split; [done|]. split; [done|]. split; [done|]. split; [done|]. done. }
  cbn [mbind option_bind]. destruct ok; do 2 eexists; (split; [done|]).
  - destruct P as [P1 P2]. split; [done|]. rewrite Hp. split; [|right; done].
    rewrite <- Hp. apply cinv_extend; [done|by rewrite length_map|].
    rewrite length_map, length_take, length_drop. unfold c_length in *. rewrite Hp. lia.
  - split; [done|]. split; [done|]. by left.
Qed.

(** ** Termination *)

(** What every part of the compiler does to the state: the invariant stays,
    the program only grows, the cursor only moves on. *)
Definition ext (c c' : compiler) : Prop :=
  cinv c' /\ c_length c <= c_length c' /\ (length (c_cursor c') <= length (c_cursor c))%nat /\
  c_extended c' = c_extended c.

Lemma ext_refl c : cinv c -> ext c c.
Proof. intros. repeat split; try done; apply H1. Qed.

Lemma ext_trans c1 c2 c3 : ext c1 c2 -> ext c2 c3 -> ext c1 c3.
Proof. intros (I1 & L1 & C1 & E1) (I2 & L2 & C2 & E2). repeat split; try apply I2; [lia|lia|congruence]. Qed.

Lemma ext_upd c c' i f : ext c c' -> ext c (upd i f c').
Proof. intros (I & L & C & E). split; [by apply upd_cinv|]. rewrite upd_length. done. Qed.

Lemma ext_error c c' e : ext c c' -> ext c (set_error c' e).
Proof. done. Qed.

Lemma ext_cursor c c' p : ext c c' -> (length p <= length (c_cursor c'))%nat -> ext c (set_cursor c' p).
Proof. intros (I & L & C & E) Hp. repeat split; try apply I; try done. cbn. lia. Qed.

Lemma ext_advance c c' n : ext c c' -> ext c (advance n c').
Proof. intros He. apply ext_cursor; [done|]. rewrite length_drop. lia. Qed.

Lemma ext_group c c' : ext c c' -> ext c (add_group c').
Proof. done. Qed.

Lemma emit_ext c c' op : ext c c' -> exists c2 i, re_emit c' op = (c2, i) /\ ext c c2 /\ c_cursor c2 = c_cursor c'.
Proof.
  intros (I & L & C & E). destruct (re_emit_spec c' op I) as (c2 & i & -> & (F1 & F2 & F3) & I2 & D).
  do 2 eexists. split; [done|]. split; [|done]. split; [done|]. rewrite F1, F2. split; [|done].
  destruct D as [(_ & _ & P)|(_ & _ & P)]; unfold c_length in *; rewrite P; [done|]. rewrite length_app. lia.
Qed.

Lemma insert_ext c c' i : ext c c' -> 0 <= i <= c_length c' ->
  exists c2 j, re_insert c' i = (c2, j) /\ ext c c2 /\ c_cursor c2 = c_cursor c'.
Proof.
  intros (I & L & C & E) Hi. destruct (re_insert_spec c' i I Hi) as (c2 & j & -> & (F1 & F2 & F3) & I2 & D).
  do 2 eexists. split; [done|]. split; [|done]. split; [done|]. rewrite F1, F2. split; [|done].
  destruct D as [(_ & _ & P)|(_ & _ & P & _)]; [|lia]. unfold c_length in *. by rewrite P.
Qed.

Lemma copy_ext c c' start stop : ext c c' -> 0 <= start <= stop -> stop <= c_length c' ->
  exists c2 i, re_copy_block c' start stop = Some (c2, i) /\ ext c c2.
Proof.
  intros (I & L & C & E) Hs He. destruct (re_copy_block_spec c' start stop I Hs He)
    as (c2 & i & -> & (F1 & F2 & F3) & I2 & D).
  do 2 eexists. split; [done|]. split; [done|]. rewrite F1, F2. split; [|done].
  destruct D as [(_ & _ & P)|(_ & _ & P)]; unfold c_length in *; rewrite P; [done|]. rewrite length_app. lia.
Qed.

Lemma save_ext c c' slot : ext c c' ->
  exists c2 i, emit_save c' slot = (c2, i) /\ ext c c2 /\ c_cursor c2 = c_cursor c'.
Proof.
  intros He. unfold emit_save. destruct (emit_ext c c' RE_SAVE He) as (c2 & i & -> & E2 & F).
  destruct (i <? 0); do 2 eexists; (split; [done|]); [done|]. split; [by apply ext_upd|done].
Qed.

Lemma wrap_optional_ext c c' start : ext c c' -> 0 <= start <= c_length c' ->
  exists c2 r, re_wrap_optional c' start = (c2, r) /\ ext c c2.
Proof.
  intros He Hs. unfold re_wrap_optional. destruct (insert_ext c c' start He Hs) as (c2 & j & -> & E2 & _).
  destruct (j <? 0); do 2 eexists; (split; [done|]); [done|]. by apply ext_upd.
Qed.

Lemma wrap_star_ext c c' start : ext c c' -> 0 <= start <= c_length c' ->
  exists c2 r, re_wrap_star c' start = (c2, r) /\ ext c c2.
Proof.
  intros He Hs. unfold re_wrap_star. destruct (insert_ext c c' start He Hs) as (c2 & j & -> & E2 & _).
  destruct (j <? 0); [by do 2 eexists|].
  destruct (emit_ext c (upd j (fun i => set_y (c_length c2) (set_x (start + 1) (set_op RE_SPLIT i))) c2) RE_JMP)
    as (c3 & k & -> & E3 & _); [by apply ext_upd|].
  destruct (k <? 0); do 2 eexists; (split; [done|]); [done|]. by apply ext_upd.
Qed.

Lemma optional_copy_ext c c' start stop : ext c c' -> 0 <= start <= stop -> stop <= c_length c ->
  exists c2 r, optional_copy c' start stop = Some (c2, r) /\ ext c c2.
Proof.
  intros He Hs Hl. unfold optional_copy. destruct (emit_ext c c' RE_SPLIT He) as (c2 & i & -> & E2 & _).
  destruct (i <? 0); [by do 2 eexists|].
  destruct (copy_ext c c2 start stop E2 Hs) as (c3 & b & -> & E3); [destruct E2 as (_ & ? & _); lia|].
  cbn [mbind option_bind]. destruct (b <? 0); do 2 eexists; (split; [done|]); [done|]. by apply ext_upd.
Qed.

Lemma optional_copies_ext n c start stop : 0 <= start <= stop -> stop <= c_length c ->
  forall c', ext c c' -> exists c2 r, optional_copies n c' start stop = Some (c2, r) /\ ext c c2.
Proof.
  intros Hs Hl. induction n as [|n IH]; intros c' He; cbn [optional_copies]; [by do 2 eexists|].
  destruct (optional_copy_ext c c' start stop He Hs Hl) as (c2 & r & -> & E2). cbn [mbind option_bind].
  destruct (r <? 0); [by do 2 eexists|]. by apply IH.
Qed.

Lemma plain_copies_ext n c start stop : 0 <= start <= stop -> stop <= c_length c ->
  forall c', ext c c' -> exists c2 r, plain_copies n c' start stop = Some (c2, r) /\ ext c c2.
Proof.
  intros Hs Hl. induction n as [|n IH]; intros c' He; cbn [plain_copies]; [by do 2 eexists|].
  destruct (copy_ext c c' start stop He Hs) as (c2 & r & -> & E2); [destruct He as (_ & ? & _); lia|].
  cbn [mbind option_bind]. destruct (r <? 0); [by do 2 eexists|]. by apply IH.
Qed.

Lemma interval_ext c start min max : cinv c -> 0 <= start <= c_length c ->
  exists c2 r, compile_interval c start min max = Some (c2, r) /\ ext c c2.
Proof.
  intros Hc Hs. pose proof (ext_refl c Hc) as He. unfold compile_interval. destruct (min =? 0).
  - destruct (max =? -1).
    + destruct (wrap_star_ext c c start He Hs) as (c2 & r & -> & E2). by do 2 eexists.
    + destruct (wrap_optional_ext c c start He Hs) as (c2 & r & -> & E2).
      destruct (r <? 0); [by do 2 eexists|]. destruct (1 <? max); [|by do 2 eexists].
      by apply optional_copies_ext; try lia.
  - destruct (plain_copies_ext (Z.to_nat (min - 1)) c start (c_length c) Hs (Z.le_refl _) c He) as (c2 & r & -> & E2).
    cbn [mbind option_bind]. destruct (r <? 0); [by do 2 eexists|]. destruct (max =? -1).
    + destruct (emit_ext c c2 RE_SPLIT E2) as (c3 & i & -> & E3 & _).
      cbn [mbind option_bind]. destruct (i <? 0); [by do 2 eexists|].
      destruct (copy_ext c c3 start (c_length c) E3 Hs) as (c4 & b & -> & E4); [apply E3|].
      cbn [mbind option_bind]. destruct (b <? 0); [by do 2 eexists|].
      destruct (emit_ext c (upd i (fun j => set_y (c_length c4) (set_x b j)) c4) RE_JMP) as (c5 & k & -> & E5 & _);
        [by apply ext_upd|].
      destruct (k <? 0); do 2 eexists; (split; [done|]); [done|]. by apply ext_upd.
    + by apply optional_copies_ext; try lia.
Qed.

Lemma interval_digits_length p : forall v h v' h' p',
  interval_digits p v h = Some (v', h', p') -> (length p' <= length p)%nat.
Proof.
  induction p as [|d q IH]; intros v h v' h' p' E; simplify_eq/=; [done|].
  destruct (isdigit d); [|simplify_eq/=; lia]. case_match; [done|]. apply IH in E. lia.
Qed.

Lemma parse_interval_length p min max p' : parse_interval p = Some (min, max, p') -> (length p' <= length p)%nat.
Proof.
  unfold parse_interval. intros E.
  destruct (interval_digits p 0 false) as [[[v h] q]|] eqn:E1; simplify_eq/=. apply interval_digits_length in E1.
  destruct (peek q 0 =? 44).
  - destruct (isdigit (peek (drop 1 q) 0)).
    + destruct (interval_digits (drop 1 q) 0 false) as [[[v2 h2] q2]|] eqn:E2; simplify_eq/=.
      apply interval_digits_length in E2. rewrite length_drop in E2. case_match; simplify_eq. rewrite length_drop. lia.
    + simplify_eq/=. case_match; simplify_eq. rewrite !length_drop. lia.
  - simplify_eq/=. case_match; simplify_eq. rewrite length_drop. lia.
Qed.

Lemma quantifier_ext c start : cinv c -> 0 <= start <= c_length c ->
  exists c2 r, re_compile_quantifier c start = Some (c2, r) /\ ext c c2.
Proof.
  intros Hc Hs. pose proof (ext_refl c Hc) as He. unfold re_compile_quantifier.
  assert (forall n, ext c (advance n c)) as Ha by (intros; by apply ext_advance).
  destruct (quantifier_at c).
  - destruct (wrap_star_ext c (advance 1 c) start (Ha _) Hs) as (c2 & r & -> & E2). by do 2 eexists.
  - destruct (emit_ext c (advance (op_width c) c) RE_SPLIT (Ha _)) as (c2 & i & -> & E2 & _).
    destruct (i <? 0); do 2 eexists; (split; [done|]); [done|]. by apply ext_upd.
  - destruct (wrap_optional_ext c (advance (op_width c) c) start (Ha _) Hs) as (c2 & r & -> & E2). by do 2 eexists.
  - unfold re_parse_interval.
    destruct (parse_interval (c_cursor (advance (op_width c) c))) as [[[min max] p]|] eqn:E;
      [|do 2 eexists; split; [done|]; apply ext_error, Ha].
    apply parse_interval_length in E.
    assert (ext c (set_cursor (advance (op_width c) c) p)) as E2 by (by apply ext_cursor).
    destruct (negb (max =? -1) && (max <? min)); [do 2 eexists; split; [done|]; by apply ext_error|].
    destruct (interval_ext (set_cursor (advance (op_width c) c) p) start min max) as (c3 & r & -> & E3); [apply E2|done|].
    do 2 eexists. split; [done|]. by eapply ext_trans.
  - by do 2 eexists.
Qed.

(** *** Bracket expressions *)

Lemma peek_nonempty p : peek p 0 <> 0 -> (0 < length p)%nat.
Proof. destruct p; cbn; lia. Qed.

Lemma escape_length p c p' : re_parse_escape p = inl (c, p') -> (length p' <= length p)%nat /\
  (peek p 0 <> 0 -> (length p' < length p)%nat).
Proof.
  unfold re_parse_escape. intros E. pose proof (peek_nonempty p).
  repeat case_match; simplify_eq; rewrite ?length_drop; split; intros; try lia.
Qed.

Lemma find_class_length table p s s' p' : find_class table p s = Some (s', p') -> (length p' <= length p)%nat.
Proof.
  induction table as [|[[n f] l] rest IH]; intros E; simplify_eq/=.
  destruct (class_here p n); simplify_eq; [rewrite length_drop; lia|auto].
Qed.

Lemma named_class_length p s s' p' : re_named_class p s = Some (s', p') -> (length p' < length p)%nat.
Proof.
  unfold re_named_class. intros E. destruct (Z.eqb_spec (peek p 0) 91) as [E0|]; [|done].
  destruct (Z.eqb_spec (peek p 1) 58); [|done]. cbn [negb orb] in E.
  apply find_class_length in E. rewrite length_drop in E. pose proof (peek_nonempty p). lia.
Qed.

Lemma class_items_total n : forall p s, (length p < n)%nat ->
  exists r, class_items n p s = Some r /\ forall s' p', r = inl (s', p') -> (length p' <= length p)%nat.
Proof.
  induction n as [|n IH]; intros p s Hn; [lia|]. cbn [class_items].
  assert (forall p1 s1, (length p1 < length p)%nat -> exists r, class_items n p1 s1 = Some r /\
    forall s' p', r = inl (s', p') -> (length p' <= length p)%nat) as Hgo.
  { intros p1 s1 H1. destruct (IH p1 s1) as (r & E & Hr); [lia|]. exists r. split; [done|].
    intros s' p' ->. specialize (Hr s' p' eq_refl). lia. }
  destruct (Z.eqb_spec (peek p 0) 0) as [E0|E0]; cbn [orb].
  { eexists. split; [done|]. intros s' p' ?. by simplify_eq. }
  destruct (peek p 0 =? 93). { eexists. split; [done|]. intros s' p' ?. by simplify_eq. }
  destruct (re_named_class p s) as [[s1 p1]|] eqn:En; [apply Hgo; by eapply named_class_length|].
  destruct (_ && _); [by eexists|].
  destruct (re_parse_escape p) as [[c p1]|e] eqn:E1; [|by eexists].
  destruct (escape_length _ _ _ E1) as [_ L1]. specialize (L1 E0).
  destruct (_ && _ && _); [|by apply Hgo].
  destruct (re_parse_escape (drop 1 p1)) as [[c2 p2]|e] eqn:E2; [|by eexists].
  destruct (escape_length _ _ _ E2) as [L2 _]. rewrite length_drop in L2.
  destruct (c2 <? c); [by eexists|]. apply Hgo. lia.
Qed.

Lemma parse_class_total p : exists r, parse_class p = Some r /\
  forall s' p', r = inl (s', p') -> (length p' <= length p)%nat.
Proof.
  unfold parse_class. set (q := if peek p 0 =? 94 then drop 1 p else p).
  assert (length q <= length p)%nat as Hq by (subst q; case_match; rewrite ?length_drop; lia).
  destruct (if peek q 0 =? 93 then _ else _) as [s1 p1] eqn:E1.
  assert (length p1 <= length q)%nat by (case_match; simplify_eq; rewrite ?length_drop; lia).
  destruct (class_items_total (S (length p1)) p1 s1) as (r & -> & Hr); [lia|]. cbn [mbind option_bind].
  destruct r as [[s2 p2]|e]; [|by eexists]. specialize (Hr _ _ eq_refl).
  destruct (negb (peek p2 0 =? 93)); [by eexists|]. eexists. split; [done|].
  intros s' p' ?. simplify_eq. rewrite length_drop. lia.
Qed.

(** *** Atoms *)

(** The result of an atom: a positive index consumes input. *)
Definition atom_post (c : compiler) (r : option (compiler * Z)) : Prop :=
  exists c2 i, r = Some (c2, i) /\ ext c c2 /\ (0 < i -> (length (c_cursor c2) < length (c_cursor c))%nat).

Lemma atom_done c c2 i : ext c c2 -> (length (c_cursor c2) < length (c_cursor c))%nat -> atom_post c (Some (c2, i)).
Proof. intros. by exists c2, i. Qed.

Lemma atom_fail c c2 i : ext c c2 -> i <= 0 -> atom_post c (Some (c2, i)).
Proof. intros. exists c2, i. split; [done|]. split; [done|lia]. Qed.

Lemma emit_atom c n op : cinv c -> peek (c_cursor c) 0 <> 0 -> (0 < n)%nat ->
  atom_post c (Some (re_emit (advance n c) op)).
Proof.
  intros Hc Hp Hn. destruct (emit_ext c (advance n c) op (ext_advance _ _ _ (ext_refl c Hc))) as (c2 & i & -> & E & F).
  apply atom_done; [done|]. rewrite F. cbn. rewrite length_drop. apply peek_nonempty in Hp. lia.
Qed.

Lemma simple_atom_ext c : cinv c -> peek (c_cursor c) 0 <> 0 -> atom_post c (compile_simple_atom c).
Proof.
  intros Hc Hp. pose proof (ext_refl c Hc) as He. pose proof (peek_nonempty _ Hp) as Hlen. unfold compile_simple_atom.
  destruct (peek (c_cursor c) 0 =? 94); [by apply emit_atom; try lia|].
  destruct (peek (c_cursor c) 0 =? 36); [by apply emit_atom; try lia|].
  destruct (peek (c_cursor c) 0 =? 46); [by apply emit_atom; try lia|].
  destruct (peek (c_cursor c) 0 =? 91).
  { unfold re_compile_class. destruct (parse_class_total (drop 1 (c_cursor c))) as (r & -> & Hr).
    cbn [mbind option_bind]. destruct r as [[s p]|e]; [|by apply atom_fail; [apply ext_error|]].
    specialize (Hr _ _ eq_refl). rewrite length_drop in Hr.
    destruct (emit_ext c c RE_CLASS He) as (c2 & i & -> & E & F).
    destruct (i <? 0); [by apply atom_fail|]. apply atom_done; [|cbn; lia].
    apply ext_cursor; [by apply ext_upd|]. cbn. rewrite F. lia. }
  destruct (_ && _).
  { unfold re_compile_simple_class.
    destruct (emit_ext c (advance 2 c) RE_CLASS (ext_advance _ _ _ He)) as (c2 & i & -> & E & F).
    apply atom_done; [destruct (0 <=? i); [by apply ext_upd|done]|].
    assert (c_cursor (if 0 <=? i then upd i (set_set (if (65 <=? peek (c_cursor c) 1) && (peek (c_cursor c) 1 <=? 90)
      then set_negate (simple_set (peek (c_cursor c) 1)) else simple_set (peek (c_cursor c) 1))) c2 else c2) = c_cursor c2) as ->
      by (by destruct (0 <=? i)).
    rewrite F. cbn. rewrite length_drop. lia. }
  destruct (_ && _); [by apply emit_atom; try lia|].
  destruct (re_parse_escape (c_cursor c)) as [[ch p]|e] eqn:Ee; [|by apply atom_fail; [apply ext_error|]].
  destruct (escape_length _ _ _ Ee) as [_ L]. specialize (L Hp).
  destruct (emit_ext c (set_cursor c p) RE_CHAR) as (c2 & i & -> & E & F); [apply ext_cursor; [done|lia]|].
  destruct (i <? 0); [by apply atom_fail|]. apply atom_done; [by apply ext_upd|]. cbn. rewrite F. done.
Qed.

Lemma patch_ext c c' last jumps : ext c c' -> ext c (patch_alternatives c' last jumps).
Proof.
  intros He. unfold patch_alternatives. generalize (c_length c') as stop. intros stop.
  assert (ext c (upd last (set_y stop) c')) as H1 by (by apply ext_upd).
  revert H1. generalize (upd last (set_y stop) c') as c2.
  induction jumps as [|j js IH]; intros c2 H2; [done|]. apply IH. by apply ext_upd.
Qed.

Lemma delimiter_nonempty (c : compiler) : re_is_alt_delimiter c = true -> (0 < length (c_cursor c))%nat.
Proof.
  unfold re_is_alt_delimiter. intros Hd. apply peek_nonempty.
  destruct (c_extended c); [|apply andb_prop in Hd as [Hd _]]; lia.
Qed.

Lemma advance_length n (c : compiler) : length (c_cursor (advance n c)) = (length (c_cursor c) - n)%nat.
Proof. cbn. by rewrite length_drop. Qed.

(** *** The mutual recursion *)

Definition cur (c : compiler) : nat := length (c_cursor c).

Definition total_at (n : nat) : Prop :=
  (forall c g, cinv c -> (3 * cur c + 3 <= n)%nat -> exists c', re_compile_alternation n c g = Some c' /\ ext c c') /\
  (forall c g l js, cinv c -> (3 * cur c + 2 <= n)%nat -> exists c', alternatives n c g l js = Some c' /\ ext c c') /\
  (forall c g, cinv c -> (3 * cur c + 2 <= n)%nat -> exists c', re_compile_sequence n c g = Some c' /\ ext c c') /\
  (forall c g, cinv c -> (3 * cur c + 1 <= n)%nat -> atom_post c (re_compile_atom n c g)).

Lemma alternation_total n c g : total_at n -> cinv c -> (3 * cur c + 3 <= S n)%nat ->
  exists c', alternation_body (alternatives n) (re_compile_sequence n) c g = Some c' /\ ext c c'.
Proof.
  intros (_ & Halt & Hseq & _) Hc Hn. unfold alternation_body.
  destruct (Hseq c g Hc) as (c1 & -> & E1); [lia|]. cbn [mbind option_bind].
  destruct (truthy (c_error c1)); [by eexists|]. destruct (negb _); [by eexists|].
  destruct (insert_ext c c1 (c_length c) E1) as (c2 & i & -> & E2 & F2).
  { destruct E1 as (_ & ? & _). unfold c_length in *. lia. }
  destruct (i <? 0); [by eexists|].
  destruct (emit_ext c (upd i (fun j => set_y (c_length c2) (set_x (c_length c + 1) (set_op RE_SPLIT j))) c2) RE_JMP)
    as (c3 & k & -> & E3 & F3); [by apply ext_upd|].
  destruct (k <? 0); [by eexists|].
  destruct (Halt c3 g i [k]) as (c4 & -> & E4); [apply E3| |eexists; split; [done|by eapply ext_trans]].
  unfold cur in *. rewrite F3. cbn. rewrite F2. destruct E1 as (_ & _ & ? & _). lia.
Qed.

Lemma alternatives_total n c g last jumps : total_at n -> cinv c -> (3 * cur c + 2 <= S n)%nat ->
  exists c', alternatives_body (alternatives n) (re_compile_sequence n) c g last jumps = Some c' /\ ext c c'.
Proof.
  intros (_ & Halt & Hseq & _) Hc Hn. pose proof (ext_refl c Hc) as He. unfold alternatives_body.
  destruct (re_is_alt_delimiter c) eqn:Hd; cbn [negb]; [|eexists; split; [done|by apply patch_ext]].
  apply delimiter_nonempty in Hd.
  assert (0 < op_width c)%nat as Hw by (unfold op_width; destruct (c_extended c); lia).
  destruct (emit_ext c (advance (op_width c) c) RE_SPLIT (ext_advance _ _ _ He)) as (c2 & i & -> & E2 & F2).
  destruct (i <? 0); [by eexists|].
  assert (cur c2 = (cur c - op_width c)%nat) as L2 by (unfold cur; rewrite F2; apply advance_length).
  destruct (Hseq (upd last (set_y i) c2) g) as (c3 & -> & E3); [apply upd_cinv, E2|unfold cur in *; cbn; lia|].
  assert (ext c c3) as E03 by (eapply ext_trans; [|exact E3]; by apply ext_upd).
  cbn [mbind option_bind]. destruct (truthy (c_error c3)); [by eexists|].
  destruct (emit_ext c (upd i (fun j => set_y (c_length c3) (set_x (c_length (upd last (set_y i) c2)) j)) c3) RE_JMP)
    as (c4 & k & -> & E4 & F4); [by apply ext_upd|].
  destruct (k <? 0); [by eexists|]. destruct (128 <=? length jumps)%nat; [by eexists|].
  destruct (Halt c4 g i (jumps ++ [k])) as (c5 & -> & E5); [apply E4| |eexists; split; [done|by eapply ext_trans]].
  unfold cur in *. rewrite F4. cbn. destruct E3 as (_ & _ & L3 & _). cbn in L3. lia.
Qed.

Lemma sequence_total n c g : total_at n -> cinv c -> (3 * cur c + 2 <= S n)%nat ->
  exists c', sequence_body (re_compile_sequence n) (re_compile_atom n) c g = Some c' /\ ext c c'.
Proof.
  intros (_ & _ & Hseq & Hatom) Hc Hn. pose proof (ext_refl c Hc) as He. unfold sequence_body.
  destruct (_ && _ && _ && _); [|by eexists].
  destruct (Hatom c g Hc) as (c1 & i & -> & E1 & L1); [lia|]. cbn [mbind option_bind].
  destruct (Z.ltb_spec i 0); [by eexists|]. destruct (Z.eqb_spec i 0); [by eexists|].
  destruct (quantifier_ext c1 (c_length c)) as (c2 & r & -> & E2); [apply E1| |].
  { destruct E1 as (_ & ? & _). unfold c_length in *. lia. }
  cbn [mbind option_bind]. assert (ext c c2) as E02 by (by eapply ext_trans).
  destruct (r <? 0); [by eexists|].
  destruct (Hseq c2 g) as (c3 & -> & E3); [apply E2| |eexists; split; [done|by eapply ext_trans]].
  unfold cur in *. destruct E2 as (_ & _ & L2 & _). lia.
Qed.

(** A group: [k] characters opened it, [j] close it. *)
Lemma atom_total n c g : total_at n -> cinv c -> (3 * cur c + 1 <= S n)%nat ->
  atom_post c (atom_body (re_compile_alternation n) c g).
Proof.
  intros (Halt & _) Hc Hn. pose proof (ext_refl c Hc) as He. unfold atom_body.
  destruct (Z.eqb_spec (peek (c_cursor c) 0) 0) as [|Hp]; cbn [orb]; [by apply atom_fail|].
  pose proof (peek_nonempty _ Hp) as Hlen.
  destruct (_ || _); [by apply atom_fail|].
  (* inside a group: the alternation, then the closing save *)
  assert (forall c1, ext c c1 -> (cur c1 < cur c)%nat ->
    exists c2, re_compile_alternation n c1 true = Some c2 /\ ext c c2 /\ (cur c2 < cur c)%nat) as Hin.
  { intros c1 E1 L1. destruct (Halt c1 true) as (c2 & -> & E2); [apply E1|lia|]. exists c2.
    split; [done|]. split; [by eapply ext_trans|]. destruct E2 as (_ & _ & ? & _). unfold cur in *. lia. }
  assert (forall c2 k, ext c c2 -> (cur c2 < cur c)%nat -> atom_post c
    (let '(c3, save) := emit_save (advance k c2) (fun c => c_groups c * 2 + 1) in
     if save <? 0 then Some (c3, -1) else Some (c3, 1))) as Hout.
  { intros c2 k E2 L2. destruct (save_ext c (advance k c2) (fun c => c_groups c * 2 + 1)) as (c3 & i & -> & E3 & F3);
      [by apply ext_advance|]. destruct (i <? 0); [by apply atom_fail|]. apply atom_done; [done|].
    rewrite F3, advance_length. unfold cur in *. lia. }
  destruct (_ && c_extended c).
  - set (capture := negb _). set (k := if capture then 1%nat else 3%nat).
    assert (exists c1 i, (if capture then emit_save (add_group (advance k c)) (fun c => c_groups c * 2)
      else (advance k c, 0)) = (c1, i) /\ ext c c1 /\ (cur c1 < cur c)%nat) as (c1 & i & -> & E1 & L1).
    { assert (0 < k)%nat by (subst k; destruct capture; lia). destruct capture.
      - destruct (save_ext c (add_group (advance k c)) (fun c => c_groups c * 2)) as (c1 & i & -> & E1 & F1);
          [by apply ext_advance|]. do 2 eexists. split; [done|]. split; [done|]. unfold cur. rewrite F1.
        change (c_cursor (add_group (advance k c))) with (c_cursor (advance k c)). rewrite advance_length. lia.
      - do 2 eexists. split; [done|]. split; [by apply ext_advance|]. unfold cur. rewrite advance_length. lia. }
    destruct (i <? 0); [by apply atom_fail|].
    destruct (Hin c1 E1 L1) as (c2 & -> & E2 & L2). cbn [mbind option_bind].
    destruct (truthy (c_error c2)); [by apply atom_fail|].
    destruct (negb (peek (c_cursor c2) 0 =? 41)). { apply atom_fail; [apply ext_error; done|]. lia. }
    destruct capture; [by apply Hout|]. apply atom_done; [by apply ext_advance|].
    rewrite advance_length. unfold cur in *. lia.
  - destruct (_ && _ && _); [|by apply simple_atom_ext].
    destruct (save_ext c (add_group (advance 2 c)) (fun c => c_groups c * 2)) as (c1 & i & -> & E1 & F1);
      [by apply ext_advance|].
    destruct (i <? 0); [by apply atom_fail|].
    destruct (Hin c1 E1) as (c2 & -> & E2 & L2).
    { unfold cur. rewrite F1. change (c_cursor (add_group (advance 2 c))) with (c_cursor (advance 2 c)).
      rewrite advance_length. lia. }
    cbn [mbind option_bind]. destruct (truthy (c_error c2)); [by apply atom_fail|].
    destruct (_ || _); [by apply atom_fail; [apply ext_error|]|]. by apply Hout.
Qed.

Lemma compile_total n : total_at n.
Proof.
  induction n as [|n IH].
  - repeat split; intros; lia.
  - split; [|split; [|split]]; intros.
    + by apply alternation_total.
    + by apply alternatives_total.
    + by apply sequence_total.
    + by apply atom_total.
Qed.
End compile.
