(* ===== verification/RegexLiteral.v ===== *)
(** * Literal patterns end to end

    A pattern without operators compiles to one RE_CHAR per character, and
    matching it is searching for the leftmost occurrence. *)

From S2P Require Import Prelude Ctype Regex RegexVM RegexVMCorrect RegexCompile.

(** The characters some syntax treats as operators, and the terminator. *)
Definition operators : list Z := [0; 94; 36; 46; 91; 40; 41; 92; 42; 43; 63; 123; 124].

Definition literal (p : list Z) : Prop := Forall (fun ch => ch ∉ operators) p.

Definition char_inst (ch : Z) : re_inst := set_ch ch (set_op RE_CHAR zero_inst).
Definition save_inst (slot : Z) : re_inst := set_x slot (set_op RE_SAVE zero_inst).
Definition literal_program (p : list Z) : list re_inst :=
  save_inst 0 :: map char_inst p ++ [save_inst 1; set_op RE_MATCH zero_inst].

Lemma not_operator ch x : ch ∉ operators -> x ∈ operators -> (ch =? x) = false.
Proof. intros H1 H2. destruct (Z.eqb_spec ch x) as [->|]; [done|done]. Qed.

(** Rewrite every test of a literal character against an operator. *)
Ltac lit_tests Hch :=
  repeat match goal with
  | |- context [?c =? ?x] =>
      rewrite (not_operator c x Hch) by (unfold operators; rewrite !elem_of_cons; tauto)
  end; rewrite ?andb_false_l, ?andb_false_r; cbn [orb andb negb].

Section literal.
Context {A : Type} `{AllocatorLaws A}.
Abbreviation compiler := (re_compiler A).

(** The outcome of compiling [p] literally. *)
Definition compiled (c c' : compiler) (p rest : list Z) : Prop :=
  cinv c' /\ c_extended c' = c_extended c /\ c_groups c' = c_groups c /\
  (c_error c' = REG_ESPACE \/
   c_error c' = 0 /\ c_cursor c' = rest /\ c_program c' = c_program c ++ map char_inst p).

Lemma upd_last (c c' : compiler) op f : c_program c' = c_program c ++ [set_op op zero_inst] ->
  c_program (upd (c_length c) f c') = c_program c ++ [f (set_op op zero_inst)].
Proof.
  intros E. cbn. rewrite E. unfold c_length. rewrite Nat2Z.id.
  rewrite alter_app_r_alt by lia. by rewrite Nat.sub_diag.
Qed.

Lemma literal_delims (c : compiler) ch rest g : c_cursor c = ch :: rest -> ch ∉ operators ->
  re_is_alt_delimiter c = false /\ re_is_group_close c g = false.
Proof.
  intros Hp Hch. unfold re_is_alt_delimiter, re_is_group_close. rewrite Hp. cbn [peek nth].
  destruct (c_extended c), g; cbn [negb]; lit_tests Hch; done.
Qed.

Lemma literal_atom (c : compiler) ch rest n g : cinv c -> c_error c = 0 -> c_cursor c = ch :: rest ->
  ch ∉ operators ->
  exists c' i, re_compile_atom (S n) c g = Some (c', i) /\ compiled c c' [ch] rest /\
    (i < 0 /\ c_error c' = REG_ESPACE \/ i = 1 /\ c_error c' = 0).
Proof.
  intros Hc He Hp Hch. destruct (literal_delims c ch rest g Hp Hch) as [Ha Hg].
  change (re_compile_atom (S n) c g) with (atom_body (re_compile_alternation n) c g).
  unfold atom_body. rewrite Ha, Hg, Hp. cbn [peek nth].
  lit_tests Hch. unfold compile_simple_atom. rewrite Hp. cbn [peek nth]. lit_tests Hch.
  unfold re_parse_escape. cbn [peek nth]. lit_tests Hch. cbn [drop]. rewrite ?drop_0.
  destruct (re_emit_spec (set_cursor c rest) RE_CHAR) as (c1 & i & -> & (F1 & F2 & F3) & I & D); [done|].
  destruct D as [(-> & E & P)|(-> & E & P)].
  - do 2 eexists. split; [done|]. split; [|left; done]. split; [done|]. split; [done|]. split; [done|]. by left.
  - unfold c_length at 1. cbn [c_program set_cursor]. destruct (Z.ltb_spec (Z.of_nat (length (c_program c))) 0); [lia|].
    do 2 eexists. split; [done|]. split; [|right; split; [done|by rewrite <- He]].
    split; [by apply upd_cinv|]. split; [done|]. split; [done|]. right. split; [by rewrite <- He|]. split; [done|].
    by apply (upd_last (set_cursor c rest)).
Qed.

Lemma literal_quantifier (c : compiler) start : literal (c_cursor c) ->
  re_compile_quantifier c start = Some (c, 0).
Proof.
  intros Hl. unfold re_compile_quantifier, quantifier_at.
  destruct (c_cursor c) as [|ch rest]; [done|]. cbn [peek nth]. inversion Hl as [|?? Hch]. lit_tests Hch. done.
Qed.

Lemma literal_sequence p : forall (c : compiler) n g, cinv c -> c_error c = 0 -> c_cursor c = p -> literal p ->
  (2 * length p + 2 <= n)%nat ->
  exists c', re_compile_sequence n c g = Some c' /\ compiled c c' p [].
Proof.
  induction p as [|ch rest IH]; intros c n g Hc He Hp Hl Hn; (destruct n as [|n]; [lia|]);
    change (re_compile_sequence (S n) c g) with (sequence_body (re_compile_sequence n) (re_compile_atom n) c g);
    unfold sequence_body; rewrite He, Hp; cbn [peek nth truthy Z.eqb negb andb].
  - eexists. split; [done|]. split; [done|]. split; [done|]. split; [done|]. right. by rewrite app_nil_r.
  - inversion Hl as [|?? Hch Hrest]. subst. cbn [length] in Hn.
    destruct (literal_delims c ch rest g Hp Hch) as [-> ->].
    lit_tests Hch. destruct n as [|n]; [lia|].
    destruct (literal_atom c ch rest n g Hc He Hp Hch) as (c1 & i & -> & (I1 & X1 & G1 & D1) & [[Hi E1]|[-> E1]]);
      cbn [mbind option_bind].
    + destruct (Z.ltb_spec i 0); [|lia]. eexists. split; [done|].
      split; [done|]. split; [done|]. split; [done|]. by left.
    + cbn [Z.ltb Z.eqb Z.compare]. destruct D1 as [D1|(_ & R1 & P1)]; [by rewrite D1 in E1|].
      rewrite literal_quantifier by (by rewrite R1). cbn [mbind option_bind Z.ltb Z.compare].
      destruct (IH c1 (S n) g I1 E1 R1 Hrest) as (c2 & -> & I2 & X2 & G2 & D2); [lia|].
      eexists. split; [done|]. split; [done|]. split; [congruence|]. split; [congruence|].
      destruct D2 as [D2|(D2 & R2 & P2)]; [by left|right]. split; [done|]. split; [done|].
      rewrite P2, P1. cbn [map]. by rewrite <- app_assoc.
Qed.


Lemma save_emitted (c : compiler) k : cinv c ->
  exists c' i, emit_save c (fun _ => k) = (c', i) /\ cinv c' /\ same_frame c c' /\
    (i < 0 /\ c_error c' = REG_ESPACE \/
     0 <= i /\ c_error c' = c_error c /\ c_program c' = c_program c ++ [save_inst k]).
Proof.
  intros Hc. unfold emit_save. destruct (re_emit_spec c RE_SAVE Hc) as (c1 & i & -> & F & I & D).
  destruct D as [(-> & E & P)|(-> & E & P)].
  - do 2 eexists. split; [done|]. split; [done|]. split; [done|]. by left.
  - unfold c_length at 1. destruct (Z.ltb_spec (Z.of_nat (length (c_program c))) 0); [lia|].
    do 2 eexists. split; [done|]. split; [by apply upd_cinv|]. split; [done|].
    right. split; [unfold c_length; lia|]. split; [done|]. by apply upd_last.
Qed.

(** Compiling a literal pattern either runs out of memory or gives the
    program one would write by hand. *)
Lemma regcomp_literal heap p cflags : al_ok heap 0 -> literal p ->
  (exists h, regcomp heap p cflags = Some (h, regex_cleared, REG_ESPACE)) \/
  (exists h b, regcomp heap p cflags = Some (h, Regex (Some (literal_program p)) b 0 cflags, 0)).
Proof.
  intros Hok Hl. unfold regcomp.
  set (c0 := Compiler [] 0 p (flag cflags REG_EXTENDED) 0 0 0 heap).
  assert (cinv c0) as I0 by (by apply cinv_start).
  destruct (save_emitted c0 0 I0) as (c1 & i & -> & I1 & (F1 & F2 & F3) & D1).
  destruct D1 as [(Hi & _)|(Hi & E1 & P1)]; [destruct (Z.ltb_spec i 0); [left; by eexists|lia]|].
  destruct (Z.ltb_spec i 0); [lia|].
  change (compile_fuel p) with (3 * length p + 4)%nat.
  replace (3 * length p + 4)%nat with (S (3 * length p + 3)) by lia.
  change (re_compile_alternation (S (3 * length p + 3)) c1 false) with
    (alternation_body (alternatives (3 * length p + 3)) (re_compile_sequence (3 * length p + 3)) c1 false).
  unfold alternation_body.
  destruct (literal_sequence p c1 (3 * length p + 3) false I1 E1 F1 Hl) as (c2 & -> & I2 & X2 & G2 & D2); [lia|].
  cbn [mbind option_bind]. destruct D2 as [D2|(E2 & R2 & P2)].
  - rewrite D2. change (truthy REG_ESPACE) with true. cbn [negb andb mbind option_bind]. rewrite D2.
    change (truthy REG_ESPACE) with true. cbn [negb andb]. rewrite D2. change (truthy REG_ESPACE) with true.
    left. by eexists.
  - rewrite E2. cbn [truthy Z.eqb negb].
    assert (re_is_alt_delimiter c2 = false) as ->
      by (unfold re_is_alt_delimiter; rewrite R2; by destruct (c_extended c2)).
    cbn [negb mbind option_bind]. rewrite E2, R2. cbn [truthy Z.eqb negb andb peek nth]. rewrite E2. cbn [truthy Z.eqb negb].
    destruct (save_emitted c2 1 I2) as (c3 & j & -> & I3 & (_ & _ & F3') & D3).
    destruct D3 as [(Hj & _)|(Hj & E3 & P3)]; (destruct (Z.ltb_spec j 0); [left; by eexists|]); [lia|].
    destruct (re_emit_spec c3 RE_MATCH I3) as (c4 & k & -> & (_ & _ & F4) & I4 & D4).
    destruct D4 as [(-> & E4 & P4)|(-> & E4 & P4)]; [left; by eexists|].
    unfold c_length. destruct (Z.ltb_spec (Z.of_nat (length (c_program c3))) 0); [lia|].
    right. do 2 eexists.
    assert (c_groups c4 = 0) as -> by (rewrite F4, F3', G2, F3; done).
    assert (c_program c4 = literal_program p) as ->; [|done].
    rewrite P4, P3, P2, P1. unfold literal_program. cbn [app c_program c0]. by rewrite <- app_assoc.
Qed.
End literal.

(** ** Matching a literal *)

Definition char_eq (cflags a b : Z) : bool :=
  if flag cflags REG_ICASE then tolower a =? tolower b else a =? b.

(** [p] occurs in [text] at [s]. *)
Definition occurs (cflags : Z) (p text : list Z) (s : Z) : Prop :=
  0 <= s /\ s + Z.of_nat (length p) <= text_length text /\
  forall j, (j < length p)%nat -> char_eq cflags (char_at text (s + Z.of_nat j)) (nth j p 0) = true.

Section matching.
Context (p text : list Z) (cflags eflags : Z).
Abbreviation program := (literal_program p).

Lemma literal_length : program_length program = Z.of_nat (length p) + 3.
Proof. unfold program_length, literal_program. cbn [length]. rewrite length_app, length_map. cbn [length]. lia. Qed.

Lemma inst_char k : (k < length p)%nat -> inst_at program (Z.of_nat k + 1) = char_inst (nth k p 0).
Proof.
  intros Hk. unfold inst_at, literal_program. replace (Z.to_nat (Z.of_nat k + 1)) with (S k) by lia. cbn [nth].
  rewrite app_nth1 by (by rewrite length_map).
  rewrite (nth_indep _ _ (char_inst 0)) by (by rewrite length_map). apply map_nth.
Qed.

Lemma inst_save : inst_at program (Z.of_nat (length p) + 1) = save_inst 1.
Proof.
  unfold inst_at, literal_program. replace (Z.to_nat (Z.of_nat (length p) + 1)) with (S (length p)) by lia. cbn [nth].
  rewrite app_nth2 by (rewrite length_map; lia). by rewrite length_map, Nat.sub_diag.
Qed.

Lemma inst_match : inst_at program (Z.of_nat (length p) + 2) = set_op RE_MATCH zero_inst.
Proof.
  unfold inst_at, literal_program. replace (Z.to_nat (Z.of_nat (length p) + 2)) with (S (S (length p))) by lia. cbn [nth].
  rewrite app_nth2 by (rewrite length_map; lia). rewrite length_map.
  by replace (S (length p) - length p)%nat with 1%nat by lia.
Qed.

(** The tail of a match, from the [k]-th character on. *)
Lemma literal_tail n : forall k pos caps caps', (k + n = length p)%nat -> 0 <= pos <= text_length text ->
  accepts program text cflags eflags (Z.of_nat k + 1) pos caps caps' <->
  (pos + Z.of_nat n <= text_length text /\
   (forall j, (j < n)%nat -> char_eq cflags (char_at text (pos + Z.of_nat j)) (nth (k + j) p 0) = true) /\
   caps' = <[1%nat := pos + Z.of_nat n]> caps).
Proof.
  pose proof literal_length as HL.
  induction n as [|n IH]; intros k pos caps caps' Hk Hpos.
  - replace k with (length p) in * by lia. split.
    + intros Ha. inversion Ha as [? ? ? Hin Hop|? ? pc' pos' ? ? Hin Hv Ha']; subst.
      { rewrite inst_save in Hop. done. }
      pose proof Hv as Hi. apply vstep_inv in Hi. rewrite inst_save in Hi. cbn in Hi. destruct Hi as [-> ->].
      unfold record_capture in Ha'. rewrite inst_save in Ha'. cbn in Ha'.
      inversion Ha' as [|? ? pc' pos' ? ? Hin' Hv' Ha'']; subst; [split; [lia|]; split; [lia|by rewrite Z.add_0_r]|].
      apply vstep_inv in Hv'. replace (Z.of_nat (length p) + 1 + 1) with (Z.of_nat (length p) + 2) in Hv' by lia.
      by rewrite inst_match in Hv'.
    + intros (_ & _ & ->). rewrite Z.add_0_r.
      apply accepts_step with (Z.of_nat (length p) + 1 + 1) pos; [split; lia|apply vstep_save; by rewrite inst_save|].
      unfold record_capture. rewrite inst_save. cbn.
      apply accepts_match; [split; lia|]. replace (Z.of_nat (length p) + 1 + 1) with (Z.of_nat (length p) + 2) by lia.
      by rewrite inst_match.
  - assert (inst_at program (Z.of_nat k + 1) = char_inst (nth k p 0)) as Hi by (apply inst_char; lia).
    assert (consumes text cflags (char_inst (nth k p 0)) pos =
      (pos <? text_length text) && char_eq cflags (char_at text pos) (nth k p 0)) as Hcon.
    { unfold consumes, char_eq. cbn. by destruct (flag cflags REG_ICASE). }
    replace (Z.of_nat k + 1 + 1) with (Z.of_nat (S k) + 1) in * by lia.
    split.
    + intros Ha. inversion Ha as [? ? ? Hin Hop|? ? pc' pos' ? ? Hin Hv Ha']; subst; [by rewrite Hi in Hop|].
      apply vstep_inv in Hv. rewrite Hi in Hv. cbn [char_inst i_op set_ch set_op] in Hv. destruct Hv as (-> & -> & Hc).
      rewrite Hcon in Hc. apply andb_prop in Hc as [Hlt Hch].
      unfold record_capture in Ha'. rewrite Hi in Ha'. cbn in Ha'.
      replace (Z.of_nat k + 1 + 1) with (Z.of_nat (S k) + 1) in Ha' by lia.
      apply IH in Ha' as (HB & HC & ->); [|lia|lia]. split; [lia|]. split; [|f_equal; lia].
      intros [|j] Hj; [by rewrite Z.add_0_r, Nat.add_0_r|]. specialize (HC j ltac:(lia)).
      replace (pos + Z.of_nat (S j)) with (pos + 1 + Z.of_nat j) by lia. by replace (k + S j)%nat with (S k + j)%nat by lia.
    + intros (HB & HC & ->).
      apply accepts_step with (Z.of_nat (S k) + 1) (pos + 1); [split; lia| |].
      * replace (Z.of_nat (S k) + 1) with (Z.of_nat k + 1 + 1) by lia. apply vstep_consume; rewrite Hi; [done|].
        rewrite Hcon. specialize (HC 0%nat ltac:(lia)). rewrite Z.add_0_r, Nat.add_0_r in HC. rewrite HC.
        destruct (Z.ltb_spec pos (text_length text)); [done|lia].
      * unfold record_capture. rewrite Hi. cbn. apply IH; [lia|lia|]. split; [lia|]. split; [|f_equal; lia].
        intros j Hj. specialize (HC (S j) ltac:(lia)).
        replace (pos + Z.of_nat (S j)) with (pos + 1 + Z.of_nat j) in HC by lia. by replace (k + S j)%nat with (S k + j)%nat in HC by lia.
Qed.

Lemma literal_match_at s caps : 0 <= s <= text_length text ->
  match_at program text cflags eflags 2 s caps <-> occurs cflags p text s /\ caps = [s; s + Z.of_nat (length p)].
Proof.
  intros Hs. pose proof literal_length as HL. unfold match_at, init_captures. cbn [replicate]. 
  assert (accepts program text cflags eflags 0 s [s; -1] caps <-> accepts program text cflags eflags 1 s [s; -1] caps) as Hfirst.
  { assert (inst_at program 0 = save_inst 0) as Hi by done. split.
    - intros Ha. inversion Ha as [? ? ? Hin Hop|? ? pc' pos' ? ? Hin Hv Ha']; subst; [done|].
      apply vstep_inv in Hv. rewrite Hi in Hv. cbn in Hv. destruct Hv as [-> ->].
      unfold record_capture in Ha'. by rewrite Hi in Ha'.
    - intros Ha. apply accepts_step with 1 s; [split; lia|apply (vstep_save _ _ _ _ 0 s); by rewrite Hi|].
      unfold record_capture. by rewrite Hi. }
  change (<[0%nat:=s]> [-1; -1]) with [s; -1]. rewrite Hfirst.
  change 1 with (Z.of_nat 0 + 1) at 1. rewrite (literal_tail (length p) 0 s) by (done || lia).
  unfold occurs. cbn [Nat.add]. split; [intros (? & ? & ->)|intros ((? & ? & ?) & ->)]; repeat split; try done; lia.
Qed.

Lemma literal_no_match s : 0 <= s <= text_length text ->
  no_match_at program text cflags eflags 2 s <-> ~ occurs cflags p text s.
Proof.
  intros Hs. unfold no_match_at. split.
  - intros Hn Ho. apply (Hn [s; s + Z.of_nat (length p)]). by apply literal_match_at.
  - intros Hn caps Hm. apply literal_match_at in Hm as [Ho _]; done.
Qed.
End matching.
