(* ===== verification/RegexClass.v ===== *)
(** * Bracket expressions

    The 32-byte sets as sets of characters, and the bracket parser on the
    lists of ranges one writes. *)

From S2P Require Import Prelude Ctype Regex RegexVM RegexCompile.

Definition set_ok (s : list Z) : Prop := length s = 32%nat /\ Forall (fun b => 0 <= b < 2 ^ 8) s.

Lemma empty_set_ok : set_ok empty_set.
Proof. split; [done|]. apply Forall_replicate. lia. Qed.

Lemma set_has_testbit s c : 0 <= c < 256 ->
  set_has s c = Z.testbit (nth (Z.to_nat (c / 8)) s 0) (c mod 8).
Proof.
  intros Hc. unfold set_has. change 7 with (2 ^ 3 - 1). rewrite land_mask, shiftr_div by lia.
  change (2 ^ 3) with 8. rewrite shiftl_mul, Z.mul_1_l by (apply Z.mod_pos_bound; lia).
  apply truthy_land_bit. apply Z.mod_pos_bound. lia.
Qed.

Lemma byte_bit ch : 0 <= ch -> u8 (Z.shiftl 1 (Z.land ch 7)) = 2 ^ (ch mod 8).
Proof.
  intros Hc. change 7 with (2 ^ 3 - 1). rewrite land_mask by lia. change (2 ^ 3) with 8.
  pose proof (Z.mod_pos_bound ch 8 ltac:(lia)). rewrite shiftl_mul, Z.mul_1_l by lia. apply u8_small.
  split; [apply Z.lt_le_incl, pow2_pos; lia|]. change (2 ^ 8) with (2 ^ 8). apply Z.pow_lt_mono_r; lia.
Qed.

Lemma set_char_ok s ch : set_ok s -> 0 <= ch < 256 -> set_ok (re_set_char s ch).
Proof.
  intros [Hl Hb] Hc. unfold re_set_char. split; [by rewrite length_alter|].
  rewrite byte_bit by lia. apply Forall_alter; [done|]. intros b Hlk Hbr.
  pose proof (Z.mod_pos_bound ch 8 ltac:(lia)).
  assert (0 <= 2 ^ (ch mod 8) < 2 ^ 8) as Hp
    by (split; [apply Z.lt_le_incl, pow2_pos; lia|apply Z.pow_lt_mono_r; lia]).
  replace (Z.lor b (2 ^ (ch mod 8))) with (Z.lor b (2 ^ (ch mod 8)) mod 2 ^ 8); [apply Z.mod_pos_bound; lia|].
  rewrite <- (Z.mod_small b (2 ^ 8)) at 2 by done. rewrite <- (Z.mod_small (2 ^ (ch mod 8)) (2 ^ 8)) at 2 by done.
  zbits.
Qed.

Lemma set_has_char s ch c : set_ok s -> 0 <= ch < 256 -> 0 <= c < 256 ->
  set_has (re_set_char s ch) c = (c =? ch) || set_has s c.
Proof.
  intros [Hl Hb] Hch Hc. rewrite !set_has_testbit by done. unfold re_set_char.
  rewrite byte_bit, shiftr_div by lia. change (2 ^ 3) with 8.
  pose proof (Z.mod_pos_bound ch 8 ltac:(lia)). pose proof (Z.mod_pos_bound c 8 ltac:(lia)).
  pose proof (Z.div_mod ch 8 ltac:(lia)). pose proof (Z.div_mod c 8 ltac:(lia)).
  assert (0 <= c / 8 < 32) by lia. assert (0 <= ch / 8 < 32) by lia.
  destruct (Z.eq_dec (ch / 8) (c / 8)) as [E|E].
  - rewrite E. destruct (lookup_lt_is_Some_2 s (Z.to_nat (c / 8))) as [b Hlk]; [lia|].
    rewrite (nth_lookup_Some s _ _ b) by done.
    rewrite (nth_lookup_Some (alter _ _ _) _ _ (Z.lor b (2 ^ (ch mod 8)))) by (rewrite list_lookup_alter_eq, Hlk; done).
    rewrite Z.lor_spec, Z.pow2_bits_eqb by lia. rewrite orb_comm. f_equal.
    destruct (Z.eqb_spec (ch mod 8) (c mod 8)), (Z.eqb_spec c ch); lia.
  - rewrite !nth_lookup, list_lookup_alter_ne by lia.
    destruct (Z.eqb_spec c ch) as [->|]; [lia|done].
Qed.

Lemma set_range_loop_spec n : forall s first, set_ok s -> 0 <= first -> first + Z.of_nat n <= 256 ->
  set_ok (set_range_loop n s first) /\
  forall c, 0 <= c < 256 ->
    set_has (set_range_loop n s first) c = (first <=? c) && (c <? first + Z.of_nat n) || set_has s c.
Proof.
  induction n as [|n IH]; intros s first Hs Hf Hn; cbn [set_range_loop].
  - split; [done|]. intros c Hc. destruct (Z.leb_spec first c), (Z.ltb_spec c (first + Z.of_nat 0)); lia || done.
  - destruct (IH (re_set_char s first) (first + 1)) as [Ho Hh]; [apply set_char_ok; done || lia|lia|lia|].
    split; [done|]. intros c Hc. rewrite Hh, set_has_char by (done || lia).
    destruct (Z.leb_spec (first + 1) c), (Z.ltb_spec c (first + 1 + Z.of_nat n)), (Z.eqb_spec c first),
      (Z.leb_spec first c), (Z.ltb_spec c (first + Z.of_nat (S n))); cbn [andb orb]; lia || done.
Qed.

Lemma set_range_spec s first last : set_ok s -> 0 <= first -> last < 256 ->
  set_ok (re_set_range s first last) /\
  forall c, 0 <= c < 256 -> set_has (re_set_range s first last) c = (first <=? c) && (c <=? last) || set_has s c.
Proof.
  intros Hs Hf Hl. unfold re_set_range. destruct (Z.ltb_spec last first).
  - split; [done|]. intros c Hc. destruct (Z.leb_spec first c), (Z.leb_spec c last); lia || done.
  - destruct (set_range_loop_spec (Z.to_nat (last - first + 1)) s first) as [Ho Hh]; [done|lia|lia|].
    split; [done|]. intros c Hc. rewrite Hh by done. do 2 f_equal.
    destruct (Z.ltb_spec c (first + Z.of_nat (Z.to_nat (last - first + 1)))), (Z.leb_spec c last); lia || done.
Qed.

Lemma set_negate_spec s : set_ok s ->
  set_ok (set_negate s) /\ forall c, 0 <= c < 256 -> set_has (set_negate s) c = negb (set_has s c).
Proof.
  intros [Hl Hb]. unfold set_negate. split.
  - split; [by rewrite length_map|]. apply Forall_fmap. rewrite Forall_forall in Hb |- *.
    intros b Hin. specialize (Hb b Hin). unfold unot. cbn. change (2 ^ 8) with 256 in *. lia.
  - intros c Hc. rewrite !set_has_testbit by done.
    pose proof (Z.mod_pos_bound c 8 ltac:(lia)). pose proof (Z.div_mod c 8 ltac:(lia)). assert (0 <= c / 8 < 32) by lia.
    destruct (lookup_lt_is_Some_2 s (Z.to_nat (c / 8))) as [b Hlk]; [lia|].
    rewrite (nth_lookup_Some s _ _ b) by done.
    rewrite (nth_lookup_Some (map _ _) _ _ (unot 8 b)) by (rewrite list_lookup_fmap, Hlk; done).
    apply testbit_unot; [lia| |lia]. by eapply (Forall_lookup_1 _ _ _ _ Hb).
Qed.

(** ** Ranges, as written *)

(** The characters with no meaning of their own between brackets. *)
Definition bracket_plain (c : Z) : Prop := 0 < c < 256 /\ c ∉ [93; 91; 92; 94; 45].

Definition range_ok (r : Z * Z) : Prop := bracket_plain (fst r) /\ bracket_plain (snd r) /\ fst r <= snd r.

(** A range of one character is written as that character. *)
Definition render (rs : list (Z * Z)) : list Z :=
  flat_map (fun r => if fst r =? snd r then [fst r] else [fst r; 45; snd r]) rs.

Definition in_ranges (rs : list (Z * Z)) (c : Z) : bool :=
  existsb (fun r => (fst r <=? c) && (c <=? snd r)) rs.

Lemma plain_ne c x : bracket_plain c -> x ∈ [0; 93; 91; 92; 94; 45] -> (c =? x) = false.
Proof.
  intros [Hr Hc] Hx. destruct (Z.eqb_spec c x) as [->|]; [|done]. exfalso.
  rewrite elem_of_cons in Hx. destruct Hx as [->|Hx]; [lia|done].
Qed.

Ltac plain_tests :=
  repeat match goal with
  | Hc : bracket_plain ?c |- context [?c =? ?x] =>
      rewrite (plain_ne c x Hc) by (rewrite !elem_of_cons; tauto)
  end; cbn [orb andb negb].

(** The set of a list of ranges, as the parser builds it. *)
Definition add_range (s : list Z) (r : Z * Z) : list Z := re_set_range s (fst r) (snd r).

Definition ranges_set (negated : bool) (rs : list (Z * Z)) : list Z :=
  let s := fold_left add_range rs empty_set in if negated then set_negate s else s.

Lemma add_range_single s a : re_set_char s a = add_range s (a, a).
Proof. unfold add_range, re_set_range. cbn [fst snd]. rewrite Z.ltb_irrefl, Z.sub_diag. done. Qed.

(** What follows an item between brackets: another item or the bracket. *)
Lemma after_item rs rest : Forall range_ok rs ->
  (peek (render rs ++ 93 :: rest) 0 =? 45) = false.
Proof.
  intros Hr. destruct Hr as [|[a b] rs (Ha & _) _]; [done|]. cbn [fst snd render flat_map] in *.
  destruct (a =? b); cbn [app peek nth]; by apply plain_ne; [|rewrite !elem_of_cons; tauto].
Qed.

Lemma ranges_items rs : forall n s rest, Forall range_ok rs -> (length rs < n)%nat ->
  class_items n (render rs ++ 93 :: rest) s = Some (inl (fold_left add_range rs s, 93 :: rest)).
Proof.
  induction rs as [|[a b] rs IH]; intros n s rest Hr Hn; (destruct n as [|n]; [cbn [length] in Hn; lia|]);
    cbn [class_items]; [done|].
  inversion Hr as [|? ? (Ha & Hb & Hab) Hr']. subst. clear Hr. rename Hr' into Hr. cbn [fst snd length] in *.
  cbn [render flat_map fst snd fold_left]. unfold re_named_class, re_parse_escape.
  destruct (Z.eqb_spec a b) as [<-|Hne]; cbn [app]; change (flat_map _ rs) with (render rs).
  - pose proof (after_item rs rest Hr) as Hd. cbn [peek nth drop]. plain_tests. cbn [negb orb andb peek nth drop].
    rewrite !drop_0, Hd. cbn [andb]. rewrite add_range_single. apply IH; [done|lia].
  - cbn [peek nth drop]. plain_tests. cbn [Z.eqb Pos.eqb negb andb peek nth drop]. plain_tests.
    destruct (Z.ltb_spec b a); [lia|]. rewrite ?drop_0. apply IH; [done|lia].
Qed.

Lemma fold_ranges_spec rs : forall s, Forall range_ok rs -> set_ok s ->
  set_ok (fold_left add_range rs s) /\
  forall c, 0 <= c < 256 -> set_has (fold_left add_range rs s) c = in_ranges rs c || set_has s c.
Proof.
  induction rs as [|[a b] rs IH]; intros s Hr Hs; [done|]. cbn [fold_left].
  inversion Hr as [|? ? (Ha & Hb & Hab) Hr']. subst. cbn [fst snd] in *.
  destruct (set_range_spec s a b Hs) as [Ho Hh]; [destruct Ha; lia|destruct Hb; lia|].
  destruct (IH (add_range s (a, b)) Hr' Ho) as [Ho' Hh']. split; [done|]. intros c Hc.
  rewrite Hh' by done. unfold add_range. cbn [fst snd]. rewrite Hh by done.
  change (in_ranges ((a, b) :: rs) c) with (((a <=? c) && (c <=? b)) || in_ranges rs c).
  by destruct (in_ranges rs c), ((a <=? c) && (c <=? b)).
Qed.

Lemma empty_set_has c : 0 <= c < 256 -> set_has empty_set c = false.
Proof.
  intros Hc. rewrite set_has_testbit by done. unfold empty_set.
  pose proof (Z.div_mod c 8 ltac:(lia)). pose proof (Z.mod_pos_bound c 8 ltac:(lia)).
  rewrite nth_lookup, lookup_replicate_2 by lia. cbn. apply Z.bits_0.
Qed.

Lemma ranges_set_has negated rs c : Forall range_ok rs -> 0 <= c < 256 ->
  set_has (ranges_set negated rs) c = xorb negated (in_ranges rs c).
Proof.
  intros Hr Hc. destruct (fold_ranges_spec rs empty_set Hr empty_set_ok) as [Ho Hh].
  specialize (Hh c Hc). rewrite empty_set_has, orb_false_r in Hh by done. unfold ranges_set.
  destruct negated; [|by rewrite xorb_false_l].
  destruct (set_negate_spec _ Ho) as [_ Hn]. rewrite Hn, Hh by done. done.
Qed.

Lemma render_length rs : (length rs <= length (render rs) <= 3 * length rs)%nat.
Proof.
  induction rs as [|r rs IH]; [done|]. cbn [render flat_map length] in *. unfold render in IH.
  rewrite length_app. destruct (_ =? _); cbn [length]; lia.
Qed.

Lemma parse_ranges (negated : bool) rs rest : Forall range_ok rs -> rs <> [] ->
  parse_class ((if negated then [94] else []) ++ render rs ++ 93 :: rest) = Some (inl (ranges_set negated rs, rest)).
Proof.
  intros Hr Hne. unfold parse_class.
  assert (exists a l, render rs ++ 93 :: rest = a :: l /\ bracket_plain a) as (a & l & El & Ha).
  { destruct Hr as [|[a b] rs (Ha & _) _]; [done|]. cbn [render flat_map fst snd] in *.
    destruct (a =? b); do 2 eexists; (split; [reflexivity|done]). }
  assert ((if peek ((if negated then [94] else []) ++ render rs ++ 93 :: rest) 0 =? 94
    then drop 1 ((if negated then [94] else []) ++ render rs ++ 93 :: rest)
    else (if negated then [94] else []) ++ render rs ++ 93 :: rest) = render rs ++ 93 :: rest
    /\ (peek ((if negated then [94] else []) ++ render rs ++ 93 :: rest) 0 =? 94) = negated) as [-> ->].
  { destruct negated; [done|]. cbn [app]. rewrite El. cbn [peek nth]. plain_tests. done. }
  assert ((peek (render rs ++ 93 :: rest) 0 =? 93) = false) as -> by (rewrite El; cbn [peek nth]; plain_tests; done).
  pose proof (render_length rs). rewrite ranges_items by (done || (rewrite length_app; cbn [length]; lia)). cbn [mbind option_bind peek nth Z.eqb Pos.eqb negb drop]. by rewrite drop_0.
Qed.
