(* ===== verification/RegexClaims.v ===== *)
(** * Regular expressions: the claims *)

From Stdlib Require Import String.
From stdpp Require Import strings.
From S2P Require Import Prelude Ctype Regex RegexVM RegexVMCorrect RegexCompile RegexLiteral RegexClass.

(** ** The starred character *)

(** What [ch*] compiles to: the exit of the loop leads to its own jump. *)
Definition star_program (ch : Z) : list re_inst :=
  [save_inst 0; set_y 3 (set_x 2 (set_op RE_SPLIT zero_inst)); char_inst ch;
   set_x 1 (set_op RE_JMP zero_inst); save_inst 1; set_op RE_MATCH zero_inst].

Section star.
Context {A : Type} `{AllocatorLaws A}.

Lemma star_quantifier (c : re_compiler A) ch : cinv c -> c_error c = 0 -> c_cursor c = [42] ->
  c_program c = [save_inst 0; char_inst ch] ->
  exists c' r, re_compile_quantifier c 1 = Some (c', r) /\ cinv c' /\ c_groups c' = c_groups c /\ c_extended c' = c_extended c /\
    (r < 0 /\ c_error c' = REG_ESPACE \/
     r = 0 /\ c_error c' = 0 /\ c_cursor c' = [] /\ c_program c' = take 4 (star_program ch)).
Proof.
  intros Hc He Hp Hprog. unfold re_compile_quantifier, quantifier_at. rewrite Hp.
  cbn [peek nth Z.eqb Pos.eqb]. unfold re_wrap_star.
  assert (c_length (advance 1 c) = 2) as L2 by (unfold c_length; cbn; by rewrite Hprog).
  destruct (re_insert_spec (advance 1 c) 1) as (c1 & i & -> & (F1 & F2 & F3) & I1 & D1); [done|lia|].
  destruct D1 as [(-> & E1 & P1)|(-> & E1 & L1 & P1)].
  - do 2 eexists. split; [done|]. split; [done|]. split; [done|]. split; [done|]. by left.
  - change (1 <? 0) with false. cbn iota. set (f := fun i => set_y _ _).
    destruct (re_emit_spec (upd 1 f c1) RE_JMP) as (c2 & j & -> & (G1 & G2 & G3) & I2 & D2); [by apply upd_cinv|].
    assert (c_groups c2 = c_groups c) as G3' by (rewrite G3; exact F3).
    assert (c_extended c2 = c_extended c) as G2' by (rewrite G2; exact F2).
    destruct D2 as [(-> & E2 & P2)|(-> & E2 & P2)].
    + do 2 eexists. split; [done|]. split; [done|]. split; [done|]. split; [done|]. by left.
    + rewrite upd_length, L1, L2. change (2 + 1 <? 0) with false. cbn iota.
      do 2 eexists. split; [done|]. split; [by apply upd_cinv|]. split; [done|]. split; [done|].
      right. split; [done|]. split; [cbn; rewrite E2; cbn; by rewrite E1|].
      split; [cbn; rewrite G1; cbn; rewrite F1; cbn; by rewrite Hp|].
      assert (c_program c1 = [save_inst 0; shift_inst 1 zero_inst; char_inst ch]) as P1'.
      { rewrite P1. cbn. by rewrite Hprog. }
      cbn [c_program upd set_program] in P2 |- *. rewrite P2, P1'. unfold f. rewrite L1, L2. done.
Qed.

Lemma regcomp_star (heap : A) ch cflags : al_ok heap 0 -> ch ∉ operators ->
  (exists h, regcomp heap [ch; 42] cflags = Some (h, regex_cleared, REG_ESPACE)) \/
  (exists h b, regcomp heap [ch; 42] cflags = Some (h, Regex (Some (star_program ch)) b 0 cflags, 0)).
Proof.
  intros Hok Hch. unfold regcomp.
  set (c0 := Compiler [] 0 [ch; 42] (flag cflags REG_EXTENDED) 0 0 0 heap).
  assert (cinv c0) as I0 by (by apply cinv_start).
  destruct (save_emitted c0 0 I0) as (c1 & i & -> & I1 & (F1 & F2 & F3) & D1).
  destruct D1 as [(Hi & _)|(Hi & E1 & P1)]; [destruct (Z.ltb_spec i 0); [left; by eexists|lia]|].
  destruct (Z.ltb_spec i 0); [lia|].
  change (re_compile_alternation (compile_fuel [ch; 42]) c1 false) with
    (alternation_body (alternatives 9) (re_compile_sequence 9) c1 false).
  unfold alternation_body.
  change (re_compile_sequence 9 c1 false) with (sequence_body (re_compile_sequence 8) (re_compile_atom 8) c1 false).
  unfold sequence_body. destruct (literal_delims c1 ch [42] false F1 Hch) as [-> ->]. rewrite E1, F1. cbn [c0 c_cursor peek nth].
  cbn [c_error c0 truthy Z.eqb negb andb]. rewrite (not_operator ch 0 Hch) by (apply elem_of_cons; by left).
  cbn [negb andb].
  destruct (literal_atom c1 ch [42] 7 false I1 E1 F1 Hch) as (c2 & j & -> & (I2 & X2 & G2 & D2) & [[Hj E2]|[-> E2]]);
    cbn [mbind option_bind].
  { destruct (Z.ltb_spec j 0); [|lia]. cbn [mbind option_bind]. rewrite E2. change (truthy REG_ESPACE) with true.
    cbn [negb andb mbind option_bind]. rewrite E2. change (truthy REG_ESPACE) with true. cbn [negb andb]. rewrite E2.
    change (truthy REG_ESPACE) with true. left. by eexists. }
  cbn [Z.ltb Z.eqb Z.compare]. destruct D2 as [D2|(_ & R2 & P2)]; [by rewrite D2 in E2|].
  rewrite P1 in P2. assert (c_length c1 = 1) as -> by (unfold c_length; by rewrite P1).
  destruct (star_quantifier c2 ch I2 E2 R2 P2) as (c3 & r & -> & I3 & G3 & X3 & [[Hr E3]|(-> & E3 & R3 & P3)]);
    cbn [mbind option_bind].
  { destruct (Z.ltb_spec r 0); [|lia]. cbn [mbind option_bind]. rewrite E3. change (truthy REG_ESPACE) with true.
    cbn [negb andb mbind option_bind]. rewrite E3. change (truthy REG_ESPACE) with true. cbn [negb andb]. rewrite E3.
    change (truthy REG_ESPACE) with true. left. by eexists. }
  cbn [Z.ltb Z.compare].
  change (re_compile_sequence 8 c3 false) with (sequence_body (re_compile_sequence 7) (re_compile_atom 7) c3 false).
  unfold sequence_body. rewrite E3, R3. cbn [peek nth truthy Z.eqb negb andb mbind option_bind].
  rewrite E3. cbn [truthy Z.eqb negb andb].
  assert (re_is_alt_delimiter c3 = false) as ->
    by (unfold re_is_alt_delimiter; rewrite R3; by destruct (c_extended c3)).
  cbn [negb mbind option_bind]. rewrite E3, R3. cbn [truthy Z.eqb negb andb peek nth]. rewrite E3. cbn [truthy Z.eqb negb].
  destruct (save_emitted c3 1 I3) as (c4 & k & -> & I4 & (_ & _ & F4) & D4).
  destruct D4 as [(Hk & _)|(Hk & E4 & P4)]; (destruct (Z.ltb_spec k 0); [left; by eexists|]); [lia|].
  destruct (re_emit_spec c4 RE_MATCH I4) as (c5 & l & -> & (_ & _ & F5) & I5 & D5).
  destruct D5 as [(-> & E5 & P5)|(-> & E5 & P5)]; [left; by eexists|].
  unfold c_length. destruct (Z.ltb_spec (Z.of_nat (length (c_program c4))) 0); [lia|].
  right. do 2 eexists.
  assert (c_groups c5 = 0) as -> by (rewrite F5, F4, G3, G2, F3; done).
  assert (c_program c5 = star_program ch) as ->; [|done].
  rewrite P5, P4, P3. done.
Qed.

(** No path leaves the loop. *)
Lemma star_stuck ch text cflags eflags pc pos caps caps' :
  accepts (star_program ch) text cflags eflags pc pos caps caps' -> 0 <= pc <= 3 -> False.
Proof.
  intros Ha. induction Ha as [pc pos c Hin Hop|pc pos pc' pos' c c' Hin Hv Ha IH]; intros Hpc.
  - assert (pc = 0 \/ pc = 1 \/ pc = 2 \/ pc = 3) as [->|[->|[->| ->]]] by lia; done.
  - apply IH. apply vstep_inv in Hv.
    assert (pc = 0 \/ pc = 1 \/ pc = 2 \/ pc = 3) as [->|[->|[->| ->]]] by lia.
    + change (pos' = pos /\ pc' = 1) in Hv. lia.
    + change (pos' = pos /\ (pc' = 2 \/ pc' = 3)) in Hv. lia.
    + change (pc' = 3 /\ pos' = pos + 1 /\ consumes text cflags (char_inst ch) pos = true) in Hv. lia.
    + change (pos' = pos /\ pc' = 1) in Hv. lia.
Qed.
End star.

Lemma literal_match_length p : match_length (literal_program p) = Some (length p + 3)%nat.
Proof.
  unfold literal_program. cbn.
  assert (match_length (map char_inst p ++ [save_inst 1; set_op RE_MATCH zero_inst]) = Some (length p + 2)%nat) as ->;
    [|cbn; f_equal; lia].
  induction p as [|ch q IH]; [done|]. cbn. by rewrite IH.
Qed.

Lemma match_length_last l i : i_op i = RE_MATCH -> exists n, match_length (l ++ [i]) = Some n.
Proof.
  intros Hi. induction l as [|j l [n E]]; cbn.
  - rewrite decide_True by done. by eexists.
  - destruct (decide (i_op j = RE_MATCH)); [by eexists|]. rewrite E. by eexists.
Qed.

(** How [regcomp] may end: with an error and nothing, or with a program, in
    the bytes of the block of the [regex_t]. *)
Definition regcomp_post {A : Type} `{AllocatorLaws A} (cflags : Z) (h : A) (preg : regex_t) (e : Z) : Prop :=
  (e <> 0 /\ preg = regex_cleared /\ al_ok h 0) \/
  (e = 0 /\ re_cflags preg = cflags /\ exists program n bytes, re_program preg = Some program /\
     match_length program = Some n /\ al_holds h (re_block preg) bytes /\ program_bytes program `prefix_of` bytes /\
     Z.of_nat (length bytes) <= HEAP_LIMIT).

(** A failure gives the block back. *)
Lemma fail_post {A : Type} `{AllocatorLaws A} cflags (c : re_compiler A) e : cinv c -> e <> 0 ->
  exists h preg e', Some (regcomp_fail c e) = Some (h, preg, e') /\ regcomp_post cflags h preg e'.
Proof.
  intros (_ & _ & bytes & Hb & _) He. do 3 eexists. split; [reflexivity|]. left. split; [done|]. split; [done|].
  exists []. exact (free_ok _ _ _ Hb).
Qed.

Lemma regcomp_total {A : Type} `{AllocatorLaws A} (heap : A) regex cflags : al_ok heap 0 ->
  exists h preg e, regcomp heap regex cflags = Some (h, preg, e) /\ regcomp_post cflags h preg e.
Proof.
  intros Hok. unfold regcomp. set (c0 := Compiler [] 0 regex (flag cflags REG_EXTENDED) 0 0 0 heap).
  assert (cinv c0) as I0 by (by apply cinv_start).
  destruct (save_ext c0 c0 (fun _ => 0) (ext_refl c0 I0)) as (c1 & i & -> & X1 & _).
  assert (forall c : re_compiler A, truthy (c_error c) = true -> c_error c <> 0) as Ht
    by (intros c; unfold truthy; destruct (Z.eqb_spec (c_error c) 0); done).
  destruct (i <? 0); [by apply fail_post; [apply X1|]|].
  destruct (compile_total (compile_fuel regex)) as [Halt _].
  destruct (Halt c1 false) as (c2 & -> & X2); [apply X1| |].
  { destruct X1 as (_ & _ & L & _). unfold cur, compile_fuel. cbn in L. lia. }
  cbn [mbind option_bind].
  set (c3 := if _ && _ then _ else c2).
  assert (cinv c3) as I3 by (subst c3; destruct (_ && _); [apply set_error_cinv|]; apply X2).
  destruct (truthy (c_error c3)) eqn:E3; [apply fail_post; [done|by apply Ht]|].
  destruct (save_ext c3 c3 (fun _ => 1) (ext_refl c3 I3)) as (c4 & j & -> & X4 & _).
  destruct (j <? 0); [by apply fail_post; [apply X4|]|].
  destruct (re_emit_spec c4 RE_MATCH) as (c5 & k & -> & _ & I5 & D5); [apply X4|].
  destruct D5 as [(-> & _ & _)|(-> & _ & P5)]; [by apply fail_post|].
  unfold c_length. destruct (Z.ltb_spec (Z.of_nat (length (c_program c4))) 0); [lia|].
  destruct I5 as (_ & K5 & bytes & Hb & Hn & Hp). do 3 eexists. split; [reflexivity|]. right. split; [done|]. split; [done|].
  destruct (match_length_last (c_program c4) (set_op RE_MATCH zero_inst) eq_refl) as [n E].
  exists (c_program c5), n, bytes. split; [done|]. split; [by rewrite P5|]. split; [exact Hb|]. split; [exact Hp|]. by rewrite Hn.
Qed.

(** ** Claims *)

(** C4: [regexec] returns, touches no word outside its two arrays, and is
    right about the program: it reports a match exactly when some path from
    some start position reaches RE_MATCH, takes the leftmost such start,
    stores in [pmatch] the captures along an accepting path, and otherwise
    leaves [pmatch] alone.  It needs every capture slot to exist, the state
    count to fit a [size_t], and an array that does not happen to hold the
    generations it is about to use. *)
Theorem regexec_correct {A : Type} `{Allocator A} (dirty : Z -> nat -> list Z) (heap : A) preg whole plen text nmatch pmatch eflags :
  re_program preg = Some whole -> match_length whole = Some plen ->
  0 <= re_nsub preg < 2 ^ 28 -> slots_ok (take plen whole) (Z.to_nat (2 * (re_nsub preg + 1))) ->
  states_fit (take plen whole) text ->
  (forall p n, length (dirty p n) = n /\ clean 0 (S (length text)) (dirty p n)) ->
  0 <= nmatch -> (forall l, pmatch = Some l -> nmatch <= Z.of_nat (length l)) ->
  exists heap' result pmatch',
    regexec dirty heap preg text nmatch pmatch eflags = Some (heap', result, pmatch') /\
    regexec_post (take plen whole) (re_nsub preg) (re_cflags preg) text nmatch pmatch eflags result pmatch'.
Proof. apply regexec_post_holds. Qed.

(** A cleared array. *)
Definition zeroed (p : Z) (n : nat) : list Z := replicate n 0.

Lemma zeroed_clean n : forall p k, length (zeroed p k) = k /\ clean 0 n (zeroed p k).
Proof.
  intros p k. split; [apply length_replicate|]. intros j e Hj. unfold zeroed in Hj.
  apply lookup_replicate in Hj as [-> _]. lia.
Qed.

(** [(ab)+] in extended syntax, on "xababy". *)
Definition plus_regex : regex_t :=
  Regex (Some [save_inst 0; save_inst 2; char_inst 97; char_inst 98; save_inst 3;
    set_y 6 (set_x 1 (set_op RE_SPLIT zero_inst)); save_inst 1; set_op RE_MATCH zero_inst]) 1 1 1.

Lemma regexec_correct_witness :
  regcomp tt [40; 97; 98; 41; 43] 1 = Some (tt, plus_regex, 0) /\
  exists h r pm, regexec zeroed tt plus_regex [120; 97; 98; 97; 98; 121] 0 None 0 = Some (h, r, pm) /\
    regexec_post (take 8 match re_program plus_regex with Some p => p | None => [] end)
      1 1 [120; 97; 98; 97; 98; 121] 0 None 0 r pm.
Proof.
  split; [vm_compute; reflexivity|].
  apply (regexec_correct zeroed tt plus_regex _ 8 [120; 97; 98; 97; 98; 121] 0 None 0 eq_refl eq_refl).
  - split; vm_compute; congruence.
  - intros i Hi Hop. cbn in Hi. repeat (apply elem_of_cons in Hi as [->|Hi]; [cbn in Hop |- *; try discriminate; lia|]).
    by apply elem_of_nil in Hi.
  - vm_compute. reflexivity.
  - apply zeroed_clean.
  - lia.
  - discriminate.
Defined.

(** A pattern without operator characters, compiled and run, finds the
    leftmost occurrence of the pattern in the text (up to case with
    REG_ICASE) and reports its extent; it reports no match exactly when there
    is no occurrence.  The only other outcome is REG_ESPACE. *)
Theorem literal_search_correct {A : Type} `{AllocatorLaws A} (dirty : Z -> nat -> list Z) (heap : A) p cflags text nmatch pmatch eflags :
  al_ok heap 0 -> literal p -> 4 * ((Z.of_nat (length p) + 3) * (Z.of_nat (length text) + 1)) < 2 ^ 32 ->
  (forall p n, length (dirty p n) = n /\ clean 0 (S (length text)) (dirty p n)) ->
  0 <= nmatch -> (forall l, pmatch = Some l -> nmatch <= Z.of_nat (length l)) ->
  exists h preg e, regcomp heap p cflags = Some (h, preg, e) /\
    (e = REG_ESPACE \/ e = 0 /\
     exists h' result pmatch', regexec dirty h preg text nmatch pmatch eflags = Some (h', result, pmatch') /\
       (result = REG_ESPACE \/
        (result = REG_NOMATCH /\ forall s, 0 <= s <= text_length text -> ~ occurs cflags p text s) \/
        (result = 0 /\ exists s, occurs cflags p text s /\ (forall s', 0 <= s' < s -> ~ occurs cflags p text s') /\
           (flag cflags REG_NOSUB = false -> 0 < nmatch -> forall old, pmatch = Some old ->
              exists new, pmatch' = Some new /\ new !! 0%nat = Some (Regmatch s (s + Z.of_nat (length p))))))).
Proof.
  intros Hok Hl Hfit Hd Hn Hnm.
  destruct (regcomp_literal heap p cflags Hok Hl) as [[h E]|(h & b & E)]; [do 3 eexists; split; [exact E|by left]|].
  do 3 eexists. split; [exact E|]. right. split; [done|].
  pose proof (literal_match_length p) as Em.
  assert (take (length p + 3) (literal_program p) = literal_program p) as Et.
  { apply take_ge. unfold literal_program. cbn [length]. rewrite length_app, length_map. cbn [length]. lia. }
  destruct (regexec_post_holds dirty h (Regex (Some (literal_program p)) b 0 cflags) (literal_program p) (length p + 3)%nat
    text nmatch pmatch eflags eq_refl Em) as (h' & r & pm & Er & P); try done.
  - rewrite Et. intros i Hi Hop. cbn [re_nsub]. change (Z.of_nat (Z.to_nat (2 * (0 + 1)))) with 2.
    unfold literal_program in Hi. apply elem_of_cons in Hi as [->|Hi]; [done|].
    apply elem_of_app in Hi as [Hi|Hi]; [apply list_elem_of_fmap in Hi as (ch & -> & _); done|].
    apply elem_of_cons in Hi as [->|Hi]; [done|]. apply elem_of_cons in Hi as [->|Hi]; [done|by apply elem_of_nil in Hi].
  - rewrite Et. unfold states_fit, states. pose proof (literal_length p) as HL. unfold program_length in HL. nia.
  - exists h', r, pm. split; [exact Er|]. rewrite Et in P. cbn [re_nsub re_cflags] in P.
    unfold regexec_post in P. change (Z.to_nat (2 * (0 + 1))) with 2%nat in P.
    destruct P as [(-> & _)|[(-> & _ & Hno)|(-> & s & caps & Hs & Hm & Hno & Hpm)]]; [by left|right; left|right; right].
    + split; [done|]. intros s Hs. apply (literal_no_match p text cflags eflags s Hs). by apply Hno.
    + apply literal_match_at in Hm as [Ho ->]; [|done]. split; [done|]. exists s. split; [done|]. split.
      * intros s' Hs'. apply (literal_no_match p text cflags eflags s'); [lia|]. by apply Hno.
      * intros Hns Hpos old ->. rewrite Hns in Hpm. destruct pm as [new|]; [|done]. exists new. split; [done|].
        destruct Hpm as [_ Hk]. rewrite Hk. by rewrite decide_True by lia.
Qed.

Lemma literal_search_correct_witness :
  literal [97; 98] /\ exists h preg e, regcomp tt [97; 98] 0 = Some (h, preg, e) /\ (e = REG_ESPACE \/ e = 0).
Proof.
  assert (literal [97; 98]) as Hl.
  { repeat constructor; intros Hin; unfold operators in Hin; repeat (apply elem_of_cons in Hin as [Hin|Hin]; [discriminate|]);
      by apply elem_of_nil in Hin. }
  split; [exact Hl|].
  destruct (literal_search_correct zeroed tt [97; 98] 0 [120; 97; 98] 0 None 0 (quota_ok tt 0) Hl) as (h & preg & e & E & D).
  - vm_compute. reflexivity.
  - apply zeroed_clean.
  - lia.
  - discriminate.
  - exists h, preg, e. split; [exact E|]. destruct D as [->|[-> _]]; [by left|by right].
Defined.

(** C8: [regcomp] returns for every pattern and flag word, on any allocator
    that keeps its contract: with an error code, a cleared [regex_t] and the
    compiler's block given back, or with a program that fits the heap, contains
    the RE_MATCH [regexec] scans for, and stands byte for byte at the start of
    the one block the [regex_t] owns, which [regfree] gives back. *)
Theorem regcomp_returns {A : Type} `{AllocatorLaws A} (heap : A) regex cflags (Hok : al_ok heap 0) :
  exists h preg e, regcomp heap regex cflags = Some (h, preg, e) /\ al_ok h (re_block preg) /\
    al_ok (fst (regfree h preg)) 0 /\
    (e <> 0 /\ preg = regex_cleared \/
     e = 0 /\ re_cflags preg = cflags /\ exists program n bytes, re_program preg = Some program /\
       match_length program = Some n /\ Z.of_nat (length program) * sizeof_inst <= HEAP_LIMIT /\
       al_holds h (re_block preg) bytes /\ program_bytes program `prefix_of` bytes).
Proof.
  destruct (regcomp_total heap regex cflags Hok) as (h & preg & e & E & [(He & -> & Ha)|(-> & Hc & program & n & bytes & Hp & Hn & Hb & Hpre & Hl)]);
    exists h; eexists _, _; (split; [exact E|]).
  - split; [exact Ha|]. split; [destruct Ha as [c Hc]; exists []; by apply (free_ok h 0 c)|by left].
  - split; [by exists bytes|]. split; [exists []; by apply (free_ok h _ bytes)|]. right. split; [done|]. split; [done|].
    exists program, n, bytes. split; [done|]. split; [done|]. split; [|done].
    apply prefix_length in Hpre. rewrite program_bytes_length in Hpre. unfold sizeof_inst. lia.
Qed.

Lemma regcomp_returns_witness : exists h preg e, regcomp tt [97; 98; 123; 50; 125] 1 = Some (h, preg, e).
Proof. destruct (regcomp_returns tt [97; 98; 123; 50; 125] 1 (quota_ok tt 0)) as (h & preg & e & E & _). by exists h, preg, e. Defined.

(** A starred literal character never matches anything: [regcomp] accepts
    [ch*] and compiles a loop whose exit is its own backward jump, so
    [regexec] reports no match for every text and every start position. *)
Theorem star_never_matches {A : Type} `{AllocatorLaws A} (heap : A) ch cflags h preg :
  al_ok heap 0 -> ch ∉ operators -> regcomp heap [ch; 42] cflags = Some (h, preg, 0) ->
  forall (dirty : Z -> nat -> list Z) text nmatch pmatch eflags,
    24 * (Z.of_nat (length text) + 1) < 2 ^ 32 ->
    (forall p n, length (dirty p n) = n /\ clean 0 (S (length text)) (dirty p n)) ->
    0 <= nmatch -> (forall l, pmatch = Some l -> nmatch <= Z.of_nat (length l)) ->
    exists h' result, regexec dirty h preg text nmatch pmatch eflags = Some (h', result, pmatch) /\
      (result = REG_NOMATCH \/ result = REG_ESPACE).
Proof.
  intros Hok Hch E dirty text nmatch pmatch eflags Hfit Hd Hn Hnm.
  destruct (regcomp_star heap ch cflags Hok Hch) as [[h1 E1]|(h1 & b & E1)]; rewrite E1 in E; [by inversion E|].
  injection E as <- <-.
  destruct (regexec_post_holds dirty h1 (Regex (Some (star_program ch)) b 0 cflags) (star_program ch) 6
    text nmatch pmatch eflags eq_refl eq_refl) as (h' & r & pm & Er & P); try done.
  - intros i Hi Hop. change (Z.of_nat _) with 2. cbn in Hi.
    repeat (apply elem_of_cons in Hi as [->|Hi]; [cbn in Hop |- *; try discriminate; lia|]). by apply elem_of_nil in Hi.
  - unfold states_fit, states. change (length (take 6 (star_program ch))) with 6%nat. lia.
  - change (take 6 (star_program ch)) with (star_program ch) in P.
    destruct P as [(-> & ->)|[(-> & -> & _)|(_ & s & caps & _ & Hm & _)]]; [eauto|eauto|].
    exfalso. by apply (star_stuck ch text cflags eflags 0 s _ _ Hm).
Qed.

Lemma star_never_matches_witness :
  regcomp tt [97; 42] 0 = Some (tt, Regex (Some (star_program 97)) 1 0 0, 0) /\
  exists h r, regexec zeroed tt (Regex (Some (star_program 97)) 1 0 0) [97; 97; 97] 0 None 0 = Some (h, r, None) /\
    (r = REG_NOMATCH \/ r = REG_ESPACE).
Proof.
  assert (regcomp tt [97; 42] 0 = Some (tt, Regex (Some (star_program 97)) 1 0 0, 0)) as E by (vm_compute; reflexivity).
  split; [exact E|].
  apply (star_never_matches tt 97 0 tt _ (quota_ok tt 0)) with (2 := E).
  - intros Hin. unfold operators in Hin. repeat (apply elem_of_cons in Hin as [Hin|Hin]; [discriminate|]).
    by apply elem_of_nil in Hin.
  - vm_compute. reflexivity.
  - apply zeroed_clean.
  - lia.
  - discriminate.
Defined.

(** A bracket expression of ranges, negated or not, parses to exactly the
    set of characters in one of the ranges (or in none), and the parser stops
    behind the closing bracket. *)
Theorem bracket_ranges_correct (negated : bool) rs rest : Forall range_ok rs -> rs <> [] ->
  exists s, parse_class ((if negated then [94] else []) ++ render rs ++ 93 :: rest) = Some (inl (s, rest)) /\
    forall c cflags, 0 <= c < 256 -> flag cflags REG_ICASE = false ->
      re_class_match s c cflags = xorb negated (in_ranges rs c).
Proof.
  intros Hr Hne. exists (ranges_set negated rs). split; [by apply parse_ranges|].
  intros c cflags Hc Hi. unfold re_class_match. rewrite Hi. cbn [andb]. by rewrite orb_false_r, ranges_set_has.
Qed.

(** [^a-z0-9] *)
Lemma bracket_ranges_correct_witness :
  Forall range_ok [(97, 122); (48, 57)] /\
  exists s, parse_class [94; 97; 45; 122; 48; 45; 57; 93; 43] = Some (inl (s, [43])) /\
    re_class_match s 53 0 = false.
Proof.
  assert (Forall range_ok [(97, 122); (48, 57)]) as Hr.
  { repeat constructor; cbn; try lia; intros Hin; repeat (apply elem_of_cons in Hin as [Hin|Hin]; [discriminate|]);
      by apply elem_of_nil in Hin. }
  split; [exact Hr|].
  destruct (bracket_ranges_correct true [(97, 122); (48, 57)] [43] Hr) as (s & E & H); [discriminate|].
  exists s. split; [exact E|]. rewrite (H 53 0); [reflexivity|lia|reflexivity].
Defined.

(** What a whole [regcomp]/[regexec] pair reports with a sufficient heap:
    [None] for an access outside the arrays. *)
Definition search (pattern text : string) (cflags : Z) : option (Z * list regmatch_t) :=
  '(h, preg, e) ← regcomp tt (bytes pattern) cflags;
  if e =? 0 then
    '(h, r, pm) ← regexec zeroed h preg (bytes text) 1 (Some [Regmatch (-7) (-7)]) 0;
    Some (r, match pm with Some l => l | None => [] end)
  else Some (e, []).

(** The faults of the matcher, told apart from exhausted fuel. *)
Definition faults (pattern text : string) (cflags : Z) : Prop :=
  exists h preg program, regcomp tt (bytes pattern) cflags = Some (h, preg, 0) /\ re_program preg = Some program /\
    start_loop program cflags (bytes text) 0 (S (length (bytes text))) 0 0
      (replicate (Z.to_nat (capture_count (re_nsub preg))) 0)
      (replicate (length program * (length (bytes text) + 1)) 0) = ExecFault.

(** Concrete departures of the compiler from the syntax it accepts.
    Optional groups store a capture outside the array (inserting the SPLIT
    shifts the capture numbers); an alternation matches the empty string when
    its alternatives fail; an optional atom behind another one is mandatory
    when the first is skipped; a named class holds only the first of its
    ranges; negated escapes match everything; a basic-syntax interval is
    rejected; and an unbounded interval never matches.  The generation array
    comes from [malloc] uncleared, so a second search whose array reuses the
    block of the first sees its marks and misses the match the first found. *)
Theorem regcomp_departures :
  faults "(a)?b" "ab" REG_EXTENDED /\
  search "cat|dog" "hotdog" REG_EXTENDED = Some (0, [Regmatch 0 0]) /\
  search "^b?a?$" "" REG_EXTENDED = Some (REG_NOMATCH, [Regmatch (-7) (-7)]) /\
  search "[[:alpha:]]" "A" REG_EXTENDED = Some (REG_NOMATCH, [Regmatch (-7) (-7)]) /\
  search "\W" "A" REG_EXTENDED = Some (0, [Regmatch 0 1]) /\
  search "a\{2\}" "aa" 0 = Some (REG_BADBR, []) /\
  search "a{2,}" "aaa" REG_EXTENDED = Some (REG_NOMATCH, [Regmatch (-7) (-7)]) /\
  exists captures generations captures' generations',
    start_loop (literal_program [97]) 0 [97] 0 2 0 0 [0; 0] (replicate 8 0) = ExecRet 0 captures generations /\
    start_loop (literal_program [97]) 0 [97] 0 2 0 0 [0; 0] generations = ExecRet REG_NOMATCH captures' generations'.
Proof.
  split.
  - unfold faults. do 3 eexists. split; [vm_compute; reflexivity|]. split; [reflexivity|]. vm_compute. reflexivity.
  - do 6 (split; [vm_compute; reflexivity|]). do 4 eexists. split; vm_compute; reflexivity.
Qed.

(** The string a buffer holds: the bytes before the first zero. *)
Fixpoint until_nul (l : list Z) : list Z :=
  match l with
  | [] => []
  | c :: l => if c =? 0 then [] else c :: until_nul l
  end.

Lemma until_nul_take n l m : Forall (fun c => c <> 0) l ->
  until_nul (take n (l ++ replicate m 0) ++ [0]) = take n l.
Proof.
  revert n m. induction l as [|c l IH]; intros n m Hl.
  - cbn [app]. rewrite take_nil. destruct n, m; done.
  - inversion Hl as [|? ? Hc Hl']; subst. destruct n as [|n]; [done|]. cbn [app take until_nul].
    destruct (Z.eqb_spec c 0); [done|]. by rewrite IH.
Qed.

(** The message of an error code. *)
Definition message_of (errcode : Z) : list Z :=
  bytes (match messages !! Z.to_nat errcode with
         | Some m => if errcode <? 0 then "Unknown regular expression error"%string else m
         | None => "Unknown regular expression error"%string
         end).

Lemma message_nonzero errcode : Forall (fun c => c <> 0) (message_of errcode).
Proof.
  unfold message_of. destruct (messages !! Z.to_nat errcode) as [m|] eqn:E; [|repeat constructor; done].
  destruct (errcode <? 0); [repeat constructor; done|].
  assert (Forall (fun m => Forall (fun c => c <> 0) (bytes m)) messages) as H by (repeat constructor; done).
  exact (Forall_lookup_1 _ _ _ _ H E).
Qed.

(** [regerror] returns the size the message of the code needs with its
    NUL, whatever the code, and fills the buffer with as much of the message
    as fits, always NUL terminated within the given size. *)
Theorem regerror_correct errcode buf size (Hs : 0 < size) :
  exists out, regerror errcode (Some buf) size = (Z.of_nat (length (message_of errcode)) + 1, Some out) /\
    Z.of_nat (length out) = size /\ until_nul out = take (Z.to_nat (size - 1)) (message_of errcode).
Proof.
  assert (bytes (if (errcode <? 0) || (Z.of_nat (length messages) <=? errcode)
           then "Unknown regular expression error"%string
           else nth (Z.to_nat errcode) messages ""%string) = message_of errcode) as E.
  { unfold message_of. change (Z.of_nat (length messages)) with 13.
    destruct (Z.ltb_spec errcode 0); cbn [orb]; [destruct (messages !! _); done|].
    destruct (Z.leb_spec 13 errcode).
    - rewrite lookup_ge_None_2 by (cbn; lia). done.
    - rewrite nth_lookup. destruct (messages !! Z.to_nat errcode) eqn:E; [done|].
      apply lookup_ge_None in E. cbn in E. lia. }
  unfold regerror. rewrite E. destruct (Z.ltb_spec 0 size); [|lia].
  eexists. split; [reflexivity|]. split.
  - rewrite length_app, length_take, length_app, length_replicate. cbn [length]. lia.
  - apply until_nul_take, message_nonzero.
Qed.

Lemma regerror_correct_witness : exists out, regerror 12 (Some []) 7 = (14, Some out) /\
  Z.of_nat (length out) = 7 /\ until_nul out = bytes "Out of".
Proof. exact (regerror_correct 12 [] 7 eq_refl). Defined.
