(* ===== verification/RegexHeap.v ===== *)
(** * The regular expressions on the real heap

    The heap of [lib/libc_stdlib.c] keeps the contract the pattern compiler
    asks of its allocator, so that [regcomp_returns] holds on it, with what
    the contract means there: the allocations of the rest of the program. *)

From stdpp Require Import gmap.
From S2P Require Import Prelude Heap HeapInv HeapOps HeapClaims Regex RegexVM RegexVMCorrect RegexCompile RegexClaims.

Section instance.
Context (g_heap : Z).

(** The operations on a heap whose searches end. *)
Definition total {R : Type} (r : option R) (default : R) : R := match r with Some x => x | None => default end.

#[local] Instance heap_allocator : Allocator heap := {|
  al_malloc h n := total (malloc g_heap h n) (h, 0);
  al_realloc h p n := total (realloc g_heap h p n) (h, 0);
  al_free h p := total (free g_heap h p) h;
  al_store h p i bytes := set_mem h (store_bytes (h_mem h) (p + i) bytes);
|}.

(** The client owns [p], with the contents [c], besides the allocations [A]. *)
Definition owned (A : gmap Z (list Z)) (h : heap) (p : Z) (c : list Z) : Prop :=
  if p =? 0 then c = [] /\ represents g_heap h A
  else A !! p = None /\ represents g_heap h (<[p := c]> A).

Lemma owned_null A h c : owned A h 0 c -> c = [].
Proof. by intros [-> _]. Qed.

Lemma owned_realloc A h p c n : owned A h p c -> 0 < n < 2 ^ 32 - 2 ^ 20 -> exists h' r, realloc g_heap h p n = Some (h', r) /\
  (r = 0 /\ owned A h' p c \/
   r <> 0 /\ exists c', owned A h' r c' /\ Z.of_nat (length c') = n /\ (forall i v, c !! i = Some v -> Z.of_nat i < n -> c' !! i = Some v) /\
     exists B, represents g_heap h' (<[r := c']> B)).
Proof.
  unfold owned. intros Ho Hn. destruct (Z.eqb_spec p 0) as [->|Hp].
  - destruct Ho as [-> Ho]. destruct (realloc_sim g_heap h A 0 n Ho) as (h' & r & A' & E & HS & Hr); [split; [unfold size_ok; lia|by left]|].
    exists h', r. split; [exact E|]. cbn in HS. destruct HS as [[-> ->]|(new & Hl & (Hr0 & Hnone & _) & _ & ->)]; [by left|right].
    split; [done|]. exists new. destruct (Z.eqb_spec r 0); [done|]. split; [done|]. split; [done|]. split; [done|]. by exists A.
  - destruct Ho as [Hnone Ho].
    destruct (realloc_sim g_heap h (<[p := c]> A) p n Ho) as (h' & r & A' & E & HS & Hr);
      [split; [unfold size_ok; lia|right; rewrite lookup_insert_eq; by eexists]|].
    exists h', r. split; [exact E|]. unfold spec in HS. destruct (Z.eqb_spec p 0); [done|]. destruct (Z.eqb_spec n 0); [lia|].
    destruct HS as [[-> ->]|(old & new & Eold & Hl & (Hr0 & Hnew & _) & Hk & ->)]; [by left|right].
    rewrite lookup_insert_eq in Eold. injection Eold as <-. rewrite delete_insert_id in Hnew, Hr by done.
    split; [done|]. exists new. destruct (Z.eqb_spec r 0); [done|]. split; [done|]. split; [done|]. split; [done|]. by exists A.
Qed.

(** No allocation is larger than the array. *)
Lemma represented_size h B r c : represents g_heap h (<[r := c]> B) -> Z.of_nat (length c) <= HEAP_SIZE.
Proof.
  intros (l & Hi & Ho & _). destruct (Ho r c (lookup_insert_eq _ _ _)) as (b & [Hb _]%elem_of_live & _ & Hc & _).
  destruct Hi as (Hg & _ & He & _ & Hseg & _). destruct (seg_bound _ _ _ _ _ _ Hseg Hb) as (? & Hend & _).
  unfold b_end, sizeof_block in *. lia.
Qed.

Definition heap_laws (A : gmap Z (list Z)) : AllocatorLaws heap.
Proof.
  refine {| al_holds := owned A |}.
  - intros h c. apply owned_null.
  - intros h p c n Ho Hn. destruct (owned_realloc A h p c n Ho Hn) as (h' & r & E & D). cbn. rewrite E. cbn [total].
    destruct D as [D|(Hr & c' & Ho' & Hl & Hk & _)]; [by left|right]. split; [done|]. by exists c'.
  - intros h p c Ho. cbn. unfold owned in *. destruct (Z.eqb_spec p 0) as [Hp|Hp]; (split; [done|]).
    + rewrite Hp. apply Ho.
    + destruct Ho as [Hnone Ho]. destruct (free_sim g_heap h (<[p := c]> A) p Ho) as (h' & E & Hr);
        [right; rewrite lookup_insert_eq; by eexists|]. rewrite E. cbn [total].
      by rewrite delete_insert_id in Hr.
  - intros h p c i bytes Ho Hl Hb. cbn. unfold owned in *. destruct (p =? 0).
    + destruct Ho as [-> Ho]. destruct bytes as [|v bytes]; [rewrite overwritten_nil; by destruct h|]. cbn in Hl. specialize (Hl ltac:(done)). lia.
    + destruct Ho as [Hnone Ho]. split; [done|]. by apply store_sim.
  - intros h p c n Ho Hn. unfold HEAP_LIMIT in Hn. destruct (owned_realloc A h p c n Ho) as (h' & r & E & D); [lia|].
    cbn. rewrite E. cbn [total snd]. destruct D as [[-> _]|(_ & c' & _ & Hl & _ & B & Hr)]; [done|].
    apply represented_size in Hr. unfold HEAP_SIZE in Hr. lia.
Defined.
End instance.

(** ** The matcher's two arrays *)

Section matching.
Context (g_heap : Z).
#[local] Instance matcher_allocator : Allocator heap := heap_allocator g_heap.

(** An allocation that worked is taken back by [free]; one that failed is
    nothing. *)
Lemma malloc_step A h n : represents g_heap h A -> size_ok n ->
  exists h' r, al_malloc h n = (h', r) /\
    (r = 0 /\ represents g_heap h' A \/ r <> 0 /\ A !! r = None /\ exists c, represents g_heap h' (<[r := c]> A)).
Proof.
  intros Hr Hn. destruct (malloc_sim g_heap h A n Hr Hn) as (h' & r & A' & E & Hs & Hr'). exists h', r.
  split; [cbn; by rewrite E|]. destruct Hs as [[-> ->]|(new & _ & (Hne & Hf & _) & _ & ->)]; [by left|right; eauto].
Qed.

Lemma free_step A h p c : represents g_heap h (<[p := c]> A) -> A !! p = None -> represents g_heap (al_free h p) A.
Proof.
  intros Hr Hn. destruct (free_sim g_heap h (<[p := c]> A) p Hr) as (h' & E & Hr');
    [right; rewrite lookup_insert_eq; by eexists|]. cbn. rewrite E. cbn [total]. by rewrite delete_insert_id in Hr'.
Qed.

(** The arrays are gone when [regexec] returns. *)
Lemma regexec_heap dirty A h h' preg whole plen text nmatch pmatch eflags r pm : represents g_heap h A ->
  re_program preg = Some whole -> match_length whole = Some plen -> 0 <= re_nsub preg < 2 ^ 28 ->
  4 * (Z.of_nat plen * (Z.of_nat (length text) + 1)) < 2 ^ 32 - 16 ->
  regexec dirty h preg text nmatch pmatch eflags = Some (h', r, pm) -> represents g_heap h' A.
Proof.
  intros Hr Hp Hm Hsub Hfit E. unfold regexec in E. rewrite Hp, Hm in E. cbn [mbind option_bind] in E.
  pose proof (match_length_bound _ _ Hm) as Hpl.
  rewrite (u32_small (Z.of_nat (length text) + 1)) in E by nia.
  rewrite (u32_small (Z.of_nat plen * _)) in E by nia. rewrite (u32_small (Z.of_nat plen * _ * 4)) in E by lia.
  unfold capture_count in E. rewrite (u32_small (re_nsub preg + 1)), (u32_small ((re_nsub preg + 1) * 2)) in E by lia.
  rewrite (u32_small ((re_nsub preg + 1) * 2 * 4)) in E by lia.
  destruct (malloc_step A h ((re_nsub preg + 1) * 2 * 4) Hr) as (h1 & cp & E1 & D1); [unfold size_ok; lia|].
  rewrite E1 in E. destruct D1 as [[-> R1]|(Hcp & N1 & c1 & R1)].
  - destruct (malloc_step A h1 (Z.of_nat plen * (Z.of_nat (length text) + 1) * 4) R1) as (h2 & gp & E2 & D2); [unfold size_ok; lia|].
    rewrite E2 in E. cbn [Z.eqb orb] in E. injection E as <- _ _.
    destruct D2 as [[-> R2]|(Hgp & N2 & c2 & R2)]; [done|]. destruct (Z.eqb_spec gp 0); [done|]. by eapply free_step.
  - destruct (malloc_step _ h1 (Z.of_nat plen * (Z.of_nat (length text) + 1) * 4) R1) as (h2 & gp & E2 & D2); [unfold size_ok; lia|].
    rewrite E2 in E. destruct (Z.eqb_spec cp 0); [done|]. cbn [orb] in E.
    destruct D2 as [[-> R2]|(Hgp & N2 & c2 & R2)].
    + cbn [Z.eqb] in E. injection E as <- _ _. by eapply free_step.
    + destruct (Z.eqb_spec gp 0); [done|].
      assert (represents g_heap (al_free (al_free h2 cp) gp) A) as Hout.
      { apply lookup_insert_None in N2 as [N2 Hne]. rewrite insert_insert_ne in R2 by done.
        eapply free_step; [eapply free_step; [exact R2|]|done]. by rewrite lookup_insert_ne. }
      destruct (start_loop _ _ _ _ _ _ _ _ _) as [| |res caps gens]; [done|done|].
      by injection E as <- _ _.
Qed.
End matching.

(** C7: on the heap of the library, [regcomp], [regexec] and [regfree] leak
    nothing and touch no other allocation, where every instruction that the
    compiler writes, moves or patches is stored in the bytes of the heap:
    [regcomp] returns for every pattern; a failure leaves exactly the
    allocations there were, with their contents; a success adds the one block
    of the [regex_t], which begins with the bytes of the program; [regexec]
    returns, its two arrays freed on every path, and [regfree] then leaves the
    allocations there were before [regcomp].  What is said of [regexec] needs
    every capture slot of the program to exist, the size of its mark array to
    fit, and arrays that do not happen to hold the marks it is about to use. *)
Theorem regcomp_on_heap g_heap h A regex cflags (HR : represents g_heap h A) :
  exists h' preg e, @regcomp heap (heap_allocator g_heap) h regex cflags = Some (h', preg, e) /\
    (e <> 0 -> preg = regex_cleared /\ represents g_heap h' A) /\
    (e = 0 -> represents g_heap (fst (@regfree heap (heap_allocator g_heap) h' preg)) A /\
       (exists whole plen c, re_program preg = Some whole /\ match_length whole = Some plen /\ re_block preg <> 0 /\
          A !! re_block preg = None /\ represents g_heap h' (<[re_block preg := c]> A) /\ program_bytes whole `prefix_of` c) /\
       forall dirty whole plen text nmatch pmatch eflags,
         re_program preg = Some whole -> match_length whole = Some plen -> 0 <= re_nsub preg < 2 ^ 28 ->
         slots_ok (take plen whole) (Z.to_nat (2 * (re_nsub preg + 1))) ->
         4 * (Z.of_nat plen * (Z.of_nat (length text) + 1)) < 2 ^ 32 - 16 ->
         (forall p n, length (dirty p n) = n /\ clean 0 (S (length text)) (dirty p n)) ->
         0 <= nmatch -> (forall l, pmatch = Some l -> nmatch <= Z.of_nat (length l)) ->
         exists h2 result pmatch', @regexec heap (heap_allocator g_heap) dirty h' preg text nmatch pmatch eflags = Some (h2, result, pmatch') /\
           represents g_heap (fst (@regfree heap (heap_allocator g_heap) h2 preg)) A).
Proof.
  destruct (@regcomp_total heap (heap_allocator g_heap) (heap_laws g_heap A) h regex cflags) as (h' & preg & e & E & D);
    [exists []; by split|].
  exists h', preg, e. split; [exact E|].
  destruct D as [(He & -> & [c Ho])|(-> & _ & program & n & c & Hprog & Hmatch & Ho & Hpre & _)].
  { split; [|done]. intros _. split; [done|]. apply Ho. }
  split; [done|]. intros _. change (owned g_heap A h' (re_block preg) c) in Ho.
  assert (re_block preg <> 0) as Hb.
  { intros Eb. rewrite Eb in Ho. apply owned_null in Ho. subst c. apply prefix_nil_inv, (f_equal length) in Hpre.
    rewrite program_bytes_length in Hpre. destruct program; [done|cbn in Hpre; lia]. }
  assert (forall h2, represents g_heap h2 (<[re_block preg := c]> A) ->
    represents g_heap (fst (@regfree heap (heap_allocator g_heap) h2 preg)) A) as Hfree.
  { intros h2 Hr2. refine (proj2 (@free_ok heap (heap_allocator g_heap) (heap_laws g_heap A) h2 (re_block preg) c _)).
    unfold owned in *. cbn. unfold owned. destruct (Z.eqb_spec (re_block preg) 0); [done|]. by split; [apply Ho|]. }
  unfold owned in Ho. destruct (Z.eqb_spec (re_block preg) 0); [done|]. destruct Ho as [Hnone Ho].
  split; [by apply Hfree|]. split; [by exists program, n, c|].
  intros dirty whole plen text nmatch pmatch eflags Hw Hm Hsub Hslots Hfit Hd Hn Hnm.
  destruct (@regexec_post_holds heap (heap_allocator g_heap) dirty h' preg whole plen text nmatch pmatch eflags Hw Hm Hsub Hslots)
    as (h2 & r & pm & Er & _); [|done..|].
  { unfold states_fit, states. rewrite length_take. pose proof (match_length_bound _ _ Hm). nia. }
  exists h2, r, pm. split; [exact Er|]. apply Hfree. by eapply regexec_heap.
Qed.

Lemma regcomp_on_heap_witness : exists h' preg e,
  @regcomp heap (heap_allocator 65536) (heap_initial 65536) [97; 98; 124; 99] 1 = Some (h', preg, e) /\
  (e <> 0 -> preg = regex_cleared /\ represents 65536 h' ∅).
Proof.
  destruct (regcomp_on_heap 65536 (heap_initial 65536) ∅ [97; 98; 124; 99] 1) as (h' & preg & e & E & H & _).
  - apply initial_represents; reflexivity.
  - exists h', preg, e. split; [exact E|exact H].
Defined.
