(* ===== verification/RegexPattern.v ===== *)
(** * Patterns: syntax and code

    The abstract syntax of the extended-syntax patterns the compiler treats as
    their notation says, how they are written, and the code of each, with its
    jump targets, as the compiler lays it out.  Code moves: relocating the
    operands of a block gives the block of the new place. *)

From S2P Require Import Prelude Ctype Regex RegexVM RegexVMCorrect RegexCompile RegexLiteral RegexClass.

(** ** Syntax *)

(** What stands for one character or one position. *)
Inductive single : Type :=
| SChar (c : Z)                               (* a plain character *)
| SEscape (c : Z)                             (* a backslash and [c] *)
| SAny                                        (* . *)
| SRanges (negated : bool) (rs : list (Z * Z)) (* a bracket expression *)
| SSimple (kind : Z)                          (* \w \d \s *)
| SBol | SEol                                 (* ^ $ *)
| SWord (inside : bool).                      (* \b and, for [false], \B *)

(** Quantifiers; the bounds are written in decimal. *)
Inductive quant : Type :=
| Once | Optional | Repeated
| Times (digits : list Z)
| Between (low high : list Z).

(** A sequence of quantified items; the groups capture or not. *)
Inductive pattern : Type :=
| PNil
| PSingle (s : single) (q : quant) (rest : pattern)
| PGroup (capture : bool) (body : pattern) (q : quant) (rest : pattern).

Definition render_single (s : single) : list Z :=
  match s with
  | SChar c => [c]
  | SEscape c => [92; c]
  | SAny => [46]
  | SRanges negated rs => 91 :: (if negated then [94] else []) ++ render rs ++ [93]
  | SSimple kind => [92; kind]
  | SBol => [94]
  | SEol => [36]
  | SWord inside => [92; if inside then 98 else 66]
  end.

Definition render_quant (q : quant) : list Z :=
  match q with
  | Once => []
  | Optional => [63]
  | Repeated => [43]
  | Times ds => 123 :: ds ++ [125]
  | Between low high => 123 :: low ++ 44 :: high ++ [125]
  end.

Fixpoint render_pattern (p : pattern) : list Z :=
  match p with
  | PNil => []
  | PSingle s q rest => render_single s ++ render_quant q ++ render_pattern rest
  | PGroup capture body q rest =>
      40 :: (if capture then [] else [63; 58]) ++ render_pattern body ++ 41 :: render_quant q ++ render_pattern rest
  end.

(** The value of a run of digits. *)
Definition decimal (ds : list Z) : Z := fold_left (fun v d => v * 10 + (d - 48)) ds 0.

(** What an escaped character stands for. *)
Definition escaped (c : Z) : Z :=
  if c =? 110 then 10 else if c =? 116 then 9 else if c =? 114 then 13
  else if c =? 102 then 12 else if c =? 118 then 11 else if c =? 97 then 7 else c.

(** The number of capturing groups. *)
Fixpoint groups (p : pattern) : Z :=
  match p with
  | PNil => 0
  | PSingle _ _ rest => groups rest
  | PGroup capture body _ rest => b2z capture + groups body + groups rest
  end.

(** ** Code *)

Definition op_inst (op : re_op) : re_inst := set_op op zero_inst.
Definition split_inst (x y : Z) : re_inst := set_y y (set_x x (op_inst RE_SPLIT)).

Definition single_inst (s : single) : re_inst :=
  match s with
  | SChar c => char_inst c
  | SEscape c => char_inst (escaped c)
  | SAny => op_inst RE_ANY
  | SRanges negated rs => set_set (ranges_set negated rs) (op_inst RE_CLASS)
  | SSimple kind => set_set (simple_set kind) (op_inst RE_CLASS)
  | SBol => op_inst RE_BOL
  | SEol => op_inst RE_EOL
  | SWord inside => op_inst (if inside then RE_WORDB else RE_NOT_WORDB)
  end.

(** [n] copies of a block of [len] instructions that depends on its place. *)
Fixpoint copies (f : Z -> list re_inst) (len start : Z) (n : nat) : list re_inst :=
  match n with
  | O => []
  | S n => f start ++ copies f len (start + len) n
  end.

(** [n] copies, each behind a SPLIT that can skip it. *)
Definition optional_block (f : Z -> list re_inst) (len start : Z) : list re_inst :=
  split_inst (start + 1) (start + 1 + len) :: f (start + 1).

(** The bounds of a counted repetition. *)
Definition low_bound (q : quant) : nat :=
  match q with
  | Once | Repeated => 1
  | Optional => 0
  | Times ds => Z.to_nat (decimal ds)
  | Between low _ => Z.to_nat (decimal low)
  end.

(** The copies that can be skipped. *)
Definition spare (q : quant) : nat :=
  match q with
  | Once | Repeated | Times _ => 0
  | Optional => 1
  | Between low high => Z.to_nat (decimal high - decimal low)
  end.

Definition quant_code (q : quant) (f : Z -> list re_inst) (len start : Z) : list re_inst :=
  match q with
  | Repeated => f start ++ [split_inst start (start + len + 1)]
  | _ =>
      copies f len start (low_bound q) ++
      copies (optional_block f len) (1 + len) (start + len * Z.of_nat (low_bound q)) (spare q)
  end.

Definition quant_size (q : quant) (len : Z) : Z :=
  match q with
  | Repeated => len + 1
  | _ => len * Z.of_nat (low_bound q) + (1 + len) * Z.of_nat (spare q)
  end.

Fixpoint size (p : pattern) : Z :=
  match p with
  | PNil => 0
  | PSingle _ q rest => quant_size q 1 + size rest
  | PGroup capture body q rest => quant_size q (size body + 2 * b2z capture) + size rest
  end.

Definition group_size (capture : bool) (body : pattern) : Z := size body + 2 * b2z capture.

(** A group: [body] is its code by place and number of groups before. *)
Definition group_code (capture : bool) (body : Z -> Z -> list re_inst) (g start : Z) : list re_inst :=
  if capture then save_inst (2 * (g + 1)) :: body (start + 1) (g + 1) ++ [save_inst (2 * (g + 1) + 1)]
  else body start g.

(** The code of [p] at [start], behind [g] groups. *)
Fixpoint code (p : pattern) (start g : Z) : list re_inst :=
  match p with
  | PNil => []
  | PSingle s q rest =>
      quant_code q (fun _ => [single_inst s]) 1 start ++ code rest (start + quant_size q 1) g
  | PGroup capture body q rest =>
      quant_code q (group_code capture (code body) g) (group_size capture body) start ++
      code rest (start + quant_size q (group_size capture body)) (g + b2z capture + groups body)
  end.

(** The whole program. *)
Definition pattern_program (p : pattern) : list re_inst :=
  save_inst 0 :: code p 1 0 ++ [save_inst 1; op_inst RE_MATCH].

(** ** Which patterns

    Inserting the SPLIT of an optional item shifts every operand that is at
    least the item's place: the exits of loops that end there, and the numbers
    of the captures alike.  Copying a block moves the capture numbers that
    fall into the block.  The patterns below avoid both. *)

Definition digits_ok (ds : list Z) : Prop := ds <> [] /\ Forall (fun d => isdigit d = true) ds /\ decimal ds <= 10000.

Definition quant_ok (q : quant) : Prop :=
  match q with
  | Once | Optional | Repeated => True
  | Times ds => digits_ok ds /\ 1 <= decimal ds
  | Between low high => digits_ok low /\ digits_ok high /\ 1 <= decimal low <= decimal high
  end.

(** The letters that have a meaning behind a backslash, and the terminator. *)
Definition escape_letters : list Z := [0; 48; 119; 87; 115; 83; 100; 68; 98; 66].

Definition single_ok (s : single) : Prop :=
  match s with
  | SChar c => c ∉ operators
  | SEscape c => c ∉ escape_letters
  | SRanges _ rs => Forall range_ok rs /\ rs <> []
  | SSimple kind => kind ∈ [119; 100; 115]
  | _ => True
  end.

(** No operand of the program reaches its end. *)
Definition below_end (program : list re_inst) : Prop :=
  Forall (fun i => i_x i < program_length program /\ i_y i < program_length program) program.

Definition place_ok (q : quant) (before : list re_inst) : Prop :=
  match q with Optional => below_end before | _ => True end.

(** The numbers of the [count] captures of a group are below its place. *)
Definition captures_ok (q : quant) (count g start : Z) : Prop :=
  match q with
  | Once | Repeated => True
  | _ => count = 0 \/ 2 * (g + count) + 1 < start
  end.

(** [p] behind the instructions [before] and [g] groups. *)
Fixpoint pattern_ok (p : pattern) (before : list re_inst) (g : Z) : Prop :=
  let start := program_length before in
  match p with
  | PNil => True
  | PSingle s q rest =>
      single_ok s /\ quant_ok q /\ place_ok q before /\
      pattern_ok rest (before ++ quant_code q (fun _ => [single_inst s]) 1 start) g
  | PGroup capture body q rest =>
      (capture = true -> groups body = 0) /\
      pattern_ok body (before ++ if capture then [save_inst (2 * (g + 1))] else []) (g + b2z capture) /\
      quant_ok q /\ place_ok q before /\ captures_ok q (b2z capture + groups body) g start /\
      pattern_ok rest
        (before ++ quant_code q (group_code capture (code body) g) (group_size capture body) start)
        (g + b2z capture + groups body)
  end.

(** ** Moving code *)

Definition map_inst (h : Z -> Z) (i : re_inst) : re_inst :=
  Inst (i_op i) (i_ch i) (i_set i) (h (i_x i)) (h (i_y i)).

Lemma quant_size_nonneg q len : 0 <= len -> 0 <= quant_size q len.
Proof. intros. destruct q; cbn [quant_size]; nia. Qed.

Lemma groups_nonneg p : 0 <= groups p.
Proof. induction p as [|s q r IH|c b IHb q r IH]; cbn [groups]; [lia|lia|]. destruct c; cbn; lia. Qed.

Lemma size_nonneg p : 0 <= size p.
Proof.
  induction p as [|s q r IH|c b IHb q r IH]; cbn [size]; [lia| |].
  - pose proof (quant_size_nonneg q 1). lia.
  - pose proof (quant_size_nonneg q (size b + 2 * b2z c)). destruct c; cbn [b2z] in *; lia.
Qed.

Lemma group_size_nonneg capture body : 0 <= group_size capture body.
Proof. unfold group_size. pose proof (size_nonneg body). destruct capture; cbn [b2z]; lia. Qed.

Lemma plen_app p p' : program_length (p ++ p') = program_length p + program_length p'.
Proof. unfold program_length. rewrite length_app. lia. Qed.

Lemma plen_cons i p : program_length (i :: p) = 1 + program_length p.
Proof. unfold program_length. cbn [length]. lia. Qed.

Lemma plen_nil : program_length [] = 0.
Proof. done. Qed.

Create Rewrite HintDb plen.
#[export] Hint Rewrite plen_app plen_cons plen_nil : plen.

Lemma copies_length f len n : forall start, (forall s, program_length (f s) = len) ->
  program_length (copies f len start n) = len * Z.of_nat n.
Proof. induction n as [|n IH]; intros start Hf; cbn [copies]; autorewrite with plen; [lia|]. rewrite IH, Hf by done. lia. Qed.

Lemma optional_block_length f len s : (forall s, program_length (f s) = len) ->
  program_length (optional_block f len s) = 1 + len.
Proof. intros Hf. unfold optional_block. autorewrite with plen. by rewrite Hf. Qed.

Lemma quant_code_length q f len start : (forall s, program_length (f s) = len) ->
  program_length (quant_code q f len start) = quant_size q len.
Proof.
  intros Hf. pose proof (fun s => optional_block_length f len s Hf) as Ho.
  destruct q; cbn [quant_code quant_size]; autorewrite with plen; rewrite ?copies_length, ?Hf by done; lia.
Qed.

Lemma group_code_plen capture body len g s : (forall s g, program_length (body s g) = len) ->
  program_length (group_code capture body g s) = len + 2 * b2z capture.
Proof. intros Hb. unfold group_code. destruct capture; autorewrite with plen; rewrite Hb; cbn [b2z]; lia. Qed.

Lemma code_length p : forall start g, program_length (code p start g) = size p.
Proof.
  induction p as [|s q r IH|c b IHb q r IH]; intros start g; cbn [code size]; autorewrite with plen; [done| |];
    rewrite IH; f_equal; apply quant_code_length; [done|].
  intros s. by apply group_code_plen.
Qed.

Lemma group_code_length c b g s : program_length (group_code c (code b) g s) = group_size c b.
Proof. apply group_code_plen. intros. apply code_length. Qed.

Section moving.
Context (h : Z -> Z) (d : Z) (Hzero : h 0 = 0).

(** [h] moves the places from [lo] to [hi] by [d]. *)
Definition moves (lo hi : Z) : Prop := forall v, lo <= v <= hi -> h v = v + d.

Lemma moves_weaken lo hi lo' hi' : moves lo hi -> lo <= lo' -> hi' <= hi -> moves lo' hi'.
Proof. intros Hm ? ? v ?. apply Hm. lia. Qed.

(** The code [f] moves with its place, wherever it lies between [lo] and [hi]. *)
Definition movable (f : Z -> list re_inst) (len lo hi : Z) : Prop :=
  forall s, lo <= s -> s + len <= hi -> map (map_inst h) (f s) = f (s + d).

Lemma movable_weaken f len lo hi lo' hi' : movable f len lo hi -> lo <= lo' -> hi' <= hi -> movable f len lo' hi'.
Proof. intros Hm ? ? s ? ?. apply Hm; lia. Qed.

Lemma copies_map f len n : forall start, 0 <= len -> movable f len start (start + len * Z.of_nat n) ->
  map (map_inst h) (copies f len start n) = copies f len (start + d) n.
Proof.
  induction n as [|n IH]; intros start Hlen Hf; cbn [copies]; [done|].
  rewrite map_app, Hf, IH by (lia || (eapply movable_weaken; [exact Hf|lia|lia]) || nia).
  by replace (start + len + d) with (start + d + len) by lia.
Qed.

Lemma split_map x y lo hi : moves lo hi -> lo <= x <= hi -> lo <= y <= hi ->
  map_inst h (split_inst x y) = split_inst (x + d) (y + d).
Proof. intros Hm Hx Hy. unfold map_inst, split_inst. cbn. by rewrite !Hm. Qed.

Lemma optional_block_movable f len lo hi : 0 <= len -> moves lo hi -> movable f len lo hi ->
  movable (optional_block f len) (1 + len) lo hi.
Proof.
  intros Hlen Hm Hf s Hs Hs'. unfold optional_block. cbn [map].
  rewrite (split_map _ _ lo hi), Hf by (done || lia). by replace (s + d + 1 + len) with (s + 1 + len + d) by lia; replace (s + d + 1) with (s + 1 + d) by lia.
Qed.

Lemma quant_code_map q f len start : 0 <= len -> moves start (start + quant_size q len) ->
  movable f len start (start + quant_size q len) ->
  map (map_inst h) (quant_code q f len start) = quant_code q f len (start + d).
Proof.
  intros Hlen Hm Hf.
  assert (forall n m, quant_size q len = len * Z.of_nat n + (1 + len) * Z.of_nat m ->
    map (map_inst h) (copies f len start n ++ copies (optional_block f len) (1 + len) (start + len * Z.of_nat n) m) =
    copies f len (start + d) n ++ copies (optional_block f len) (1 + len) (start + d + len * Z.of_nat n) m) as Hgen.
  { intros n m E. rewrite E in *. rewrite map_app. f_equal.
    - apply copies_map; [done|]. eapply movable_weaken; [exact Hf|lia|nia].
    - rewrite copies_map; [f_equal; lia|lia|]. eapply movable_weaken; [by apply optional_block_movable|nia|lia]. }
  destruct q; cbn [quant_code] in *; try (apply Hgen; reflexivity).
  cbn [quant_size] in *. rewrite map_app. cbn [map]. rewrite Hf, (split_map _ _ _ _ Hm) by lia.
  do 2 f_equal. f_equal; lia.
Qed.

Lemma save_map k : h k = k -> map_inst h (save_inst k) = save_inst k.
Proof. intros E. unfold map_inst, save_inst. cbn. by rewrite E, Hzero. Qed.

Lemma single_map s : map_inst h (single_inst s) = single_inst s.
Proof. unfold map_inst. destruct s as [| | | | | | |[]]; cbn; by rewrite ?Hzero. Qed.

(** Captures behind [g] groups keep their numbers. *)
Definition keeps (g count : Z) : Prop := forall v, 2 * (g + 1) <= v <= 2 * (g + count) + 1 -> h v = v.

Lemma keeps_weaken g count g' count' : keeps g count -> g <= g' -> g' + count' <= g + count -> keeps g' count'.
Proof. intros Hk ? ? v ?. apply Hk. lia. Qed.

Lemma group_code_movable capture body g lo hi :
  (forall s g', lo <= s -> s + size body <= hi -> g' = g + b2z capture ->
     map (map_inst h) (code body s g') = code body (s + d) g') ->
  (capture = true -> h (2 * (g + 1)) = 2 * (g + 1) /\ h (2 * (g + 1) + 1) = 2 * (g + 1) + 1) ->
  movable (group_code capture (code body) g) (group_size capture body) lo hi.
Proof.
  intros Hb Hk s Hs Hs'. unfold group_code, group_size in *. destruct capture; cbn [b2z] in *.
  - destruct (Hk eq_refl) as [K1 K2]. cbn [map]. rewrite map_app, Hb by lia. cbn [map]. rewrite !save_map by done.
    by replace (s + 1 + d) with (s + d + 1) by lia.
  - by apply Hb; lia.
Qed.

Lemma code_map p : forall start g, moves start (start + size p) -> keeps g (groups p) ->
  map (map_inst h) (code p start g) = code p (start + d) g.
Proof.
  induction p as [|s q r IH|c b IHb q r IH]; intros start g Hm Hk; cbn [code size groups] in *; [done| |];
    pose proof (size_nonneg r); rewrite map_app.
  - pose proof (quant_size_nonneg q 1 ltac:(lia)).
    rewrite quant_code_map, IH; [f_equal; f_equal; lia|..];
      try (eapply moves_weaken; [exact Hm|lia..]); try lia; [exact Hk|].
    intros s' _ _. cbn. by rewrite single_map.
  - pose proof (group_size_nonneg c b). pose proof (groups_nonneg b). pose proof (groups_nonneg r).
    change (size b + 2 * b2z c) with (group_size c b) in *.
    pose proof (quant_size_nonneg q (group_size c b) ltac:(done)).
    assert (0 <= b2z c <= 1) by (destruct c; cbn; lia).
    rewrite quant_code_map, IH; [f_equal; f_equal; lia|..];
      try (eapply moves_weaken; [exact Hm|lia..]); try done; [eapply keeps_weaken; [exact Hk|lia..]|].
    apply group_code_movable.
    + intros s' g' ? ? ->. apply IHb; [eapply moves_weaken; [exact Hm|lia..]|eapply keeps_weaken; [exact Hk|lia..]].
    + intros ->. cbn [b2z] in *. split; apply Hk; lia.
Qed.

(** A group whose captures are out of the way moves as a whole. *)
Lemma group_code_map capture b g start : let count := b2z capture + groups b in
  moves start (start + group_size capture b) -> (forall v, v < start -> h v = v) ->
  count = 0 \/ 2 * (g + count) + 1 < start ->
  map (map_inst h) (group_code capture (code b) g start) = group_code capture (code b) g (start + d).
Proof.
  intros count Hm Hlow Hcount. pose proof (groups_nonneg b). pose proof (size_nonneg b). subst count.
  apply (group_code_movable capture b g start (start + group_size capture b)); [|clear Hm|lia|lia].
  - intros s g' ? ? ->. apply code_map.
    + eapply moves_weaken; [exact Hm|lia|lia].
    + intros v Hv. destruct Hcount; [|apply Hlow; lia]. destruct capture; cbn [b2z] in *; lia.
  - intros ->. cbn [b2z] in *. split; apply Hlow; lia.
Qed.
End moving.
