(* ===== verification/RegexEmit.v ===== *)
(** * The compiler emits the code of the pattern

    [regcomp] on a written pattern produces [pattern_program], or reports that
    memory ran out. *)

From S2P Require Import Prelude Ctype Regex RegexVM RegexVMCorrect RegexCompile RegexLiteral RegexClass RegexPattern.

(** ** Intervals *)

Lemma decimal_grows ds : forall v, 0 <= v -> Forall (fun d => isdigit d = true) ds ->
  v <= fold_left (fun v d => v * 10 + (d - 48)) ds v.
Proof.
  induction ds as [|d ds IH]; intros v Hv Hd; cbn [fold_left]; [lia|].
  inversion Hd as [|? ? Hd1 Hd2]. subst. unfold isdigit in Hd1. specialize (IH (v * 10 + (d - 48)) ltac:(lia) Hd2). lia.
Qed.

Lemma interval_digits_run ds : forall v have rest, 0 <= v -> Forall (fun d => isdigit d = true) ds ->
  fold_left (fun v d => v * 10 + (d - 48)) ds v <= 10000 -> isdigit (peek rest 0) = false ->
  interval_digits (ds ++ rest) v have =
    Some (fold_left (fun v d => v * 10 + (d - 48)) ds v, have || negb (bool_decide (ds = [])), rest).
Proof.
  induction ds as [|d ds IH]; intros v have rest Hv Hd Hb Hr; cbn [app fold_left].
  - destruct rest as [|d rest]; cbn [interval_digits]; [by rewrite orb_false_r|].
    cbn [peek nth] in Hr. rewrite Hr. by rewrite orb_false_r.
  - inversion Hd as [|? ? Hd1 Hd2]. subst. cbn [interval_digits fold_left] in *. rewrite Hd1. unfold isdigit in Hd1.
    pose proof (decimal_grows ds (v * 10 + (d - 48)) ltac:(lia) Hd2).
    destruct (Z.ltb_spec 10000 (v * 10 + (d - 48))); [lia|]. rewrite IH by (done || lia).
    cbn [orb bool_decide]. by rewrite orb_true_r.
Qed.

Lemma digits_parse ds rest : digits_ok ds -> isdigit (peek rest 0) = false ->
  interval_digits (ds ++ rest) 0 false = Some (decimal ds, true, rest).
Proof. intros (Hne & Hd & Hb) Hr. rewrite interval_digits_run by (done || lia). by destruct ds. Qed.

Lemma parse_times ds rest : digits_ok ds -> parse_interval (ds ++ 125 :: rest) = Some (decimal ds, decimal ds, rest).
Proof. intros Hd. unfold parse_interval. rewrite digits_parse by done. cbn. by rewrite drop_0. Qed.

Lemma parse_between low high rest : digits_ok low -> digits_ok high ->
  parse_interval (low ++ 44 :: high ++ 125 :: rest) = Some (decimal low, decimal high, rest).
Proof.
  intros Hl Hh. unfold parse_interval. rewrite digits_parse by done. cbn [mbind option_bind peek nth Z.eqb Pos.eqb drop].
  rewrite drop_0. assert (isdigit (nth 0 (high ++ 125 :: rest) 0) = true) as ->
    by (destruct Hh as (Hne & Hd & _); by destruct Hd).
  rewrite digits_parse by done. cbn. by rewrite drop_0.
Qed.

Section emit.
Context {A : Type} `{AllocatorLaws A}.
Abbreviation compiler := (re_compiler A).

(** Out of memory; and success, with the program, the cursor and the number
    of groups that were opened. *)
Definition failed (c c' : compiler) : Prop :=
  cinv c' /\ c_extended c' = c_extended c /\ c_error c' = REG_ESPACE.

Definition good (c c' : compiler) (program : list re_inst) (rest : list Z) (k : Z) : Prop :=
  cinv c' /\ c_extended c' = c_extended c /\ c_groups c' = c_groups c + k /\ c_error c' = 0 /\
  c_cursor c' = rest /\ c_program c' = program.

Definition outcome (c c' : compiler) (r : Z) (program : list re_inst) (rest : list Z) (k : Z) : Prop :=
  (r < 0 /\ failed c c') \/ (0 <= r /\ good c c' program rest k).

Lemma good_failed c c1 c2 p rest k : good c c1 p rest k -> failed c1 c2 -> failed c c2.
Proof. intros (_ & E & _) (? & ? & ?). split; [done|]. split; [congruence|done]. Qed.

Lemma good_trans c c1 c2 p1 r1 k1 p2 r2 k2 : good c c1 p1 r1 k1 -> good c1 c2 p2 r2 k2 -> good c c2 p2 r2 (k1 + k2).
Proof.
  intros (_ & X1 & G1 & _) (? & X2 & G2 & ? & ? & ?). split; [done|]. split; [congruence|]. split; [lia|]. done.
Qed.

(** Behind a step that went well, the outcome is that of the next. *)
Lemma outcome_step c c1 c2 r p1 r1 k1 p2 r2 k2 :
  good c c1 p1 r1 k1 -> outcome c1 c2 r p2 r2 k2 -> outcome c c2 r p2 r2 (k1 + k2).
Proof.
  intros Hg [(Hr & Hf)|(Hr & Hg')]; [left|right]; (split; [done|]); [by eapply good_failed|by eapply good_trans].
Qed.

Lemma good_refl (c : compiler) : cinv c -> c_error c = 0 -> good c c (c_program c) (c_cursor c) 0.
Proof. intros Hc He. split; [done|]. split; [done|]. split; [lia|]. done. Qed.

Lemma good_program c c' p r k p' : good c c' p r k -> p = p' -> good c c' p' r k.
Proof. by intros ? <-. Qed.

(** Moving the cursor first. *)
Lemma outcome_cursor (c c' : compiler) q r p rest k : outcome (set_cursor c q) c' r p rest k -> outcome c c' r p rest k.
Proof. done. Qed.

(** Emitting one instruction, to be filled in by [f]. *)
Lemma emit_good (c : compiler) op : cinv c -> c_error c = 0 ->
  exists c1 i, re_emit c op = (c1, i) /\
    ((i = -1 /\ failed c c1) \/
     (i = c_length c /\ good c c1 (c_program c ++ [op_inst op]) (c_cursor c) 0 /\
      forall f, good c (upd i f c1) (c_program c ++ [f (op_inst op)]) (c_cursor c) 0)).
Proof.
  intros Hc He. destruct (re_emit_spec c op Hc) as (c1 & i & -> & (F1 & F2 & F3) & I & D).
  do 2 eexists. split; [done|]. destruct D as [(-> & E & P)|(-> & E & P)]; [left; split; [done|split; done]|right].
  split; [done|].
  assert (forall f, good c (upd (c_length c) f c1) (c_program c ++ [f (op_inst op)]) (c_cursor c) 0) as Hf.
  { intros f. split; [by apply upd_cinv|]. split; [done|]. split; [cbn; lia|]. split; [cbn; congruence|].
    split; [done|]. by apply upd_last. }
  split; [|exact Hf]. specialize (Hf id). split; [done|]. split; [done|]. split; [lia|]. split; [congruence|]. done.
Qed.

Lemma not_negative (c : compiler) : (c_length c <? 0) = false.
Proof. unfold c_length. destruct (Z.ltb_spec (Z.of_nat (length (c_program c))) 0); [lia|done]. Qed.

Lemma fill_program (c : compiler) g i l :
  alter g (Z.to_nat (c_length c)) (c_program c ++ i :: l) = c_program c ++ g i :: l.
Proof. unfold c_length. rewrite Nat2Z.id, alter_app_r_alt, Nat.sub_diag by lia. done. Qed.

(** ** Quantifiers *)

(** The code of an atom by its place, of [len] instructions. *)
Context (f : Z -> list re_inst) (len start : Z) (pre : list re_inst).
Context (Hlen : forall s, program_length (f s) = len) (Hpre : program_length pre = start).

(** The first copy of the atom is in the program. *)
Definition atom_in (c : compiler) : Prop := exists more, c_program c = pre ++ f start ++ more.

Lemma start_nonneg : 0 <= start.
Proof. rewrite <- Hpre. unfold program_length. lia. Qed.

Lemma len_nonneg : 0 <= len.
Proof. rewrite <- (Hlen 0). unfold program_length. lia. Qed.

Lemma atom_in_bound c : atom_in c -> start + len <= c_length c.
Proof.
  intros [more E]. unfold c_length. rewrite E. change (Z.of_nat (length ?p)) with (program_length p).
  rewrite !plen_app, Hlen, Hpre. unfold program_length. lia.
Qed.

Lemma atom_in_block c : atom_in c ->
  take (Z.to_nat (start + len - start)) (drop (Z.to_nat start) (c_program c)) = f start.
Proof.
  intros [more ->]. assert (Z.to_nat start = length pre) as -> by (rewrite <- Hpre; unfold program_length; lia).
  rewrite drop_app_length. assert (Z.to_nat (start + len - start) = length (f start)) as ->
    by (rewrite <- (Hlen start); unfold program_length; lia). apply take_app_length.
Qed.

Lemma atom_in_extend (c c' : compiler) l : atom_in c -> c_program c' = c_program c ++ l -> atom_in c'.
Proof. intros [more E] E'. exists (more ++ l). by rewrite E', E, <- !app_assoc. Qed.

(** Copies of the atom are its code at their places. *)
Definition copyable : Prop :=
  forall delta, 0 <= delta -> map (move_inst start (start + len) delta) (f start) = f (start + delta).

Section copying.
Context (Hcopy : copyable).

Lemma copy_good (c : compiler) : cinv c -> c_error c = 0 -> atom_in c ->
  exists c' i, re_copy_block c start (start + len) = Some (c', i) /\
    ((i < 0 /\ failed c c') \/
     (i = c_length c /\ good c c' (c_program c ++ f (c_length c)) (c_cursor c) 0)).
Proof.
  intros Hc He Ha. pose proof start_nonneg. pose proof len_nonneg. pose proof (atom_in_bound c Ha) as Hb.
  destruct (re_copy_block_spec c start (start + len) Hc) as (c' & i & E & (F1 & F2 & F3) & I & D); [lia|lia|].
  exists c', i. split; [done|]. destruct D as [(-> & E' & _)|(-> & E' & P)]; [left; split; [lia|done]|right].
  split; [done|]. rewrite He in P. cbn [truthy Z.eqb negb] in P. rewrite atom_in_block, Hcopy in P by (done || lia).
  replace (start + (c_length c - start)) with (c_length c) in P by lia.
  split; [done|]. split; [done|]. split; [lia|]. split; [congruence|]. done.
Qed.

Lemma optional_copy_good (c : compiler) : cinv c -> c_error c = 0 -> atom_in c ->
  exists c' r, optional_copy c start (start + len) = Some (c', r) /\
    outcome c c' r (c_program c ++ optional_block f len (c_length c)) (c_cursor c) 0.
Proof.
  intros Hc He Ha. unfold optional_copy.
  destruct (emit_good c RE_SPLIT Hc He) as (c1 & i & -> & [(-> & F)|(-> & G & _)]);
    [do 2 eexists; split; [done|by left]|]. rewrite not_negative.
  pose proof G as (I1 & _ & _ & E1 & R1 & P1).
  assert (c_length c1 = c_length c + 1) as L1.
  { unfold c_length. rewrite P1, length_app. cbn [length]. lia. }
  destruct (copy_good c1 I1 E1) as (c2 & j & -> & D); [by eapply atom_in_extend|]. cbn [mbind option_bind].
  destruct D as [(Hj & F)|(-> & G2)].
  - destruct (Z.ltb_spec j 0); [|lia]. do 2 eexists. split; [done|]. left. split; [done|]. by eapply good_failed.
  - rewrite not_negative. do 2 eexists. split; [done|]. right. split; [done|].
    pose proof (good_trans _ _ _ _ _ _ _ _ _ G G2) as (I & X & K & E & R & P). 
    split; [by apply upd_cinv|]. split; [done|]. split; [done|]. split; [done|]. split; [by rewrite <- R1|].
    cbn [c_program upd set_program]. rewrite P, P1, <- app_assoc. cbn [app]. rewrite fill_program.
    assert (c_length c2 = c_length c + 1 + len) as L2.
    { unfold c_length in *. rewrite P. change (Z.of_nat (length ?p)) with (program_length p) in *.
      rewrite plen_app, Hlen. lia. }
    unfold optional_block. rewrite L1, L2. done.
Qed.

(** The two counted loops, for any step that appends the code of its place. *)
Lemma counted_good (step : compiler -> Z -> Z -> option (compiler * Z)) (loop : nat -> compiler -> Z -> Z -> option (compiler * Z))
    (b : Z -> list re_inst) (blen : Z) n :
  (forall c, loop O c start (start + len) = Some (c, 1)) ->
  (forall n c, loop (S n) c start (start + len) =
     '(c, r) ← step c start (start + len); if r <? 0 then Some (c, -1) else loop n c start (start + len)) ->
  (forall s, program_length (b s) = blen) ->
  (forall c, cinv c -> c_error c = 0 -> atom_in c ->
     exists c' r, step c start (start + len) = Some (c', r) /\
       outcome c c' r (c_program c ++ b (c_length c)) (c_cursor c) 0) ->
  forall c, cinv c -> c_error c = 0 -> atom_in c ->
    exists c' r, loop n c start (start + len) = Some (c', r) /\
      outcome c c' r (c_program c ++ copies b blen (c_length c) n) (c_cursor c) 0.
Proof.
  intros HO HS Hb Hstep. induction n as [|n IH]; intros c Hc He Ha; cbn [copies].
  - rewrite HO. do 2 eexists. split; [done|]. right. split; [done|]. rewrite app_nil_r. by apply good_refl.
  - rewrite HS. destruct (Hstep c Hc He Ha) as (c1 & r & -> & [(Hr & F)|(Hr & G)]); cbn [mbind option_bind].
    + destruct (Z.ltb_spec r 0); [|lia]. do 2 eexists. split; [done|]. left. split; [lia|done].
    + destruct (Z.ltb_spec r 0); [lia|]. pose proof G as (I1 & _ & _ & E1 & R1 & P1).
      destruct (IH c1 I1 E1) as (c2 & r2 & -> & O); [by eapply atom_in_extend|].
      do 2 eexists. split; [done|]. pose proof (outcome_step _ _ _ _ _ _ _ _ _ _ G O) as O'.
      rewrite P1, R1, <- app_assoc in O'. cbn [Z.add] in O'.
      assert (c_length c1 = c_length c + blen) as <-; [|done].
      unfold c_length. rewrite P1. change (Z.of_nat (length ?p)) with (program_length p). by rewrite plen_app, Hb.
Qed.

Lemma plain_copies_good n (c : compiler) : cinv c -> c_error c = 0 -> atom_in c ->
  exists c' r, plain_copies n c start (start + len) = Some (c', r) /\
    outcome c c' r (c_program c ++ copies f len (c_length c) n) (c_cursor c) 0.
Proof.
  apply counted_good with (step := re_copy_block); [done..|]. intros c0 Hc He Ha.
  destruct (copy_good c0 Hc He Ha) as (c' & i & -> & [D|(-> & G)]); do 2 eexists; (split; [done|]); [by left|].
  right. split; [unfold c_length; lia|done].
Qed.

Lemma optional_copies_good n (c : compiler) : cinv c -> c_error c = 0 -> atom_in c ->
  exists c' r, optional_copies n c start (start + len) = Some (c', r) /\
    outcome c c' r (c_program c ++ copies (optional_block f len) (1 + len) (c_length c) n) (c_cursor c) 0.
Proof.
  apply counted_good with (step := optional_copy); [done|done| |exact optional_copy_good].
  intros s. by apply optional_block_length.
Qed.

(** [{low,high}] with [1 <= low <= high]. *)
Lemma interval_good (c : compiler) low high : cinv c -> c_error c = 0 -> c_program c = pre ++ f start ->
  1 <= low <= high ->
  exists c' r, compile_interval c start low high = Some (c', r) /\
    outcome c c' r (pre ++ copies f len start (Z.to_nat low) ++
      copies (optional_block f len) (1 + len) (start + len * Z.of_nat (Z.to_nat low)) (Z.to_nat (high - low))) (c_cursor c) 0.
Proof.
  intros Hc He Hp Hb. unfold compile_interval.
  assert (c_length c = start + len) as L.
  { unfold c_length. rewrite Hp. change (Z.of_nat (length ?p)) with (program_length p). by rewrite plen_app, Hlen, Hpre. }
  assert (atom_in c) as Ha by (exists []; by rewrite app_nil_r).
  destruct (Z.eqb_spec low 0); [lia|]. rewrite L.
  destruct (plain_copies_good (Z.to_nat (low - 1)) c Hc He Ha) as (c1 & r & -> & [(Hr & F)|(Hr & G)]); cbn [mbind option_bind].
  - destruct (Z.ltb_spec r 0); [|lia]. do 2 eexists. split; [done|]. left. split; [lia|done].
  - destruct (Z.ltb_spec r 0); [lia|]. destruct (Z.eqb_spec high (-1)); [lia|].
    pose proof G as (I1 & _ & _ & E1 & R1 & P1).
    destruct (optional_copies_good (Z.to_nat (high - low)) c1 I1 E1) as (c2 & r2 & -> & O); [by eapply atom_in_extend|].
    do 2 eexists. split; [done|]. pose proof (outcome_step _ _ _ _ _ _ _ _ _ _ G O) as O'. rewrite R1 in O'. cbn [Z.add] in O'.
    assert (c_program c1 = pre ++ copies f len start (Z.to_nat low)) as P1'.
    { rewrite P1, Hp, L, <- app_assoc. f_equal. replace (Z.to_nat low) with (S (Z.to_nat (low - 1))) by lia. done. }
    assert (c_length c1 = start + len * Z.of_nat (Z.to_nat low)) as L1.
    { unfold c_length. rewrite P1'. change (Z.of_nat (length ?p)) with (program_length p).
      by rewrite plen_app, copies_length, Hpre. }
    by rewrite P1', L1, <- app_assoc in O'.
Qed.
End copying.

(** Behind a place no operand reaches, the SPLIT goes in without harm. *)
Lemma wrap_optional_good (c : compiler) : cinv c -> c_error c = 0 -> c_program c = pre ++ f start ->
  1 <= start -> below_end pre -> map (shift_inst start) (f start) = f (start + 1) ->
  exists c' r, re_wrap_optional c start = (c', r) /\
    ((r = -1 /\ failed c c') \/ (r = 0 /\ good c c' (pre ++ optional_block f len start) (c_cursor c) 0)).
Proof.
  intros Hc He Hp Hs Hb Hm. unfold re_wrap_optional. pose proof len_nonneg.
  assert (c_length c = start + len) as L.
  { unfold c_length. rewrite Hp. change (Z.of_nat (length ?p)) with (program_length p). by rewrite plen_app, Hlen, Hpre. }
  destruct (re_insert_spec c start Hc) as (c1 & i & -> & (F1 & F2 & F3) & I & D); [lia|].
  destruct D as [(-> & E & P)|(-> & E & L1 & P)]; [do 2 eexists; split; [done|left; split; [done|split; done]]|].
  destruct (Z.ltb_spec start 0); [lia|]. do 2 eexists. split; [done|]. right. split; [done|].
  assert (Z.to_nat start = length pre) as Es by (rewrite <- Hpre; unfold program_length; lia).
  assert (map (shift_inst start) pre = pre) as Epre.
  { rewrite <- (map_id pre) at 2. apply map_ext_in. intros i Hi. unfold below_end in Hb. rewrite Forall_forall in Hb.
    destruct (Hb i Hi) as [Hx Hy]. rewrite Hpre in *. unfold shift_inst, shift_operand.
    destruct (Z.leb_spec start (i_x i)), (Z.leb_spec start (i_y i)); [lia..|]. by destruct i. }
  assert (shift_inst start zero_inst = zero_inst) as E0.
  { unfold shift_inst, shift_operand. cbn. destruct (Z.leb_spec start 0); [lia|done]. }
  rewrite Hp, Es, take_app_length, drop_app_length, map_app in P. cbn [map] in P. rewrite Epre, E0, Hm in P.
  split; [by apply upd_cinv|]. split; [done|]. split; [cbn; lia|]. split; [cbn; congruence|]. split; [done|].
  cbn [c_program upd set_program]. rewrite P, Es, alter_app_r_alt, Nat.sub_diag by lia.
  unfold optional_block. rewrite L1, L. by replace (start + len + 1) with (start + 1 + len) by lia.
Qed.

(** What may follow an item in extended syntax: no quantifier. *)
Definition no_quantifier (rest : list Z) : Prop := forall x, x ∈ [42; 43; 63; 123] -> (peek rest 0 =? x) = false.

Lemma quantifier_good (c : compiler) q rest : cinv c -> c_error c = 0 -> c_extended c = true ->
  c_program c = pre ++ f start -> c_cursor c = render_quant q ++ rest -> no_quantifier rest ->
  1 <= start -> quant_ok q -> place_ok q pre ->
  (q = Optional -> map (shift_inst start) (f start) = f (start + 1)) ->
  (match q with Times _ | Between _ _ => copyable | _ => True end) ->
  exists c' r, re_compile_quantifier c start = Some (c', r) /\
    outcome c c' r (pre ++ quant_code q f len start) rest 0.
Proof.
  intros Hc He Hx Hp Hcur Hrest Hs Hq Hpl Hshift Hcopy.
  assert (c_length c = start + len) as L.
  { unfold c_length. rewrite Hp. change (Z.of_nat (length ?p)) with (program_length p). by rewrite plen_app, Hlen, Hpre. }
  unfold re_compile_quantifier, quantifier_at. rewrite Hcur, Hx. unfold op_width. rewrite Hx.
  destruct q as [| | |ds|low high]; cbn [render_quant app peek nth Z.eqb Pos.eqb andb orb negb quant_code low_bound spare] in *.
  - unfold no_quantifier, peek in Hrest. rewrite (Hrest 42), (Hrest 43), (Hrest 63), (Hrest 123) by (rewrite !elem_of_cons; tauto).
    rewrite !andb_false_r. cbn [andb orb]. do 2 eexists. split; [done|]. right. split; [done|]. cbn [copies]. rewrite !app_nil_r, <- Hp, <- Hcur.
    by apply good_refl.
  - destruct (wrap_optional_good (advance 1 c)) as (c' & r & -> & O); try done; [by apply Hshift|].
    cbn [copies app]. rewrite Z.mul_0_r, Z.add_0_r, app_nil_r.
    cbn [c_cursor advance set_cursor] in O. rewrite Hcur in O. cbn [drop] in O. rewrite drop_0 in O.
    do 2 eexists. split; [done|]. destruct O as [(-> & F)|(-> & G)]; [by left|by right].
  - destruct (emit_good (advance 1 c) RE_SPLIT) as (c1 & i & -> & [(-> & F)|(-> & G & U)]); [done..| |].
    + do 2 eexists. split; [done|]. by left.
    + rewrite (not_negative (advance 1 c)). do 2 eexists. split; [done|]. right. split; [done|].
      cbn [c_cursor advance set_cursor] in U. rewrite Hcur in U. cbn [drop] in U. rewrite drop_0 in U.
      eapply good_program; [apply U|]. cbn [c_program advance set_cursor]. rewrite Hp, <- app_assoc.
      do 3 f_equal. unfold split_inst. f_equal. unfold c_length. rewrite (proj2 (proj2 (proj2 (proj2 (proj2 G))))).
      cbn [c_program advance set_cursor]. rewrite Hp. change (Z.of_nat (length ?p)) with (program_length p).
      rewrite !plen_app, Hpre, Hlen. done.
  - unfold re_parse_interval. cbn [c_cursor advance set_cursor]. rewrite Hcur. cbn [drop].
    rewrite <- app_assoc. cbn [app]. rewrite drop_0, parse_times by apply Hq.
    destruct Hq as [Hd H1]. destruct (Z.ltb_spec (decimal ds) (decimal ds)); [lia|]. rewrite andb_false_r.
    destruct (interval_good Hcopy (set_cursor (advance 1 c) rest) (decimal ds) (decimal ds)) as (c' & r & -> & O);
      [done..|lia|]. rewrite Z.sub_diag in O. by do 2 eexists.
  - unfold re_parse_interval. cbn [c_cursor advance set_cursor]. rewrite Hcur. cbn [drop].
    rewrite <- !app_assoc. cbn [app]. rewrite <- app_assoc. cbn [app]. rewrite drop_0, parse_between by apply Hq.
    destruct Hq as (Hl & Hh & H1). destruct (Z.ltb_spec (decimal high) (decimal low)); [lia|]. rewrite andb_false_r.
    destruct (interval_good Hcopy (set_cursor (advance 1 c) rest) (decimal low) (decimal high)) as (c' & r & -> & O);
      [done..|]. by do 2 eexists.
Qed.

End emit.

(** ** A quantifier behind an atom that failed

    The error stands. *)

Section failing.
Context {A : Type} `{AllocatorLaws A}.
Abbreviation compiler := (re_compiler A).

Lemma emit_failed (c : compiler) op : cinv c -> c_error c = REG_ESPACE ->
  exists c1 i, re_emit c op = (c1, i) /\ failed c c1 /\ c_length c <= c_length c1.
Proof.
  intros Hc He. destruct (re_emit_spec c op Hc) as (c1 & i & -> & (F1 & F2 & F3) & I & D).
  do 2 eexists. split; [done|]. unfold c_length.
  destruct D as [(_ & E & P)|(_ & E & P)]; rewrite P, ?length_app; (split; [split; [done|split; congruence]|lia]).
Qed.

Lemma failed_trans (c c1 c2 : compiler) : failed c c1 -> failed c1 c2 -> failed c c2.
Proof. intros (_ & E & _) (? & ? & ?). split; [done|]. split; [congruence|done]. Qed.

Lemma copy_failed (c : compiler) a b : c_error c = REG_ESPACE -> re_copy_block c a b = Some (c, c_length c).
Proof. intros He. unfold re_copy_block. rewrite He. change (truthy REG_ESPACE) with true. by rewrite orb_true_r. Qed.

Lemma optional_copies_failed n : forall (c : compiler) a b, cinv c -> c_error c = REG_ESPACE ->
  exists c' r, optional_copies n c a b = Some (c', r) /\ failed c c'.
Proof.
  induction n as [|n IH]; intros c a b Hc He; cbn [optional_copies]; [by do 2 eexists|].
  unfold optional_copy. destruct (emit_failed c RE_SPLIT Hc He) as (c1 & i & -> & F & _).
  destruct (i <? 0); cbn [mbind option_bind]; [by do 2 eexists|].
  rewrite copy_failed by apply F. cbn [mbind option_bind]. rewrite not_negative.
  cbn [mbind option_bind]. change (1 <? 0) with false. cbn iota.
  destruct (IH (upd i (fun j => set_y (c_length c1) (set_x (c_length c1) j)) c1) a b) as (c2 & r & -> & F2);
    [apply upd_cinv, F|apply F|].
  do 2 eexists. split; [done|]. exact (failed_trans _ _ _ F F2).
Qed.

Lemma plain_copies_failed n : forall (c : compiler) a b, c_error c = REG_ESPACE ->
  plain_copies n c a b = Some (c, 1).
Proof.
  induction n as [|n IH]; intros c a b He; cbn [plain_copies]; [done|].
  rewrite copy_failed by done. cbn [mbind option_bind]. rewrite not_negative. by apply IH.
Qed.

Lemma interval_failed (c : compiler) a low high : cinv c -> c_error c = REG_ESPACE -> 1 <= low <= high ->
  exists c' r, compile_interval c a low high = Some (c', r) /\ failed c c'.
Proof.
  intros Hc He Hb. unfold compile_interval. destruct (Z.eqb_spec low 0); [lia|].
  rewrite plain_copies_failed by done. cbn [mbind option_bind]. change (1 <? 0) with false. cbn iota.
  destruct (Z.eqb_spec high (-1)); [lia|]. by apply optional_copies_failed.
Qed.

Lemma quantifier_failed (c : compiler) q rest a : cinv c -> c_error c = REG_ESPACE -> c_extended c = true ->
  c_cursor c = render_quant q ++ rest -> no_quantifier rest -> quant_ok q -> 0 <= a <= c_length c ->
  exists c' r, re_compile_quantifier c a = Some (c', r) /\ failed c c'.
Proof.
  intros Hc He Hx Hcur Hrest Hq Ha.
  unfold re_compile_quantifier, quantifier_at. rewrite Hcur, Hx. unfold op_width. rewrite Hx.
  destruct q as [| | |ds|low high]; cbn [render_quant app peek nth Z.eqb Pos.eqb andb orb negb] in *.
  - unfold no_quantifier, peek in Hrest. rewrite (Hrest 42), (Hrest 43), (Hrest 63), (Hrest 123) by (rewrite !elem_of_cons; tauto).
    rewrite !andb_false_r. cbn [andb orb]. by do 2 eexists.
  - unfold re_wrap_optional. destruct (re_insert_spec (advance 1 c) a) as (c1 & i & -> & (F1 & F2 & F3) & I & D); [done|done|].
    destruct D as [(-> & E & _)|(-> & E & _)]; [by do 2 eexists|].
    destruct (Z.ltb_spec a 0); [lia|]. do 2 eexists. split; [done|]. split; [by apply upd_cinv|].
    split; [exact F2|]. cbn. rewrite E. exact He.
  - destruct (emit_failed (advance 1 c) RE_SPLIT Hc He) as (c1 & i & -> & F & _).
    destruct (i <? 0); do 2 eexists; (split; [done|]); [done|]. split; [apply upd_cinv, F|]. split; apply F.
  - unfold re_parse_interval. cbn [c_cursor advance set_cursor]. rewrite Hcur. cbn [drop].
    rewrite <- app_assoc. cbn [app]. rewrite drop_0, parse_times by apply Hq.
    destruct Hq as [Hd H1]. destruct (Z.ltb_spec (decimal ds) (decimal ds)); [lia|]. rewrite andb_false_r.
    by apply (interval_failed (set_cursor (advance 1 c) rest)).
  - unfold re_parse_interval. cbn [c_cursor advance set_cursor]. rewrite Hcur. cbn [drop].
    rewrite <- !app_assoc. cbn [app]. rewrite <- app_assoc. cbn [app]. rewrite drop_0, parse_between by apply Hq.
    destruct Hq as (Hl & Hh & H1). destruct (Z.ltb_spec (decimal high) (decimal low)); [lia|]. rewrite andb_false_r.
    by apply (interval_failed (set_cursor (advance 1 c) rest)).
Qed.
End failing.
