(* ===== verification/RegexParse.v ===== *)
(** * The parser on written patterns

    The recursive descent of [libc_regex.c] on the rendering of a pattern:
    one atom, the sequence, and [regcomp] as a whole. *)

From S2P Require Import Prelude Ctype Regex RegexVM RegexVMCorrect RegexCompile RegexLiteral RegexClass RegexPattern RegexEmit.

(** Decide every comparison of [x], which is none of the listed characters. *)
Lemma not_listed (l : list Z) x y : x ∉ l -> y ∈ l -> (x =? y) = false.
Proof. intros Hx Hy. destruct (Z.eqb_spec x y) as [->|]; done. Qed.

Ltac tests Hx :=
  repeat match goal with
  | |- context [?x =? ?y] => rewrite (not_listed _ x y Hx) by (rewrite ?elem_of_cons; tauto)
  end; rewrite ?andb_false_l, ?andb_false_r; cbn [orb andb negb].

Lemma escape_parsed c rest : c ∉ escape_letters -> re_parse_escape (92 :: c :: rest) = inl (escaped c, rest).
Proof.
  intros Hc. unfold re_parse_escape, escaped. cbn [peek nth Z.eqb Pos.eqb negb drop].
  rewrite (not_listed escape_letters c 48 Hc) by (unfold escape_letters; rewrite !elem_of_cons; tauto).
  rewrite (not_listed escape_letters c 0 Hc) by (unfold escape_letters; rewrite !elem_of_cons; tauto).
  rewrite drop_0. by repeat (case_match; [done|]).
Qed.

Section parse.
Context {A : Type} `{AllocatorLaws A}.
Abbreviation compiler := (re_compiler A).

(** An atom's outcome: its value is positive on success.  The classes behind
    a backslash report success even when memory ran out. *)
Definition atom_outcome (c c' : compiler) (i : Z) (program : list re_inst) (rest : list Z) (k : Z) : Prop :=
  (i < 0 /\ failed c c') \/
  (0 < i /\ c_cursor c' = rest /\ c_length c <= c_length c' /\ failed c c') \/
  (0 < i /\ good c c' program rest k).

Lemma emit_atom_good (c : compiler) q op : cinv c -> c_error c = 0 -> 1 <= c_length c ->
  exists c' i, re_emit (set_cursor c q) op = (c', i) /\
    atom_outcome c c' i (c_program c ++ [op_inst op]) q 0.
Proof.
  intros Hc He Hl. destruct (emit_good (set_cursor c q) op) as (c1 & i & -> & [(-> & F)|(-> & G & _)]); [done..| |];
    do 2 eexists; (split; [done|]); [by left|right; right]. split; [|done]. unfold c_length in *. cbn. lia.
Qed.

(** An instruction that is filled in. *)
Lemma emit_filled_good (c : compiler) q op f : cinv c -> c_error c = 0 ->
  exists c1 i, re_emit (set_cursor c q) op = (c1, i) /\
    ((i = -1 /\ failed c c1 /\ c_cursor c1 = q /\ c_length c <= c_length c1) \/
     ((i <? 0) = false /\ good c (upd i f c1) (c_program c ++ [f (op_inst op)]) q 0)).
Proof.
  intros Hc He. destruct (re_emit_spec (set_cursor c q) op Hc) as (c2 & j & E2 & (F1 & _) & _ & D2).
  destruct (emit_good (set_cursor c q) op) as (c1 & i & E & [(-> & F)|(-> & _ & U)]); [done..| |];
    rewrite E2 in E |- *; injection E as <- ->; do 2 eexists; (split; [done|]); [left|right].
  - split; [done|]. split; [done|]. split; [exact F1|]. unfold c_length in *.
    destruct D2 as [(_ & _ & P)|(? & _)]; [rewrite P; cbn; lia|cbn in *; lia].
  - split; [by apply not_negative|apply U].
Qed.

Lemma simple_class_good (c : compiler) kind q : cinv c -> c_error c = 0 ->
  atom_outcome c (re_compile_simple_class (set_cursor c q) kind false) 1
    (c_program c ++ [set_set (simple_set kind) (op_inst RE_CLASS)]) q 0.
Proof.
  intros Hc He. unfold re_compile_simple_class.
  destruct (emit_filled_good c q RE_CLASS (set_set (simple_set kind))) as (c1 & i & -> & [(-> & F)|(L & G)]); [done..| |].
  - right. left. change (0 <=? -1) with false. cbn iota. split; [lia|]. tauto.
  - right. right. destruct (Z.leb_spec 0 i); [done|lia].
Qed.

Lemma char_atom_good (c : compiler) ch q : cinv c -> c_error c = 0 ->
  exists c' i, (let '(c, index) := re_emit (set_cursor c q) RE_CHAR in
     if index <? 0 then Some (c, -1) else Some (upd index (set_ch ch) c, 1)) = Some (c', i) /\
    atom_outcome c c' i (c_program c ++ [char_inst ch]) q 0.
Proof.
  intros Hc He. destruct (emit_filled_good c q RE_CHAR (set_ch ch)) as (c1 & i & -> & [(-> & F & _)|(L & G)]); [done..| |].
  - do 2 eexists. split; [done|]. by left.
  - rewrite L. do 2 eexists. split; [done|]. right. by right.
Qed.

Lemma class_atom_good (c : compiler) negated rs rest : cinv c -> c_error c = 0 -> 1 <= c_length c ->
  c_cursor c = render_single (SRanges negated rs) ++ rest -> single_ok (SRanges negated rs) ->
  exists c' i, re_compile_class c = Some (c', i) /\
    atom_outcome c c' i (c_program c ++ [single_inst (SRanges negated rs)]) rest 0.
Proof.
  intros Hc He Hl Hp [Hr Hne]. unfold re_compile_class. rewrite Hp. cbn [render_single app drop].
  rewrite drop_0, <- !app_assoc. cbn [app]. rewrite parse_ranges by done. cbn [mbind option_bind].
  destruct (emit_good c RE_CLASS) as (c1 & i & -> & [(-> & F)|(-> & _ & U)]); [done..| |].
  - do 2 eexists. split; [done|]. by left.
  - rewrite not_negative. do 2 eexists. split; [done|]. right. right. split; [lia|].
    destruct (U (set_set (ranges_set negated rs))) as (? & ? & ? & ? & ? & ?). done.
Qed.

Lemma simple_atom_good (c : compiler) s rest : cinv c -> c_error c = 0 -> 1 <= c_length c ->
  c_cursor c = render_single s ++ rest -> single_ok s ->
  exists c' i, compile_simple_atom c = Some (c', i) /\
    atom_outcome c c' i (c_program c ++ [single_inst s]) rest 0.
Proof.
  intros Hc He Hl Hp Hs. unfold compile_simple_atom, advance.
  destruct s as [ch|ch| |negated rs|kind| | |inside]; cbn [render_single app] in Hp; rewrite Hp;
    cbn [peek nth]; cbn [Z.eqb Pos.eqb andb orb negb drop single_inst] in *; rewrite ?drop_0.
  - cbn [single_ok] in Hs. unfold operators in Hs. tests Hs. unfold re_parse_escape. cbn [peek nth]. tests Hs.
    cbn [drop]. rewrite drop_0. by apply char_atom_good.
  - cbn [single_ok] in Hs. pose proof Hs as Hs'. unfold escape_letters in Hs'. tests Hs'.
    rewrite escape_parsed by done. by apply char_atom_good.
  - destruct (emit_atom_good c rest RE_ANY) as (c' & i & -> & O); [done..|]. by do 2 eexists.
  - by apply class_atom_good.
  - cbn [single_ok] in Hs. do 2 eexists. split; [|by apply simple_class_good].
    rewrite !elem_of_cons, elem_of_nil in Hs. destruct Hs as [->|[->|[->|[]]]]; done.
  - destruct (emit_atom_good c rest RE_BOL) as (c' & i & -> & O); [done..|]. by do 2 eexists.
  - destruct (emit_atom_good c rest RE_EOL) as (c' & i & -> & O); [done..|]. by do 2 eexists.
  - destruct (emit_atom_good c rest (if inside then RE_WORDB else RE_NOT_WORDB)) as (c' & i & E & O); [done..|].
    do 2 eexists. split; [|exact O]. destruct inside; cbn in E |- *; by rewrite E.
Qed.

(** An atom's first character is no delimiter. *)
Lemma single_undelimited (c : compiler) s rest g : c_extended c = true -> c_cursor c = render_single s ++ rest -> single_ok s ->
  (peek (c_cursor c) 0 =? 0) = false /\ re_is_alt_delimiter c = false /\ re_is_group_close c g = false /\
  (peek (c_cursor c) 0 =? 40) = false.
Proof.
  intros Hx Hp Hs. unfold re_is_alt_delimiter, re_is_group_close. rewrite Hx, Hp.
  destruct s as [ch|ch| |negated rs|kind| | |inside]; cbn [render_single app peek nth] in *; try (by destruct g).
  cbn [single_ok] in Hs. unfold operators in Hs. tests Hs. by destruct g.
Qed.

Lemma single_atom_good (c : compiler) s rest n g : cinv c -> c_error c = 0 -> c_extended c = true -> 1 <= c_length c ->
  c_cursor c = render_single s ++ rest -> single_ok s ->
  exists c' i, re_compile_atom (S n) c g = Some (c', i) /\
    atom_outcome c c' i (c_program c ++ [single_inst s]) rest 0.
Proof.
  intros Hc He Hx Hl Hp Hs. change (re_compile_atom (S n) c g) with (atom_body (re_compile_alternation n) c g).
  unfold atom_body. destruct (single_undelimited c s rest g Hx Hp Hs) as (-> & -> & -> & ->). rewrite Hx.
  cbn [orb andb negb]. rewrite andb_false_r. by apply simple_atom_good.
Qed.
(** ** Sequences and groups *)

(** What a sequence of the pattern ends at. *)
Definition closes (g : bool) (tail : list Z) : Prop := tail = [] \/ g = true /\ exists r, tail = 41 :: r.

Lemma closes_delims (c : compiler) g : c_extended c = true -> closes g (c_cursor c) ->
  re_is_alt_delimiter c = false /\ (peek (c_cursor c) 0 = 0 \/ re_is_group_close c g = true).
Proof.
  intros Hx Ht. unfold re_is_alt_delimiter, re_is_group_close. rewrite Hx.
  destruct Ht as [->|(-> & r & ->)]; [split; [done|by left]|]. split; [done|by right].
Qed.

Lemma sequence_end (c : compiler) n g : c_extended c = true -> closes g (c_cursor c) ->
  re_compile_sequence (S n) c g = Some c.
Proof.
  intros Hx Ht. change (re_compile_sequence (S n) c g) with (sequence_body (re_compile_sequence n) (re_compile_atom n) c g).
  unfold sequence_body. destruct (closes_delims c g Hx Ht) as [-> [->| ->]]; cbn [Z.eqb negb andb]; by rewrite ?andb_false_r.
Qed.

Lemma follows p before k tail g : pattern_ok p before k -> closes g tail -> no_quantifier (render_pattern p ++ tail).
Proof.
  intros Hp Ht. destruct p as [|s q r|capture b q r]; cbn [render_pattern app].
  - destruct Ht as [->|(_ & r & ->)]; intros x Hx; cbn [peek nth];
      rewrite !elem_of_cons, elem_of_nil in Hx; by destruct Hx as [->|[->|[->|[->|[]]]]].
  - destruct Hp as [Hs _]. destruct s as [ch|ch| |negated rs|kind| | |inside]; cbn [render_single app];
      intros x Hx; cbn [peek nth]; rewrite !elem_of_cons, elem_of_nil in Hx;
      try (by destruct Hx as [->|[->|[->|[->|[]]]]]).
    cbn [single_ok] in Hs. unfold operators in Hs. apply (not_listed _ _ _ Hs). rewrite !elem_of_cons. tauto.
  - intros x Hx. cbn [peek nth]. rewrite !elem_of_cons, elem_of_nil in Hx. by destruct Hx as [->|[->|[->|[->|[]]]]].
Qed.

Lemma emit_save_good (c : compiler) slot : cinv c -> c_error c = 0 ->
  (forall c1 c2 : compiler, c_groups c1 = c_groups c2 -> slot c1 = slot c2) ->
  exists c' i, emit_save c slot = (c', i) /\
    ((i < 0 /\ failed c c') \/ ((i <? 0) = false /\ good c c' (c_program c ++ [save_inst (slot c)]) (c_cursor c) 0)).
Proof.
  intros Hc He Hslot. unfold emit_save.
  destruct (emit_good c RE_SAVE Hc He) as (c1 & i & -> & [(-> & F)|(-> & G & U)]).
  - do 2 eexists. split; [done|]. by left.
  - rewrite not_negative. do 2 eexists. split; [done|]. right. split; [apply not_negative|].
    assert (slot c1 = slot c) as -> by (apply Hslot; destruct G as (_ & _ & G & _); lia). apply U.
Qed.

(** The specification of a sequence of the compiler, at one depth of calls. *)
Definition sequence_spec (run : compiler -> bool -> option compiler) : Prop :=
  forall (c c' : compiler) p g tail,
    cinv c -> c_error c = 0 -> c_extended c = true -> 1 <= c_length c ->
    pattern_ok p (c_program c) (c_groups c) -> c_cursor c = render_pattern p ++ tail -> closes g tail ->
    run c g = Some c' ->
    failed c c' \/ good c c' (c_program c ++ code p (c_length c) (c_groups c)) tail (groups p).

Lemma alternation_spec n : sequence_spec (re_compile_sequence n) -> sequence_spec (re_compile_alternation (S n)).
Proof.
  intros IH c c' p g tail Hc He Hx Hl Hp Hcur Ht E.
  change (re_compile_alternation (S n) c g) with (alternation_body (alternatives n) (re_compile_sequence n) c g) in E.
  unfold alternation_body in E. destruct (re_compile_sequence n c g) as [c1|] eqn:E1; [|done].
  cbn [mbind option_bind] in E. destruct (IH c c1 p g tail) as [F|G]; [done..| |].
  - rewrite (proj2 (proj2 F)) in E. change (truthy REG_ESPACE) with true in E. injection E as <-. by left.
  - pose proof G as (_ & X1 & _ & E0 & R1 & _). rewrite E0 in E. cbn [truthy Z.eqb negb] in E.
    destruct (closes_delims c1 g) as [Ha _]; [congruence|by rewrite R1|]. rewrite Ha in E. cbn [negb] in E.
    injection E as <-. by right.
Qed.

(** The body of a group, from a state [c1] behind what opens it. *)
Lemma group_body_good (c c1 c2 : compiler) body rest m opened k : sequence_spec (re_compile_alternation m) ->
  cinv c -> c_extended c = true -> 1 <= c_length c ->
  pattern_ok body (c_program c ++ opened) (c_groups c + k) ->
  good c c1 (c_program c ++ opened) (render_pattern body ++ 41 :: rest) k ->
  re_compile_alternation m c1 true = Some c2 ->
  failed c c2 \/ good c c2 (c_program c ++ opened ++ code body (c_length c + Z.of_nat (length opened)) (c_groups c + k))
    (41 :: rest) (k + groups body).
Proof.
  intros IH Hc Hx Hl Hok G E2. pose proof G as (I1 & X1 & K1 & Er1 & R1 & P1).
  assert (c_length c1 = c_length c + Z.of_nat (length opened)) as L1 by (unfold c_length; rewrite P1, length_app; lia).
  destruct (IH c1 c2 body true (41 :: rest)) as [F|G2]; [done|done|congruence|lia| |done| |done| |].
  - by rewrite P1, K1.
  - right. eauto.
  - left. by eapply good_failed.
  - right. rewrite P1, L1, K1, <- app_assoc in G2. by eapply good_trans.
Qed.

(** The atom's branches, at an opening parenthesis. *)
Lemma group_atom_open (c : compiler) m g body rest (capture : bool) : c_extended c = true ->
  pattern_ok body (c_program c ++ if capture then [save_inst (2 * (c_groups c + 1))] else []) (c_groups c + b2z capture) ->
  c_cursor c = 40 :: (if capture then [] else [63; 58]) ++ render_pattern body ++ 41 :: rest ->
  re_compile_atom (S m) c g =
    let '(c, save) := if capture then emit_save (add_group (advance 1 c)) (fun c => c_groups c * 2) else (advance 3 c, 0) in
    if save <? 0 then Some (c, -1)
    else
      c ← re_compile_alternation m c true;
      if truthy (c_error c) then Some (c, -1)
      else if negb (peek (c_cursor c) 0 =? 41) then Some (set_error c REG_EPAREN, -1)
      else
        let c := advance 1 c in
        let '(c, save) := if capture then emit_save c (fun c => c_groups c * 2 + 1) else (c, 0) in
        if save <? 0 then Some (c, -1) else Some (c, 1).
Proof.
  intros Hx Hok Hcur.
  change (re_compile_atom (S m) c g) with (atom_body (re_compile_alternation m) c g).
  unfold atom_body, re_is_alt_delimiter, re_is_group_close. rewrite Hx, Hcur.
  destruct capture.
  - pose proof (follows body _ _ (41 :: rest) true Hok ltac:(right; eauto) 63 ltac:(rewrite !elem_of_cons; tauto)) as F.
    destruct g; cbn [app peek nth Z.eqb Pos.eqb orb andb negb] in *; unfold peek in F; rewrite F; done.
  - by destruct g.
Qed.

Lemma capture_good (c c' : compiler) body rest m g i : sequence_spec (re_compile_alternation m) ->
  cinv c -> c_error c = 0 -> c_extended c = true -> 1 <= c_length c -> groups body = 0 ->
  pattern_ok body (c_program c ++ [save_inst (2 * (c_groups c + 1))]) (c_groups c + 1) ->
  c_cursor c = 40 :: render_pattern body ++ 41 :: rest ->
  re_compile_atom (S m) c g = Some (c', i) ->
  atom_outcome c c' i (c_program c ++ group_code true (code body) (c_groups c) (c_length c)) rest (1 + groups body).
Proof.
  intros IH Hc He Hx Hl Hcap Hok Hcur E. rewrite (group_atom_open c m g body rest true) in E by done. cbn iota in E.
  destruct (emit_save_good (add_group (advance 1 c)) (fun c => c_groups c * 2)) as (c1 & j & Ej & D); [done|done|by intros ? ? ->|].
  rewrite Ej in E. destruct D as [(Hj & F)|(Hj & G)].
  { destruct (Z.ltb_spec j 0); [|lia]. injection E as <- <-. by left. }
  rewrite Hj in E. destruct (re_compile_alternation m c1 true) as [c2|] eqn:E2; [|done]. cbn [mbind option_bind] in E.
  destruct (group_body_good c c1 c2 body rest m [save_inst (2 * (c_groups c + 1))] 1) as [F|G2]; [done..| |done| |].
  { destruct G as (? & ? & K & ? & R & P). cbn [add_group advance set_cursor c_cursor c_program c_groups] in *.
    rewrite Hcur in R. cbn [drop] in R. rewrite drop_0 in R. split; [done|]. split; [done|]. split; [lia|].
    split; [done|]. split; [done|]. rewrite P. do 2 f_equal. f_equal. lia. }
  { rewrite (proj2 (proj2 F)) in E. change (truthy REG_ESPACE) with true in E. injection E as <- <-. by left. }
  pose proof G2 as (I2 & X2 & K2 & Er2 & R2 & P2). rewrite Er2, R2 in E. cbn [truthy Z.eqb Pos.eqb negb peek nth] in E.
  destruct (emit_save_good (advance 1 c2) (fun c => c_groups c * 2 + 1)) as (c3 & j3 & Ej3 & D); [done|done|by intros ? ? ->|].
  rewrite Ej3 in E. destruct D as [(Hj3 & F)|(Hj3 & G3)].
  { destruct (Z.ltb_spec j3 0); [|lia]. injection E as <- <-. left. split; [lia|]. by eapply good_failed. }
  rewrite Hj3 in E. injection E as <- <-. right. right. split; [lia|].
  destruct G3 as (? & ? & K & ? & R & P). cbn [advance set_cursor c_cursor c_program c_groups c_extended] in *.
  rewrite R2 in R. cbn [drop] in R. rewrite drop_0 in R. split; [done|]. split; [congruence|]. split; [lia|].
  split; [done|]. split; [done|]. rewrite P, P2. unfold group_code. rewrite <- app_assoc. cbn [app length].
  rewrite K2, Hcap. by replace ((c_groups c + (1 + 0)) * 2 + 1) with (2 * (c_groups c + 1) + 1) by lia.
Qed.

Lemma plain_group_good (c c' : compiler) body rest m g i : sequence_spec (re_compile_alternation m) ->
  cinv c -> c_error c = 0 -> c_extended c = true -> 1 <= c_length c ->
  pattern_ok body (c_program c ++ []) (c_groups c + 0) ->
  c_cursor c = 40 :: [63; 58] ++ render_pattern body ++ 41 :: rest ->
  re_compile_atom (S m) c g = Some (c', i) ->
  atom_outcome c c' i (c_program c ++ group_code false (code body) (c_groups c) (c_length c)) rest (0 + groups body).
Proof.
  intros IH Hc He Hx Hl Hok Hcur E. rewrite (group_atom_open c m g body rest false) in E by done.
  change (0 <? 0) with false in E. cbn iota in E.
  destruct (re_compile_alternation m (advance 3 c) true) as [c2|] eqn:E2; [|done]. cbn [mbind option_bind] in E.
  destruct (group_body_good c (advance 3 c) c2 body rest m [] 0) as [F|G2]; [done..| |done| |].
  { split; [done|]. split; [done|]. split; [cbn; lia|]. split; [done|]. cbn [advance set_cursor c_cursor c_program].
    rewrite Hcur, app_nil_r. done. }
  { rewrite (proj2 (proj2 F)) in E. change (truthy REG_ESPACE) with true in E. injection E as <- <-. by left. }
  destruct G2 as (I2 & X2 & K2 & Er2 & R2 & P2). rewrite Er2, R2 in E. cbn [truthy Z.eqb Pos.eqb negb peek nth] in E.
  change (0 <? 0) with false in E. cbn iota in E. injection E as <- <-. right. right. split; [lia|].
  split; [done|]. split; [done|]. split; [done|]. split; [done|]. cbn [advance set_cursor c_cursor c_program].
  rewrite R2, P2. cbn [drop app length]. rewrite drop_0. split; [done|]. unfold group_code.
  by rewrite !Z.add_0_r.
Qed.
(** ** One item *)

(** What an atom and its quantifier leave, and the rest of the sequence. *)
Lemma item_good n (c c' c1 : compiler) i f len q (rest : pattern) g tail k :
  sequence_spec (re_compile_sequence n) ->
  cinv c -> c_error c = 0 -> c_extended c = true -> 1 <= c_length c ->
  (forall s, program_length (f s) = len) ->
  atom_outcome c c1 i (c_program c ++ f (c_length c)) (render_quant q ++ render_pattern rest ++ tail) k ->
  quant_ok q -> place_ok q (c_program c) ->
  (match q with Once | Repeated => True | _ => forall h d, h 0 = 0 -> moves h d (c_length c) (c_length c + len) ->
     (forall v, v < c_length c -> h v = v) -> map (map_inst h) (f (c_length c)) = f (c_length c + d) end) ->
  pattern_ok rest (c_program c ++ quant_code q f len (c_length c)) (c_groups c + k) -> closes g tail ->
  (if i <? 0 then Some c1
   else if i =? 0 then Some c1
   else '(c2, r) ← re_compile_quantifier c1 (c_length c); if r <? 0 then Some c2 else re_compile_sequence n c2 g) = Some c' ->
  failed c c' \/ good c c' (c_program c ++ quant_code q f len (c_length c) ++
    code rest (c_length c + quant_size q len) (c_groups c + k)) tail (k + groups rest).
Proof.
  intros IH Hc He Hx Hl Hlen O Hq Hpl Hmove Hok Ht E.
  pose proof (follows rest _ _ tail g Hok Ht) as Hnq.
  destruct O as [(Hi & F)|[(Hi & R1 & L1 & F)|(Hi & G)]].
  - destruct (Z.ltb_spec i 0); [|lia]. injection E as <-. by left.
  - destruct (Z.ltb_spec i 0); [lia|]. destruct (Z.eqb_spec i 0); [lia|].
    destruct F as (I1 & X1 & Er1).
    destruct (quantifier_failed c1 q _ (c_length c) I1 Er1 ltac:(congruence) R1 Hnq Hq) as (c2 & r & E2 & F2); [lia|].
    rewrite E2 in E. cbn [mbind option_bind] in E.
    assert (failed c c2) as F3 by (eapply failed_trans; [split; [exact I1|done]|exact F2]).
    destruct (r <? 0); [injection E as <-; by left|]. left.
    destruct n as [|n]; [done|].
    change (re_compile_sequence (S n) c2 g) with (sequence_body (re_compile_sequence n) (re_compile_atom n) c2 g) in E.
    unfold sequence_body in E. rewrite (proj2 (proj2 F2)) in E. change (truthy REG_ESPACE) with true in E.
    cbn [negb andb] in E. by injection E as <-.
  - destruct (Z.ltb_spec i 0); [lia|]. destruct (Z.eqb_spec i 0); [lia|].
    pose proof G as (I1 & X1 & K1 & Er1 & R1 & P1).
    destruct (quantifier_good f len (c_length c) (c_program c) Hlen eq_refl c1 q (render_pattern rest ++ tail)) as (c2 & r & E2 & O2);
      try done; [congruence| | |].
    { intros ->. apply (Hmove (shift_operand (c_length c)) 1); unfold shift_operand.
      - destruct (Z.leb_spec (c_length c) 0); [lia|done].
      - intros v Hv. destruct (Z.leb_spec (c_length c) v); [done|lia].
      - intros v Hv. destruct (Z.leb_spec (c_length c) v); [lia|done]. }
    { assert (match q with Once | Repeated => True | _ => copyable f len (c_length c) end) as Hcp.
      { assert ((forall h d, h 0 = 0 -> moves h d (c_length c) (c_length c + len) ->
          (forall v, v < c_length c -> h v = v) -> map (map_inst h) (f (c_length c)) = f (c_length c + d)) ->
          copyable f len (c_length c)) as Hcopy.
        { intros Hm delta Hd. apply (Hm (move_operand (c_length c) (c_length c + len) delta) delta); unfold move_operand.
          - destruct (Z.leb_spec (c_length c) 0); [lia|done].
          - intros v Hv. destruct (Z.leb_spec (c_length c) v), (Z.leb_spec v (c_length c + len)); cbn [andb]; lia.
          - intros v Hv. destruct (Z.leb_spec (c_length c) v); [lia|done]. }
        by destruct q; try apply Hcopy. }
      by destruct q. }
    rewrite E2 in E. cbn [mbind option_bind] in E.
    destruct O2 as [(Hr & F)|(Hr & G2)].
    + destruct (Z.ltb_spec r 0); [|lia]. injection E as <-. left. by eapply good_failed.
    + destruct (Z.ltb_spec r 0); [lia|]. pose proof G2 as (I2 & X2 & K2 & Er2 & R2 & P2).
      pose proof (quant_code_length q f len (c_length c) Hlen) as Hql.
      pose proof (good_trans _ _ _ _ _ _ _ _ _ G G2) as G3.
      assert (c_length c2 = c_length c + quant_size q len) as L2.
      { unfold c_length at 1. rewrite P2. change (Z.of_nat (length ?p)) with (program_length p). by rewrite plen_app, Hql. }
      destruct (IH c2 c' rest g tail) as [F|G4]; try done; [congruence| | | |].
      * unfold program_length in Hql. lia.
      * rewrite P2, K2, K1. by replace (c_groups c + k + 0) with (c_groups c + k) by lia.
      * left. by eapply good_failed.
      * right. rewrite P2, L2, K2, K1, <- app_assoc in G4. replace (c_groups c + k + 0) with (c_groups c + k) in G4 by lia.
        pose proof (good_trans _ _ _ _ _ _ _ _ _ G3 G4) as G5. by replace (k + 0 + groups rest) with (k + groups rest) in G5 by lia.
Qed.
Lemma sequence_good n : sequence_spec (re_compile_sequence n).
Proof.
  induction (lt_wf n) as [n _ IH]. intros c c' p g tail Hc He Hx Hl Hp Hcur Ht E.
  destruct n as [|n]; [done|]. destruct p as [|s q r|capture b q r]; cbn [render_pattern code groups app] in *.
  - rewrite sequence_end in E by (done || by rewrite Hcur). injection E as <-. right. rewrite app_nil_r, <- Hcur.
    by apply good_refl.
  - destruct Hp as (Hs & Hq & Hpl & Hr).
    change (re_compile_sequence (S n) c g) with (sequence_body (re_compile_sequence n) (re_compile_atom n) c g) in E.
    unfold sequence_body in E. rewrite <- !app_assoc in Hcur.
    destruct (single_undelimited c s _ g Hx Hcur Hs) as (D1 & D2 & D3 & _). rewrite He, D1, D2, D3 in E.
    cbn [truthy Z.eqb negb andb] in E. destruct n as [|n]; [done|].
    destruct (single_atom_good c s _ n g Hc He Hx Hl Hcur Hs) as (c1 & i & Ea & O). rewrite Ea in E. cbn [mbind option_bind] in E.
    replace (c_groups c) with (c_groups c + 0) in Hr |- * at 1 by lia.
    apply (item_good (S n) c c' c1 i (fun _ => [single_inst s]) 1 q r g tail 0); try done; [apply IH; lia|].
    destruct q; try done; intros h d Hh _ _; cbn; by rewrite single_map.
  - destruct Hp as (Hcap & Hb & Hq & Hpl & Hco & Hr).
    change (re_compile_sequence (S n) c g) with (sequence_body (re_compile_sequence n) (re_compile_atom n) c g) in E.
    unfold sequence_body in E.
    assert (c_cursor c = 40 :: (if capture then [] else [63; 58]) ++ render_pattern b ++ 41 :: render_quant q ++ render_pattern r ++ tail) as Hcur'.
    { rewrite Hcur. f_equal. rewrite <- !app_assoc. cbn [app]. by rewrite <- !app_assoc. }
    assert ((peek (c_cursor c) 0 =? 0) = false /\ re_is_alt_delimiter c = false /\ re_is_group_close c g = false) as (D1 & D2 & D3).
    { unfold re_is_alt_delimiter, re_is_group_close. rewrite Hx, Hcur'. by destruct g. }
    rewrite He, D1, D2, D3 in E. cbn [truthy Z.eqb negb andb] in E.
    destruct (re_compile_atom n c g) as [[c1 i]|] eqn:Ea; [|done]. cbn [mbind option_bind] in E.
    destruct n as [|m]; [done|].
    assert (sequence_spec (re_compile_alternation m)) as Halt.
    { destruct m as [|m]; [by intros ? ? ? ? ?|]. apply alternation_spec, IH. lia. }
    assert (atom_outcome c c1 i (c_program c ++ group_code capture (code b) (c_groups c) (c_length c))
      (render_quant q ++ render_pattern r ++ tail) (b2z capture + groups b)) as O.
    { destruct capture; [by apply capture_good with m g; auto|by apply plain_group_good with m g]. }
    replace (c_groups c + b2z capture + groups b) with (c_groups c + (b2z capture + groups b)) in Hr |- * by lia.
    apply (item_good (S m) c c' c1 i (group_code capture (code b) (c_groups c)) (group_size capture b) q r g tail
      (b2z capture + groups b)); try done; [apply IH; lia|intros; apply group_code_length|].
    destruct q; try done; intros h d Hh Hm Hlow; by apply group_code_map.
Qed.
(** [regcomp] on a written pattern. *)
Lemma regcomp_pattern heap p cflags h preg e : al_ok heap 0 -> flag cflags REG_EXTENDED = true ->
  pattern_ok p [save_inst 0] 0 -> regcomp heap (render_pattern p) cflags = Some (h, preg, e) ->
  e = REG_ESPACE \/
  e = 0 /\ exists b, preg = Regex (Some (pattern_program p)) b (groups p) cflags.
Proof.
  intros Hok Hx Hp E. unfold regcomp in E. rewrite Hx in E.
  set (c0 := Compiler [] 0 (render_pattern p) true 0 0 0 heap) in E.
  assert (cinv c0) as I0 by (by apply cinv_start).
  destruct (emit_save_good c0 (fun _ => 0) I0 eq_refl) as (c1 & i & E1 & [(Hi & _)|(Hi & G)]); [done| |]; rewrite E1 in E.
  { destruct (Z.ltb_spec i 0); [|lia]. left. by inversion E. }
  rewrite Hi in E. destruct G as (I1 & X1 & K1 & Er1 & R1 & P1).
  destruct (re_compile_alternation _ c1 false) as [c2|] eqn:E2; [|done]. cbn [mbind option_bind] in E.
  change (compile_fuel (render_pattern p)) with (3 * length (render_pattern p) + 4)%nat in E2.
  replace (3 * length (render_pattern p) + 4)%nat with (S (3 * length (render_pattern p) + 3)) in E2 by lia.
  cbn [c0 c_program app c_groups c_cursor] in *. rewrite Z.add_0_r in K1.
  assert (c_length c1 = 1) as L1 by (unfold c_length; by rewrite P1).
  destruct (alternation_spec (3 * length (render_pattern p) + 3) (sequence_good _) c1 c2 p false []) as [F|G]; try done;
    [lia|by rewrite P1, K1|by rewrite app_nil_r|by left| |].
  { rewrite (proj2 (proj2 F)) in E. change (truthy REG_ESPACE) with true in E. cbn [negb andb] in E.
    rewrite (proj2 (proj2 F)) in E. left. by inversion E. }
  destruct G as (I2 & X2 & K2 & Er2 & R2 & P2).
  rewrite Er2, R2 in E. cbn [truthy Z.eqb negb andb peek nth] in E. rewrite Er2 in E. cbn [truthy Z.eqb negb] in E.
  destruct (emit_save_good c2 (fun _ => 1) I2 Er2) as (c3 & j & E3 & [(Hj & _)|(Hj & G)]); [done| |]; rewrite E3 in E.
  { destruct (Z.ltb_spec j 0); [|lia]. left. by inversion E. }
  rewrite Hj in E. destruct G as (I3 & X3 & K3 & Er3 & R3 & P3).
  destruct (emit_good c3 RE_MATCH I3 Er3) as (c4 & k & E4 & [(-> & F)|(-> & G & _)]); rewrite E4 in E.
  { left. by inversion E. }
  rewrite not_negative in E. right. injection E as <- <- <-. split; [done|].
  destruct G as (I4 & X4 & K4 & Er4 & R4 & P4). exists (c_block c4). do 2 f_equal; [|lia].
  rewrite P4, P3, P2, P1, L1, K1. unfold pattern_program. cbn [app]. by rewrite <- app_assoc.
Qed.
End parse.
