(* ===== verification/RegexDenotation.v ===== *)
(** * What a pattern means, and that its code means the same

    A pattern denotes a relation between states, a state being a position in
    the text and the captures.  A block of code implements a relation when
    running it from its first instruction to the place behind it relates
    exactly the states the relation does; the constructions of the compiler
    combine blocks as the notation combines relations. *)

From stdpp Require Import relations.
From S2P Require Import Prelude Ctype Regex RegexVM RegexVMCorrect RegexLiteral RegexClass RegexPattern.

Definition state : Type := Z * list Z.

(** ** The denotation *)

Section denotation.
Context (text : list Z) (cflags eflags : Z).
Abbreviation tlen := (text_length text).
Abbreviation char_at := (char_at text).

(** The character as itself and, with REG_ICASE, in both cases. *)
Definition variants (ch : Z) : list Z := if flag cflags REG_ICASE then [ch; tolower ch; toupper ch] else [ch].

Definition class_test (kind ch : Z) : bool :=
  if kind =? 119 then re_is_word ch else if kind =? 100 then isdigit ch else isspace ch.

(** Is there a word character at [pos]? *)
Definition word_at (pos : Z) : bool := (0 <=? pos) && (pos <? tlen) && re_is_word (char_at pos).

Definition line_start (pos : Z) : Prop :=
  (pos = 0 /\ flag eflags REG_NOTBOL = false) \/ (0 < pos /\ flag cflags REG_NEWLINE = true /\ char_at (pos - 1) = 10).

Definition line_end (pos : Z) : Prop :=
  (pos = tlen /\ flag eflags REG_NOTEOL = false) \/ (pos < tlen /\ flag cflags REG_NEWLINE = true /\ char_at pos = 10).

(** The characters an item that stands for one accepts. *)
Definition single_char (s : single) (ch : Z) : Prop :=
  match s with
  | SChar c => char_eq cflags ch c = true
  | SEscape c => char_eq cflags ch (escaped c) = true
  | SAny => ~ (flag cflags REG_NEWLINE = true /\ ch = 10)
  | SRanges negated rs => Exists (fun v => xorb negated (in_ranges rs v) = true) (variants ch)
  | SSimple kind => Exists (fun v => class_test kind v = true) (variants ch)
  | _ => False
  end.

(** The positions an item that stands for none accepts. *)
Definition single_place (s : single) (pos : Z) : Prop :=
  match s with
  | SBol => line_start pos
  | SEol => line_end pos
  | SWord inside => xorb (word_at (pos - 1)) (word_at pos) = inside
  | _ => False
  end.

Definition single_rel (s : single) (a b : state) : Prop :=
  b.2 = a.2 /\ ((b.1 = a.1 + 1 /\ a.1 < tlen /\ single_char s (char_at a.1)) \/ (b.1 = a.1 /\ single_place s a.1)).

Definition times_ok (q : quant) (n : nat) : Prop :=
  match q with
  | Once => n = 1%nat
  | Optional => (n <= 1)%nat
  | Repeated => (1 <= n)%nat
  | Times ds => Z.of_nat n = decimal ds
  | Between low high => decimal low <= Z.of_nat n <= decimal high
  end.

Definition quant_rel (q : quant) (R : state -> state -> Prop) (a b : state) : Prop :=
  exists n, times_ok q n /\ nsteps R n a b.

Definition record (k : Z) (a : state) : state := (a.1, <[Z.to_nat k := a.1]> a.2).

(** A group: a capturing one records where it starts and ends. *)
Definition group_rel (capture : bool) (g : Z) (R : state -> state -> Prop) (a b : state) : Prop :=
  if capture then exists m, R (record (2 * (g + 1)) a) m /\ b = record (2 * (g + 1) + 1) m else R a b.

(** [p] behind [g] groups, from state to state. *)
Fixpoint pattern_rel (p : pattern) (g : Z) (a b : state) : Prop :=
  match p with
  | PNil => a = b
  | PSingle s q rest => exists m, quant_rel q (single_rel s) a m /\ pattern_rel rest g m b
  | PGroup capture body q rest =>
      exists m, quant_rel q (group_rel capture g (pattern_rel body (g + b2z capture))) a m /\
        pattern_rel rest (g + b2z capture + groups body) m b
  end.

(** ** Blocks *)

Section blocks.
Context (program : list re_inst).
Abbreviation accepts := (accepts program text cflags eflags).
Abbreviation vstep := (vstep program text cflags eflags).

(** [accepts], with a bound on the number of steps. *)
Inductive accn : nat -> Z -> Z -> list Z -> list Z -> Prop :=
| accn_match n pc pos caps : in_program program pc -> i_op (inst_at program pc) = RE_MATCH -> accn n pc pos caps caps
| accn_step n pc pos pc' pos' caps caps' : in_program program pc -> vstep pc pos pc' pos' ->
    accn n pc' pos' (record_capture program pc pos caps) caps' -> accn (S n) pc pos caps caps'.

Lemma accn_accepts n pc pos caps caps' : accn n pc pos caps caps' -> accepts pc pos caps caps'.
Proof. induction 1; [by apply accepts_match|by eapply accepts_step]. Qed.

Lemma accepts_accn pc pos caps caps' : accepts pc pos caps caps' -> exists n, accn n pc pos caps caps'.
Proof.
  induction 1 as [|pc pos pc' pos' caps caps' ? ? _ [n IH]]; [by exists 0%nat; apply accn_match|].
  exists (S n). by eapply accn_step.
Qed.

Lemma accn_inv n pc pos caps caps' : accn n pc pos caps caps' -> i_op (inst_at program pc) <> RE_MATCH ->
  exists m pc' pos', n = S m /\ vstep pc pos pc' pos' /\ accn m pc' pos' (record_capture program pc pos caps) caps'.
Proof. intros Ha Hop. inversion Ha; subst; [done|]. by do 3 eexists. Qed.

(** The instructions [l] lie at [pc]. *)
Definition code_at (pc : Z) (l : list re_inst) : Prop :=
  exists before after, program = before ++ l ++ after /\ program_length before = pc.

Lemma code_at_app pc l l' : code_at pc (l ++ l') -> code_at pc l /\ code_at (pc + program_length l) l'.
Proof.
  intros (b & a & E & Hb). split.
  - exists b, (l' ++ a). by rewrite E, <- app_assoc.
  - exists (b ++ l), a. split; [by rewrite E, <- !app_assoc|]. rewrite plen_app. lia.
Qed.

Lemma code_at_cons pc i l : code_at pc (i :: l) -> code_at pc [i] /\ code_at (pc + 1) l.
Proof. intros H. apply (code_at_app pc [i] l) in H. done. Qed.

Lemma code_at_inst pc i : code_at pc [i] -> in_program program pc /\ inst_at program pc = i.
Proof.
  intros (b & a & E & Hb). unfold in_program, inst_at. rewrite E, !plen_app. unfold program_length in *. cbn [length].
  split; [lia|]. assert (Z.to_nat pc = length b) as -> by lia.
  rewrite app_nth2 by lia. by rewrite Nat.sub_diag.
Qed.

(** The block of [len] instructions at [pc] implements [R]. *)
Definition block (pc len : Z) (R : state -> state -> Prop) : Prop :=
  (forall a b, 0 <= a.1 <= tlen -> R a b -> 0 <= b.1 <= tlen) /\
  (forall n a caps', 0 <= a.1 <= tlen -> accn n pc a.1 a.2 caps' ->
     exists m b, (m <= n)%nat /\ R a b /\ accn m (pc + len) b.1 b.2 caps') /\
  (forall a b caps', 0 <= a.1 <= tlen -> R a b -> accepts (pc + len) b.1 b.2 caps' -> accepts pc a.1 a.2 caps').

Lemma block_equiv pc len R S : (forall a b, R a b <-> S a b) -> block pc len R -> block pc len S.
Proof.
  intros HRS (Hb & Hf & Hr). split; [|split].
  - intros a b Ha Hs. apply HRS in Hs. eauto.
  - intros n a caps' Ha Hacc. destruct (Hf n a caps' Ha Hacc) as (m & b & Hm & HR & Hacc'). apply HRS in HR. eauto.
  - intros a b caps' Ha Hs. apply HRS in Hs. eauto.
Qed.

Lemma block_nil pc : block pc 0 eq.
Proof.
  split; [by intros a b ? <-|]. rewrite Z.add_0_r. split; [|by intros a b ? ? <-]. intros n a caps' _ Hacc. by exists n, a.
Qed.

Definition rel_comp (R S : state -> state -> Prop) (a b : state) : Prop := exists m, R a m /\ S m b.

Lemma block_app pc l1 l2 R1 R2 : block pc l1 R1 -> block (pc + l1) l2 R2 -> block pc (l1 + l2) (rel_comp R1 R2).
Proof.
  intros (B1 & F1 & R1') (B2 & F2 & R2'). split; [|split].
  - intros a b Ha (m & H1 & H2). eauto.
  - intros n a caps' Ha Hacc. destruct (F1 _ _ _ Ha Hacc) as (k & m & Hk & H1 & Hacc1).
    destruct (F2 _ _ _ (B1 _ _ Ha H1) Hacc1) as (k' & b & Hk' & H2 & Hacc2). exists k', b. split; [lia|].
    rewrite Z.add_assoc. split; [by exists m|done].
  - intros a b caps' Ha (m & H1 & H2). rewrite Z.add_assoc. eauto.
Qed.

(** An instruction that neither jumps nor matches: [R] is its effect. *)
Lemma block_inst pc i (R : state -> state -> Prop) : code_at pc [i] -> i_op i <> RE_MATCH ->
  (forall a b, 0 <= a.1 <= tlen -> R a b -> 0 <= b.1 <= tlen) ->
  (forall a pc' pos', 0 <= a.1 <= tlen -> vstep pc a.1 pc' pos' -> pc' = pc + 1 /\ R a (pos', record_capture program pc a.1 a.2)) ->
  (forall a b, 0 <= a.1 <= tlen -> R a b -> vstep pc a.1 (pc + 1) b.1 /\ b.2 = record_capture program pc a.1 a.2) ->
  block pc 1 R.
Proof.
  intros Hc Hop Hb Hf Hr. destruct (code_at_inst pc i Hc) as [Hin Hi]. split; [done|]. split.
  - intros n a caps' Ha Hacc. apply accn_inv in Hacc as (m & pc' & pos' & -> & Hv & Hacc); [|by rewrite Hi].
    destruct (Hf a pc' pos' Ha Hv) as [-> HR]. exists m, (pos', record_capture program pc a.1 a.2). split; [lia|done].
  - intros a b caps' Ha HR Hacc. destruct (Hr a b Ha HR) as [Hv Eb]. rewrite Eb in Hacc. by eapply accepts_step.
Qed.

(** SPLIT over a block: the block or nothing. *)
Lemma block_optional pc len R : code_at pc [split_inst (pc + 1) (pc + 1 + len)] -> block (pc + 1) len R ->
  block pc (1 + len) (fun a b => a = b \/ R a b).
Proof.
  intros Hc (B & F & R'). destruct (code_at_inst _ _ Hc) as [Hin Hi]. split; [|split].
  - intros a b Ha [<-|HR]; eauto.
  - intros n a caps' Ha Hacc. apply accn_inv in Hacc as (m & pc' & pos' & -> & Hv & Hacc); [|by rewrite Hi].
    rewrite record_other in Hacc by by rewrite Hi. apply vstep_inv in Hv. rewrite Hi in Hv. cbn in Hv.
    destruct Hv as [-> [-> | ->]].
    + destruct (F _ _ _ Ha Hacc) as (k & b & Hk & HR & Hacc'). exists k, b. split; [lia|]. rewrite Z.add_assoc. auto.
    + exists m, a. split; [lia|]. rewrite Z.add_assoc. auto.
  - intros a b caps' Ha HR Hacc. rewrite Z.add_assoc in Hacc.
    assert (forall pc', pc' = pc + 1 \/ pc' = pc + 1 + len -> accepts pc' a.1 a.2 caps' -> accepts pc a.1 a.2 caps') as Hsplit.
    { intros pc' Hpc Hacc'. eapply accepts_step with pc' a.1; [done| |by rewrite record_other by by rewrite Hi].
      destruct Hpc as [-> | ->].
      - pose proof (vstep_split_x program text cflags eflags pc a.1) as Hx. rewrite Hi in Hx. by apply Hx.
      - pose proof (vstep_split_y program text cflags eflags pc a.1) as Hy. rewrite Hi in Hy. by apply Hy. }
    destruct HR as [<-|HR]; [apply (Hsplit (pc + 1 + len)); auto|apply (Hsplit (pc + 1)); eauto].
Qed.

(** A block and the SPLIT back to it: the block, again and again. *)
Lemma block_repeated pc len R : block pc len R -> code_at (pc + len) [split_inst pc (pc + len + 1)] ->
  block pc (len + 1) (fun a b => exists n, (1 <= n)%nat /\ nsteps R n a b).
Proof.
  intros (B & F & R') Hc. destruct (code_at_inst _ _ Hc) as [Hin Hi].
  assert (forall n a b, 0 <= a.1 <= tlen -> nsteps R n a b -> 0 <= b.1 <= tlen) as Bn.
  { intros n a b Ha Hn. revert Ha. induction Hn; [done|]. intros Ha. eauto. }
  unfold block. rewrite !Z.add_assoc. split; [|split].
  - intros a b Ha (n & _ & Hn). eauto.
  - induction n as [n IH] using (well_founded_induction lt_wf). intros a caps' Ha Hacc.
    destruct (F _ _ _ Ha Hacc) as (k & b & Hk & HR & Hacc1). pose proof (B _ _ Ha HR) as Hb.
    apply accn_inv in Hacc1 as (m & pc' & pos' & -> & Hv & Hacc1); [|by rewrite Hi].
    rewrite record_other in Hacc1 by by rewrite Hi. apply vstep_inv in Hv. rewrite Hi in Hv. cbn in Hv.
    destruct Hv as [-> [-> | ->]].
    + destruct (IH m ltac:(lia) b caps' Hb Hacc1) as (m' & b' & Hm' & (n' & Hn' & Hs) & Hacc2).
      exists m', b'. split; [lia|]. split; [|done]. exists (S n'). split; [lia|]. by eapply nsteps_l.
    + exists m, b. split; [lia|]. split; [|done]. exists 1%nat. split; [lia|]. by apply nsteps_once.
  - intros a b caps' Ha (n & Hn & Hs) Hacc. revert Ha Hn. induction Hs as [a|n a b c HR Hs IH]; [lia|]. intros Ha _.
    apply (R' a b caps' Ha HR).
    assert (forall pc', pc' = pc \/ pc' = pc + len + 1 -> accepts pc' b.1 b.2 caps' -> accepts (pc + len) b.1 b.2 caps') as Hsplit.
    { intros pc' Hpc Hacc'. eapply accepts_step with pc' b.1; [done| |by rewrite record_other by by rewrite Hi].
      destruct Hpc as [-> | ->].
      - pose proof (vstep_split_x program text cflags eflags (pc + len) b.1) as Hx. rewrite Hi in Hx. by apply Hx.
      - pose proof (vstep_split_y program text cflags eflags (pc + len) b.1) as Hy. rewrite Hi in Hy. by apply Hy. }
    destruct n as [|n].
    + inversion Hs; subst. apply (Hsplit (pc + len + 1)); auto.
    + apply (Hsplit pc); [auto|]. apply IH; [done|eauto|lia].
Qed.

Lemma block_copies f len R n : (forall s, program_length (f s) = len) -> (forall s, code_at s (f s) -> block s len R) ->
  forall pc, code_at pc (copies f len pc n) -> block pc (len * Z.of_nat n) (nsteps R n).
Proof.
  intros Hlen Hf. induction n as [|n IH]; intros pc Hc; cbn [copies] in *.
  - rewrite Z.mul_0_r. eapply block_equiv; [|apply block_nil]. intros a b. split; [intros <-; constructor|by inversion 1].
  - apply code_at_app in Hc as [H1 H2]. rewrite Hlen in H2.
    replace (len * Z.of_nat (S n)) with (len + len * Z.of_nat n) by lia.
    eapply block_equiv; [|apply block_app; [by apply Hf|by apply IH]].
    intros a b. split; [intros (m & ? & ?); by eapply nsteps_l|]. inversion 1; subst. eexists; eauto.
Qed.

(** Steps that may be skipped. *)
Lemma nsteps_optional (R : state -> state -> Prop) n a b :
  nsteps (fun a b => a = b \/ R a b) n a b <-> exists m, (m <= n)%nat /\ nsteps R m a b.
Proof.
  split.
  - induction 1 as [a|n a b c [<-|HR] _ (m & Hm & IH)]; [exists 0%nat; split; [lia|constructor]|exists m; split; [lia|done]|].
    exists (S m). split; [lia|]. by eapply nsteps_l.
  - intros (m & Hm & Hs). revert n Hm. induction Hs as [a|m a b c HR Hs IH]; intros n Hm.
    + induction n as [|n IHn]; [constructor|]. apply (nsteps_l _ _ _ a); [by left|]. apply IHn. lia.
    + destruct n as [|n]; [lia|]. apply (nsteps_l _ _ _ b); [by right|]. apply IH. lia.
Qed.

Lemma block_quant q f len R pc : quant_ok q -> (forall s, program_length (f s) = len) ->
  (forall s, code_at s (f s) -> block s len R) -> code_at pc (quant_code q f len pc) ->
  block pc (quant_size q len) (quant_rel q R).
Proof.
  intros Hq Hlen Hf Hc.
  assert (forall n m, code_at pc (copies f len pc n ++ copies (optional_block f len) (1 + len) (pc + len * Z.of_nat n) m) ->
    (forall k, times_ok q k <-> (n <= k <= n + m)%nat) ->
    block pc (len * Z.of_nat n + (1 + len) * Z.of_nat m) (quant_rel q R)) as Hcount.
  { intros n m Hc' Ht. apply code_at_app in Hc' as [H1 H2]. rewrite copies_length in H2 by done.
    eapply block_equiv; [|apply block_app; [by eapply block_copies|]].
    2: { eapply (block_copies (optional_block f len) (1 + len) (fun a b => a = b \/ R a b) m);
         [intros; by apply optional_block_length| |exact H2].
         intros s Hs. unfold optional_block in Hs. apply code_at_cons in Hs as [Hs1 Hs2]. apply block_optional; auto. }
    intros a b. unfold quant_rel. split.
    - intros (c & Hn & Ho). apply nsteps_optional in Ho as (k & Hk & Hs). exists (n + k)%nat. split; [apply Ht; lia|].
      by eapply nsteps_trans.
    - intros (k & Hk & Hs). apply Ht in Hk. replace k with (n + (k - n))%nat in Hs by lia.
      apply nsteps_add_inv in Hs as (c & Hn & Ho). exists c. split; [done|]. apply nsteps_optional. exists (k - n)%nat. split; [lia|done]. }
  destruct q as [| | |ds|low high]; cbn [quant_code quant_size low_bound spare times_ok quant_ok] in *;
    try (apply Hcount; [done|cbn [times_ok]; lia]).
  - apply code_at_app in Hc as [H1 H2]. rewrite Hlen in H2. apply block_repeated; auto.
Qed.
(** ** Single instructions *)

Context (Hbytes : Forall (fun c => 0 <= c < 256) text).

Lemma char_range pos : 0 <= char_at pos < 256.
Proof.
  unfold RegexVM.char_at, peek. rewrite nth_lookup. destruct (text !! _) as [c|] eqn:E; cbn; [|lia].
  by apply (Forall_lookup_1 _ _ _ _ Hbytes E).
Qed.

Lemma simple_set_has kind v : kind ∈ [119; 100; 115] -> 0 <= v < 256 -> set_has (simple_set kind) v = class_test kind v.
Proof.
  intros Hk Hv.
  assert (forallb (fun k => forallb (fun n => Bool.eqb (set_has (simple_set k) (Z.of_nat n)) (class_test k (Z.of_nat n)))
    (seq 0 256)) [119; 100; 115] = true) as Hall by (vm_compute; reflexivity).
  rewrite forallb_forall in Hall. specialize (Hall kind ltac:(by apply list_elem_of_In)).
  rewrite forallb_forall in Hall. specialize (Hall (Z.to_nat v) ltac:(apply in_seq; lia)).
  rewrite Z2Nat.id in Hall by lia. by apply Bool.eqb_prop.
Qed.

Lemma class_match_variants set (test : Z -> bool) ch : 0 <= ch < 256 ->
  (forall v, 0 <= v < 256 -> set_has set v = test v) ->
  re_class_match set ch cflags = true <-> Exists (fun v => test v = true) (variants ch).
Proof.
  intros Hc Ht. unfold re_class_match, variants.
  assert (0 <= tolower ch < 256) by (unfold tolower, isupper; destruct (Z.leb_spec 65 ch), (Z.leb_spec ch 90); cbn [andb]; lia).
  assert (0 <= toupper ch < 256) by (unfold toupper, islower; destruct (Z.leb_spec 97 ch), (Z.leb_spec ch 122); cbn [andb]; lia).
  destruct (flag cflags REG_ICASE); cbn [andb]; rewrite ?Ht by done; rewrite !Exists_cons, Exists_nil, ?orb_true_iff; [tauto|].
  intuition discriminate.
Qed.

Lemma consumes_single s pos : single_ok s -> 0 <= pos -> is_consuming (i_op (single_inst s)) = true ->
  consumes text cflags (single_inst s) pos = true <-> pos < tlen /\ single_char s (char_at pos).
Proof.
  intros Hs Hpos Hop. unfold consumes. rewrite andb_true_iff, Z.ltb_lt. pose proof (char_range pos).
  destruct s as [ch|ch| |negated rs|kind| | |inside]; cbn [single_inst] in *; try done;
    try (by destruct inside); cbn [i_op i_ch i_set char_inst set_ch set_op set_set op_inst single_char];
    try (unfold char_eq; tauto).
  - rewrite negb_true_iff, andb_false_iff, Z.eqb_neq. destruct (flag cflags REG_NEWLINE); intuition congruence.
  - rewrite (class_match_variants _ (fun v => xorb negated (in_ranges rs v))); [done|done|].
    intros v Hv. apply ranges_set_has; [apply Hs|done].
  - rewrite (class_match_variants _ (class_test kind)); [done|done|].
    intros v Hv. by apply simple_set_has.
Qed.

Lemma asserts_single s pos : 0 <= pos <= tlen -> is_assertion (i_op (single_inst s)) = true ->
  asserts text cflags eflags (i_op (single_inst s)) pos = true <-> single_place s pos.
Proof.
  intros Hpos Hop. destruct s as [ch|ch| |negated rs|kind| | |inside]; try done; cbn [single_inst op_inst set_op i_op single_place] in *.
  - unfold asserts, line_start. destruct (Z.eqb_spec pos 0).
    + rewrite negb_true_iff. intuition lia.
    + rewrite andb_true_iff, Z.eqb_eq. intuition lia.
  - unfold asserts, line_end. destruct (Z.eqb_spec pos tlen).
    + rewrite negb_true_iff. intuition lia.
    + rewrite andb_true_iff, Z.eqb_eq. intuition lia.
  - assert (word_at (pos - 1) = (0 <? pos) && re_is_word (char_at (pos - 1))) as E1.
    { unfold word_at. destruct (Z.leb_spec 0 (pos - 1)), (Z.ltb_spec 0 pos), (Z.ltb_spec (pos - 1) tlen); lia || done. }
    assert (word_at pos = (pos <? tlen) && re_is_word (char_at pos)) as E2.
    { unfold word_at. destruct (Z.leb_spec 0 pos); [done|lia]. }
    rewrite E1, E2. destruct inside; unfold asserts; cbn [Bool.eqb negb];
      destruct ((0 <? pos) && _), ((pos <? tlen) && _); done.
Qed.

Lemma block_single s pc : single_ok s -> code_at pc [single_inst s] -> block pc 1 (single_rel s).
Proof.
  intros Hs Hc. destruct (code_at_inst _ _ Hc) as [Hin Hi].
  assert (is_consuming (i_op (single_inst s)) = true \/ is_assertion (i_op (single_inst s)) = true) as Hop
    by (destruct s as [| | | | | | |[]]; cbn; auto).
  assert (i_op (inst_at program pc) <> RE_SAVE) as Hns by (rewrite Hi; by destruct s as [| | | | | | |[]]).
  assert (is_consuming (i_op (single_inst s)) = true -> forall pos, ~ single_place s pos) as Hcp
    by (destruct s as [| | | | | | |[]]; cbn; (discriminate || tauto)).
  assert (is_assertion (i_op (single_inst s)) = true -> forall ch, ~ single_char s ch) as Hac
    by (destruct s as [| | | | | | |[]]; cbn; (discriminate || tauto)).
  apply block_inst with (single_inst s); [done|by destruct s as [| | | | | | |[]]| | |].
  - intros a b Ha (_ & [(-> & ? & _)|(-> & _)]); lia.
  - intros a pc' pos' Ha Hv. rewrite record_other by done. unfold single_rel. cbn [fst snd].
    inversion Hv as [Ho Hcon|Ho|Ho|Ho|Ho|Ho Has]; subst; rewrite Hi in *;
      try (by rewrite Ho in Hop; destruct Hop).
    + split; [done|]. split; [done|]. left. apply consumes_single in Hcon; [tauto|done|lia|done].
    + split; [done|]. split; [done|]. right. apply asserts_single in Has; tauto.
  - intros a b Ha (E & HR). rewrite record_other by done. split; [|done].
    destruct HR as [(-> & Hlt & Hch)|(-> & Hp)].
    + destruct Hop as [Ho|Ho]; [|by destruct (Hac Ho (char_at a.1))].
      apply vstep_consume; rewrite Hi; [done|]. apply consumes_single; [done|lia|done|done].
    + destruct Hop as [Ho|Ho]; [by destruct (Hcp Ho a.1)|].
      apply vstep_assert; rewrite Hi; [done|]. by apply asserts_single.
Qed.

Lemma block_save pc k : 0 <= k -> code_at pc [save_inst k] -> block pc 1 (fun a b => b = record k a).
Proof.
  intros Hk Hc. destruct (code_at_inst _ _ Hc) as [Hin Hi].
  assert (forall pos caps, record_capture program pc pos caps = <[Z.to_nat k := pos]> caps) as Hrec
    by (intros; unfold record_capture; by rewrite Hi).
  apply block_inst with (save_inst k); [done|done| | |].
  - by intros a b Ha ->.
  - intros a pc' pos' Ha Hv. apply vstep_inv in Hv. rewrite Hi in Hv. destruct Hv as [-> ->]. by rewrite Hrec.
  - intros a b Ha ->. rewrite Hrec. split; [|done]. apply vstep_save. by rewrite Hi.
Qed.

Lemma block_group capture b g pc : 0 <= g -> code_at pc (group_code capture (code b) g pc) ->
  (forall pc g, 0 <= g -> code_at pc (code b pc g) -> block pc (size b) (pattern_rel b g)) ->
  block pc (group_size capture b) (group_rel capture g (pattern_rel b (g + b2z capture))).
Proof.
  intros Hg Hc Hb. unfold group_code, group_rel, group_size in *. destruct capture; cbn [b2z] in *.
  - apply code_at_cons in Hc as [H1 H2]. apply code_at_app in H2 as [H2 H3]. rewrite code_length in H3.
    replace (size b + 2 * 1) with (1 + (size b + 1)) by lia.
    eapply block_equiv; [|exact (block_app _ _ _ _ _ (block_save pc (2 * (g + 1)) ltac:(lia) H1) (block_app _ _ _ _ _
      (Hb (pc + 1) (g + 1) ltac:(lia) H2) (block_save (pc + 1 + size b) (2 * (g + 1) + 1) ltac:(lia) H3)))].
    intros a c. split.
    + intros (m & -> & m' & HR & ->). eauto.
    + intros (m & HR & ->). exists (record (2 * (g + 1)) a). split; [done|]. exists m. done.
  - rewrite Z.mul_0_r, !Z.add_0_r. by apply Hb.
Qed.

(** The code of a pattern implements what the pattern denotes. *)
Lemma block_pattern p : forall before k pc g, pattern_ok p before k -> 0 <= g -> code_at pc (code p pc g) ->
  block pc (size p) (pattern_rel p g).
Proof.
  induction p as [|s q r IH|capture b IHb q r IH]; intros before k pc g Hp Hg Hc; cbn [code size pattern_rel] in *.
  - apply block_nil.
  - destruct Hp as (Hs & Hq & _ & Hr). apply code_at_app in Hc as [H1 H2]. rewrite (quant_code_length q _ 1) in H2 by done.
    eapply block_app; [|by eapply IH]. eapply block_quant; [done| | |exact H1]; [done|].
    intros pc' Hc'. by apply block_single.
  - destruct Hp as (_ & Hb & Hq & _ & _ & Hr). apply code_at_app in Hc as [H1 H2].
    rewrite (quant_code_length q _ (group_size capture b)) in H2 by (intros; apply group_code_length).
    pose proof (groups_nonneg b). change (size b + 2 * b2z capture) with (group_size capture b).
    eapply block_app; [|eapply IH; [exact Hr|destruct capture; cbn [b2z]; lia|done]].
    eapply block_quant; [done| | |exact H1]; [intros; apply group_code_length|].
    intros pc' Hc'. apply block_group; [done|done|]. intros pc2 g2 Hg2 Hc2. by eapply IHb.
Qed.

(** ** The whole program *)

Lemma pattern_accepts p pos caps caps' : program = pattern_program p -> pattern_ok p [save_inst 0] 0 -> 0 <= pos <= tlen ->
  accepts 0 pos caps caps' <->
  exists b, pattern_rel p 0 (record 0 (pos, caps)) b /\ caps' = (record 1 b).2.
Proof.
  intros E Hp Hpos.
  assert (code_at 0 [save_inst 0] /\ code_at 1 (code p 1 0) /\ code_at (1 + size p) [save_inst 1] /\
    code_at (1 + size p + 1) [op_inst RE_MATCH]) as (H0 & H1 & H2 & H3).
  { assert (code_at 0 program) as Hall by (exists [], []; by rewrite app_nil_r).
    rewrite E in Hall. unfold pattern_program in Hall. apply code_at_cons in Hall as [? Hall].
    apply code_at_app in Hall as [? Hall]. rewrite code_length in Hall. by apply code_at_cons in Hall as [? ?]. }
  destruct (code_at_inst _ _ H3) as [Hin Hi].
  pose proof (block_app _ _ _ _ _ (block_save 0 0 ltac:(lia) H0)
    (block_app _ _ _ _ _ (block_pattern p _ _ _ 0 Hp ltac:(lia) H1) (block_save _ 1 ltac:(lia) H2))) as (_ & F & B).
  replace (0 + (1 + (size p + 1))) with (1 + size p + 1) in * by lia.
  split.
  - intros Ha. apply accepts_accn in Ha as [n Ha]. destruct (F n (pos, caps) caps' Hpos Ha) as (m & c & _ & HR & Hacc).
    destruct HR as (m1 & -> & m2 & HR & ->). exists m2. split; [done|].
    inversion Hacc as [|? ? ? ? ? ? ? _ Hv _]; subst; [done|]. apply vstep_inv in Hv. by rewrite Hi in Hv.
  - intros (b & HR & ->). apply (B (pos, caps) (record 1 b) _ Hpos).
    + exists (record 0 (pos, caps)). split; [done|]. exists b. done.
    + apply accepts_match; [done|]. by rewrite Hi.
Qed.
End blocks.
End denotation.
