(* ===== verification/RegexSearch.v ===== *)
(** * Patterns end to end

    [regcomp] and [regexec] on a written pattern find the leftmost place the
    pattern matches at, and report the match and its groups. *)

From stdpp Require Import relations.
From S2P Require Import Prelude Ctype Regex RegexVM RegexVMCorrect RegexCompile RegexLiteral RegexClass.
From S2P Require Import RegexClaims RegexPattern RegexEmit RegexParse RegexDenotation.

(** ** The instructions of a pattern's code *)

(** No RE_MATCH, and captures from [lo] up to [hi] only. *)
Definition body_inst (lo hi : Z) (i : re_inst) : Prop :=
  i_op i <> RE_MATCH /\ (i_op i = RE_SAVE -> lo <= i_x i < hi).

Lemma body_inst_weaken lo hi lo' hi' i : body_inst lo hi i -> lo' <= lo -> hi <= hi' -> body_inst lo' hi' i.
Proof. intros [Hm Hs] ? ?. split; [done|]. intros Hop. specialize (Hs Hop). lia. Qed.

Lemma copies_forall (P : re_inst -> Prop) f len n : (forall s, Forall P (f s)) -> forall start, Forall P (copies f len start n).
Proof. intros Hf. induction n as [|n IH]; intros start; cbn [copies]; [done|]. by apply Forall_app. Qed.

Lemma quant_code_forall lo hi q f len start : (forall s, Forall (body_inst lo hi) (f s)) ->
  Forall (body_inst lo hi) (quant_code q f len start).
Proof.
  intros Hf. assert (forall x y, body_inst lo hi (split_inst x y)) as Hsplit by done.
  destruct q; cbn [quant_code]; apply Forall_app; split; try (by apply copies_forall); try done;
    try (by apply copies_forall; intros s; unfold optional_block; constructor). by constructor.
Qed.

Lemma code_insts p : forall start g, Forall (body_inst (2 * (g + 1)) (2 * (g + groups p + 1))) (code p start g).
Proof.
  induction p as [|s q r IH|c b IHb q r IH]; intros start g; cbn [code groups]; [constructor| |].
  - apply Forall_app. split; [|apply IH]. apply quant_code_forall. intros _. constructor; [|done].
    by destruct s as [| | | | | | |[]].
  - pose proof (groups_nonneg b). pose proof (groups_nonneg r). apply Forall_app. split.
    + apply quant_code_forall. intros s. unfold group_code.
      assert (Forall (body_inst (2 * (g + b2z c + 1)) (2 * (g + b2z c + groups b + 1))) (code b (s + b2z c) (g + b2z c))) as Hb by apply IHb.
      assert (0 <= b2z c) by (destruct c; cbn; lia).
      assert (Forall (body_inst (2 * (g + 1)) (2 * (g + (b2z c + groups b + groups r) + 1))) (code b (s + b2z c) (g + b2z c))) as Hb'
        by (eapply list.Forall_impl; [exact Hb|]; intros i Hi; eapply body_inst_weaken; [exact Hi|lia|lia]).
      destruct c; cbn [b2z] in *; [|by rewrite !Z.add_0_r in Hb'].
      constructor; [split; [done|]; cbn; lia|]. apply Forall_app. split; [done|]. constructor; [|done]. split; [done|]. cbn. lia.
    + eapply list.Forall_impl; [apply IH|]. intros i Hi. eapply body_inst_weaken; [exact Hi| |lia].
      destruct c; cbn [b2z]; lia.
Qed.

Lemma match_length_end l : Forall (fun i => i_op i <> RE_MATCH) l ->
  match_length (l ++ [op_inst RE_MATCH]) = Some (length l + 1)%nat.
Proof.
  induction 1 as [|i l Hi _ IH]; [done|]. cbn [app match_length]. rewrite decide_False by done. rewrite IH. done.
Qed.

Lemma pattern_program_length p : length (pattern_program p) = (Z.to_nat (size p) + 3)%nat.
Proof.
  unfold pattern_program. cbn [length]. rewrite length_app. cbn [length].
  pose proof (code_length p 1 0) as E. unfold program_length in E. lia.
Qed.

Lemma pattern_match_length p : match_length (pattern_program p) = Some (length (pattern_program p)).
Proof.
  assert (pattern_program p = (save_inst 0 :: code p 1 0 ++ [save_inst 1]) ++ [op_inst RE_MATCH]) as ->
    by (unfold pattern_program; cbn [app]; by rewrite <- app_assoc).
  rewrite match_length_end; [by rewrite length_app|]. constructor; [done|]. apply Forall_app. split; [|by constructor].
  eapply list.Forall_impl; [apply code_insts|]. by intros i [Hi _].
Qed.

Lemma pattern_slots p : slots_ok (pattern_program p) (Z.to_nat (2 * (groups p + 1))).
Proof.
  pose proof (groups_nonneg p). intros i Hi Hop. unfold pattern_program in Hi.
  apply elem_of_cons in Hi as [->|Hi]; [cbn; lia|]. apply elem_of_app in Hi as [Hi|Hi].
  - pose proof (code_insts p 1 0) as Hc. rewrite Forall_forall in Hc.
    destruct (Hc i ltac:(by apply list_elem_of_In)) as [_ Hs]. specialize (Hs Hop). lia.
  - apply elem_of_cons in Hi as [->|Hi]; [cbn; lia|]. apply elem_of_cons in Hi as [->|Hi]; [done|by apply elem_of_nil in Hi].
Qed.

(** Every group takes two instructions. *)
Lemma quant_size_at_least q len : quant_ok q -> 0 <= len -> len <= quant_size q len.
Proof. intros Hq Hl. destruct q; cbn [quant_size quant_ok low_bound spare] in *; nia. Qed.

Lemma groups_size p : forall before g, pattern_ok p before g -> 2 * groups p <= size p.
Proof.
  induction p as [|s q r IH|c b IHb q r IH]; intros before g Hp; cbn [groups size] in *; [lia| |].
  - destruct Hp as (_ & _ & _ & Hr). pose proof (quant_size_nonneg q 1 ltac:(lia)). specialize (IH _ _ Hr). lia.
  - destruct Hp as (_ & Hb & Hq & _ & _ & Hr). specialize (IH _ _ Hr). specialize (IHb _ _ Hb).
    pose proof (group_size_nonneg c b). pose proof (quant_size_at_least q (group_size c b) Hq ltac:(done)).
    unfold group_size in *. lia.
Qed.

(** ** Matches *)

(** [p] matches from [s] to [e] and leaves [captures]. *)
Definition matches (text : list Z) (cflags eflags : Z) (p : pattern) (s e : Z) (captures : list Z) : Prop :=
  exists caps, captures = <[1%nat := e]> caps /\
    pattern_rel text cflags eflags p 0 (s, <[0%nat := s]> (replicate (Z.to_nat (2 * (groups p + 1))) (-1))) (e, caps).

(** A pattern behind [g] groups leaves the captures in front alone. *)
Definition keeps_front (g : Z) (R : state -> state -> Prop) : Prop :=
  forall a b, R a b -> length b.2 = length a.2 /\ forall k, Z.of_nat k < 2 * (g + 1) -> b.2 !! k = a.2 !! k.

Lemma keeps_quant q g R : keeps_front g R -> keeps_front g (quant_rel q R).
Proof.
  intros HR a b (n & _ & Hs). induction Hs as [|n a b c H1 _ [L IH]]; [done|]. destruct (HR a b H1) as [L1 H2].
  split; [congruence|]. intros k Hk. by rewrite IH, H2.
Qed.

Lemma keeps_pattern text cflags eflags p : forall g, 0 <= g -> keeps_front g (pattern_rel text cflags eflags p g).
Proof.
  induction p as [|s q r IH|c b IHb q r IH]; intros g Hg a d Hr; cbn [pattern_rel] in Hr.
  - by subst.
  - destruct Hr as (m & H1 & H2). apply (keeps_quant q g) in H1; [|by intros x y [E _]; rewrite E].
    apply IH in H2; [|done]. destruct H1 as [L1 K1], H2 as [L2 K2]. split; [congruence|]. intros k Hk. by rewrite K2, K1.
  - destruct Hr as (m & H1 & H2). pose proof (groups_nonneg b). assert (0 <= b2z c) by (destruct c; cbn; lia).
    apply (keeps_quant q g) in H1.
    + apply IH in H2; [|lia]. destruct H1 as [L1 K1], H2 as [L2 K2]. split; [congruence|]. intros k Hk. rewrite K2, K1; [done|lia|lia].
    + intros x y. unfold group_rel. destruct c; cbn [b2z] in *.
      * intros (z & Hz & ->). apply IHb in Hz as [L K]; [|lia]. unfold record in *. cbn [fst snd] in *. rewrite length_insert in *.
        split; [done|]. intros k Hk. rewrite list_lookup_insert_ne, K, list_lookup_insert_ne by lia. done.
      * intros Hz. rewrite Z.add_0_r in Hz. by apply IHb in Hz.
Qed.

Lemma matches_extent text cflags eflags p s e captures : matches text cflags eflags p s e captures ->
  nth 0 captures 0 = s /\ nth 1 captures 0 = e.
Proof.
  intros (caps & -> & Hr). apply keeps_pattern in Hr as [L K]; [|lia]. cbn [fst snd] in *.
  pose proof (groups_nonneg p). rewrite length_insert, length_replicate in L.
  specialize (K 0%nat ltac:(lia)). rewrite list_lookup_insert_eq in K by (rewrite length_replicate; lia).
  rewrite !nth_lookup, list_lookup_insert_ne by done. rewrite K, list_lookup_insert_eq by lia. done.
Qed.

Section search.
Context (text : list Z) (cflags eflags : Z) (p : pattern).
Context (Hp : pattern_ok p [save_inst 0] 0) (Hbytes : Forall (fun c => 0 <= c < 256) text).

Lemma match_at_pattern s captures : 0 <= s <= text_length text ->
  match_at (pattern_program p) text cflags eflags (Z.to_nat (2 * (groups p + 1))) s captures <->
  exists e, matches text cflags eflags p s e captures.
Proof.
  intros Hs. unfold match_at, init_captures. rewrite (pattern_accepts text cflags eflags _ Hbytes p) by done.
  unfold record, matches. cbn [fst snd]. change (Z.to_nat 0) with 0%nat. change (Z.to_nat 1) with 1%nat.
  rewrite list_insert_insert_eq. split.
  - intros ([e caps] & Hr & ->). exists e, caps. done.
  - intros (e & caps & -> & Hr). by exists (e, caps).
Qed.

Lemma no_match_pattern s : 0 <= s <= text_length text ->
  no_match_at (pattern_program p) text cflags eflags (Z.to_nat (2 * (groups p + 1))) s <->
  forall e captures, ~ matches text cflags eflags p s e captures.
Proof.
  intros Hs. unfold no_match_at. split.
  - intros Hn e captures Hm. apply (Hn captures), match_at_pattern; eauto.
  - intros Hn captures Hm. apply match_at_pattern in Hm as [e Hm]; [|done]. by apply (Hn e captures).
Qed.
End search.

(** C5: a pattern of the extended syntax, compiled and run.  The patterns are
    sequences of characters, escapes, dots, bracket expressions of ranges,
    class escapes, anchors, word boundaries and groups, capturing or not,
    each with a quantifier or none; [pattern_ok] keeps out what the
    compiler's relocation breaks.  [regexec] reports no match exactly when the
    pattern's denotation relates no start position to an end; otherwise it
    finds the leftmost start that has one, and [pmatch] holds the extent of
    the match and of the groups for one way to match from there.  The only
    other outcome is REG_ESPACE. *)
Theorem pattern_search_correct {A : Type} `{AllocatorLaws A} (dirty : Z -> nat -> list Z) (heap : A) p cflags text nmatch pmatch eflags :
  al_ok heap 0 -> flag cflags REG_EXTENDED = true -> pattern_ok p [save_inst 0] 0 ->
  Forall (fun c => 0 <= c < 256) text -> 4 * ((size p + 3) * (Z.of_nat (length text) + 1)) < 2 ^ 32 ->
  (forall p n, length (dirty p n) = n /\ clean 0 (S (length text)) (dirty p n)) ->
  0 <= nmatch -> (forall l, pmatch = Some l -> nmatch <= Z.of_nat (length l)) ->
  exists h preg e, regcomp heap (render_pattern p) cflags = Some (h, preg, e) /\
    (e = REG_ESPACE \/ e = 0 /\ re_nsub preg = groups p /\
     exists h' result pmatch', regexec dirty h preg text nmatch pmatch eflags = Some (h', result, pmatch') /\
       (result = REG_ESPACE \/
        (result = REG_NOMATCH /\ forall s e captures, 0 <= s <= text_length text ->
           ~ matches text cflags eflags p s e captures) \/
        (result = 0 /\ exists s e captures, 0 <= s <= text_length text /\ matches text cflags eflags p s e captures /\
           (forall s' e' captures', 0 <= s' < s -> ~ matches text cflags eflags p s' e' captures') /\
           (flag cflags REG_NOSUB = false -> forall old, pmatch = Some old ->
              exists new, pmatch' = Some new /\
                forall i, Z.of_nat i < Z.min nmatch (groups p + 1) ->
                  new !! i = Some (if decide (i = 0%nat) then Regmatch s e
                                   else Regmatch (nth (i * 2) captures 0) (nth (i * 2 + 1) captures 0)))))).
Proof.
  intros Hok Hx Hp Hbytes Hfit Hd Hn Hnm. pose proof (groups_nonneg p).
  destruct (regcomp_total heap (render_pattern p) cflags Hok) as (h & preg & e & E & Hsize).
  exists h, preg, e. split; [exact E|].
  destruct (regcomp_pattern heap p cflags h preg e Hok Hx Hp E) as [->|(-> & b & ->)]; [by left|right].
  destruct Hsize as [[? _]|(_ & _ & program & n & bytes & [= <-] & _ & _ & Hpre%prefix_length & Hsize)]; [done|].
  assert (groups p < 2 ^ 28) as Hg.
  { rewrite program_bytes_length in Hpre. pose proof (pattern_program_length p). pose proof (groups_size p _ _ Hp). pose proof (size_nonneg p).
    unfold HEAP_LIMIT in Hsize. lia. }
  split; [done|]. split; [done|].
  assert (take (length (pattern_program p)) (pattern_program p) = pattern_program p) as Et by (apply take_ge; lia).
  destruct (regexec_post_holds dirty h (Regex (Some (pattern_program p)) b (groups p) cflags) (pattern_program p)
    (length (pattern_program p)) text nmatch pmatch eflags eq_refl (pattern_match_length p)) as (h' & r & pm & Er & P); try done.
  - rewrite Et. apply pattern_slots.
  - rewrite Et. unfold states_fit, states. rewrite pattern_program_length. pose proof (size_nonneg p). nia.
  - exists h', r, pm. split; [exact Er|]. rewrite Et in P. unfold regexec_post in P. cbn [re_nsub re_cflags] in P.
    destruct P as [(-> & _)|[(-> & _ & Hno)|(-> & s & caps & Hs & Hm & Hno & Hpm)]]; [by left|right; left|right; right].
    + split; [done|]. intros s e captures Hs. by apply no_match_pattern; [..|apply Hno].
    + split; [done|]. apply match_at_pattern in Hm as [e Hm]; [|done..]. exists s, e, caps. split; [done|]. split; [done|]. split.
      * intros s' e' captures' Hs'. apply no_match_pattern; [done|done|lia|by apply Hno].
      * intros Hns old ->. rewrite Hns in Hpm. destruct pm as [new|]; [|done]. exists new. split; [done|].
        intros i Hi. destruct Hpm as [_ ->]. rewrite decide_True by done. destruct (decide (i = 0%nat)) as [->|]; [|done].
        destruct (matches_extent _ _ _ _ _ _ _ Hm) as [E1 E2]. cbn [Nat.mul Nat.add]. by rewrite E1, E2.
Qed.

(** [([a-z]+)-?\d{2}] on "x-ab-42", with one group asked for. *)
Definition sample_pattern : pattern :=
  PGroup true (PSingle (SRanges false [(97, 122)]) Repeated PNil) Once
    (PSingle (SChar 45) Optional (PSingle (SSimple 100) (Times [50]) PNil)).

Lemma sample_ok : pattern_ok sample_pattern [save_inst 0] 0.
Proof.
  assert (forall (c : Z) (l : list Z), bool_decide (c ∈ l) = false -> c ∉ l) as Hnot
    by (intros c l Hb; by apply bool_decide_eq_false in Hb).
  cbn. split; [done|]. split.
  - split; [split; [|done]; constructor; [|done]; repeat split; cbn; try lia; by apply Hnot|]. split; [done|]. done.
  - split; [done|]. split; [done|]. split; [done|]. split; [by apply Hnot|]. split; [done|]. split.
    + repeat constructor; vm_compute; done.
    + split; [rewrite !elem_of_cons; tauto|]. split; [|done]. split; [|cbn; lia]. split; [done|]. split; [by repeat constructor|cbn; lia].
Qed.

Lemma pattern_search_correct_witness :
  render_pattern sample_pattern = [40; 91; 97; 45; 122; 93; 43; 41; 45; 63; 92; 100; 123; 50; 125] /\
  exists h preg e, regcomp tt (render_pattern sample_pattern) 1 = Some (h, preg, e) /\
    (e = REG_ESPACE \/ e = 0 /\ re_nsub preg = 1) /\
    regexec zeroed h preg [120; 45; 97; 98; 45; 52; 50] 2 (Some [Regmatch 0 0; Regmatch 0 0]) 0 =
      Some (tt, 0, Some [Regmatch 2 7; Regmatch 2 4]).
Proof.
  split; [reflexivity|].
  destruct (pattern_search_correct zeroed tt sample_pattern 1 [120; 45; 97; 98; 45; 52; 50] 2
    (Some [Regmatch 0 0; Regmatch 0 0]) 0 (quota_ok tt 0) eq_refl sample_ok) as (h & preg & e & E & D).
  - repeat constructor; lia.
  - vm_compute. reflexivity.
  - apply zeroed_clean.
  - lia.
  - intros l [= <-]. cbn. lia.
  - exists h, preg, e. split; [exact E|]. split.
    { clear E. destruct D as [Hd|(Hd & Hs & _)]; [left; exact Hd|right; split; [exact Hd|exact Hs]]. }
    clear D. vm_compute in E. injection E as <- <- <-. vm_compute. reflexivity.
Defined.
