(* ===== verification/Numbers.v ===== *)
(** * Numbers from text: [strtoul], [strtol] and [strtod] of [lib/libc_stdlib.c]

    A string is the list of its bytes, a pointer into it the suffix it points
    at, so the end pointer is the rest of the string. *)

From S2P Require Import Prelude Ctype.

Definition digit_value (c : Z) : option Z :=
  if (48 <=? c) && (c <=? 57) then Some (c - 48)
  else if (97 <=? c) && (c <=? 122) then Some (c - 97 + 10)
  else if (65 <=? c) && (c <=? 90) then Some (c - 65 + 10)
  else None.

(** The digit loop: the value, the rest and the number of digits. *)
Fixpoint scan_digits (base : Z) (p : list Z) (v digits : Z) : Z * list Z * Z :=
  match p with
  | c :: q =>
      match digit_value c with
      | Some d => if base <=? d then (v, p, digits) else scan_digits base q (u32 (u32 (v * base) + d)) (digits + 1)
      | None => (v, p, digits)
      end
  | [] => (v, p, digits)
  end.

Definition is_x (c : Z) : bool := (c =? 120) || (c =? 88).

(** The base and the string behind its prefix. *)
Definition strtoul_base (p : list Z) (base : Z) : Z * list Z :=
  if base =? 0 then
    if peek p 0 =? 48 then if is_x (peek p 1) then (16, drop 2 p) else (8, p)
    else (10, p)
  else if (base =? 16) && (peek p 0 =? 48) && is_x (peek p 1) then (base, drop 2 p)
  else (base, p).

(** The value, the end pointer and whether errno becomes EINVAL. *)
Definition strtoul (nptr : list Z) (base : Z) : Z * list Z * bool :=
  let '(base, p) := strtoul_base (skip_spaces nptr) base in
  if (base <? 2) || (36 <? base) then (0, nptr, true)
  else
    let '(v, rest, digits) := scan_digits base p 0 0 in
    if digits =? 0 then (v, nptr, true) else (v, rest, false).

Definition strtol (nptr : list Z) (base : Z) : Z * list Z * bool :=
  let p := skip_spaces nptr in
  let '(neg, p) := if peek p 0 =? 45 then (true, drop 1 p) else if peek p 0 =? 43 then (false, drop 1 p) else (false, p) in
  let '(v, rest, err) := strtoul p base in
  ((if neg : bool then s32 (- s32 v) else s32 v), rest, err).

Definition atoi (s : list Z) : Z := s32 (fst (fst (strtol s 10))).

Definition strtoll (nptr : list Z) (base : Z) : Z * list Z * bool := strtol nptr base.
Definition strtoull (nptr : list Z) (base : Z) : Z * list Z * bool := strtoul nptr base.

(** [while (isdigit( *p)) p++;] and the optional sign. *)
Fixpoint skip_digits (p : list Z) : list Z :=
  match p with
  | c :: q => if isdigit c then skip_digits q else p
  | [] => p
  end.
Definition skip_sign (p : list Z) : list Z := if (peek p 0 =? 45) || (peek p 0 =? 43) then drop 1 p else p.

(** The end pointer of [strtod]; the value is always 0.0.  An exponent without
    digits is not read. *)
Definition strtod (nptr : list Z) : list Z :=
  let p := skip_digits (skip_sign (skip_spaces nptr)) in
  let p := if peek p 0 =? 46 then skip_digits (drop 1 p) else p in
  if (peek p 0 =? 101) || (peek p 0 =? 69) then
    let exp_start := p in
    let p := skip_digits (skip_sign (drop 1 p)) in
    let read := (length exp_start - length p)%nat in
    if (read =? 1)%nat || ((read =? 2)%nat && ((peek exp_start 1 =? 43) || (peek exp_start 1 =? 45))) then exp_start else p
  else p.

(** ** The value of a digit string *)

Definition digits_of (base : Z) (ds : list Z) (vs : list Z) : Prop :=
  Forall2 (fun c d => digit_value c = Some d /\ d < base) ds vs.

Definition value (base : Z) (vs : list Z) : Z := fold_left (fun v d => v * base + d) vs 0.

(** What follows the digits does not continue them. *)
Definition stops (base : Z) (rest : list Z) : Prop :=
  match rest with
  | c :: _ => match digit_value c with Some d => base <= d | None => True end
  | [] => True
  end.

Lemma u32_mul_add a b d : u32 (u32 (u32 a * b) + d) = u32 (a * b + d).
Proof. unfold u32. rewrite Zplus_mod_idemp_l, Z.add_mod, Zmult_mod_idemp_l, <- Z.add_mod by lia. done. Qed.

Lemma scan_digits_spec base ds vs rest : digits_of base ds vs -> stops base rest -> forall v n,
  scan_digits base (ds ++ rest) (u32 v) n =
    (u32 (fold_left (fun v d => v * base + d) vs v), rest, n + Z.of_nat (length ds)).
Proof.
  intros Hd Hs. induction Hd as [|c d ds vs [Hc Hlt] Hd IH]; intros v n.
  - cbn [app length fold_left]. rewrite Z.add_0_r. destruct rest as [|c rest]; [done|]. cbn [scan_digits stops] in *.
    destruct (digit_value c) as [d|]; [|done]. by destruct (Z.leb_spec base d); [|lia].
  - cbn [app scan_digits fold_left length]. rewrite Hc. destruct (Z.leb_spec base d); [lia|].
    rewrite u32_mul_add, IH. f_equal. lia.
Qed.

Lemma strtoul_digits base ds vs rest : 2 <= base <= 36 -> digits_of base ds vs -> ds <> [] -> stops base rest ->
  scan_digits base (ds ++ rest) 0 0 = (u32 (value base vs), rest, Z.of_nat (length ds)).
Proof. intros Hb Hd Hne Hs. exact (scan_digits_spec base ds vs rest Hd Hs 0 0). Qed.

Lemma skip_spaces_app sp p : Forall (fun c => isspace c = true) sp -> skip_spaces (sp ++ p) = skip_spaces p.
Proof. induction 1 as [|c sp Hc _ IH]; [done|]. cbn [app skip_spaces]. by rewrite Hc. Qed.

Lemma digit_not_space c d : digit_value c = Some d -> isspace c = false.
Proof.
  intros H. assert (48 <= c) as Hc.
  { unfold digit_value in H. destruct (Z.leb_spec 48 c), (Z.leb_spec 97 c), (Z.leb_spec 65 c); cbn [andb] in H; (lia || done). }
  unfold isspace. rewrite !orb_false_iff, !Z.eqb_neq. lia.
Qed.

(** An 'x' is no digit below base 34. *)
Lemma digit_not_x base c d : digit_value c = Some d -> d < base -> base <= 33 -> is_x c = false.
Proof.
  intros Hc Hd Hb. unfold is_x. destruct (Z.eqb_spec c 120) as [->|]; [cbn in Hc; injection Hc as <-; lia|].
  destruct (Z.eqb_spec c 88) as [->|]; [cbn in Hc; injection Hc as <-; lia|]. done.
Qed.

Lemma strtoul_reads base sp ds vs rest (Hb : 2 <= base <= 36) (Hsp : Forall (fun c => isspace c = true) sp)
    (Hds : digits_of base ds vs) (Hne : ds <> []) (Hstop : stops base rest)
    (Hx : ~ (base = 16 /\ ds = [48] /\ is_x (peek rest 0) = true)) :
  strtoul (sp ++ ds ++ rest) base = (value base vs mod 2 ^ 32, rest, false).
Proof.
  unfold strtoul. rewrite skip_spaces_app by done.
  destruct ds as [|c ds]; [done|]. inversion Hds as [|? d ? vs' [Hc Hd] Hds']; subst.
  assert (skip_spaces ((c :: ds) ++ rest) = (c :: ds) ++ rest) as -> by (cbn [app skip_spaces]; by rewrite (digit_not_space c d)).
  assert (strtoul_base ((c :: ds) ++ rest) base = (base, (c :: ds) ++ rest)) as ->.
  { unfold strtoul_base. destruct (Z.eqb_spec base 0); [lia|]. destruct (Z.eqb_spec base 16) as [->|]; [|done]. cbn [andb].
    change (peek ((c :: ds) ++ rest) 0) with c. destruct (Z.eqb_spec c 48) as [->|]; [|done]. cbn [andb].
    assert (is_x (peek ((48 :: ds) ++ rest) 1) = false) as ->; [|done]. destruct ds as [|c2 ds].
    - cbn [app]. change (peek (48 :: rest) 1) with (peek rest 0). destruct (is_x (peek rest 0)) eqn:E; [|done]. by destruct Hx.
    - inversion Hds' as [|? d2 ? ? [Hc2 Hd2] _]; subst. by apply (digit_not_x 16 c2 d2). }
  destruct (Z.ltb_spec base 2), (Z.ltb_spec 36 base); try lia. cbn [orb].
  rewrite (strtoul_digits base (c :: ds) (d :: vs') rest Hb Hds Hne Hstop).
  destruct (Z.eqb_spec (Z.of_nat (length (c :: ds))) 0) as [E|]; [cbn in E; lia|done].
Qed.

(** ** The properties *)

(** [strtoul] reads the longest run of digits of the base behind leading
    white space, returns its value modulo 2^32 (there is no ERANGE), and
    leaves the end pointer behind the run.  In base 16 the run must not be a
    lone 0 in front of an 'x', which is a prefix. *)
Theorem strtoul_correct base sp ds vs rest (Hb : 2 <= base <= 36) (Hsp : Forall (fun c => isspace c = true) sp)
    (Hds : digits_of base ds vs) (Hne : ds <> []) (Hstop : stops base rest)
    (Hx : ~ (base = 16 /\ ds = [48] /\ is_x (peek rest 0) = true)) :
  strtoul (sp ++ ds ++ rest) base = (value base vs mod 2 ^ 32, rest, false).
Proof. by apply strtoul_reads. Qed.

(** " 4294967301z" wraps to 5. *)
Lemma strtoul_correct_witness :
  strtoul [32; 52; 50; 57; 52; 57; 54; 55; 51; 48; 49; 122] 10 = (5, [122], false).
Proof.
  refine (strtoul_correct 10 [32] [52; 50; 57; 52; 57; 54; 55; 51; 48; 49] [4; 2; 9; 4; 9; 6; 7; 3; 0; 1] [122] _ _ _ _ _ _).
  - lia.
  - repeat constructor.
  - repeat constructor.
  - discriminate.
  - cbn. lia.
  - intros [E _]. discriminate.
Defined.

(** Where [strtol] and [strtoul] leave C: white space is accepted between
    the sign and the digits; a string without digits leaves the end pointer
    behind its sign instead of at its start; a value out of range wraps to a
    negative [long] instead of LONG_MAX; and the 0 of an incomplete "0x"
    prefix is not read. *)
Theorem strtol_departures :
  strtol [45; 32; 53] 10 = (-5, [], false) /\
  strtol [43; 113] 10 = (0, [113], true) /\
  strtol [50; 49; 52; 55; 52; 56; 51; 54; 52; 56] 10 = (-2147483648, [], false) /\
  strtoul [48; 120; 103] 16 = (0, [48; 120; 103], true).
Proof. repeat split; reflexivity. Qed.

(** ** The extent of a floating-point number *)

Definition digits (l : list Z) : Prop := Forall (fun c => isdigit c = true) l.
Definition sign (l : list Z) : Prop := l = [] \/ l = [43] \/ l = [45].
Definition no_digit (rest : list Z) : Prop := isdigit (peek rest 0) = false.

Lemma skip_digits_app ds rest : digits ds -> no_digit rest -> skip_digits (ds ++ rest) = rest.
Proof.
  intros Hd Hr. induction Hd as [|c ds Hc _ IH]; cbn [app skip_digits]; [|by rewrite Hc].
  destruct rest as [|c rest]; [done|]. cbn [skip_digits]. unfold no_digit in Hr. cbn in Hr. by rewrite Hr.
Qed.

Lemma skip_sign_app sg p : sign sg -> (sg = [] -> peek p 0 <> 45 /\ peek p 0 <> 43) -> skip_sign (sg ++ p) = p.
Proof.
  intros [->|[->| ->]] H; [|reflexivity..]. destruct (H eq_refl). unfold skip_sign. cbn [app].
  destruct (Z.eqb_spec (peek p 0) 45), (Z.eqb_spec (peek p 0) 43); try lia. done.
Qed.

Lemma isdigit_first ds p c0 : digits ds -> ds <> [] -> isdigit c0 = false -> peek (ds ++ p) 0 <> c0.
Proof. intros Hd Hne Hc. destruct ds as [|c ds]; [done|]. inversion Hd; subst. cbn. congruence. Qed.

(** [strtod] reads a number with a fraction and an exponent to its end. *)
Lemma strtod_extent sp sg ds fs ee es xs rest : Forall (fun c => isspace c = true) sp -> sign sg -> digits ds -> ds <> [] -> digits fs ->
  (ee = 101 \/ ee = 69) -> sign es -> digits xs -> xs <> [] -> no_digit rest ->
  strtod (sp ++ sg ++ ds ++ 46 :: fs ++ ee :: es ++ xs ++ rest) = rest.
Proof.
  intros Hsp Hsg Hds Hne Hfs He Hes Hxs Hnx Hr. unfold strtod. rewrite skip_spaces_app by done.
  assert (forall p, skip_spaces (sg ++ ds ++ p) = sg ++ ds ++ p) as ->.
  { intros p. destruct Hsg as [->|[->| ->]]; [|reflexivity..]. destruct ds as [|c ds]; [done|]. inversion Hds as [|? ? Hc _]; subst. cbn [app skip_spaces].
    assert (isspace c = false) as ->; [|done]. unfold isdigit in Hc. unfold isspace. lia. }
  rewrite (skip_sign_app sg) by (done || (intros _; split; by apply isdigit_first)). rewrite (skip_digits_app ds) by done.
  change (peek (46 :: _) 0 =? 46) with true. cbn iota. cbn [drop]. rewrite !drop_0. rewrite (skip_digits_app fs) by (done || (unfold no_digit; by destruct He as [-> | ->])).
  assert (forall q, (peek (ee :: q) 0 =? 101) || (peek (ee :: q) 0 =? 69) = true) as -> by (intros q; by destruct He as [-> | ->]).
  cbn [drop]. rewrite !drop_0. rewrite (skip_sign_app es) by (done || (intros _; split; by apply isdigit_first)). rewrite (skip_digits_app xs) by done.
  cbn [length]. rewrite !length_app. destruct xs as [|x xs]; [done|]. inversion Hxs as [|? ? Hx _]; subst. cbn [length].
  set (n := length rest). replace (S (length es + (S (length xs) + n)) - n)%nat with (S (S (length es + length xs))) by lia.
  destruct (Nat.eqb_spec (S (S (length es + length xs))) 1); [lia|]. cbn [orb].
  destruct (Nat.eqb_spec (S (S (length es + length xs))) 2) as [E|E]; [|done]. cbn [andb].
  assert (es = []) as -> by (destruct es; [done|cbn in E; lia]). unfold isdigit in Hx. cbn.
  destruct (Z.eqb_spec x 43), (Z.eqb_spec x 45); subst; done.
Qed.
