(* ===== verification/Printf.v ===== *)
(** * Formatted output: [vsnprintf] of [lib/libc_stdio.c]

    The sink of the output helpers is the caller's buffer, what is left of it,
    the running count, an [int], and the calls of [write] that are made for a
    null buffer, in order: the descriptor, which [vsnprintf] sets to -1, and
    the character.  A format string is the list of its bytes without the NUL,
    and an argument list carries the type each argument was passed with:
    [va_arg] at another type has no result. *)

From S2P Require Import Prelude Ctype Regex.

Inductive arg : Type :=
| VInt (v : Z)
| VLong (v : Z)
| VLongLong (v : Z)
| VPtr (v : Z)
| VStr (s : option (list Z)).

Definition va_int (ap : list arg) : option (Z * list arg) :=
  match ap with VInt v :: ap => Some (s32 v, ap) | _ => None end.
Definition va_long (ap : list arg) : option (Z * list arg) :=
  match ap with VLong v :: ap => Some (v, ap) | _ => None end.
Definition va_llong (ap : list arg) : option (Z * list arg) :=
  match ap with VLongLong v :: ap => Some (v, ap) | _ => None end.
Definition va_ptr (ap : list arg) : option (Z * list arg) :=
  match ap with VPtr v :: ap => Some (v, ap) | _ => None end.
Definition va_str (ap : list arg) : option (option (list Z) * list arg) :=
  match ap with VStr s :: ap => Some (s, ap) | _ => None end.

(** ** The output helpers *)

Record sink : Type := Sink {
  k_out : list Z;
  k_left : Z;
  k_count : Z;
  k_calls : list (Z * Z)
}.

Section out.
(** [str]: the buffer is not null; [fd]: where characters go if it is. *)
Context (str : bool) (fd : Z).

Definition out_char (k : sink) (c : Z) : sink :=
  let count := s32 (k_count k + 1) in
  if str then
    if 1 <? k_left k then Sink (k_out k ++ [c]) (k_left k - 1) count (k_calls k)
    else Sink (k_out k) (k_left k) count (k_calls k)
  else Sink (k_out k) (k_left k) count (k_calls k ++ [(fd, c)]).

Definition out_mem (k : sink) (s : list Z) : sink := fold_left out_char s k.

Fixpoint out_repeat (k : sink) (c : Z) (n : nat) : sink :=
  match n with
  | O => k
  | S m => out_repeat (out_char k c) c m
  end.

(** [s] already cut to [len] characters. *)
Definition out_padded (k : sink) (s : list Z) (width : Z) (left_adjust : bool) (pad : Z) : sink :=
  let len := s32 (Z.of_nat (length s)) in
  let padding := if len <? width then s32 (width - len) else 0 in
  let k := if left_adjust then k else out_repeat k pad (Z.to_nat padding) in
  let k := out_mem k s in
  if left_adjust then out_repeat k 32 (Z.to_nat padding) else k.

(** The digits as [tmp] holds them, least significant first. *)
Definition utoa_digit (d : Z) (upper : bool) : Z := if d <? 10 then 48 + d else (if upper then 65 else 97) + d - 10.

Definition utoa_round (base : Z) (upper : bool) (s : Z * list Z) : step (Z * list Z) (list Z) :=
  let '(v, tmp) := s in
  let tmp := tmp ++ [utoa_digit (v mod base) upper] in
  let v := v / base in
  if truthy v then Next (v, tmp) else Done tmp.

Definition utoa_rev (v base : Z) (upper : bool) : option (list Z) := loop 64 (utoa_round base upper) (v, []).

Definition out_uint_fmt (k : sink) (v base : Z) (sign : Z) (upper : bool) (width : Z)
    (left_adjust zero_pad : bool) (precision : Z) (prefix : list Z) : option sink :=
  digits ← (if (precision =? 0) && (v =? 0) then Some [] else utoa_rev v base upper);
  let ndigits := Z.of_nat (length digits) in
  let prefix_len := Z.of_nat (length prefix) in
  let zeroes := if ndigits <? precision then s32 (precision - ndigits) else 0 in
  let sign_len := b2z (truthy sign) in
  let total := s32 (sign_len + prefix_len + zeroes + ndigits) in
  let pad_count := if total <? width then s32 (width - total) else 0 in
  let pad := if zero_pad && negb left_adjust && (precision <? 0) then 48 else 32 in
  Some
    (if pad =? 48 then
       let k := if truthy sign then out_char k sign else k in
       let k := out_mem k prefix in
       let k := out_repeat k 48 (Z.to_nat pad_count) in
       let k := out_repeat k 48 (Z.to_nat zeroes) in
       out_mem k (rev digits)
     else
       let k := if left_adjust then k else out_repeat k 32 (Z.to_nat pad_count) in
       let k := if truthy sign then out_char k sign else k in
       let k := out_mem k prefix in
       let k := out_repeat k 48 (Z.to_nat zeroes) in
       let k := out_mem k (rev digits) in
       if left_adjust then out_repeat k 32 (Z.to_nat pad_count) else k).
End out.

(** ** Directives *)

Record flags : Type := Flags {
  f_left : bool;
  f_zero : bool;
  f_alt : bool;
  f_plus : bool;
  f_space : bool
}.

Fixpoint parse_flags (fmt : list Z) (f : flags) : list Z * flags :=
  match fmt with
  | c :: rest =>
      if c =? 45 then parse_flags rest (Flags true (f_zero f) (f_alt f) (f_plus f) (f_space f))
      else if c =? 48 then parse_flags rest (Flags (f_left f) true (f_alt f) (f_plus f) (f_space f))
      else if c =? 35 then parse_flags rest (Flags (f_left f) (f_zero f) true (f_plus f) (f_space f))
      else if c =? 43 then parse_flags rest (Flags (f_left f) (f_zero f) (f_alt f) true (f_space f))
      else if c =? 32 then parse_flags rest (Flags (f_left f) (f_zero f) (f_alt f) (f_plus f) true)
      else (fmt, f)
  | [] => ([], f)
  end.

Fixpoint parse_number (fmt : list Z) (v : Z) : list Z * Z :=
  match fmt with
  | c :: rest => if (48 <=? c) && (c <=? 57) then parse_number rest (s32 (v * 10 + (c - 48))) else (fmt, v)
  | [] => ([], v)
  end.

(** The width and whether a negative argument adjusts to the left. *)
Definition parse_width (fmt : list Z) (ap : list arg) (left_adjust : bool) : option (list Z * list arg * Z * bool) :=
  if peek fmt 0 =? 42 then
    '(w, ap) ← va_int ap;
    Some (drop 1 fmt, ap, (if w <? 0 then s32 (- w) else w), (if w <? 0 then true else left_adjust))
  else
    let '(fmt, w) := parse_number fmt 0 in Some (fmt, ap, w, left_adjust).

Definition parse_precision (fmt : list Z) (ap : list arg) : option (list Z * list arg * Z) :=
  if peek fmt 0 =? 46 then
    let fmt := drop 1 fmt in
    if peek fmt 0 =? 42 then '(p, ap) ← va_int ap; Some (drop 1 fmt, ap, p)
    else let '(fmt, p) := parse_number fmt 0 in Some (fmt, ap, p)
  else Some (fmt, ap, -1).

Definition parse_length (fmt : list Z) : list Z * Z :=
  if peek fmt 0 =? 108 then
    let fmt := drop 1 fmt in
    if peek fmt 0 =? 108 then (drop 1 fmt, 2) else (fmt, 1)
  else if peek fmt 0 =? 122 then (drop 1 fmt, 1)
  else (fmt, 0).

(** An integer argument of the given length: signed, or as a word. *)
Definition va_signed (length : Z) (ap : list arg) : option (Z * list arg) :=
  if length =? 2 then '(v, ap) ← va_llong ap; Some (s64 v, ap)
  else if length =? 1 then '(v, ap) ← va_long ap; Some (s32 v, ap)
  else va_int ap.

Definition va_unsigned (length : Z) (ap : list arg) : option (Z * list arg) :=
  if length =? 2 then '(v, ap) ← va_llong ap; Some (u64 v, ap)
  else if length =? 1 then '(v, ap) ← va_long ap; Some (u32 v, ap)
  else '(v, ap) ← va_int ap; Some (u32 v, ap).

(** What a directive writes: a padded string, a number or one character. *)
Inductive directive : Type :=
| DStr (s : list Z) (width : Z) (left_adjust : bool)
| DUint (v base sign : Z) (upper : bool) (width : Z) (left_adjust zero_pad : bool) (precision : Z) (prefix : list Z)
| DChar (c : Z).

(** "(null)" *)
Definition null_text : list Z := [40; 110; 117; 108; 108; 41].

Definition conversion (c : Z) (f : flags) (width precision length : Z) (ap : list arg) : option (directive * list arg) :=
  if c =? 115 then
    '(s, ap) ← va_str ap;
    let s := match s with Some s => s | None => null_text end in
    let s := if (0 <=? precision) && (precision <? s32 (Z.of_nat (List.length s))) then take (Z.to_nat precision) s else s in
    Some (DStr s width (f_left f), ap)
  else if c =? 99 then '(v, ap) ← va_int ap; Some (DStr [u8 v] width (f_left f), ap)
  else if (c =? 100) || (c =? 105) then
    '(v, ap) ← va_signed length ap;
    let sign := if v <? 0 then 45 else if f_plus f then 43 else if f_space f then 32 else 0 in
    Some (DUint (u64 (if v <? 0 then - v else v)) 10 sign false width (f_left f) (f_zero f) precision [], ap)
  else if (c =? 117) || (c =? 120) || (c =? 88) || (c =? 111) then
    let base := if c =? 111 then 8 else if c =? 117 then 10 else 16 in
    let upper := c =? 88 in
    '(v, ap) ← va_unsigned length ap;
    let prefix :=
      if f_alt f && negb (v =? 0) && ((c =? 120) || (c =? 88)) then [48; if upper then 88 else 120]
      else if f_alt f && negb (v =? 0) && (c =? 111) then [48] else [] in
    Some (DUint v base 0 upper width (f_left f) (f_zero f) precision prefix, ap)
  else if c =? 112 then
    '(v, ap) ← va_ptr ap;
    Some (DUint (u32 v) 16 0 false (if truthy width then width else 1) (f_left f) (f_zero f) precision [48; 120], ap)
  else Some (DChar c, ap).

(** A directive behind its '%': what it writes, the rest of the format and
    of the arguments.  At the end of the format the conversion character is
    the NUL, which is written and not skipped. *)
Definition parse_directive (fmt : list Z) (ap : list arg) : option (directive * list Z * list arg) :=
  let '(fmt, f) := parse_flags fmt (Flags false false false false false) in
  '(fmt, ap, width, left_adjust) ← parse_width fmt ap (f_left f);
  let f := Flags left_adjust (f_zero f) (f_alt f) (f_plus f) (f_space f) in
  '(fmt, ap, precision) ← parse_precision fmt ap;
  let '(fmt, length) := parse_length fmt in
  '(d, ap) ← conversion (peek fmt 0) f width precision length ap;
  Some (d, drop 1 fmt, ap).

Definition out_directive (str : bool) (k : sink) (d : directive) : option sink :=
  match d with
  | DStr s width left_adjust => Some (out_padded str (-1) k s width left_adjust 32)
  | DUint v base sign upper width left_adjust zero_pad precision prefix =>
      out_uint_fmt str (-1) k v base sign upper width left_adjust zero_pad precision prefix
  | DChar c => Some (out_char str (-1) k c)
  end.

(** The loop over the format; every round consumes a character. *)
Fixpoint format_loop (fuel : nat) (str : bool) (fmt : list Z) (ap : list arg) (k : sink) : option sink :=
  match fuel with
  | O => None
  | S n =>
      match fmt with
      | [] => Some k
      | c :: fmt =>
          if negb (c =? 37) then format_loop n str fmt ap (out_char str (-1) k c)
          else
            '(d, fmt, ap) ← parse_directive fmt ap;
            k ← out_directive str k d;
            format_loop n str fmt ap k
      end
  end.

(** The count, the bytes stored, the NUL included, and the calls of [write]. *)
Definition vsnprintf (str : bool) (size : Z) (fmt : list Z) (ap : list arg) : option (Z * list Z * list (Z * Z)) :=
  k ← format_loop (S (length fmt)) str fmt ap (Sink [] size 0 []);
  Some (k_count k, if str && negb (size =? 0) then k_out k ++ [0] else [], k_calls k).

(** [sprintf] and [vfprintf]: the count, and the bytes stored or written.
    Their buffers are not null, so no calls are made on the way. *)
Definition sprintf (fmt : list Z) (ap : list arg) : option (Z * list Z) :=
  '(n, buf, _) ← vsnprintf true 0xffffffff fmt ap; Some (n, buf).

(** [strlen(buf)] bytes of the 512-byte buffer go to the file. *)
Fixpoint before_nul (l : list Z) : list Z :=
  match l with
  | [] => []
  | c :: l => if c =? 0 then [] else c :: before_nul l
  end.

Definition vfprintf (fmt : list Z) (ap : list arg) : option (Z * list Z) :=
  '(n, buf, _) ← vsnprintf true 512 fmt ap; Some (n, before_nul buf).

(** [vasprintf]: the result, what is stored in the allocated string, and the
    calls that the first, counting pass makes. *)
Definition vasprintf {A : Type} `{Allocator A} (heap : A) (fmt : list Z) (ap : list arg) :
    option (A * Z * Z * list Z * list (Z * Z)) :=
  '(n, _, calls) ← vsnprintf false 0 fmt ap;
  if n <? 0 then Some (heap, -1, 0, [], calls)
  else
    let '(heap, strp) := al_malloc heap (u32 (s32 (n + 1))) in
    if strp =? 0 then Some (heap, -1, strp, [], calls)
    else
      '(n, buf, _) ← vsnprintf true (u32 (s32 (n + 1))) fmt ap;
      Some (heap, n, strp, buf, calls).
