(* ===== verification/PrintfSpec.v ===== *)
(** * What a format string stands for

    C's description of [printf] formats as a grammar over the bytes of the
    format, without a parser: a directive is a run of flags, a width, a
    precision, a size and a conversion character, each as long as it can be,
    and every conversion relates its argument to a text.  Of the model of
    the code only the type of arguments is used. *)

From S2P Require Import Prelude Ctype Regex Printf.

(** ** Numerals *)

(** The digit [d] of a base up to 16. *)
Definition digit_char (d : Z) (upper : bool) : Z :=
  nth (Z.to_nat d) (if upper then [48; 49; 50; 51; 52; 53; 54; 55; 56; 57; 65; 66; 67; 68; 69; 70]
                    else [48; 49; 50; 51; 52; 53; 54; 55; 56; 57; 97; 98; 99; 100; 101; 102]) 63.

(** The numeral of [v]: most significant digit first, no leading zeros. *)
Fixpoint numeral_digits (n : nat) (v base : Z) (upper : bool) : list Z :=
  match n with
  | O => []
  | S k => (if v <? base then [] else numeral_digits k (v / base) base upper) ++ [digit_char (v mod base) upper]
  end.
Definition numeral (v base : Z) (upper : bool) : list Z := numeral_digits 64 v base upper.

(** The value of a run of decimal digits. *)
Definition decimal_of (ds : list Z) : Z := fold_left (fun v c => 10 * v + (c - 48)) ds 0.

(** ** Fields *)

Definition spaces (n : Z) : list Z := replicate (Z.to_nat n) 32.
Definition zeros (n : Z) : list Z := replicate (Z.to_nat n) 48.
Definition pad_left (w : Z) (s : list Z) : list Z := spaces (w - Z.of_nat (length s)) ++ s.
Definition pad_right (w : Z) (s : list Z) : list Z := s ++ spaces (w - Z.of_nat (length s)).
Definition justified (left_adjust : bool) (w : Z) (s : list Z) : list Z := if left_adjust then pad_right w s else pad_left w s.

(** A number with its sign character (0 for none) and prefix: the precision
    is the least number of digits, the width the least number of characters,
    filled with spaces on the left, with spaces on the right, or with zeros
    behind the sign and the prefix. *)
Definition number_text (v base sign : Z) (upper : bool) (width : Z) (left_adjust zero_pad : bool)
    (precision : Z) (prefix : list Z) : list Z :=
  let digits := if (precision =? 0) && (v =? 0) then [] else numeral v base upper in
  let digits := zeros (precision - Z.of_nat (length digits)) ++ digits in
  let head := (if truthy sign then [sign] else []) ++ prefix in
  if left_adjust then pad_right width (head ++ digits)
  else if zero_pad && (precision <? 0) then
    head ++ zeros (width - Z.of_nat (length (head ++ digits))) ++ digits
  else pad_left width (head ++ digits).

(** ** The head of a directive *)

(** What stands before the conversion character: the run of flags, whether
    the field is adjusted to the left, the width, the precision (negative for
    none) and the size (0: [int], 1: [long], 2: [long long]). *)
Record field : Type := Field {
  fd_flags : list Z;
  fd_left : bool;
  fd_width : Z;
  fd_precision : Z;
  fd_size : Z
}.

Definition has (f : field) (c : Z) : bool := bool_decide (c ∈ fd_flags f).

(** "-+ #0" *)
Definition flag_char (c : Z) : Prop := c ∈ [45; 43; 32; 35; 48].
Definition digit_char_p (c : Z) : Prop := 48 <= c <= 57.

(** [w], in front of [next], is a width: a star takes an [int] argument, and
    a negative one also adjusts to the left; else it is the longest run of
    digits there is, of which the value wraps like an [int]. *)
Inductive width_at : list Z -> list Z -> list arg -> Z -> bool -> list arg -> Prop :=
  | width_star next v ap : width_at [42] next (VInt v :: ap) (if s32 v <? 0 then s32 (- s32 v) else s32 v) (s32 v <? 0) ap
  | width_digits ds next ap : Forall digit_char_p ds -> ~ digit_char_p (peek next 0) -> peek (ds ++ next) 0 <> 42 ->
      width_at ds next ap (s32 (decimal_of ds)) false ap.

Inductive precision_at : list Z -> list Z -> list arg -> Z -> list arg -> Prop :=
  | precision_none next ap : peek next 0 <> 46 -> precision_at [] next ap (-1) ap
  | precision_star next v ap : precision_at [46; 42] next (VInt v :: ap) (s32 v) ap
  | precision_digits ds next ap : Forall digit_char_p ds -> ~ digit_char_p (peek next 0) -> peek (ds ++ next) 0 <> 42 ->
      precision_at (46 :: ds) next ap (s32 (decimal_of ds)) ap.

(** "", "l", "ll" and "z". *)
Inductive size_at : list Z -> list Z -> Z -> Prop :=
  | size_int next : peek next 0 <> 108 -> peek next 0 <> 122 -> size_at [] next 0
  | size_long next : peek next 0 <> 108 -> size_at [108] next 1
  | size_long_long next : size_at [108; 108] next 2
  | size_size next : size_at [122] next 1.

Inductive head_of : list Z -> list arg -> field -> list Z -> list arg -> Prop :=
  | head_intro fl w p l rest ap ap1 ap2 width negative precision size :
      Forall flag_char fl -> ~ flag_char (peek (w ++ p ++ l ++ rest) 0) ->
      width_at w (p ++ l ++ rest) ap width negative ap1 -> precision_at p (l ++ rest) ap1 precision ap2 -> size_at l rest size ->
      head_of (fl ++ w ++ p ++ l ++ rest) ap (Field fl (bool_decide (45 ∈ fl) || negative) width precision size) rest ap2.

(** ** Conversions *)

(** An integer argument of a size, as a signed value and as a word. *)
Inductive signed_arg : Z -> arg -> Z -> Prop :=
  | signed_int v : signed_arg 0 (VInt v) (s32 v)
  | signed_long v : signed_arg 1 (VLong v) (s32 v)
  | signed_long_long v : signed_arg 2 (VLongLong v) (s64 v).

Inductive unsigned_arg : Z -> arg -> Z -> Prop :=
  | unsigned_int v : unsigned_arg 0 (VInt v) (u32 v)
  | unsigned_long v : unsigned_arg 1 (VLong v) (u32 v)
  | unsigned_long_long v : unsigned_arg 2 (VLongLong v) (u64 v).

(** The precision cuts a string; a length is an [int], which is the length of
    every string shorter than 2^31. *)
Definition cut (precision : Z) (s : list Z) : list Z :=
  if (0 <=? precision) && (precision <? s32 (Z.of_nat (length s))) then take (Z.to_nat precision) s else s.

(** A minus sign, or what the flags '+' and ' ' ask for in its place. *)
Definition sign_char (f : field) (v : Z) : Z := if v <? 0 then 45 else if has f 43 then 43 else if has f 32 then 32 else 0.

Definition number (f : field) (width v base sign : Z) (upper : bool) (prefix : list Z) : list Z :=
  number_text v base sign upper width (fd_left f) (has f 48) (fd_precision f) prefix.

(** The prefix of the flag '#', for a number that is not zero. *)
Definition alternate (f : field) (v : Z) (prefix : list Z) : list Z := if has f 35 && negb (v =? 0) then prefix else [].

(** [shows c f a t]: conversion [c] with head [f] turns the argument [a] into
    the text [t]. *)
Inductive shows : Z -> field -> arg -> list Z -> Prop :=
  | shows_string f s : shows 115 f (VStr (Some s)) (justified (fd_left f) (fd_width f) (cut (fd_precision f) s))
  | shows_null f : shows 115 f (VStr None) (justified (fd_left f) (fd_width f) (cut (fd_precision f) [40; 110; 117; 108; 108; 41]))
  | shows_char f v : shows 99 f (VInt v) (justified (fd_left f) (fd_width f) [u8 v])
  | shows_signed c f a v : c = 100 \/ c = 105 -> signed_arg (fd_size f) a v ->
      shows c f a (number f (fd_width f) (Z.abs v) 10 (sign_char f v) false [])
  | shows_decimal f a v : unsigned_arg (fd_size f) a v -> shows 117 f a (number f (fd_width f) v 10 0 false [])
  | shows_octal f a v : unsigned_arg (fd_size f) a v -> shows 111 f a (number f (fd_width f) v 8 0 false (alternate f v [48]))
  | shows_hex f a v : unsigned_arg (fd_size f) a v -> shows 120 f a (number f (fd_width f) v 16 0 false (alternate f v [48; 120]))
  | shows_upper_hex f a v : unsigned_arg (fd_size f) a v -> shows 88 f a (number f (fd_width f) v 16 0 true (alternate f v [48; 88]))
  | shows_pointer f v : shows 112 f (VPtr v) (number f (if fd_width f =? 0 then 1 else fd_width f) (u32 v) 16 0 false [48; 120]).

(** "scdiuxXop" *)
Definition conversions : list Z := [115; 99; 100; 105; 117; 120; 88; 111; 112].

(** ** Formats

    A character that is no conversion shows itself, a second '%' included.
    At the end of a format that breaks off inside a directive, the code
    writes the NUL. *)
Inductive formats : list Z -> list arg -> list Z -> Prop :=
  | formats_nil ap : formats [] ap []
  | formats_char c fmt ap t : c <> 37 -> formats fmt ap t -> formats (c :: fmt) ap (c :: t)
  | formats_conversion fmt ap f c rest a ap' u t :
      head_of fmt ap f (c :: rest) (a :: ap') -> shows c f a u -> formats rest ap' t -> formats (37 :: fmt) ap (u ++ t)
  | formats_literal fmt ap f c rest ap' t :
      head_of fmt ap f (c :: rest) ap' -> c ∉ conversions -> formats rest ap' t -> formats (37 :: fmt) ap (c :: t)
  | formats_broken fmt ap f ap' : head_of fmt ap f [] ap' -> formats (37 :: fmt) ap [0].
