(* ===== verification/PrintfCorrect.v ===== *)
(** * [vsnprintf] writes the text of its format *)

From S2P Require Import Prelude Ctype Regex Printf PrintfSpec.

(** ** Signed words *)

Lemma s32_congr a b : a mod 2 ^ 32 = b mod 2 ^ 32 -> s32 a = s32 b.
Proof. intros E. unfold s32. rewrite <- (swrap_of_mod 32 a), <- (swrap_of_mod 32 b) by lia. by rewrite E. Qed.

Lemma s32_mod a : s32 a mod 2 ^ 32 = a mod 2 ^ 32.
Proof. apply (swrap_mod 32). lia. Qed.

Lemma u32_s32 v : u32 (s32 v) = u32 v.
Proof. apply s32_mod. Qed.

Lemma s32_add a b : s32 (s32 a + b) = s32 (a + b).
Proof. apply s32_congr. by rewrite Z.add_mod, s32_mod, <- Z.add_mod by lia. Qed.

Lemma s32_digit v d : s32 (s32 v * 10 + d) = s32 (10 * v + d).
Proof.
  apply s32_congr. rewrite Z.add_mod, Z.mul_mod, s32_mod, <- Z.mul_mod, <- Z.add_mod by lia. f_equal. lia.
Qed.

(** ** Numerals *)

Lemma utoa_digit_char d upper : 0 <= d < 16 -> utoa_digit d upper = digit_char d upper.
Proof.
  intros Hd. assert (forallb (fun i => Bool.eqb (utoa_digit (Z.of_nat i) upper =? digit_char (Z.of_nat i) upper) true) (seq 0 16) = true) as H
    by (destruct upper; vm_compute; reflexivity).
  rewrite forallb_forall in H. specialize (H (Z.to_nat d) ltac:(apply in_seq; lia)). rewrite Z2Nat.id in H by lia.
  apply Bool.eqb_prop in H. by apply Z.eqb_eq.
Qed.

Lemma utoa_loop base upper : 2 <= base <= 16 -> forall n v tmp, 0 <= v < base ^ Z.of_nat n -> (0 < n)%nat ->
  loop n (utoa_round base upper) (v, tmp) = Some (tmp ++ rev (numeral_digits n v base upper)).
Proof.
  intros Hb. induction n as [|n IH]; intros v tmp Hv Hn; [lia|]. rewrite Nat2Z.inj_succ, Z.pow_succ_r in Hv by lia.
  cbn [loop utoa_round numeral_digits]. rewrite utoa_digit_char by (pose proof (Z.mod_pos_bound v base); lia). unfold truthy.
  assert (v / base = 0 <-> v < base) as Hz by (split; intros; [apply Z.div_small_iff in H; lia|apply Z.div_small; lia]).
  rewrite rev_app_distr. cbn [rev app].
  destruct (Z.eqb_spec (v / base) 0) as [E|E], (Z.ltb_spec v base) as [L|L]; try lia; cbn [negb]; [done|].
  assert (0 <= v / base < base ^ Z.of_nat n) as Hq by (split; [apply Z.div_pos; lia|apply Z.div_lt_upper_bound; lia]).
  destruct n as [|n]; [cbn in Hq; lia|]. rewrite IH by (done || lia). by rewrite <- app_assoc.
Qed.

Lemma base_fuel v base : 0 <= v < 2 ^ 64 -> 2 <= base -> 0 <= v < base ^ 64.
Proof. intros Hv Hb. pose proof (Z.pow_le_mono_l 2 base 64). lia. Qed.

Lemma utoa_rev_numeral v base upper : 0 <= v < 2 ^ 64 -> 2 <= base <= 16 -> utoa_rev v base upper = Some (rev (numeral v base upper)).
Proof. intros Hv Hb. unfold utoa_rev. rewrite utoa_loop; [done|done|apply base_fuel; lia|lia]. Qed.

(** The number of digits. *)
Lemma numeral_digits_length base upper : 2 <= base -> forall n v k, 0 <= v < base ^ Z.of_nat k -> (0 < k)%nat ->
  (length (numeral_digits n v base upper) <= k)%nat.
Proof.
  intros Hb. induction n as [|n IH]; intros v k Hv Hk; [cbn; lia|]. cbn [numeral_digits]. rewrite length_app. cbn [length].
  destruct (Z.ltb_spec v base) as [L|L]; [cbn; lia|]. destruct k as [|k]; [lia|].
  rewrite Nat2Z.inj_succ, Z.pow_succ_r in Hv by lia.
  assert (0 <= v / base < base ^ Z.of_nat k) as Hq by (split; [apply Z.div_pos; lia|apply Z.div_lt_upper_bound; lia]).
  destruct k as [|k]; [cbn in Hq; assert (v / base = 0) as Hz by lia; apply Z.div_small_iff in Hz; lia|].
  specialize (IH (v / base) (S k) Hq ltac:(lia)). lia.
Qed.

(** ** Directives *)

Definition text (d : directive) : list Z :=
  match d with
  | DStr s width left_adjust => justified left_adjust width s
  | DUint v base sign upper width left_adjust zero_pad precision prefix =>
      number_text v base sign upper width left_adjust zero_pad precision prefix
  | DChar c => [c]
  end.

(** What the parser guarantees of a directive. *)
Definition directive_ok (d : directive) : Prop :=
  match d with
  | DStr _ width _ => - 2 ^ 31 <= width < 2 ^ 31
  | DUint v base _ _ width _ _ precision _ => 0 <= v < 2 ^ 64 /\ 2 <= base <= 16 /\ - 2 ^ 31 <= width < 2 ^ 31 /\ - 2 ^ 31 <= precision < 2 ^ 31
  | _ => True
  end.

(** A length that an [int] holds. *)
Definition int_length (s : list Z) : Prop := Z.of_nat (length s) < 2 ^ 31.

(** ** The helpers emit text *)

Section emit.
Context (str : bool).

(** The sink after the characters [s]. *)
Definition emit (k : sink) (s : list Z) : sink := fold_left (out_char str (-1)) s k.

Lemma emit_app k s t : emit k (s ++ t) = emit (emit k s) t.
Proof. apply fold_left_app. Qed.

Lemma out_repeat_emit k c n : out_repeat str (-1) k c n = emit k (replicate n c).
Proof. revert k. induction n as [|n IH]; intros k; [done|]. cbn [out_repeat replicate]. by rewrite IH. Qed.

Lemma justified_length l w s : (length s <= length (justified l w s))%nat.
Proof. destruct l; unfold justified, pad_left, pad_right; rewrite length_app; lia. Qed.

Lemma out_padded_emit k s width left_adjust : - 2 ^ 31 <= width < 2 ^ 31 -> int_length (justified left_adjust width s) ->
  out_padded str (-1) k s width left_adjust 32 = emit k (justified left_adjust width s).
Proof.
  intros Hw Hl. pose proof (justified_length left_adjust width s) as Hs. unfold int_length in Hl.
  unfold out_padded, justified, pad_right, pad_left, spaces, out_mem. rewrite !out_repeat_emit, (s32_small (Z.of_nat _)) by lia.
  assert (Z.to_nat (if Z.of_nat (length s) <? width then s32 (width - Z.of_nat (length s)) else 0) =
    Z.to_nat (width - Z.of_nat (length s))) as -> by (destruct (Z.ltb_spec (Z.of_nat (length s)) width); rewrite ?s32_small; lia).
  destruct left_adjust; by rewrite emit_app.
Qed.

Lemma out_sign_emit k sign : (if truthy sign then out_char str (-1) k sign else k) = emit k (if truthy sign then [sign] else []).
Proof. by destruct (truthy sign). Qed.

Lemma number_text_length v base sign upper width left_adjust zero_pad precision prefix :
  let digits := if (precision =? 0) && (v =? 0) then [] else numeral v base upper in
  (length (((if truthy sign then [sign] else []) ++ prefix) ++ zeros (precision - Z.of_nat (length digits)) ++ digits) <=
   length (number_text v base sign upper width left_adjust zero_pad precision prefix))%nat.
Proof.
  intros digits. unfold number_text. fold digits. destruct left_adjust; [apply (justified_length true)|].
  destruct (zero_pad && _); [|apply (justified_length false)]. rewrite !length_app. lia.
Qed.

Lemma out_uint_fmt_emit k v base sign upper width left_adjust zero_pad precision prefix :
  directive_ok (DUint v base sign upper width left_adjust zero_pad precision prefix) ->
  int_length (number_text v base sign upper width left_adjust zero_pad precision prefix) ->
  out_uint_fmt str (-1) k v base sign upper width left_adjust zero_pad precision prefix =
    Some (emit k (number_text v base sign upper width left_adjust zero_pad precision prefix)).
Proof.
  intros (Hv & Hb & Hw & Hp) Hl. pose proof (number_text_length v base sign upper width left_adjust zero_pad precision prefix) as Hlen.
  unfold int_length in Hl. cbv zeta in Hlen. unfold out_uint_fmt. revert Hl Hlen. unfold number_text.
  set (D := if (precision =? 0) && (v =? 0) then [] else numeral v base upper). intros Hl Hlen.
  assert ((if (precision =? 0) && (v =? 0) then Some [] else utoa_rev v base upper) = Some (rev D)) as ->
    by (unfold D; destruct (_ && _); [done|by apply utoa_rev_numeral]).
  cbn [mbind option_bind]. rewrite rev_involutive, length_rev.
  set (Z1 := zeros (precision - Z.of_nat (length D))) in *.
  assert ((if Z.of_nat (length D) <? precision then s32 (precision - Z.of_nat (length D)) else 0) = Z.of_nat (length Z1)) as ->
    by (unfold Z1, zeros; rewrite length_replicate; destruct (Z.ltb_spec (Z.of_nat (length D)) precision); rewrite ?s32_small; lia).
  assert (forall k, out_repeat str (-1) k 48 (length Z1) = emit k Z1) as HZ
    by (intros k0; rewrite out_repeat_emit; unfold Z1, zeros; by rewrite length_replicate).
  set (S1 := if truthy sign then [sign] else []) in *.
  assert (b2z (truthy sign) = Z.of_nat (length S1)) as -> by (unfold S1; by destruct (truthy sign)).
  assert (s32 (Z.of_nat (length S1) + Z.of_nat (length prefix) + Z.of_nat (length Z1) + Z.of_nat (length D)) =
    Z.of_nat (length ((S1 ++ prefix) ++ Z1 ++ D))) as -> by (rewrite s32_small; rewrite !length_app in *; lia).
  set (total := Z.of_nat (length ((S1 ++ prefix) ++ Z1 ++ D))) in *.
  assert (Z.to_nat (if total <? width then s32 (width - total) else 0) = Z.to_nat (width - total)) as ->
    by (destruct (Z.ltb_spec total width); rewrite ?s32_small; lia).
  rewrite Nat2Z.id. f_equal. unfold out_mem, pad_left, pad_right, spaces. fold total. rewrite !HZ, !out_repeat_emit, !out_sign_emit. fold S1.
  change (fold_left (out_char str (-1))) with (fun s k => emit k s).
  destruct left_adjust, zero_pad; cbn [negb andb Z.eqb Pos.eqb]; destruct (precision <? 0); cbn [negb andb Z.eqb Pos.eqb];
    rewrite ?emit_app; try done.
Qed.

Lemma out_directive_emit k d : directive_ok d -> int_length (text d) -> out_directive str k d = Some (emit k (text d)).
Proof.
  destruct d as [s w l|v base sign u w l z p pre|c]; cbn [directive_ok out_directive text].
  - intros Hw Hl. by rewrite out_padded_emit.
  - intros Hok Hl. by apply out_uint_fmt_emit.
  - done.
Qed.

(** Without the bound the helpers still return. *)
Lemma out_directive_total k d : directive_ok d -> is_Some (out_directive str k d).
Proof.
  destruct d as [s w l|v base sign u w l z p pre|c]; cbn [directive_ok out_directive]; [by eexists| |by eexists].
  intros (Hv & Hb & _). unfold out_uint_fmt. destruct ((p =? 0) && (v =? 0)); [|rewrite utoa_rev_numeral by done]; eexists; reflexivity.
Qed.

(** What is in the buffer: the text cut to the room there was. *)
Lemma emit_spec k s : 0 <= k_left k ->
  s32 (k_count (emit k s)) = s32 (k_count k + Z.of_nat (length s)) /\
  k_out (emit k s) = k_out k ++ (if str then take (Z.to_nat (k_left k - 1)) s else []) /\
  k_calls (emit k s) = k_calls k ++ (if str then [] else map (fun c => (-1, c)) s).
Proof.
  revert k. induction s as [|c s IH]; intros k Hk.
  - cbn. rewrite take_nil. destruct str; rewrite !app_nil_r; repeat split; f_equal; lia.
  - change (emit k (c :: s)) with (emit (out_char str (-1) k c) s).
    assert (0 <= k_left (out_char str (-1) k c)) as Hk' by (unfold out_char; destruct str; [destruct (Z.ltb_spec 1 (k_left k))|]; cbn; lia).
    destruct (IH _ Hk') as (E1 & E2 & E3). rewrite E1, E2, E3. clear E1 E2 E3 IH Hk'. split; [|split].
    + assert (k_count (out_char str (-1) k c) = s32 (k_count k + 1)) as -> by (unfold out_char; destruct str; [by destruct (_ <? _)|done]).
      rewrite s32_add. cbn [length]. f_equal. lia.
    + unfold out_char. destruct str; [|done]. destruct (Z.ltb_spec 1 (k_left k)) as [H1|H1]; cbn [k_out k_left].
      * replace (Z.to_nat (k_left k - 1)) with (S (Z.to_nat (k_left k - 1 - 1))) by lia. cbn [take]. by rewrite <- app_assoc.
      * by replace (Z.to_nat (k_left k - 1)) with 0%nat by lia.
    + unfold out_char. destruct str; [by destruct (_ <? _)|]. cbn [k_calls map]. by rewrite <- app_assoc.
Qed.

(** The count stays an [int]. *)
Lemma emit_count k s : k_count k = s32 (k_count k) -> k_count (emit k s) = s32 (k_count (emit k s)).
Proof.
  revert k. induction s as [|c s IH]; intros k Hk; [done|]. apply IH. unfold out_char.
  assert (forall z, s32 z = s32 (s32 z)) as Hs by (intros z; symmetry; apply s32_small, s32_range).
  destruct str; [destruct (_ <? _)|]; apply Hs.
Qed.
End emit.

(** ** Parsing *)

Lemma parse_flags_shorter fmt : forall f, (length (parse_flags fmt f).1 <= length fmt)%nat.
Proof.
  induction fmt as [|c fmt IH]; intros f; [done|]. cbn [parse_flags length].
  repeat (destruct (c =? _); [etrans; [apply IH|lia]|]). cbn. lia.
Qed.

Lemma parse_number_shorter fmt : forall v, (length (parse_number fmt v).1 <= length fmt)%nat.
Proof.
  induction fmt as [|c fmt IH]; intros v; [done|]. cbn [parse_number length].
  destruct (_ && _); [etrans; [apply IH|lia]|]. cbn. lia.
Qed.

Lemma drop_shorter (fmt : list Z) : (length (drop 1 fmt) <= length fmt)%nat.
Proof. rewrite length_drop. lia. Qed.

Lemma parse_width_shorter fmt ap l fmt' ap' w l' : parse_width fmt ap l = Some (fmt', ap', w, l') ->
  (length fmt' <= length fmt)%nat.
Proof.
  unfold parse_width. destruct (_ =? 42).
  - destruct (va_int ap) as [[v ap2]|]; cbn [mbind option_bind]; [|done]. intros [= <- _ _ _]. apply drop_shorter.
  - pose proof (parse_number_shorter fmt 0) as H. destruct (parse_number fmt 0). intros [= <- _ _ _]. exact H.
Qed.

Lemma parse_precision_shorter fmt ap fmt' ap' p : parse_precision fmt ap = Some (fmt', ap', p) ->
  (length fmt' <= length fmt)%nat.
Proof.
  unfold parse_precision. pose proof (drop_shorter fmt) as H1. destruct (_ =? 46); [|by intros [= <- _ _]].
  destruct (_ =? 42).
  - destruct (va_int ap) as [[v ap2]|]; cbn [mbind option_bind]; [|done]. intros [= <- _ _].
    pose proof (drop_shorter (drop 1 fmt)). lia.
  - pose proof (parse_number_shorter (drop 1 fmt) 0) as H. destruct (parse_number _ 0). intros [= <- _ _]. cbn in H. lia.
Qed.

Lemma parse_length_shorter fmt : (length (parse_length fmt).1 <= length fmt)%nat.
Proof.
  unfold parse_length. pose proof (drop_shorter fmt). pose proof (drop_shorter (drop 1 fmt)).
  destruct (_ =? 108); [destruct (_ =? 108)|destruct (_ =? 122)]; cbn [fst]; lia.
Qed.

Lemma va_signed_range l ap v ap' : va_signed l ap = Some (v, ap') -> - 2 ^ 63 <= v < 2 ^ 63.
Proof.
  unfold va_signed, va_int. destruct (l =? 2); [|destruct (l =? 1)].
  - destruct (va_llong ap) as [[z ?]|]; cbn [mbind option_bind]; [|done]. intros [= <- _]. apply (swrap_range 64). lia.
  - destruct (va_long ap) as [[z ?]|]; cbn [mbind option_bind]; [|done]. intros [= <- _]. pose proof (s32_range z). lia.
  - destruct ap as [|[z| | | |] ap]; [done| |done..]. intros [= <- _]. pose proof (s32_range z). lia.
Qed.

Lemma va_unsigned_range l ap v ap' : va_unsigned l ap = Some (v, ap') -> 0 <= v < 2 ^ 64.
Proof.
  unfold va_unsigned. destruct (l =? 2); [|destruct (l =? 1)].
  - destruct (va_llong ap) as [[z ?]|]; cbn [mbind option_bind]; [|done]. intros [= <- _]. apply u64_range.
  - destruct (va_long ap) as [[z ?]|]; cbn [mbind option_bind]; [|done]. intros [= <- _]. pose proof (u32_range z). lia.
  - destruct (va_int ap) as [[z ?]|]; cbn [mbind option_bind]; [|done]. intros [= <- _]. pose proof (u32_range z). lia.
Qed.

Lemma conversion_ok c f w p l ap d ap' : conversion c f w p l ap = Some (d, ap') ->
  - 2 ^ 31 <= w < 2 ^ 31 -> - 2 ^ 31 <= p < 2 ^ 31 -> directive_ok d.
Proof.
  unfold conversion. intros E Hw Hp. revert E. destruct (c =? 115).
  { destruct (va_str ap) as [[? ?]|]; cbn [mbind option_bind]; [|done]. by intros [= <- _]. }
  destruct (c =? 99).
  { destruct (va_int ap) as [[? ?]|]; cbn [mbind option_bind]; [|done]. by intros [= <- _]. }
  destruct (_ || _).
  { destruct (va_signed l ap) as [[v ?]|]; cbn [mbind option_bind]; [|done]. intros [= <- _]. split; [apply u64_range|lia]. }
  destruct (_ || _).
  { destruct (va_unsigned l ap) as [[v ?]|] eqn:E; cbn [mbind option_bind]; [|done]. intros [= <- _].
    split; [by eapply va_unsigned_range|]. destruct (c =? 111), (c =? 117); lia. }
  destruct (c =? 112).
  { destruct (va_ptr ap) as [[v ?]|]; cbn [mbind option_bind]; [|done]. intros [= <- _].
    split; [pose proof (u32_range v); lia|]. split; [lia|]. split; [destruct (truthy w); lia|lia]. }
  by intros [= <- _].
Qed.

(** The numbers of a directive are [int]s. *)
Lemma parse_number_range fmt : forall v, - 2 ^ 31 <= v < 2 ^ 31 -> - 2 ^ 31 <= (parse_number fmt v).2 < 2 ^ 31.
Proof. induction fmt as [|c fmt IH]; intros v Hv; [done|]. cbn [parse_number]. destruct (_ && _); [|done]. apply IH, s32_range. Qed.

Lemma parse_width_range fmt ap l fmt' ap' w l' : parse_width fmt ap l = Some (fmt', ap', w, l') -> - 2 ^ 31 <= w < 2 ^ 31.
Proof.
  unfold parse_width, va_int. destruct (_ =? 42).
  - destruct ap as [|[z| | | |] ap]; [done| |done..]. cbn [mbind option_bind]. intros [= _ _ <- _]. destruct (_ <? 0); apply s32_range.
  - pose proof (parse_number_range fmt 0 ltac:(lia)) as H. destruct (parse_number fmt 0). by intros [= _ _ <- _].
Qed.

Lemma parse_precision_range fmt ap fmt' ap' p : parse_precision fmt ap = Some (fmt', ap', p) -> - 2 ^ 31 <= p < 2 ^ 31.
Proof.
  unfold parse_precision, va_int. destruct (_ =? 46); [|intros [= _ _ <-]; lia]. destruct (_ =? 42).
  - destruct ap as [|[z| | | |] ap]; [done| |done..]. cbn [mbind option_bind]. intros [= _ _ <-]. apply s32_range.
  - pose proof (parse_number_range (drop 1 fmt) 0 ltac:(lia)) as H. destruct (parse_number _ 0). by intros [= _ _ <-].
Qed.

Lemma parse_directive_ok fmt ap d fmt' ap' : parse_directive fmt ap = Some (d, fmt', ap') ->
  directive_ok d /\ (length fmt' <= length fmt)%nat.
Proof.
  unfold parse_directive. pose proof (parse_flags_shorter fmt (Flags false false false false false)) as H1.
  destruct (parse_flags _ _) as [fmt1 f]. cbn [fst] in H1.
  destruct (parse_width fmt1 ap (f_left f)) as [[[[fmt2 ap2] w] la]|] eqn:E2; cbn [mbind option_bind]; [|done].
  pose proof (parse_width_range _ _ _ _ _ _ _ E2) as Hw. apply parse_width_shorter in E2.
  destruct (parse_precision fmt2 ap2) as [[[fmt3 ap3] p]|] eqn:E3; cbn [mbind option_bind]; [|done].
  pose proof (parse_precision_range _ _ _ _ _ E3) as Hp. apply parse_precision_shorter in E3. pose proof (parse_length_shorter fmt3) as H4.
  destruct (parse_length fmt3) as [fmt4 l]. cbn [fst] in H4.
  destruct (conversion _ _ _ _ _ _) as [[d' ap4]|] eqn:E5; cbn [mbind option_bind]; [|done].
  intros [= <- <- _]. split; [by eapply conversion_ok|]. pose proof (drop_shorter fmt4). lia.
Qed.

(** ** The parser recognises the grammar *)

(** The longest run of characters with a property that the NUL has not. *)
Lemma run_split (P : Z -> Prop) `{forall c, Decision (P c)} fmt : ~ P 0 ->
  exists run rest, fmt = run ++ rest /\ Forall P run /\ ~ P (peek rest 0).
Proof.
  intros H0. induction fmt as [|c fmt (run & rest & -> & Hr & Hn)]; [by exists [], []|].
  destruct (decide (P c)) as [Hc|Hc]; [exists (c :: run), rest|exists [], (c :: run ++ rest)]; (split; [done|]); [split; [by constructor|done]|done].
Qed.

#[export] Instance flag_char_dec c : Decision (flag_char c) := _.
#[export] Instance digit_char_dec c : Decision (digit_char_p c) := _.

Lemma flag_char_cases c : flag_char c -> c = 45 \/ c = 43 \/ c = 32 \/ c = 35 \/ c = 48.
Proof. unfold flag_char. rewrite !elem_of_cons, elem_of_nil. tauto. Qed.

Lemma bool_decide_cons (x c : Z) l : bool_decide (x ∈ c :: l) = (x =? c) || bool_decide (x ∈ l).
Proof.
  apply Bool.eq_iff_eq_true. rewrite orb_true_iff, !bool_decide_eq_true, elem_of_cons, Z.eqb_eq. done.
Qed.

Lemma parse_flags_stop rest f : ~ flag_char (peek rest 0) -> parse_flags rest f = (rest, f).
Proof.
  destruct rest as [|c rest]; [done|]. unfold flag_char, peek. cbn [nth parse_flags]. intros Hc.
  assert (forall x, x ∈ [45; 43; 32; 35; 48] -> (c =? x) = false) as Hx by (intros x Hx; apply Z.eqb_neq; by intros ->).
  rewrite !Hx by (rewrite !elem_of_cons; tauto). done.
Qed.

Lemma parse_flags_run fl rest : Forall flag_char fl -> ~ flag_char (peek rest 0) -> forall f,
  parse_flags (fl ++ rest) f = (rest, Flags (f_left f || bool_decide (45 ∈ fl)) (f_zero f || bool_decide (48 ∈ fl))
    (f_alt f || bool_decide (35 ∈ fl)) (f_plus f || bool_decide (43 ∈ fl)) (f_space f || bool_decide (32 ∈ fl))).
Proof.
  intros Hfl Hr. induction Hfl as [|c fl Hc _ IH]; intros f.
  - cbn [app]. rewrite parse_flags_stop by done. rewrite !(bool_decide_eq_false_2 (_ ∈ [])) by apply not_elem_of_nil. rewrite !orb_false_r. by destruct f.
  - cbn [app parse_flags]. rewrite !IH. cbn [f_left f_zero f_alt f_plus f_space]. rewrite !bool_decide_cons.
    apply flag_char_cases in Hc as [-> | [-> | [-> | [-> | ->]]]]; cbn [Z.eqb Pos.eqb orb]; by rewrite ?orb_true_r.
Qed.

Lemma digits_fold ds v : fold_left (fun v c => s32 (v * 10 + (c - 48))) ds (s32 v) = s32 (fold_left (fun v c => 10 * v + (c - 48)) ds v).
Proof. revert v. induction ds as [|c ds IH]; intros v; [done|]. cbn [fold_left]. by rewrite s32_digit, IH. Qed.

Lemma parse_number_run ds rest : Forall digit_char_p ds -> ~ digit_char_p (peek rest 0) -> forall v,
  parse_number (ds ++ rest) v = (rest, fold_left (fun v c => s32 (v * 10 + (c - 48))) ds v).
Proof.
  intros Hds Hr. induction Hds as [|c ds Hc _ IH]; intros v; cbn [app fold_left].
  - destruct rest as [|c rest]; [done|]. unfold peek, digit_char_p in Hr. cbn [nth parse_number] in *.
    destruct (Z.leb_spec 48 c), (Z.leb_spec c 57); try done. lia.
  - unfold digit_char_p in Hc. cbn [parse_number]. destruct (Z.leb_spec 48 c), (Z.leb_spec c 57); try lia. cbn [andb]. apply IH.
Qed.

Lemma parse_number_value ds rest : Forall digit_char_p ds -> ~ digit_char_p (peek rest 0) ->
  parse_number (ds ++ rest) 0 = (rest, s32 (decimal_of ds)).
Proof. intros Hds Hr. rewrite parse_number_run by done. f_equal. exact (digits_fold ds 0). Qed.

Lemma parse_width_at w next ap width negative ap1 l : width_at w next ap width negative ap1 ->
  parse_width (w ++ next) ap l = Some (next, ap1, width, l || negative).
Proof.
  intros Hw. unfold parse_width. destruct Hw as [next v ap|ds next ap Hds Hn Hs].
  - cbn. rewrite drop_0. do 2 f_equal. destruct (s32 v <? 0); by rewrite ?orb_true_r, ?orb_false_r.
  - destruct (Z.eqb_spec (peek (ds ++ next) 0) 42); [done|]. rewrite parse_number_value by done. by rewrite orb_false_r.
Qed.

Lemma width_of_parse fmt ap l fmt1 ap1 width l1 : parse_width fmt ap l = Some (fmt1, ap1, width, l1) ->
  exists w negative, fmt = w ++ fmt1 /\ width_at w fmt1 ap width negative ap1.
Proof.
  intros E. destruct (Z.eqb_spec (peek fmt 0) 42) as [H|H].
  - unfold parse_width, va_int in E. rewrite H in E. change (42 =? 42) with true in E. cbn iota in E.
    destruct ap as [|[z| | | |] ap]; [done| |done..]. cbn [mbind option_bind] in E. injection E as <- <- <- _.
    destruct fmt as [|c fmt]; [done|]. unfold peek in H. cbn [nth] in H. subst c. cbn [drop]. rewrite drop_0. do 2 eexists. split; [|constructor]. done.
  - destruct (run_split digit_char_p fmt) as (ds & rest & -> & Hds & Hr); [unfold digit_char_p; lia|].
    rewrite (parse_width_at ds rest ap _ false ap l (width_digits ds rest ap Hds Hr H)) in E. injection E as <- <- <- _.
    do 2 eexists. split; [done|by constructor].
Qed.

Lemma parse_precision_at q next ap precision ap1 : precision_at q next ap precision ap1 ->
  parse_precision (q ++ next) ap = Some (next, ap1, precision).
Proof.
  intros Hq. unfold parse_precision. destruct Hq as [next ap Hn|next v ap|ds next ap Hds Hn Hs].
  - cbn [app]. destruct (Z.eqb_spec (peek next 0) 46); done.
  - cbn. by rewrite drop_0.
  - cbn [app peek nth Z.eqb Pos.eqb drop]. rewrite drop_0. change (nth 0 (ds ++ next) 0) with (peek (ds ++ next) 0). destruct (Z.eqb_spec (peek (ds ++ next) 0) 42); [done|]. by rewrite parse_number_value.
Qed.

Lemma precision_of_parse fmt ap fmt1 ap1 precision : parse_precision fmt ap = Some (fmt1, ap1, precision) ->
  exists q, fmt = q ++ fmt1 /\ precision_at q fmt1 ap precision ap1.
Proof.
  intros E. destruct (Z.eqb_spec (peek fmt 0) 46) as [H|H].
  - destruct fmt as [|c fmt]; [done|]. unfold peek in H. cbn [nth] in H. subst c. destruct (Z.eqb_spec (peek fmt 0) 42) as [H|H].
    + destruct fmt as [|c fmt]; [done|]. unfold peek in H. cbn [nth] in H. subst c. unfold parse_precision, va_int in E. cbn in E.
      destruct ap as [|[z| | | |] ap]; [done| |done..]. rewrite drop_0 in E. injection E as <- <- <-. exists [46; 42]. split; [done|constructor].
    + destruct (run_split digit_char_p fmt) as (ds & rest & -> & Hds & Hr); [unfold digit_char_p; lia|].
      pose proof (precision_digits ds rest ap Hds Hr H) as Hp. pose proof (parse_precision_at _ _ _ _ _ Hp) as E'. cbn [app] in E'.
      rewrite E' in E. injection E as <- <- <-. by exists (46 :: ds).
  - pose proof (precision_none fmt ap H) as Hp. pose proof (parse_precision_at _ _ _ _ _ Hp) as E'. cbn [app] in E'.
    rewrite E' in E. injection E as <- <- <-. by exists [].
Qed.

Lemma parse_length_at l next size : size_at l next size -> parse_length (l ++ next) = (next, size).
Proof.
  intros Hl. unfold parse_length. destruct Hl as [next H1 H2|next H1|next|next].
  - cbn [app]. destruct (Z.eqb_spec (peek next 0) 108), (Z.eqb_spec (peek next 0) 122); done.
  - cbn [app peek nth Z.eqb Pos.eqb drop]. rewrite drop_0. change (nth 0 next 0) with (peek next 0). by destruct (Z.eqb_spec (peek next 0) 108).
  - cbn. by rewrite drop_0.
  - cbn. by rewrite drop_0.
Qed.

Lemma size_of_parse fmt : exists l, fmt = l ++ (parse_length fmt).1 /\ size_at l (parse_length fmt).1 (parse_length fmt).2.
Proof.
  unfold parse_length. destruct fmt as [|c fmt]; [exists []; split; [done|by constructor]|]. unfold peek. cbn [nth drop]. rewrite drop_0.
  destruct (Z.eqb_spec c 108) as [->|H1].
  - destruct fmt as [|d fmt]; [exists [108]; split; [done|by constructor]|]. cbn [nth drop]. rewrite drop_0.
    destruct (Z.eqb_spec d 108) as [->|H2]; [exists [108; 108]; split; [done|constructor]|exists [108]; split; [done|by constructor]].
  - destruct (Z.eqb_spec c 122) as [->|H2]; [exists [122]; split; [done|constructor]|exists []; split; [done|by constructor]].
Qed.

(** The flags as the code keeps them. *)
Definition code_flags (f : field) : flags := Flags (fd_left f) (has f 48) (has f 35) (has f 43) (has f 32).

Lemma head_parse fmt ap f rest ap2 : head_of fmt ap f rest ap2 ->
  parse_directive fmt ap =
    '(d, ap) ← conversion (peek rest 0) (code_flags f) (fd_width f) (fd_precision f) (fd_size f) ap2; Some (d, drop 1 rest, ap).
Proof.
  intros [fl w q l next ap0 ap1 ap3 width negative precision size Hfl Hn Hw Hp Hl]. unfold parse_directive.
  rewrite parse_flags_run by done. cbn [f_left f_zero f_alt f_plus f_space orb].
  rewrite (parse_width_at _ _ _ _ _ _ _ Hw). cbn [mbind option_bind]. rewrite (parse_precision_at _ _ _ _ _ Hp). cbn [mbind option_bind].
  by rewrite (parse_length_at _ _ _ Hl).
Qed.

Lemma head_of_parse fmt ap d fmt' ap' : parse_directive fmt ap = Some (d, fmt', ap') ->
  exists f rest ap2, head_of fmt ap f rest ap2.
Proof.
  intros E. destruct (run_split flag_char fmt) as (fl & fmt1 & -> & Hfl & Hn); [unfold flag_char; rewrite !elem_of_cons, elem_of_nil; lia|].
  unfold parse_directive in E. rewrite parse_flags_run in E by done. cbn [f_left orb] in E.
  destruct (parse_width fmt1 ap _) as [[[[fmt2 ap2] w] l2]|] eqn:E2; cbn [mbind option_bind] in E; [|done].
  destruct (width_of_parse _ _ _ _ _ _ _ E2) as (ww & negative & -> & Hw).
  destruct (parse_precision fmt2 ap2) as [[[fmt3 ap3] q]|] eqn:E3; cbn [mbind option_bind] in E; [|done].
  destruct (precision_of_parse _ _ _ _ _ E3) as (qq & -> & Hp).
  destruct (size_of_parse fmt3) as (ll & E4 & Hl). set (rest := (parse_length fmt3).1) in *. clearbody rest. subst fmt3.
  do 3 eexists. exact (head_intro fl ww qq ll rest ap ap2 ap3 w negative q _ Hfl Hn Hw Hp Hl).
Qed.

(** ** The conversions *)

Lemma signed_arg_va n a v ap : signed_arg n a v -> va_signed n (a :: ap) = Some (v, ap) /\ - 2 ^ 63 <= v < 2 ^ 63.
Proof.
  intros Ha. assert (va_signed n (a :: ap) = Some (v, ap)) as E by (by destruct Ha).
  split; [exact E|by eapply va_signed_range].
Qed.

Lemma va_signed_arg n ap v ap' : 0 <= n <= 2 -> va_signed n ap = Some (v, ap') -> exists a, ap = a :: ap' /\ signed_arg n a v.
Proof.
  intros Hn. unfold va_signed. destruct (Z.eqb_spec n 2) as [->|]; [|destruct (Z.eqb_spec n 1) as [->|]; [|assert (n = 0) as -> by lia]];
    (destruct ap as [|[z|z|z|z|z] ap]; cbn [va_int va_long va_llong mbind option_bind]; try done); intros [= <- <-]; eexists; (split; [done|constructor]).
Qed.

Lemma unsigned_arg_va n a v ap : unsigned_arg n a v -> va_unsigned n (a :: ap) = Some (v, ap).
Proof.
  intros [z|z|z]; unfold va_unsigned; cbn [Z.eqb Pos.eqb va_int va_long va_llong mbind option_bind]; [|done..].
  do 2 f_equal. apply u32_s32.
Qed.

Lemma va_unsigned_arg n ap v ap' : 0 <= n <= 2 -> va_unsigned n ap = Some (v, ap') -> exists a, ap = a :: ap' /\ unsigned_arg n a v.
Proof.
  intros Hn. unfold va_unsigned. destruct (Z.eqb_spec n 2) as [->|]; [|destruct (Z.eqb_spec n 1) as [->|]; [|assert (n = 0) as -> by lia]];
    (destruct ap as [|[z|z|z|z|z] ap]; cbn [va_int va_long va_llong mbind option_bind]; try done); intros [= <- <-]; eexists; (split; [done|]); [constructor|constructor|].
  rewrite u32_s32. constructor.
Qed.

Lemma u8_s32 v : u8 (s32 v) = u8 v.
Proof.
  unfold u8. rewrite <- (Z.mod_mod_divide (s32 v) (2 ^ 32) (2 ^ 8)), s32_mod by (by exists (2 ^ 24)).
  by rewrite Z.mod_mod_divide by (by exists (2 ^ 24)).
Qed.

Lemma magnitude v : - 2 ^ 63 <= v < 2 ^ 63 -> u64 (if v <? 0 then - v else v) = Z.abs v.
Proof. intros Hv. rewrite u64_small; destruct (Z.ltb_spec v 0); lia. Qed.

(** The directive of a conversion with its argument, as the code computes it,
    has the text of the specification. *)
Lemma shows_conversion c f a u ap : shows c f a u ->
  exists d, conversion c (code_flags f) (fd_width f) (fd_precision f) (fd_size f) (a :: ap) = Some (d, ap) /\ text d = u.
Proof.
  intros Hs. destruct Hs as [f s|f|f v|c f a v Hc Ha|f a v Ha|f a v Ha|f a v Ha|f a v Ha|f v]; unfold conversion, number, alternate.
  1, 2: eexists; split; reflexivity.
  - eexists. split; [reflexivity|]. cbn [text]. do 2 f_equal. apply u8_s32.
  - destruct (signed_arg_va _ _ _ ap Ha) as [E Hr].
    assert ((c =? 115) = false /\ (c =? 99) = false /\ (c =? 100) || (c =? 105) = true) as (-> & -> & ->) by lia.
    rewrite E. cbn [mbind option_bind]. eexists. split; [reflexivity|]. cbn [text]. rewrite magnitude by done. done.
  - cbn [Z.eqb Pos.eqb orb andb]. rewrite (unsigned_arg_va _ _ _ ap Ha). cbn [mbind option_bind]. rewrite !andb_false_r. eexists. split; reflexivity.
  - cbn [Z.eqb Pos.eqb orb andb]. rewrite (unsigned_arg_va _ _ _ ap Ha). cbn [mbind option_bind]. rewrite andb_false_r, andb_true_r. eexists. split; reflexivity.
  - cbn [Z.eqb Pos.eqb orb andb]. rewrite (unsigned_arg_va _ _ _ ap Ha). cbn [mbind option_bind]. rewrite andb_true_r, andb_false_r. eexists. split; reflexivity.
  - cbn [Z.eqb Pos.eqb orb andb]. rewrite (unsigned_arg_va _ _ _ ap Ha). cbn [mbind option_bind]. rewrite andb_true_r, andb_false_r. eexists. split; reflexivity.
  - eexists. split; [reflexivity|]. cbn [text code_flags f_left f_zero]. unfold truthy. by destruct (fd_width f =? 0).
Qed.

Lemma size_range l next size : size_at l next size -> 0 <= size <= 2.
Proof. intros []; lia. Qed.

(** In [E] an integer argument was read; [L] says which. *)
Ltac read_number E Hn L :=
  unfold conversion in E; cbn [Z.eqb Pos.eqb orb] in E;
  match type of E with
  | mbind _ ?x = _ => let v := fresh "v" in let ap2 := fresh "ap" in let Ev := fresh "Ev" in destruct x as [[v ap2]|] eqn:Ev; [|done];
      destruct (L _ _ _ _ Hn Ev) as (? & -> & ?); cbn [mbind option_bind] in E; injection E as _ <-; do 2 eexists; split; [done|]
  end.

(** The argument of another conversion, of the type that it wants. *)
Ltac read_argument E ap :=
  let z := fresh "z" in let s := fresh "s" in let ap' := fresh "ap" in
  destruct ap as [|[z|z|z|z|[s|]] ap']; try discriminate; unfold conversion in E;
  cbn [Z.eqb Pos.eqb va_str va_int va_ptr mbind option_bind] in E; injection E as _ <-; do 2 eexists; (split; [done|]).

Lemma conversion_shows c f ap d ap' : 0 <= fd_size f <= 2 ->
  conversion c (code_flags f) (fd_width f) (fd_precision f) (fd_size f) ap = Some (d, ap') -> c ∈ conversions ->
  exists a u, ap = a :: ap' /\ shows c f a u.
Proof.
  intros Hn E Hc. unfold conversions in Hc. rewrite !elem_of_cons, elem_of_nil in Hc.
  destruct Hc as [-> | [-> | [-> | [-> | [-> | [-> | [-> | [-> | [-> | []]]]]]]]]].
  - read_argument E ap; constructor.
  - read_argument E ap; constructor.
  - read_number E Hn va_signed_arg. eapply shows_signed; [by left|done].
  - read_number E Hn va_signed_arg. eapply shows_signed; [by right|done].
  - read_number E Hn va_unsigned_arg. by econstructor.
  - read_number E Hn va_unsigned_arg. by econstructor.
  - read_number E Hn va_unsigned_arg. by econstructor.
  - read_number E Hn va_unsigned_arg. by econstructor.
  - read_argument E ap. apply shows_pointer.
Qed.

(** ** The loop *)

Lemma head_size fmt ap f rest ap2 : head_of fmt ap f rest ap2 -> 0 <= fd_size f <= 2.
Proof. intros []. by eapply size_range. Qed.

Lemma conversion_literal c f w p l ap : c ∉ conversions -> conversion c f w p l ap = Some (DChar c, ap).
Proof.
  intros Hc. assert (forall x, x ∈ conversions -> (c =? x) = false) as Hx by (intros x Hx; apply Z.eqb_neq; by intros ->).
  unfold conversions in Hx. unfold conversion. rewrite !Hx by (rewrite !elem_of_cons; tauto). done.
Qed.

(** A directive of the code stands for a text of the grammar. *)
Lemma formats_directive fmt ap d fmt' ap' t : parse_directive fmt ap = Some (d, fmt', ap') -> formats fmt' ap' t ->
  formats (37 :: fmt) ap (text d ++ t).
Proof.
  intros E Ht. destruct (head_of_parse _ _ _ _ _ E) as (f & rest & ap2 & Hh). rewrite (head_parse _ _ _ _ _ Hh) in E.
  destruct rest as [|c rest].
  - unfold peek in E. cbn [nth] in E. rewrite conversion_literal in E by (unfold conversions; rewrite !elem_of_cons, elem_of_nil; lia).
    cbn [mbind option_bind drop] in E. injection E as <- <- <-. inversion Ht; subst. by eapply formats_broken.
  - unfold peek in E. cbn [nth drop] in E. rewrite drop_0 in E. destruct (decide (c ∈ conversions)) as [Hc|Hc].
    + destruct (conversion c _ _ _ _ ap2) as [[d2 ap3]|] eqn:Ec; cbn [mbind option_bind] in E; [|done]. injection E as <- <- <-.
      destruct (conversion_shows _ _ _ _ _ (head_size _ _ _ _ _ Hh) Ec Hc) as (a & u & -> & Hs).
      destruct (shows_conversion _ _ _ _ ap3 Hs) as (d3 & E3 & <-). rewrite E3 in Ec. injection Ec as ->. by eapply formats_conversion.
    + rewrite conversion_literal in E by done. injection E as <- <- <-. by eapply formats_literal.
Qed.

(** And every text of the grammar comes from one. *)
Lemma formats_parse fmt ap t : formats (37 :: fmt) ap t ->
  exists d fmt' ap' t', parse_directive fmt ap = Some (d, fmt', ap') /\ t = text d ++ t' /\ formats fmt' ap' t'.
Proof.
  inversion 1 as [|c ? ? ? Hc|? ? f c rest a ap' u t' Hh Hs Ht'|? ? f c rest ap' t' Hh Hc Ht'|? ? f ap' Hh]; subst; [done|..].
  - destruct (shows_conversion _ _ _ _ ap' Hs) as (d & Ed & <-). exists d, rest, ap', t'. split; [|done].
    rewrite (head_parse _ _ _ _ _ Hh). unfold peek. cbn [nth]. rewrite Ed. cbn [mbind option_bind drop]. by rewrite drop_0.
  - exists (DChar c), rest, ap', t'. split; [|done].
    rewrite (head_parse _ _ _ _ _ Hh). unfold peek. cbn [nth]. rewrite conversion_literal by done. cbn [mbind option_bind drop]. by rewrite drop_0.
  - exists (DChar 0), [], ap', []. split; [|split; [done|constructor]]. by rewrite (head_parse _ _ _ _ _ Hh).
Qed.

Lemma formats_plain c fmt ap t : c <> 37 -> formats (c :: fmt) ap t -> exists t', t = c :: t' /\ formats fmt ap t'.
Proof. intros Hc H. inversion H; subst; try done. by eexists. Qed.

(** By the length of the format, which every directive makes shorter. *)
Lemma formats_loop str n : forall fmt ap t k, (length fmt < n)%nat -> formats fmt ap t ->
  exists k', format_loop n str fmt ap k = Some k' /\ (int_length t -> k' = emit str k t).
Proof.
  induction n as [|n IH]; intros fmt ap t k Hn Hf; [lia|]. destruct fmt as [|c fmt]; [inversion Hf; subst; by eexists|].
  cbn [format_loop]. cbn [length] in Hn. destruct (Z.eqb_spec c 37) as [->|Hc]; cbn [negb].
  - destruct (formats_parse _ _ _ Hf) as (d & fmt' & ap' & t' & Hd & -> & Hf'). rewrite Hd. cbn [mbind option_bind].
    destruct (parse_directive_ok _ _ _ _ _ Hd) as [Hok Hlen].
    destruct (out_directive_total str k d Hok) as [k1 Ek1]. rewrite Ek1. cbn [mbind option_bind].
    destruct (IH fmt' ap' t' k1) as (k' & -> & Hk'); [lia|done|]. eexists. split; [done|].
    unfold int_length in *. rewrite length_app. intros Hl. rewrite Hk' by lia. rewrite emit_app.
    rewrite out_directive_emit in Ek1 by (done || (unfold int_length; lia)). by injection Ek1 as <-.
  - destruct (formats_plain _ _ _ _ Hc Hf) as (t' & -> & Hf').
    destruct (IH fmt ap t' (out_char str (-1) k c)) as (k' & -> & Hk'); [lia|done|]. eexists. split; [done|].
    unfold int_length in *. cbn [length]. intros Hl. by rewrite Hk' by lia.
Qed.

Lemma loop_formats str n : forall fmt ap k k', format_loop n str fmt ap k = Some k' -> exists t, formats fmt ap t.
Proof.
  induction n as [|n IH]; intros fmt ap k k'; [done|]. destruct fmt as [|c fmt]; [exists []; constructor|].
  cbn [format_loop]. destruct (Z.eqb_spec c 37) as [->|Hc]; cbn [negb].
  - destruct (parse_directive fmt ap) as [[[d fmt'] ap']|] eqn:Hd; cbn [mbind option_bind]; [|done].
    destruct (out_directive str k d) as [k1|]; cbn [mbind option_bind]; [|done].
    intros [t Ht]%IH. eexists. by eapply formats_directive.
  - intros [t Ht]%IH. eexists. by constructor.
Qed.

(** A format and its arguments stand for one text. *)
Lemma formats_unique n : forall fmt ap t t', (length fmt < n)%nat -> formats fmt ap t -> formats fmt ap t' -> t = t'.
Proof.
  induction n as [|n IH]; intros fmt ap t t' Hn H H'; [lia|]. destruct fmt as [|c fmt]; [by inversion H; inversion H'|].
  cbn [length] in Hn. destruct (Z.eqb_spec c 37) as [->|Hc].
  - destruct (formats_parse _ _ _ H) as (d & fmt1 & ap1 & t1 & Hd & -> & H1).
    destruct (formats_parse _ _ _ H') as (d' & fmt2 & ap2 & t2 & Hd' & -> & H2). rewrite Hd in Hd'. injection Hd' as <- <- <-.
    apply parse_directive_ok in Hd as [_ Hlen]. f_equal. eapply IH; [|exact H1|exact H2]. lia.
  - destruct (formats_plain _ _ _ _ Hc H) as (t1 & -> & H1), (formats_plain _ _ _ _ Hc H') as (t2 & -> & H2).
    f_equal. eapply IH; [|exact H1|exact H2]. lia.
Qed.

Lemma vsnprintf_text str size fmt ap t : formats fmt ap t -> 0 <= size -> int_length t ->
  vsnprintf str size fmt ap = Some (Z.of_nat (length t),
    if str && negb (size =? 0) then take (Z.to_nat (size - 1)) t ++ [0] else [],
    if str then [] else map (fun c => (-1, c)) t).
Proof.
  intros Hf Hs Hl. unfold vsnprintf. destruct (formats_loop str (S (length fmt)) fmt ap t (Sink [] size 0 [])) as (k & -> & Hk); [lia|done|].
  rewrite (Hk Hl). cbn [mbind option_bind]. unfold int_length in Hl.
  destruct (emit_spec str (Sink [] size 0 []) t Hs) as (E & -> & ->). rewrite (emit_count str (Sink [] size 0 []) t eq_refl), E.
  cbn [k_count k_out k_left k_calls app]. rewrite s32_small by lia. by destruct str.
Qed.

Lemma vsnprintf_total str size fmt ap : is_Some (vsnprintf str size fmt ap) <-> exists t, formats fmt ap t.
Proof.
  unfold vsnprintf. split.
  - intros [r E]. destruct (format_loop _ _ _ _ _) as [k|] eqn:Ek; [|done]. by apply loop_formats in Ek.
  - intros [t Ht]. destruct (formats_loop str (S (length fmt)) fmt ap t (Sink [] size 0 [])) as (k & -> & _); [lia|done|]. by eexists.
Qed.
