(* ===== verification/PrintfClaims.v ===== *)
(** * Formatted output: the claims *)

From S2P Require Import Prelude Ctype Regex Numbers Printf PrintfSpec PrintfCorrect.

(** ** Numerals are read back *)

Lemma digit_value_digit d upper : 0 <= d < 16 -> digit_value (digit_char d upper) = Some d.
Proof.
  intros Hd. rewrite <- utoa_digit_char by done. unfold utoa_digit, digit_value. destruct (Z.ltb_spec d 10).
  - destruct (Z.leb_spec 48 (48 + d)), (Z.leb_spec (48 + d) 57); try lia. cbn [andb]. f_equal. lia.
  - destruct upper.
    + destruct (Z.leb_spec 48 (65 + d - 10)), (Z.leb_spec (65 + d - 10) 57), (Z.leb_spec 97 (65 + d - 10)),
        (Z.leb_spec 65 (65 + d - 10)), (Z.leb_spec (65 + d - 10) 90); try lia; cbn [andb]; f_equal; lia.
    + destruct (Z.leb_spec 48 (97 + d - 10)), (Z.leb_spec (97 + d - 10) 57), (Z.leb_spec 97 (97 + d - 10)),
        (Z.leb_spec (97 + d - 10) 122); try lia; cbn [andb]; f_equal; lia.
Qed.

Lemma numeral_digits_value base upper : 2 <= base <= 16 -> forall n v, 0 <= v < base ^ Z.of_nat n -> (0 < n)%nat ->
  exists vs, digits_of base (numeral_digits n v base upper) vs /\ value base vs = v /\ numeral_digits n v base upper <> [].
Proof.
  intros Hb. induction n as [|n IH]; intros v Hv Hn; [lia|]. rewrite Nat2Z.inj_succ, Z.pow_succ_r in Hv by lia.
  cbn [numeral_digits]. pose proof (Z.mod_pos_bound v base ltac:(lia)) as Hm. pose proof (Z.div_mod v base ltac:(lia)) as E.
  assert (digits_of base [digit_char (v mod base) upper] [v mod base]) as H1
    by (constructor; [split; [apply digit_value_digit; lia|lia]|constructor]).
  destruct (Z.ltb_spec v base) as [L|L].
  - exists [v mod base]. split; [exact H1|]. split; [|done]. unfold value. cbn [fold_left]. rewrite Z.mod_small by lia. lia.
  - assert (0 <= v / base < base ^ Z.of_nat n) as Hq by (split; [apply Z.div_pos; lia|apply Z.div_lt_upper_bound; lia]).
    assert (1 <= v / base) as Hq1 by (apply Z.div_le_lower_bound; lia).
    destruct n as [|n]; [cbn in Hq; lia|]. destruct (IH (v / base) Hq) as (vs & Hd & Ev & _); [lia|].
    exists (vs ++ [v mod base]). split; [by apply Forall2_app|]. split; [|by destruct (numeral_digits _ _ _ _)].
    unfold value in *. rewrite fold_left_app, Ev. cbn [fold_left]. lia.
Qed.

Lemma numeral_value v base upper : 2 <= base <= 16 -> 0 <= v < 2 ^ 64 ->
  exists vs, digits_of base (numeral v base upper) vs /\ value base vs = v /\ numeral v base upper <> [].
Proof. intros Hb Hv. apply numeral_digits_value; [done|apply base_fuel; lia|lia]. Qed.

(** The first character of a digit string. *)
Lemma digit_first base c ds vs : digits_of base (c :: ds) vs -> base <= 16 ->
  isspace c = false /\ c <> 45 /\ c <> 43 /\ is_x c = false.
Proof.
  intros H Hb. inversion H as [|? d ? ? [Hc Hd] _]; subst. clear H. unfold digit_value in Hc. unfold isspace, is_x.
  destruct (Z.leb_spec 48 c), (Z.leb_spec c 57); cbn [andb] in Hc; [lia|..];
    (destruct (Z.leb_spec 97 c), (Z.leb_spec c 122); cbn [andb] in Hc; [injection Hc as <-; lia|..]);
    (destruct (Z.leb_spec 65 c), (Z.leb_spec c 90); cbn [andb] in Hc; [injection Hc as <-; lia|..]); done.
Qed.

Lemma strtoul_numeral v base upper : 2 <= base <= 16 -> 0 <= v < 2 ^ 32 ->
  strtoul (numeral v base upper) base = (v, [], false).
Proof.
  intros Hb Hv. destruct (numeral_value v base upper) as (vs & Hd & Ev & Hne); [lia|lia|].
  assert (skip_spaces (numeral v base upper) = numeral v base upper /\
          is_x (peek (numeral v base upper) 1) = false) as [Es Ex].
  { destruct (numeral v base upper) as [|c ds] eqn:E; [done|].
    destruct (digit_first base c ds vs Hd) as (H1 & _ & _ & _); [lia|]. cbn [skip_spaces]. rewrite H1. split; [done|].
    destruct ds as [|c2 ds]; [done|]. inversion Hd as [|? ? ? ? _ Hd']; subst.
    destruct (digit_first base c2 ds _ Hd') as (_ & _ & _ & H2); [lia|]. exact H2. }
  unfold strtoul. rewrite Es. unfold strtoul_base. rewrite Ex, andb_false_r.
  destruct (Z.eqb_spec base 0); [lia|]. destruct (Z.ltb_spec base 2), (Z.ltb_spec 36 base); try lia. cbn [orb].
  pose proof (strtoul_digits base _ vs [] ltac:(lia) Hd Hne I) as E. rewrite app_nil_r in E. rewrite E, Ev, u32_small by lia.
  destruct (Z.eqb_spec (Z.of_nat (length (numeral v base upper))) 0) as [E0|]; [|done].
  destruct (numeral v base upper); [done|cbn in E0; lia].
Qed.

(** A field without flags, width or precision. *)
Lemma plain_text v base sign upper prefix :
  number_text v base sign upper 0 false false (-1) prefix =
    (if truthy sign then [sign] else []) ++ prefix ++ numeral v base upper.
Proof.
  unfold number_text. change ((-1 =? 0) && (v =? 0)) with false. cbn [andb]. cbn iota.
  unfold pad_left, spaces, zeros.
  replace (Z.to_nat (-1 - _)) with 0%nat by lia. replace (Z.to_nat (0 - _)) with 0%nat by lia.
  cbn [replicate app]. by rewrite <- app_assoc.
Qed.

Lemma numeral_length v base upper : 2 <= base -> 0 <= v < 2 ^ 64 -> (length (numeral v base upper) <= 64)%nat.
Proof. intros Hb Hv. apply numeral_digits_length; [done|by apply base_fuel|lia]. Qed.

Lemma sprintf_text fmt ap t : formats fmt ap t -> int_length t ->
  sprintf fmt ap = Some (Z.of_nat (length t), t ++ [0]).
Proof.
  intros Hf Hl. unfold sprintf. rewrite (vsnprintf_text true 0xffffffff fmt ap t Hf) by (done || lia).
  change (negb (0xffffffff =? 0)) with true. cbn [andb mbind option_bind]. unfold int_length in Hl. rewrite take_ge; [done|lia].
Qed.

(** One directive as the whole format. *)
Lemma formats_one fmt ap d : parse_directive fmt ap = Some (d, [], []) -> formats (37 :: fmt) ap (text d).
Proof. intros H. rewrite <- (app_nil_r (text d)). eapply formats_directive; [exact H|constructor]. Qed.

(** ** The properties *)







(** [utoa_rev] fits its caller's [digits[32]]: for the bases 8, 10 and 16
    it writes at most 22 characters of any 64-bit value, and they are the
    digits of that value, least significant first. *)
Theorem utoa_rev_correct v base upper (Hv : 0 <= v < 2 ^ 64) (Hb : base = 8 \/ base = 10 \/ base = 16) :
  exists tmp vs, utoa_rev v base upper = Some tmp /\ (length tmp <= 22)%nat /\
    digits_of base (rev tmp) vs /\ value base vs = v.
Proof.
  assert (2 <= base <= 16) as Hb' by lia. destruct (numeral_value v base upper) as (vs & Hd & Ev & Hne); [lia|done|].
  exists (rev (numeral v base upper)), vs. split; [apply utoa_rev_numeral; lia|]. split.
  - rewrite length_rev. apply numeral_digits_length; [lia| |lia].
    assert (2 ^ 64 <= base ^ 22) by (transitivity (8 ^ 22); [done|apply Z.pow_le_mono_l; lia]). lia.
  - rewrite rev_involutive. split; [exact Hd|exact Ev].
Qed.

Lemma utoa_rev_correct_witness : exists tmp vs, utoa_rev 255 16 true = Some tmp /\ (length tmp <= 22)%nat /\
  digits_of 16 (rev tmp) vs /\ value 16 vs = 255.
Proof. apply (utoa_rev_correct 255 16 true); lia. Defined.

(** The conversion characters of unsigned numbers and their bases. *)
Definition unsigned_conversion (c base : Z) : Prop := (c = 117 /\ base = 10) \/ ((c = 120 \/ c = 88) /\ base = 16) \/ (c = 111 /\ base = 8).

(** What [sprintf] writes for an unsigned conversion is what [strtoul] reads
    back, to the end of the text. *)
Lemma unsigned_reads_back c base v (Hc : unsigned_conversion c base) (Hv : 0 <= v < 2 ^ 32) :
  exists t, sprintf [37; c] [VInt v] = Some (Z.of_nat (length t), t ++ [0]) /\ strtoul t base = (v, [], false).
Proof.
  exists (numeral v base (c =? 88)).
  assert (2 <= base <= 16) as Hb by (unfold unsigned_conversion in Hc; lia).
  split; [|by apply strtoul_numeral]. apply sprintf_text; [|unfold int_length; pose proof (numeral_length v base (c =? 88)); lia].
  replace (numeral v base (c =? 88)) with (text (DUint v base 0 (c =? 88) 0 false false (-1) [])) by apply plain_text.
  apply formats_one. assert (u32 (s32 v) = v) as E by (by rewrite u32_s32, u32_small). rewrite <- E at 2.
  destruct Hc as [[-> ->]|[[[-> | ->] ->]|[-> ->]]]; reflexivity.
Qed.

Lemma signed_reads_back v (Hv : - 2 ^ 31 <= v < 2 ^ 31) :
  exists t, sprintf [37; 100] [VInt v] = Some (Z.of_nat (length t), t ++ [0]) /\
    strtol t 10 = (v, [], false) /\ atoi t = v.
Proof.
  assert (s32 v = v) as Ev by (apply swrap_small; lia).
  set (m := if v <? 0 then - v else v). assert (0 <= m <= 2 ^ 31) as Hm by (unfold m; destruct (Z.ltb_spec v 0); lia).
  assert (strtol ((if v <? 0 then [45] else []) ++ numeral m 10 false) 10 = (v, [], false)) as E.
  { pose proof (strtoul_numeral m 10 false ltac:(lia) ltac:(lia)) as Em.
    destruct (numeral_value m 10 false) as (vs & Hd & _ & Hne); [lia|lia|].
    destruct (numeral m 10 false) as [|c ds] eqn:En; [done|].
    destruct (digit_first 10 c ds vs Hd) as (H1 & H2 & H3 & _); [lia|]. unfold strtol, m in *.
    destruct (Z.ltb_spec v 0) as [Hneg|Hpos]; cbn [app].
    - cbn [skip_spaces]. change (isspace 45) with false. cbn iota. cbn [peek nth drop]. change (45 =? 45) with true. cbn iota.
      rewrite Em. f_equal. f_equal. destruct (decide (v = - 2 ^ 31)) as [->|]; [reflexivity|].
      assert (forall x, - 2 ^ 31 <= x < 2 ^ 31 -> s32 x = x) as Hs by (intros; apply swrap_small; lia).
      rewrite (Hs (- v)) by lia. rewrite Hs by lia. lia.
    - cbn [skip_spaces]. rewrite H1. cbn [peek nth]. destruct (Z.eqb_spec c 45), (Z.eqb_spec c 43); try done.
      rewrite Em. by rewrite Ev. }
  exists ((if v <? 0 then [45] else []) ++ numeral m 10 false). split; [|split; [exact E|]].
  - apply sprintf_text.
    + replace (_ ++ numeral m 10 false) with
        (text (DUint (u64 (if s32 v <? 0 then - s32 v else s32 v)) 10 (if s32 v <? 0 then 45 else 0) false 0 false false (-1) [])).
      * apply formats_one. reflexivity.
      * cbn [text]. rewrite plain_text, Ev, u64_small by (destruct (Z.ltb_spec v 0); lia). unfold m. by destruct (v <? 0).
    + unfold int_length. rewrite length_app. pose proof (numeral_length m 10 false). destruct (v <? 0); cbn [length]; lia.
  - unfold atoi. rewrite E. exact Ev.
Qed.

(** C35: printing and parsing of numbers are inverse.  "%d" and [strtol] are
    inverse on every [int], the most negative one included, and [atoi] agrees;
    what [sprintf] writes for "%u", "%x", "%X" or "%o" is what [strtoul] reads
    back in the base of the conversion, to the end of the text. *)
Theorem numbers_roundtrip :
  (forall v, - 2 ^ 31 <= v < 2 ^ 31 ->
    exists t, sprintf [37; 100] [VInt v] = Some (Z.of_nat (length t), t ++ [0]) /\
      strtol t 10 = (v, [], false) /\ atoi t = v) /\
  (forall c base v, unsigned_conversion c base -> 0 <= v < 2 ^ 32 ->
    exists t, sprintf [37; c] [VInt v] = Some (Z.of_nat (length t), t ++ [0]) /\ strtoul t base = (v, [], false)).
Proof. split; [apply signed_reads_back|apply unsigned_reads_back]. Qed.

Lemma numbers_roundtrip_witness :
  (exists t, sprintf [37; 100] [VInt (-2147483648)] = Some (Z.of_nat (length t), t ++ [0]) /\
    strtol t 10 = (-2147483648, [], false) /\ atoi t = -2147483648) /\
  (exists t, sprintf [37; 120] [VInt 48879] = Some (Z.of_nat (length t), t ++ [0]) /\ strtoul t 16 = (48879, [], false)).
Proof.
  split.
  - apply (proj1 numbers_roundtrip (-2147483648)). lia.
  - apply (proj2 numbers_roundtrip 120 16 48879); [right; left; split; [by left|reflexivity]|lia].
Defined.

(** [vasprintf] asks [malloc] for exactly the size of the text and its
    NUL and stores the whole text; a refused allocation is -1.  The pass that
    counts has no buffer: it makes a call of [write] for each character. *)
Theorem vasprintf_correct {A : Type} `{Allocator A} (heap : A) fmt ap t (Hf : formats fmt ap t)
    (Hfit : Z.of_nat (length t) + 1 < 2 ^ 31) :
  vasprintf heap fmt ap =
    let '(heap', p) := al_malloc heap (Z.of_nat (length t) + 1) in
    let calls := map (fun c => (-1, c)) t in
    Some (if p =? 0 then (heap', -1, p, [], calls) else (heap', Z.of_nat (length t), p, t ++ [0], calls)).
Proof.
  unfold vasprintf. rewrite (vsnprintf_text false 0 fmt ap t Hf) by (lia || (unfold int_length; lia)). cbn [mbind option_bind andb].
  destruct (Z.ltb_spec (Z.of_nat (length t)) 0); [lia|]. rewrite s32_small, u32_small by lia.
  destruct (al_malloc _ _) as [h p]. destruct (p =? 0); [done|].
  rewrite (vsnprintf_text true _ fmt ap t Hf) by (lia || (unfold int_length; lia)). cbn [mbind option_bind].
  destruct (Z.eqb_spec (Z.of_nat (length t) + 1) 0); [lia|]. cbn [andb negb].
  rewrite take_ge by lia. done.
Qed.

#[local] Instance bump : Allocator Z := {|
  al_malloc h n := (h + n, h);
  al_realloc h p n := (h + n, h);
  al_free h p := h;
  al_store h p i bytes := h;
|}.

Lemma vasprintf_correct_witness : vasprintf 4096 [104; 105; 37; 37] [] =
  Some (4100, 3, 4096, [104; 105; 37; 0], [(-1, 104); (-1, 105); (-1, 37)]).
Proof.
  refine (eq_trans (vasprintf_correct 4096 [104; 105; 37; 37] [] [104; 105; 37] _ _) _).
  - apply formats_char; [discriminate|]. apply formats_char; [discriminate|]. exact (formats_one [37] [] (DChar 37) eq_refl).
  - reflexivity.
  - reflexivity.
Defined.

Lemma before_nul_app t r : Forall (fun c => c <> 0) t -> before_nul (t ++ 0 :: r) = t.
Proof. induction 1 as [|c t Hc Ht IH]; [done|]. cbn [app before_nul]. destruct (Z.eqb_spec c 0); [done|]. by rewrite IH. Qed.

(** The stream functions lose output: [vfprintf], [printf] and [fprintf]
    go through a 512-byte buffer and write at most the first 511 characters
    of the text, while they return the length of all of it. *)
Theorem vfprintf_truncates fmt ap t (Hf : formats fmt ap t) (Hlen : Z.of_nat (length t) < 2 ^ 31)
    (Hnul : Forall (fun c => c <> 0) t) :
  vfprintf fmt ap = Some (Z.of_nat (length t), take 511 t) /\
  (511 < Z.of_nat (length t) -> exists n out, vfprintf fmt ap = Some (n, out) /\ Z.of_nat (length out) < n).
Proof.
  assert (vfprintf fmt ap = Some (Z.of_nat (length t), take 511 t)) as E.
  { unfold vfprintf. rewrite (vsnprintf_text true 512 fmt ap t Hf) by (done || lia). cbn [mbind option_bind andb].
    change (negb (512 =? 0)) with true. cbn iota. change (Z.to_nat (512 - 1)) with 511%nat.
    rewrite before_nul_app; [done|]. by apply Forall_take. }
  split; [exact E|]. intros Hlong. do 2 eexists. split; [exact E|]. rewrite length_take. lia.
Qed.

Lemma vfprintf_truncates_witness : vfprintf [37; 54; 48; 48; 100] [VInt 7] = Some (600, replicate 511 32).
Proof.
  refine (eq_trans (proj1 (vfprintf_truncates [37; 54; 48; 48; 100] [VInt 7]
    (text (DUint 7 10 0 false 600 false false (-1) []) ++ []) _ _ _)) _).
  - eapply formats_directive; [reflexivity|]. apply formats_nil.
  - reflexivity.
  - vm_compute. repeat constructor; discriminate.
  - vm_compute. reflexivity.
Defined.
