(* ===== verification/RegexTest.v ===== *)
(** * The repository's test of regular expressions: [tests/regex.c]

    The program compiles 21 patterns, runs each on a text and compares the
    extent of the match with the expected one.  It is translated whole: what
    it returns and what it prints, over any allocator and any contents
    [dirty] of fresh blocks. *)

From Stdlib Require Import String Ascii.
From stdpp Require Import strings.
From S2P Require Import Prelude Regex RegexVM RegexCompile Printf.

Section test.
Context {A : Type} `{Allocator A} (dirty : Z -> nat -> list Z).

(** [printf]: the bytes that go to the terminal. *)
Definition print (fmt : list Z) (args : list arg) : option (list Z) := '(_, out) ← vfprintf fmt args; Some out.

(** The bytes of a buffer up to its NUL, as [%s] takes them. *)
Definition c_text (buf : list Z) : arg := VStr (Some (before_nul buf)).

(** The heap, the result and what is printed. *)
Definition check (heap : A) (pattern : string) (cflags : Z) (text : string) (should_match : bool) (so eo : Z) : option (A * Z * list Z) :=
  '(heap, re, status) ← regcomp heap (bytes pattern) cflags;
  if negb (status =? 0) then
    message ← (regerror status (Some []) 128).2;
    out ← print (bytes "FAIL comp %s: %s"%string ++ [10]) [VStr (Some (bytes pattern)); c_text message];
    Some (heap, 1, out)
  else
    let match_ := replicate 3 (Regmatch (-1) (-1)) in
    '(heap, status, match_) ← regexec dirty heap re (bytes text) 3 (Some match_) 0;
    m ← match_; first ← m !! 0%nat;
    if (status =? REG_NOMATCH) && negb should_match then Some ((regfree heap re).1, 0, [])
    else if (status =? 0) && should_match && (rm_so first =? so) && (rm_eo first =? eo) then Some ((regfree heap re).1, 0, [])
    else
      out ← print (bytes "FAIL exec /%s/ flags=%d text="%string ++ 34 :: bytes "%s"%string ++ 34 :: bytes ": status=%d"%string)
        [VStr (Some (bytes pattern)); VInt cflags; VStr (Some (bytes text)); VInt status];
      more ← (if status =? 0 then print (bytes " match=[%d,%d]"%string) [VInt (rm_so first); VInt (rm_eo first)] else Some []);
      Some ((regfree heap re).1, 1, out ++ more ++ [10]).

(** The calls of [main], in order. *)
Definition checks : list (string * Z * string * bool * Z * Z) :=
  [("abc"%string, 0, "xxabcyy"%string, true, 2, 5);
   ("a.c"%string, 0, "xxabcyy"%string, true, 2, 5);
   ("a*"%string, 0, "aaa"%string, true, 0, 3);
   ("ab+c"%string, 0, "abbbc"%string, true, 0, 5);
   ("ab?c"%string, 0, "ac"%string, true, 0, 2);
   ("cat|dog"%string, 0, "hotdog"%string, true, 3, 6);
   ("\(ab\)+"%string, 0, "xxababyy"%string, true, 2, 6);
   ("(ab)+"%string, REG_EXTENDED, "xxababyy"%string, true, 2, 6);
   ("[0-9]+"%string, 0, "abc123"%string, true, 3, 6);
   ("[^0-9]+"%string, 0, "123abc"%string, true, 3, 6);
   ("^abc"%string, 0, "xxabc"%string, false, 0, 0);
   ("^abc"%string, 0, "abc"%string, true, 0, 3);
   ("abc$"%string, 0, "abcxx"%string, false, 0, 0);
   ("abc$"%string, 0, "xxabc"%string, true, 2, 5);
   ("ABC"%string, REG_ICASE, "xxabc"%string, true, 2, 5);
   ("a{2,3}"%string, 0, "xaaaa"%string, true, 1, 4);
   ("a{2}"%string, 0, "xaaa"%string, true, 1, 3);
   ("empty"%string, 0, "empty"%string, true, 0, 5);
   (EmptyString, 0, "anything"%string, true, 0, 0);
   ("\bword\b"%string, 0, "a word here"%string, true, 2, 6);
   ("no-match"%string, 0, "different"%string, false, 0, 0)].

(** The loop over them: the failures so far and the output. *)
Fixpoint run_checks (heap : A) (l : list (string * Z * string * bool * Z * Z)) (failures : Z) (out : list Z) : option (A * Z * list Z) :=
  match l with
  | [] => Some (heap, failures, out)
  | (pattern, cflags, text, should_match, so, eo) :: l =>
      '(heap, failed, more) ← check heap pattern cflags text should_match so eo;
      run_checks heap l (failures + failed) (out ++ more)
  end.

Definition main (heap : A) : option (Z * list Z) :=
  '(_, failures, out) ← run_checks heap checks 0 [];
  last ← print (bytes "%s"%string ++ [10]) [VStr (Some (if truthy failures then bytes "regex tests failed"%string else bytes "regex tests passed"%string))];
  Some (b2z (negb (failures =? 0)), out ++ last).
End test.

(** The checks that fail when every block is granted and cleared. *)
Definition cleared : Z -> nat -> list Z := fun _ n => replicate n 0.
Definition failing : list string :=
  List.map (fun c => c.1.1.1.1.1)
    (List.filter (fun '(pattern, cflags, text, should_match, so, eo) =>
       match check cleared tt pattern cflags text should_match so eo with Some (_, failed, _) => truthy failed | None => true end) checks).

(** The test program ends with exit code 1: nine of its 21 checks fail, those
    of a starred atom, of an alternation in the basic syntax, of the operators
    the basic syntax spells with a backslash or not at all, and of intervals. *)
Theorem regex_test_fails :
  failing = ["a*"; "ab+c"; "ab?c"; "cat|dog"; "\(ab\)+"; "[0-9]+"; "[^0-9]+"; "a{2,3}"; "a{2}"]%string /\
  exists out, main cleared tt = Some (1, out) /\ drop (length out - 19) out = bytes "regex tests failed"%string ++ [10].
Proof. split; [vm_compute; reflexivity|]. eexists. split; vm_compute; reflexivity. Qed.
