(* ===== verification/Scan.v ===== *)
(** * Formatted input: [sscanf] of [lib/libc_stdio.c]

    The input pointer is the suffix still to read.  What the call stores
    through its pointer arguments is the list of the stored values, each with
    the type of the object it goes to. *)

From S2P Require Import Prelude Ctype Numbers.

Definition scan_digit (c : Z) : Z :=
  if (48 <=? c) && (c <=? 57) then c - 48
  else if (97 <=? c) && (c <=? 102) then c - 97 + 10
  else if (65 <=? c) && (c <=? 70) then c - 65 + 10
  else -1.

(** The six white-space characters the code spells out. *)
Definition is_blank (c : Z) : bool :=
  (c =? 32) || (c =? 9) || (c =? 10) || (c =? 13) || (c =? 12) || (c =? 11).

Fixpoint skip_blanks (p : list Z) : list Z :=
  match p with
  | c :: q => if is_blank c then skip_blanks q else p
  | [] => []
  end.

(** The digit loop: the value modulo 2^64, the rest and the number consumed;
    width 0 is no limit. *)
Fixpoint scan_loop (p : list Z) (width base value consumed : Z) : Z * list Z * Z :=
  match p with
  | c :: q =>
      if (width =? 0) || (consumed <? width) then
        let digit := scan_digit c in
        if (digit <? 0) || (base <=? digit) then (value, p, consumed)
        else scan_loop q width base (u64 (u64 (value * base) + digit)) (consumed + 1)
      else (value, p, consumed)
  | [] => (value, p, consumed)
  end.

(** The base and the input behind the prefix. *)
Definition scan_base (p : list Z) (base : Z) : Z * list Z :=
  if base =? 0 then
    if peek p 0 =? 48 then if is_x (peek p 1) then (16, drop 2 p) else (8, p)
    else (10, p)
  else if (base =? 16) && (peek p 0 =? 48) && is_x (peek p 1) then (base, drop 2 p)
  else (base, p).

Definition scan_unsigned (input : list Z) (width base : Z) : option (Z * list Z) :=
  let p := skip_blanks input in
  let p := if peek p 0 =? 43 then drop 1 p else p in
  let '(base, p) := scan_base p base in
  let '(value, p, consumed) := scan_loop p width base 0 0 in
  if consumed =? 0 then None else Some (value, p).

(** The objects stored to. *)
Inductive stored : Type :=
| StInt (v : Z)
| StLong (v : Z)
| StLongLong (v : Z)
| StPtr (v : Z)
| StBytes (bs : list Z).

(** An integer stored in an object of the given length. *)
Definition store_signed (length v : Z) : stored :=
  if length =? 2 then StLongLong (s64 v) else if length =? 1 then StLong (s32 v) else StInt (s32 v).
Definition store_unsigned (length v : Z) : stored :=
  if length =? 2 then StLongLong v else if length =? 1 then StLong (u32 v) else StInt (u32 v).

Fixpoint scan_width (fmt : list Z) (w : Z) : list Z * Z :=
  match fmt with
  | c :: rest => if (48 <=? c) && (c <=? 57) then scan_width rest (w * 10 + (c - 48)) else (fmt, w)
  | [] => ([], w)
  end.

Definition scan_length (fmt : list Z) : list Z * Z :=
  if peek fmt 0 =? 108 then
    let fmt := drop 1 fmt in
    if peek fmt 0 =? 108 then (drop 1 fmt, 2) else (fmt, 1)
  else (fmt, 0).

(** The run of %s: at most [width] characters, all of them for width 0. *)
Fixpoint scan_word (p : list Z) (width count : Z) : list Z * list Z :=
  match p with
  | c :: q =>
      if negb (is_blank c) && ((width =? 0) || (count <? width)) then
        let '(w, rest) := scan_word q width (count + 1) in (c :: w, rest)
      else ([], p)
  | [] => ([], [])
  end.

(** A conversion: the rest of the input, what is stored and how many
    assignments it counts for; [inr] ends the scan, with what was stored
    before the input failed. *)
Definition scan_conversion (spec : Z) (suppress : bool) (width length : Z) (str input : list Z) :
    (list Z * list stored * Z) + list stored :=
  let assign (s : stored) := if suppress then ([], 0) else ([s], 1) in
  if spec =? 37 then if peek input 0 =? 37 then inl (drop 1 input, [], 0) else inr []
  else if spec =? 99 then
    let count := if truthy width then width else 1 in
    let '(st, n) := assign (StBytes (take (Z.to_nat count) input)) in
    if Z.of_nat (List.length input) <? count then inr st
    else inl (drop (Z.to_nat count) input, st, n)
  else if spec =? 115 then
    let '(w, rest) := scan_word (skip_blanks input) width 0 in
    match w with
    | [] => inr []
    | _ => let '(st, n) := assign (StBytes (w ++ [0])) in inl (rest, st, n)
    end
  else if spec =? 110 then
    let pos := Z.of_nat (List.length str) - Z.of_nat (List.length input) in
    inl (input, (if suppress then [] else [store_signed length pos]), 0)
  else if (spec =? 100) || (spec =? 105) || (spec =? 117) || (spec =? 120) || (spec =? 88) || (spec =? 111) || (spec =? 112) then
    let base := if spec =? 111 then 8
                else if (spec =? 120) || (spec =? 88) || (spec =? 112) then 16
                else if spec =? 105 then 0 else 10 in
    let input := skip_blanks input in
    let signed := (spec =? 100) || (spec =? 105) in
    let '(negative, input) :=
      if signed && ((peek input 0 =? 45) || (peek input 0 =? 43)) then (peek input 0 =? 45, drop 1 input) else (false, input) in
    match scan_unsigned input width base with
    | None => inr []
    | Some (value, input) =>
        let value := if negative : bool then u64 (- value) else value in
        let '(st, n) := assign (if signed then store_signed length value
                                else if spec =? 112 then StPtr (u32 value)
                                else store_unsigned length value) in
        inl (input, st, n)
    end
  else inr [].

(** The loop over the format; every round consumes a character of it. *)
Fixpoint scan_format (fuel : nat) (str fmt input : list Z) (acc : list stored) (assigned : Z) : option (Z * list stored) :=
  match fuel with
  | O => None
  | S n =>
      match fmt with
      | [] => Some (assigned, acc)
      | c :: rest =>
          if is_blank c then scan_format n str (skip_blanks rest) (skip_blanks input) acc assigned
          else if negb (c =? 37) then
            match input with
            | i :: input => if i =? c then scan_format n str rest input acc assigned else Some (assigned, acc)
            | [] => Some (assigned, acc)
            end
          else
            let '(suppress, fmt) := if peek rest 0 =? 42 then (true, drop 1 rest) else (false, rest) in
            let '(fmt, width) := scan_width fmt 0 in
            let '(fmt, length) := scan_length fmt in
            match scan_conversion (peek fmt 0) suppress width length str input with
            | inr st => Some (assigned, acc ++ st)
            | inl (input, st, k) => scan_format n str (drop 1 fmt) input (acc ++ st) (assigned + k)
            end
      end
  end.

(** The number of assignments and what was stored. *)
Definition sscanf (str fmt : list Z) : option (Z * list stored) := scan_format (S (length fmt)) str fmt str [] 0.
