(* ===== verification/ScanClaims.v ===== *)
(** * Formatted input: the claims *)

From S2P Require Import Prelude Ctype Regex Numbers Printf PrintfSpec PrintfCorrect PrintfClaims Scan.

Lemma skip_blanks_shorter p : (length (skip_blanks p) <= length p)%nat.
Proof. induction p as [|c p IH]; [done|]. cbn [skip_blanks length]. destruct (is_blank c); cbn [length]; lia. Qed.

Lemma scan_width_shorter fmt : forall w, (length (scan_width fmt w).1 <= length fmt)%nat.
Proof. induction fmt as [|c fmt IH]; intros w; [done|]. cbn [scan_width length]. destruct (_ && _); [etrans; [apply IH|lia]|done]. Qed.

Lemma scan_length_shorter fmt : (length (scan_length fmt).1 <= length fmt)%nat.
Proof.
  unfold scan_length. pose proof (drop_shorter fmt). pose proof (drop_shorter (drop 1 fmt)).
  destruct (_ =? 108); [destruct (_ =? 108)|]; cbn [fst]; lia.
Qed.

Lemma scan_format_total fuel : forall str fmt input acc assigned, (length fmt < fuel)%nat ->
  exists r, scan_format fuel str fmt input acc assigned = Some r.
Proof.
  induction fuel as [|n IH]; intros str fmt input acc assigned Hf; [lia|]. cbn [scan_format].
  destruct fmt as [|c rest]; [by eexists|]. cbn [length] in Hf. destruct (is_blank c).
  { apply IH. pose proof (skip_blanks_shorter rest). lia. }
  destruct (negb (c =? 37)).
  { destruct input as [|i input]; [by eexists|]. destruct (i =? c); [apply IH; lia|by eexists]. }
  assert (exists sup fmt', (if peek rest 0 =? 42 then (true, drop 1 rest) else (false, rest)) = (sup, fmt') /\
    (length fmt' <= length rest)%nat) as (sup & fmt' & -> & H1).
  { destruct (peek rest 0 =? 42); do 2 eexists; (split; [reflexivity|]); [apply drop_shorter|done]. }
  pose proof (scan_width_shorter fmt' 0) as H2. destruct (scan_width fmt' 0) as [fmt2 w]. cbn [fst] in H2.
  pose proof (scan_length_shorter fmt2) as H3. destruct (scan_length fmt2) as [fmt3 len]. cbn [fst] in H3.
  destruct (scan_conversion _ _ _ _ _ _) as [[[input' st] k]|st]; [|by eexists].
  apply IH. pose proof (drop_shorter fmt3). lia.
Qed.

(** ** Reading numerals *)

Lemma scan_digit_value c d : digit_value c = Some d -> d < 16 -> scan_digit c = d.
Proof.
  unfold digit_value, scan_digit. intros H Hd.
  destruct (Z.leb_spec 48 c), (Z.leb_spec c 57); cbn [andb] in *; [congruence|..];
    (destruct (Z.leb_spec 97 c), (Z.leb_spec c 122); cbn [andb] in *;
      [injection H as <-; destruct (Z.leb_spec c 102); [done|lia]|..]);
    (destruct (Z.leb_spec c 102); cbn [andb]; try lia);
    (destruct (Z.leb_spec 65 c), (Z.leb_spec c 90); cbn [andb] in *;
      [injection H as <-; destruct (Z.leb_spec c 70); [done|lia]|..]); try done; lia.
Qed.

(** What follows a number: nothing or white space. *)
Definition ends (rest : list Z) : Prop := match rest with c :: _ => is_blank c = true | [] => True end.

Lemma blank_not_digit c : is_blank c = true -> scan_digit c = -1 /\ is_x c = false.
Proof.
  unfold is_blank. rewrite !orb_true_iff, !Z.eqb_eq. intros H. repeat (destruct H as [H| ->]; [|done]). by subst.
Qed.

Lemma u64_mul_add a b d : u64 (u64 (u64 a * b) + d) = u64 (a * b + d).
Proof. unfold u64. rewrite Zplus_mod_idemp_l, Z.add_mod, Zmult_mod_idemp_l, <- Z.add_mod by lia. done. Qed.

Lemma scan_loop_spec base ds vs rest : base <= 16 -> digits_of base ds vs -> Forall (fun d => 0 <= d) vs -> ends rest -> forall v n,
  scan_loop (ds ++ rest) 0 base (u64 v) n =
    (u64 (fold_left (fun v d => v * base + d) vs v), rest, n + Z.of_nat (length ds)).
Proof.
  intros Hb Hd Hp He. induction Hd as [|c d ds vs [Hc Hlt] Hd IH]; intros v n.
  - cbn [app length fold_left]. rewrite Z.add_0_r. destruct rest as [|c rest]; [done|]. cbn [scan_loop ends] in *.
    destruct (blank_not_digit c He) as [-> _]. done.
  - inversion Hp; subst. cbn [app scan_loop fold_left length]. rewrite (scan_digit_value c d) by (done || lia).
    cbn [Z.eqb orb]. destruct (Z.ltb_spec d 0), (Z.leb_spec base d); try lia. cbn [orb].
    rewrite u64_mul_add, IH by done. f_equal. lia.
Qed.

Lemma digits_of_nonneg base ds vs : digits_of base ds vs -> Forall (fun d => 0 <= d) vs.
Proof.
  induction 1 as [|c d ds vs [Hc _] _ IH]; constructor; [|done]. unfold digit_value in Hc.
  destruct (Z.leb_spec 48 c), (Z.leb_spec c 57), (Z.leb_spec 97 c), (Z.leb_spec c 122), (Z.leb_spec 65 c), (Z.leb_spec c 90);
    cbn [andb] in Hc; try done; injection Hc as <-; lia.
Qed.

Lemma space_blank c : is_blank c = isspace c.
Proof.
  unfold is_blank, isspace.
  destruct (c =? 32), (c =? 9), (c =? 10), (c =? 13), (c =? 12), (c =? 11); done.
Qed.

Lemma scan_numeral v base upper rest : 2 <= base <= 16 -> 0 <= v < 2 ^ 64 -> ends rest ->
  exists c ds, numeral v base upper = c :: ds /\ is_blank c = false /\ c <> 45 /\ c <> 43 /\
    scan_unsigned (numeral v base upper ++ rest) 0 base = Some (v, rest).
Proof.
  intros Hb Hv He. destruct (numeral_value v base upper) as (vs & Hd & Ev & Hne); [lia|done|].
  destruct (numeral v base upper) as [|c ds] eqn:En; [done|]. exists c, ds.
  destruct (digit_first base c ds vs Hd) as (H1 & H2 & H3 & _); [lia|].
  rewrite <- space_blank in H1. do 4 (split; [done|]). unfold scan_unsigned.
  assert (skip_blanks ((c :: ds) ++ rest) = (c :: ds) ++ rest) as -> by (cbn [app skip_blanks]; by rewrite H1).
  change (peek ((c :: ds) ++ rest) 0) with c. destruct (Z.eqb_spec c 43); [done|].
  assert (is_x (peek ((c :: ds) ++ rest) 1) = false) as Ex.
  { destruct ds as [|c2 ds].
    - cbn [app]. change (peek (c :: rest) 1) with (peek rest 0). destruct rest as [|r rest]; [done|]. by apply blank_not_digit.
    - inversion Hd as [|? ? ? ? _ Hd']; subst. by destruct (digit_first base c2 ds _ Hd') as (_ & _ & _ & ?); [lia|]. }
  unfold scan_base. rewrite Ex, andb_false_r. destruct (Z.eqb_spec base 0); [lia|].
  pose proof (scan_loop_spec base (c :: ds) vs rest ltac:(lia) Hd (digits_of_nonneg _ _ _ Hd) He 0 0) as E.
  change (u64 0) with 0 in E. rewrite E. fold (value base vs). rewrite Ev, u64_small by done.
  destruct (Z.eqb_spec (0 + Z.of_nat (length (c :: ds))) 0) as [E0|]; [cbn [length] in E0; lia|done].
Qed.

(** ** Numbers behind their sign *)

(** The text of a decimal [int]. *)
Definition int_text (v : Z) : list Z := (if v <? 0 then [45] else []) ++ numeral (if v <? 0 then - v else v) 10 false.


Lemma s32_u64 x : s32 (u64 x) = s32 x.
Proof.
  unfold s32, swrap, u64. rewrite (Z.mod_eq x (2 ^ 64)) by lia.
  replace (x - 2 ^ 64 * (x / 2 ^ 64) + 2 ^ (32 - 1)) with (x + 2 ^ (32 - 1) + (- (x / 2 ^ 64) * 2 ^ 32) * 2 ^ 32) by lia.
  by rewrite Z_mod_plus_full.
Qed.

(** The two numeric conversions without width and length. *)
Definition scan_signed_conversion (input : list Z) : (list Z * list stored * Z) + list stored :=
  let input := skip_blanks input in
  let '(negative, input) := if (peek input 0 =? 45) || (peek input 0 =? 43) then (peek input 0 =? 45, drop 1 input) else (false, input) in
  match scan_unsigned input 0 10 with
  | None => inr []
  | Some (value, input) => inl (input, [StInt (s32 (if negative : bool then u64 (- value) else value))], 1)
  end.

Lemma scan_signed_eq str input : scan_conversion 100 false 0 0 str input = scan_signed_conversion input.
Proof. reflexivity. Qed.

Lemma scan_unsigned_eq c base str input : unsigned_conversion c base ->
  scan_conversion c false 0 0 str input =
    match scan_unsigned (skip_blanks input) 0 base with
    | None => inr []
    | Some (value, input) => inl (input, [StInt (u32 value)], 1)
    end.
Proof. intros [[-> ->]|[[[-> | ->] ->]|[-> ->]]]; reflexivity. Qed.

Lemma scan_int v str rest : - 2 ^ 31 <= v < 2 ^ 31 -> ends rest ->
  scan_conversion 100 false 0 0 str (int_text v ++ rest) = inl (rest, [StInt v], 1).
Proof.
  intros Hv He. rewrite scan_signed_eq. unfold scan_signed_conversion, int_text.
  set (m := if v <? 0 then - v else v). assert (0 <= m <= 2 ^ 31) as Hm by (unfold m; destruct (Z.ltb_spec v 0); lia).
  destruct (scan_numeral m 10 false rest ltac:(lia) ltac:(lia) He) as (c & ds & En & Hb & H45 & H43 & E).
  assert (s32 v = v) as Ev by (apply swrap_small; lia).
  unfold m in *. destruct (Z.ltb_spec v 0) as [L|L]; cbn [app skip_blanks].
  - change (is_blank 45) with false. cbn iota. change (peek (45 :: numeral (- v) 10 false ++ rest) 0) with 45.
    change (45 =? 45) with true. cbn [orb drop]. rewrite drop_0, E, s32_u64, Z.opp_involutive, Ev. done.
  - rewrite En in *. cbn [app skip_blanks] in *. rewrite Hb. change (peek (c :: ds ++ rest) 0) with c.
    destruct (Z.eqb_spec c 45), (Z.eqb_spec c 43); try done. cbn [orb]. by rewrite E, Ev.
Qed.

Lemma scan_word_number c base v str rest : unsigned_conversion c base -> 0 <= v < 2 ^ 32 -> ends rest ->
  scan_conversion c false 0 0 str (numeral v base (c =? 88) ++ rest) = inl (rest, [StInt v], 1).
Proof.
  intros Hc Hv He. rewrite (scan_unsigned_eq c base) by done. assert (2 <= base <= 16) by (unfold unsigned_conversion in Hc; lia).
  destruct (scan_numeral v base (c =? 88) rest ltac:(lia) ltac:(lia) He) as (c0 & ds & En & Hb & _ & _ & E).
  rewrite En in *. cbn [app skip_blanks] in *. rewrite Hb, E. by rewrite u32_small.
Qed.

(** ** Lists of numbers *)

(** A number with its conversion, and what the conversion prints for it. *)
Inductive field : Type := Field (c v : Z).

Definition field_ok (f : field) : Prop :=
  match f with
  | Field c v => (c = 100 /\ - 2 ^ 31 <= v < 2 ^ 31) \/ ((exists base, unsigned_conversion c base) /\ 0 <= v < 2 ^ 32)
  end.

Definition field_arg (f : field) : arg := match f with Field _ v => VInt v end.
Definition field_stored (f : field) : stored := match f with Field _ v => StInt v end.

(** "%d %x %u ...": the conversions with spaces between them. *)
Fixpoint fields_format (fs : list field) : list Z :=
  match fs with
  | [] => []
  | Field c _ :: fs => 37 :: c :: match fs with [] => [] | _ => 32 :: fields_format fs end
  end.

Lemma unsigned_not_100 base : ~ unsigned_conversion 100 base.
Proof. unfold unsigned_conversion. lia. Qed.

Lemma int_directive v fmt ap : - 2 ^ 31 <= v < 2 ^ 31 ->
  exists d, parse_directive (100 :: fmt) (VInt v :: ap) = Some (d, fmt, ap) /\ text d = int_text v.
Proof.
  intros Hv. assert (s32 v = v) as Ev by (apply swrap_small; lia).
  exists (DUint (u64 (if s32 v <? 0 then - s32 v else s32 v)) 10 (if s32 v <? 0 then 45 else 0) false 0 false false (-1) []).
  split; [reflexivity|]. cbn [text]. rewrite plain_text, Ev, u64_small by (destruct (Z.ltb_spec v 0); lia).
  unfold int_text. by destruct (v <? 0).
Qed.

Lemma unsigned_directive c base v fmt ap : unsigned_conversion c base -> 0 <= v < 2 ^ 32 ->
  exists d, parse_directive (c :: fmt) (VInt v :: ap) = Some (d, fmt, ap) /\ text d = numeral v base (c =? 88).
Proof.
  intros Hc Hv. exists (DUint (u32 (s32 v)) base 0 (c =? 88) 0 false false (-1) []). split.
  - destruct Hc as [[-> ->]|[[[-> | ->] ->]|[-> ->]]]; reflexivity.
  - cbn [text]. by rewrite plain_text, u32_s32, u32_small.
Qed.

(** A text that begins with no white space. *)
Definition solid (t : list Z) : Prop := match t with c :: _ => is_blank c = false | [] => False end.

Lemma solid_skip t rest : solid t -> skip_blanks (t ++ rest) = t ++ rest.
Proof. destruct t as [|c t]; [done|]. cbn [solid app skip_blanks]. by intros ->. Qed.

Lemma solid_numeral v base upper : 2 <= base <= 16 -> 0 <= v < 2 ^ 64 -> solid (numeral v base upper).
Proof. intros Hb Hv. by destruct (scan_numeral v base upper [] Hb Hv I) as (c & ds & -> & H & _). Qed.

Lemma solid_int v : - 2 ^ 31 <= v < 2 ^ 31 -> solid (int_text v).
Proof. intros Hv. unfold int_text. destruct (Z.ltb_spec v 0); [done|]. apply solid_numeral; lia. Qed.

(** A number of the list is printed as some text, which its conversion reads. *)
Lemma field_roundtrip c v fmt ap : field_ok (Field c v) -> exists d,
  parse_directive (c :: fmt) (VInt v :: ap) = Some (d, fmt, ap) /\ (length (text d) <= 65)%nat /\ solid (text d) /\
  forall str rest, ends rest -> scan_conversion c false 0 0 str (text d ++ rest) = inl (rest, [StInt v], 1).
Proof.
  intros [[-> Hv]|[[base Hc] Hv]].
  - destruct (int_directive v fmt ap Hv) as (d & Ed & Et). exists d. split; [done|]. rewrite Et. split.
    + unfold int_text. rewrite length_app. pose proof (numeral_length (if v <? 0 then - v else v) 10 false).
      destruct (Z.ltb_spec v 0); cbn [length]; lia.
    + split; [by apply solid_int|]. intros str rest. by apply scan_int.
  - destruct (unsigned_directive c base v fmt ap Hc Hv) as (d & Ed & Et). exists d. split; [done|]. rewrite Et.
    assert (2 <= base <= 16) by (unfold unsigned_conversion in Hc; lia). split.
    + pose proof (numeral_length v base (c =? 88)). lia.
    + split; [apply solid_numeral; lia|]. intros str rest. by apply scan_word_number.
Qed.

(** One round of the scan at a plain conversion character. *)
Lemma scan_plain n str c v rest input acc k : field_ok (Field c v) ->
  scan_format (S n) str (37 :: c :: rest) input acc k =
    match scan_conversion c false 0 0 str input with
    | inr st => Some (k, acc ++ st)
    | inl (input, st, m) => scan_format n str rest input (acc ++ st) (k + m)
    end.
Proof. intros [[-> _]|[[base [[-> _]|[[[-> | ->] _]|[-> _]]]] _]]; reflexivity. Qed.

Lemma scan_space n str input acc k rest :
  scan_format (S n) str (32 :: rest) input acc k = scan_format n str (skip_blanks rest) (skip_blanks input) acc k.
Proof. reflexivity. Qed.

Lemma skip_fields_format fs : skip_blanks (fields_format fs) = fields_format fs.
Proof. by destruct fs as [|[c v] fs]. Qed.

Lemma fields_roundtrip fs : fs <> [] -> Forall field_ok fs -> exists t,
  formats (fields_format fs) (map field_arg fs) t /\ (length t <= 66 * length fs)%nat /\ solid t /\
  forall n str acc k, (length (fields_format fs) < n)%nat ->
    scan_format n str (fields_format fs) t acc k = Some (k + Z.of_nat (length fs), acc ++ map field_stored fs).
Proof.
  induction fs as [|[c v] fs IH]; [done|]. intros _ H. pose proof (Forall_inv H) as H1. pose proof (Forall_inv_tail H) as H2. clear H. destruct fs as [|f fs].
  - destruct (field_roundtrip c v [] [] H1) as (d & Ed & Hl & Hs & Hr). exists (text d). cbn [fields_format map length].
    split; [by apply formats_one|]. split; [lia|]. split; [done|]. intros n str acc k Hn. destruct n as [|[|n]]; [lia..|].
    rewrite (scan_plain _ _ c v) by done. rewrite <- (app_nil_r (text d)), (Hr str [] I). reflexivity.
  - destruct (IH ltac:(done) H2) as (t & Hf & Hl & Hs & Hr). cbn [map] in *.
    destruct (field_roundtrip c v (32 :: fields_format (f :: fs)) (field_arg f :: map field_arg fs) H1) as (d & Ed & Hl1 & Hs1 & Hr1).
    exists (text d ++ 32 :: t). split.
    + eapply formats_directive; [exact Ed|]. by apply formats_char.
    + split; [rewrite length_app; cbn [length] in *; lia|]. split; [by destruct (text d)|]. intros n str acc k Hn.
      change (fields_format (Field c v :: f :: fs)) with (37 :: c :: 32 :: fields_format (f :: fs)) in *.
      destruct n as [|[|n]]; [cbn [length] in Hn; lia..|]. rewrite (scan_plain _ _ c v) by done.
      rewrite (Hr1 str (32 :: t) eq_refl), scan_space, skip_fields_format. cbn [skip_blanks]. change (is_blank 32) with true. cbn iota.
      pose proof (solid_skip t [] Hs) as E. rewrite !app_nil_r in E. rewrite E, Hr by (cbn [length] in Hn |- *; lia).
      f_equal. f_equal; [cbn [length]; lia|]. by rewrite <- app_assoc.
Qed.

(** ** The property *)

(** C36: [sscanf] reads back what [sprintf] prints: for a non-empty list of
    [int]s and [unsigned]s printed with %d, %u, %x, %X or %o and spaces
    between them, the same format assigns every one of them and stores the
    original values, as long as the text is one whose length [sprintf] can
    return.  And [sscanf] returns for every text and every format. *)
Theorem sprintf_sscanf_roundtrip fs (Hne : fs <> []) (Hok : Forall field_ok fs) (Hlen : 66 * Z.of_nat (length fs) < 2 ^ 31) :
  (exists t, sprintf (fields_format fs) (map field_arg fs) = Some (Z.of_nat (length t), t ++ [0]) /\
     sscanf t (fields_format fs) = Some (Z.of_nat (length fs), map field_stored fs)) /\
  (forall str fmt, exists r, sscanf str fmt = Some r).
Proof.
  split; [|intros str fmt; apply scan_format_total; lia].
  destruct (fields_roundtrip fs Hne Hok) as (t & Hf & Hl & _ & Hr). exists t. split.
  - apply sprintf_text; [done|]. unfold int_length. lia.
  - unfold sscanf. rewrite Hr by lia. reflexivity.
Qed.

(** "-2147483648 beef 777". *)
Lemma sprintf_sscanf_roundtrip_witness : exists t,
  sprintf [37; 100; 32; 37; 120; 32; 37; 111] [VInt (-2147483648); VInt 48879; VInt 511] = Some (Z.of_nat (length t), t ++ [0]) /\
  sscanf t [37; 100; 32; 37; 120; 32; 37; 111] = Some (3, [StInt (-2147483648); StInt 48879; StInt 511]).
Proof.
  refine (proj1 (sprintf_sscanf_roundtrip [Field 100 (-2147483648); Field 120 48879; Field 111 511] _ _ _)).
  - discriminate.
  - constructor; [left; lia|]. constructor; [right; split; [exists 16; right; left; lia|lia]|].
    constructor; [right; split; [exists 8; right; right; lia|lia]|constructor].
  - cbn [length]. lia.
Defined.
