(* ===== verification/CString.v ===== *)
(** * Memory and strings: [lib/libc_string.c]

    The functions work on byte memory through pointers, as the code does, so
    that overlapping and modified strings are the same bytes.  A loop that
    only a NUL ends runs with fuel; the theorems give a bound that is enough. *)

From S2P Require Import Prelude Ctype Heap.

(** ** Memory blocks *)

Definition memcpy (m : memory) (dst src : Z) (n : nat) : memory :=
  nfold n (fun i m => wr8 m (dst + i) (m (src + i))) m.

Fixpoint copy_down (m : memory) (dst src : Z) (n : nat) : memory :=
  match n with
  | O => m
  | S k => copy_down (wr8 m (dst + Z.of_nat k) (m (src + Z.of_nat k))) dst src k
  end.

Definition memmove (m : memory) (dst src : Z) (n : nat) : memory :=
  if dst <? src then memcpy m dst src n else copy_down m dst src n.

Definition memset (m : memory) (dst c : Z) (n : nat) : memory := nfold n (fun i m => wr8 m (dst + i) c) m.

Fixpoint memcmp (m : memory) (a b : Z) (n : nat) : Z :=
  match n with
  | O => 0
  | S k => if negb (m a =? m b) then m a - m b else memcmp m (a + 1) (b + 1) k
  end.

(** 0 is the null pointer. *)
Fixpoint memchr (m : memory) (s c : Z) (n : nat) : Z :=
  match n with
  | O => 0
  | S k => if m s =? u8 c then s else memchr m (s + 1) c k
  end.

(** ** Strings *)

Section strings.
Context (fuel : nat).

Definition strlen (m : memory) (s : Z) : option Z :=
  if s =? 0 then Some 0 else loop fuel (fun n => if m (s + n) =? 0 then Done n else Next (n + 1)) 0.

Definition strcmp (m : memory) (a b : Z) : option Z :=
  loop fuel (fun '(a, b) => if truthy (m a) && (m a =? m b) then Next (a + 1, b + 1) else Done (m a - m b)) (a, b).

Fixpoint strncmp (m : memory) (a b : Z) (n : nat) : Z :=
  match n with
  | O => 0
  | S k => if negb (m a =? m b) || (m a =? 0) || (m b =? 0) then m a - m b else strncmp m (a + 1) (b + 1) k
  end.

Definition strchr (m : memory) (s c : Z) : option Z :=
  loop fuel (fun s =>
    if m s =? 0 then Done (if c =? 0 then s else 0)
    else if m s =? u8 c then Done s else Next (s + 1)) s.

Definition strstr (m : memory) (h n : Z) : option Z :=
  nl ← strlen m n;
  if nl =? 0 then Some h
  else
    loop fuel (fun h =>
      if m h =? 0 then Done 0
      else if strncmp m h n (Z.to_nat nl) =? 0 then Done h else Next (h + 1)) h.

(** [strspn] with [want] true, [strcspn] with [want] false; the set is
    searched with [strchr], [None] when that runs out of fuel. *)
Fixpoint span (n : nat) (want : bool) (m : memory) (s set : Z) (k : Z) : option Z :=
  match n with
  | O => None
  | S n =>
      if m (s + k) =? 0 then Some k
      else
        p ← strchr m set (m (s + k));
        if Bool.eqb (truthy p) want then span n want m s set (k + 1) else Some k
  end.
Definition strspn (m : memory) (s accept : Z) : option Z := span fuel true m s accept 0.
Definition strcspn (m : memory) (s reject : Z) : option Z := span fuel false m s reject 0.

(** [strtok_r]: memory, the token (0 at the end) and the new [*saveptr]. *)
Definition strtok_r (m : memory) (str delim saveptr : Z) : option (memory * Z * Z) :=
  let s := if truthy str then str else saveptr in
  if (s =? 0) || (delim =? 0) then Some (m, 0, saveptr)
  else
    k ← strspn m s delim;
    let s := s + k in
    if m s =? 0 then Some (m, 0, s)
    else
      k ← strcspn m s delim;
      let stop := s + k in
      if truthy (m stop) then Some (wr8 m stop 0, s, stop + 1) else Some (m, s, stop).

(** [strsep]: the field and the new [*stringp]. *)
Definition strsep (m : memory) (stringp delim : Z) : option (memory * Z * Z) :=
  if (stringp =? 0) || (delim =? 0) then Some (m, 0, stringp)
  else
    k ← strcspn m stringp delim;
    let stop := stringp + k in
    if truthy (m stop) then Some (wr8 m stop 0, stringp, stop + 1) else Some (m, stringp, stop).
End strings.

(** [strncpy]: the copy and the padding. *)
Fixpoint strncpy (m : memory) (dst src : Z) (n : nat) (copying : bool) : memory :=
  match n with
  | O => m
  | S k =>
      if copying && truthy (m src) then strncpy (wr8 m dst (m src)) (dst + 1) (src + 1) k true
      else strncpy (wr8 m dst 0) (dst + 1) src k false
  end.

(** ** Strings in memory *)

(** The bytes at [p] are the string [s] and its NUL. *)
Fixpoint cstring (m : memory) (p : Z) (s : list Z) : Prop :=
  match s with
  | [] => m p = 0
  | c :: s => m p = c /\ 0 < c < 256 /\ cstring m (p + 1) s
  end.

Definition is_memory (m : memory) : Prop := forall x, 0 <= m x < 256.

Lemma cstring_end m p s : cstring m p s -> m (p + Z.of_nat (length s)) = 0.
Proof.
  revert p. induction s as [|c s IH]; intros p; cbn [cstring length]; [by rewrite Z.add_0_r|].
  intros (_ & _ & H). apply IH in H. replace (p + Z.of_nat (S (length s))) with (p + 1 + Z.of_nat (length s)) by lia. done.
Qed.

Lemma cstring_drop m p s k : cstring m p s -> (k <= length s)%nat -> cstring m (p + Z.of_nat k) (drop k s).
Proof.
  revert p k. induction s as [|c s IH]; intros p k H Hk; destruct k as [|k]; cbn [drop length] in *; try (rewrite Z.add_0_r; exact H); [lia|].
  destruct H as (_ & _ & H). replace (p + Z.of_nat (S k)) with (p + 1 + Z.of_nat k) by lia. apply IH; [done|lia].
Qed.

Lemma cstring_ext m m' p s : cstring m p s -> (forall x, p <= x <= p + Z.of_nat (length s) -> m' x = m x) -> cstring m' p s.
Proof.
  revert p. induction s as [|c s IH]; intros p H Hx; cbn [cstring length] in *.
  - rewrite Hx by lia. done.
  - destruct H as (H1 & H2 & H3). rewrite Hx by lia. split; [done|]. split; [done|]. apply IH; [done|]. intros; apply Hx; lia.
Qed.

Lemma cstring_app m p s t : cstring m p (s ++ t) <->
  (forall i c, s !! i = Some c -> m (p + Z.of_nat i) = c /\ 0 < c < 256) /\ cstring m (p + Z.of_nat (length s)) t.
Proof.
  revert p. induction s as [|c s IH]; intros p; cbn [app cstring length].
  - rewrite Z.add_0_r. split; [intros H; split; [done|exact H]|by intros [_ H]].
  - rewrite IH. replace (p + 1 + Z.of_nat (length s)) with (p + Z.of_nat (S (length s))) by lia. split.
    + intros (H1 & H2 & H3 & H4). split; [|exact H4]. intros [|i] d E; cbn in E.
      * injection E as <-. rewrite Z.add_0_r. done.
      * replace (p + Z.of_nat (S i)) with (p + 1 + Z.of_nat i) by lia. by apply H3.
    + intros [H H4]. destruct (H 0%nat c eq_refl) as [H1 H2]. rewrite Z.add_0_r in H1. do 2 (split; [done|]). split; [|exact H4].
      intros i d E. destruct (H (S i) d E) as [H5 H6]. split; [|done]. by replace (p + 1 + Z.of_nat i) with (p + Z.of_nat (S i)) by lia.
Qed.

(** ** The loops *)

Lemma memcpy_spec m dst src n : is_memory m -> (dst <= src \/ src + Z.of_nat n <= dst) -> forall x,
  memcpy m dst src n x = memcpy_bytes m dst src (Z.of_nat n) x.
Proof.
  intros Hm Hd. induction n as [|n IH]; intros x.
  - unfold memcpy, memcpy_bytes. cbn [nfold]. destruct (Z.leb_spec dst x), (Z.ltb_spec x (dst + Z.of_nat 0)); cbn [andb]; (lia || done).
  - change (memcpy m dst src (S n)) with (wr8 (memcpy m dst src n) (dst + Z.of_nat n) (memcpy m dst src n (src + Z.of_nat n))).
    rewrite IH by lia. unfold wr8. rewrite IH by lia. unfold memcpy_bytes.
    destruct (Z.eqb_spec x (dst + Z.of_nat n)) as [->|Hne].
    + destruct (Z.leb_spec dst (src + Z.of_nat n)), (Z.ltb_spec (src + Z.of_nat n) (dst + Z.of_nat n)); try lia; cbn [andb];
        (destruct (Z.leb_spec dst (dst + Z.of_nat n)), (Z.ltb_spec (dst + Z.of_nat n) (dst + Z.of_nat (S n))); try lia; cbn [andb]);
        replace (src + (dst + Z.of_nat n - dst)) with (src + Z.of_nat n) by lia; apply u8_small, Hm.
    + destruct (Z.leb_spec dst x), (Z.ltb_spec x (dst + Z.of_nat n)), (Z.ltb_spec x (dst + Z.of_nat (S n))); cbn [andb]; (lia || done).
Qed.

Lemma copy_down_spec dst src n : src <= dst -> forall m x, is_memory m ->
  copy_down m dst src n x = memcpy_bytes m dst src (Z.of_nat n) x.
Proof.
  intros Hd. induction n as [|n IH]; intros m x Hm.
  - unfold memcpy_bytes. cbn [copy_down]. destruct (Z.leb_spec dst x), (Z.ltb_spec x (dst + Z.of_nat 0)); cbn [andb]; (lia || done).
  - cbn [copy_down]. rewrite IH by (intros y; unfold wr8; destruct (y =? _); [apply u8_range|apply Hm]).
    unfold memcpy_bytes.
    destruct (Z.leb_spec dst x), (Z.ltb_spec x (dst + Z.of_nat n)), (Z.ltb_spec x (dst + Z.of_nat (S n))); cbn [andb]; try lia.
    + apply wr8_other. lia.
    + replace x with (dst + Z.of_nat n) by lia. rewrite wr8_same, u8_small by apply Hm. f_equal. lia.
    + apply wr8_other. lia.
    + apply wr8_other. lia.
Qed.

Lemma memset_spec m dst c n x : memset m dst c n x = memset_bytes m dst c (Z.of_nat n) x.
Proof.
  induction n as [|n IH].
  - unfold memset, memset_bytes. cbn [nfold]. destruct (Z.leb_spec dst x), (Z.ltb_spec x (dst + Z.of_nat 0)); cbn [andb]; (lia || done).
  - change (memset m dst c (S n)) with (wr8 (memset m dst c n) (dst + Z.of_nat n) c). unfold wr8. rewrite IH. unfold memset_bytes.
    destruct (Z.eqb_spec x (dst + Z.of_nat n)), (Z.leb_spec dst x), (Z.ltb_spec x (dst + Z.of_nat n)), (Z.ltb_spec x (dst + Z.of_nat (S n)));
      cbn [andb]; (lia || done).
Qed.

Lemma strlen_loop m p s : cstring m p s -> forall fuel k, (k <= length s)%nat -> (length s - k < fuel)%nat ->
  loop fuel (fun n => if m (p + n) =? 0 then Done n else Next (n + 1)) (Z.of_nat k) = Some (Z.of_nat (length s)).
Proof.
  intros Hs fuel. induction fuel as [|n IH]; intros k Hk Hf; [lia|]. cbn [loop].
  pose proof (cstring_drop m p s k Hs Hk) as Hd. destruct (drop k s) as [|c r] eqn:E.
  - cbn in Hd. rewrite Hd. cbn. assert (length (drop k s) = 0%nat) as El by (by rewrite E). rewrite length_drop in El. do 2 f_equal. lia.
  - destruct Hd as (-> & Hc & _). destruct (Z.eqb_spec c 0); [lia|].
    assert (length (drop k s) = S (length r)) as El by (by rewrite E). rewrite length_drop in El.
    replace (Z.of_nat k + 1) with (Z.of_nat (S k)) by lia. apply IH; lia.
Qed.

Lemma strlen_spec fuel m p s : cstring m p s -> p <> 0 -> (length s < fuel)%nat -> strlen fuel m p = Some (Z.of_nat (length s)).
Proof.
  intros Hs Hp Hf. unfold strlen. destruct (Z.eqb_spec p 0); [done|]. apply (strlen_loop m p s Hs fuel 0); lia.
Qed.

(** The order [strcmp] computes: the difference at the first position where
    the strings, NUL included, differ. *)
Fixpoint lex (s t : list Z) : Z :=
  match s, t with
  | [], [] => 0
  | [], d :: _ => - d
  | c :: _, [] => c
  | c :: s, d :: t => if c =? d then lex s t else c - d
  end.

Lemma strcmp_spec m s : forall t a b fuel, cstring m a s -> cstring m b t -> (length s < fuel)%nat ->
  strcmp fuel m a b = Some (lex s t).
Proof.
  induction s as [|c s IH]; intros t a b fuel Ha Hb Hf; (destruct fuel as [|n]; [cbn in Hf; lia|]); unfold strcmp; cbn [loop].
  - cbn [cstring] in Ha. rewrite Ha. destruct t as [|d t]; cbn [cstring] in Hb; [by rewrite Hb|]. destruct Hb as (-> & _). done.
  - destruct Ha as (-> & Hc & Ha). unfold truthy. destruct (Z.eqb_spec c 0); [lia|]. cbn [negb andb lex].
    destruct t as [|d t]; cbn [cstring] in Hb.
    + rewrite Hb. destruct (Z.eqb_spec c 0); [lia|]. f_equal. lia.
    + destruct Hb as (-> & Hd & Hb). destruct (Z.eqb_spec c d) as [->|]; [|done].
      apply (IH t (a + 1) (b + 1) n Ha Hb). cbn in Hf. lia.
Qed.

(** [strncmp] over the length of the second string tests for a prefix. *)
Lemma strncmp_prefix m t : forall s a b, cstring m a s -> cstring m b t ->
  (strncmp m a b (length t) = 0 <-> take (length t) s = t).
Proof.
  induction t as [|d t IH]; intros s a b Ha Hb; [done|]. cbn [length strncmp]. destruct Hb as (-> & Hd & Hb).
  destruct s as [|c s]; cbn [cstring] in Ha.
  - rewrite Ha. destruct (Z.eqb_spec 0 d); [lia|]. cbn [negb orb]. split; [lia|done].
  - destruct Ha as (-> & Hc & Ha). cbn [take]. destruct (Z.eqb_spec c d) as [->|Hne]; cbn [negb orb].
    + destruct (Z.eqb_spec d 0); [lia|]. cbn [orb]. rewrite (IH s (a + 1) (b + 1) Ha Hb). split; [by intros ->|by intros [= ->]].
    + split; [lia|]. intros [= -> _]. done.
Qed.

Definition occurs_at (s t : list Z) (k : nat) : Prop := take (length t) (drop k s) = t.

Lemma strstr_loop m h s nd t : cstring m h s -> cstring m nd t -> t <> [] -> forall fuel k, (k <= length s)%nat ->
  (length s - k < fuel)%nat -> (forall j, (j < k)%nat -> ~ occurs_at s t j) ->
  exists r, loop fuel (fun h => if m h =? 0 then Done 0
      else if strncmp m h nd (Z.to_nat (Z.of_nat (length t))) =? 0 then Done h else Next (h + 1)) (h + Z.of_nat k) = Some r /\
    ((r = 0 /\ forall j, ~ occurs_at s t j) \/
     exists j, r = h + Z.of_nat j /\ occurs_at s t j /\ (j <= length s)%nat /\ forall i, (i < j)%nat -> ~ occurs_at s t i).
Proof.
  intros Hs Ht Hne fuel. induction fuel as [|n IH]; intros k Hk Hf Hno; [lia|]. cbn [loop]. rewrite Nat2Z.id.
  pose proof (cstring_drop m h s k Hs Hk) as Hd. destruct (drop k s) as [|c r] eqn:E.
  - cbn [cstring] in Hd. rewrite Hd. eexists. split; [reflexivity|]. left. split; [done|]. intros j Hj.
    destruct (decide (j < k)%nat) as [|Hjk]; [by apply (Hno j)|]. unfold occurs_at in Hj.
    assert (drop j s = []) as Ej by (apply nil_length_inv; assert (length (drop k s) = 0%nat) as El by (by rewrite E); rewrite length_drop in El |- *; lia).
    rewrite Ej, take_nil in Hj. by subst.
  - pose proof Hd as (Hc & Hcr & _). rewrite Hc. destruct (Z.eqb_spec c 0); [lia|].
    destruct (Z.eqb_spec (strncmp m (h + Z.of_nat k) nd (length t)) 0) as [Hp|Hp]; rewrite (strncmp_prefix m t _ _ _ Hd Ht) in Hp.
    + eexists. split; [reflexivity|]. right. exists k. split; [done|]. split; [unfold occurs_at; by rewrite E|]. split; [done|exact Hno].
    + assert (length (drop k s) = S (length r)) as El by (by rewrite E). rewrite length_drop in El.
      replace (h + Z.of_nat k + 1) with (h + Z.of_nat (S k)) by lia. rewrite Nat2Z.id in IH. apply IH; [lia|lia|].
      intros j Hj. destruct (decide (j = k)) as [->|]; [unfold occurs_at; by rewrite E|apply Hno; lia].
Qed.

Lemma strstr_spec fuel m h n s t (Hh : cstring m h s) (Hn : cstring m n t) (Hh0 : 0 < h) (Hn0 : 0 < n)
    (Hf : (length s < fuel)%nat) (Hf' : (length t < fuel)%nat) :
  exists r, strstr fuel m h n = Some r /\
    ((r = 0 /\ forall k, ~ occurs_at s t k) \/
     exists k, r = h + Z.of_nat k /\ occurs_at s t k /\ (k <= length s)%nat /\ forall i, (i < k)%nat -> ~ occurs_at s t i).
Proof.
  unfold strstr. rewrite (strlen_spec fuel m n t) by (done || lia). cbn [mbind option_bind].
  destruct (Z.eqb_spec (Z.of_nat (length t)) 0) as [E|E].
  - eexists. split; [reflexivity|]. right. exists 0%nat. split; [lia|]. destruct t; [|cbn in E; lia].
    split; [done|]. split; [lia|]. lia.
  - destruct (strstr_loop m h s n t Hh Hn) with (fuel := fuel) (k := 0%nat) as (r & El & D); [by destruct t|lia|lia|lia|].
    rewrite Z.add_0_r in El. exists r. split; [exact El|exact D].
Qed.

Lemma strchr_spec m c s : 0 < c < 256 -> forall p fuel, cstring m p s -> 0 < p -> (length s < fuel)%nat ->
  exists r, strchr fuel m p c = Some r /\ truthy r = bool_decide (c ∈ s).
Proof.
  intros Hc. induction s as [|d s IH]; intros p fuel Hs Hp Hf; (destruct fuel as [|n]; [cbn in Hf; lia|]); unfold strchr; cbn [loop].
  - cbn [cstring] in Hs. rewrite Hs. cbn. destruct (Z.eqb_spec c 0); [lia|]. eexists. split; [reflexivity|].
    rewrite bool_decide_eq_false_2; [done|]. apply not_elem_of_nil.
  - destruct Hs as (-> & Hd & Hs). destruct (Z.eqb_spec d 0); [lia|].
    destruct (Z.eqb_spec d (u8 c)) as [Ed|Hne]; [rewrite u8_small in Ed by lia; subst d|rewrite u8_small in Hne by lia].
    + eexists. split; [reflexivity|]. rewrite bool_decide_eq_true_2 by (apply elem_of_cons; by left).
      unfold truthy. by destruct (Z.eqb_spec p 0); [lia|].
    + destruct (IH (p + 1) n Hs) as (r & E & Hr); [lia|cbn in Hf; lia|]. exists r. split; [exact E|]. rewrite Hr.
      apply bool_decide_ext. rewrite elem_of_cons. split; [tauto|]. intros [?|?]; congruence.
Qed.

(** The run of characters in (or out of) the set. *)
Lemma span_spec want m p set ds fuel0 : cstring m set ds -> 0 < set -> (length ds < fuel0)%nat ->
  forall pre s k n, cstring m (p + k) (pre ++ s) ->
  Forall (fun c => bool_decide (c ∈ ds) = want) pre ->
  match s with c :: _ => bool_decide (c ∈ ds) <> want | [] => True end -> (length pre < n)%nat ->
  span fuel0 n want m p set k = Some (k + Z.of_nat (length pre)).
Proof.
  intros Hset Hp Hf0 pre. induction pre as [|c pre IH]; intros s k n Hs Hall Hstop Hn; (destruct n as [|n]; [cbn in Hn; lia|]); cbn [span].
  - cbn [app length] in *. rewrite Z.add_0_r. destruct s as [|c s]; cbn [cstring] in Hs; [by rewrite Hs|].
    destruct Hs as (-> & Hc & _). destruct (Z.eqb_spec c 0); [lia|].
    destruct (strchr_spec m c ds Hc set fuel0 Hset Hp Hf0) as (r & -> & Hr). cbn [mbind option_bind]. rewrite Hr.
    by rewrite (proj2 (Bool.eqb_false_iff _ _) Hstop).
  - cbn [app] in Hs. destruct Hs as (-> & Hc & Hs). destruct (Z.eqb_spec c 0); [lia|].
    inversion Hall as [|? ? Hw Hall']; subst x l.
    destruct (strchr_spec m c ds Hc set fuel0 Hset Hp Hf0) as (r & -> & Hr). cbn [mbind option_bind]. rewrite Hr, Hw, Bool.eqb_reflx.
    rewrite (IH s (k + 1) n); [cbn [length]; f_equal; lia|by rewrite Z.add_assoc|done|done|cbn in Hn; lia].
Qed.

(** ** Bytes stored in memory *)

(** Memory with the bytes [bs] stored from [a]. *)
Definition overlay (m : memory) (a : Z) (bs : list Z) : memory :=
  fun x => if (a <=? x) && (x <? a + Z.of_nat (length bs)) then nth (Z.to_nat (x - a)) bs 0 else m x.

Lemma overlay_nil m a x : overlay m a [] x = m x.
Proof. unfold overlay. cbn [length]. destruct (Z.leb_spec a x), (Z.ltb_spec x (a + Z.of_nat 0)); cbn [andb]; (lia || done). Qed.

Lemma overlay_app m a bs cs x : overlay m a (bs ++ cs) x = overlay (overlay m a bs) (a + Z.of_nat (length bs)) cs x.
Proof.
  unfold overlay. rewrite length_app.
  destruct (Z.leb_spec a x), (Z.ltb_spec x (a + Z.of_nat (length bs))), (Z.leb_spec (a + Z.of_nat (length bs)) x),
    (Z.ltb_spec x (a + Z.of_nat (length bs + length cs))), (Z.ltb_spec x (a + Z.of_nat (length bs) + Z.of_nat (length cs)));
    cbn [andb]; try lia; try done.
  - rewrite app_nth1 by lia. done.
  - rewrite app_nth2 by lia. f_equal. lia.
Qed.

Lemma overlay_ext m m' a bs x : (forall y, m y = m' y) -> overlay m a bs x = overlay m' a bs x.
Proof. intros E. unfold overlay. by rewrite E. Qed.

Lemma overlay_wr8 m a v x : 0 <= v < 256 -> wr8 m a v x = overlay m a [v] x.
Proof.
  intros Hv. unfold wr8, overlay. cbn [length]. destruct (Z.eqb_spec x a) as [->|].
  - destruct (Z.leb_spec a a), (Z.ltb_spec a (a + Z.of_nat 1)); try lia. cbn [andb]. rewrite Z.sub_diag. by apply u8_small.
  - destruct (Z.leb_spec a x), (Z.ltb_spec x (a + Z.of_nat 1)); cbn [andb]; (lia || done).
Qed.

Lemma overlay_out m a bs x : x < a \/ a + Z.of_nat (length bs) <= x -> overlay m a bs x = m x.
Proof. intros H. unfold overlay. destruct (Z.leb_spec a x), (Z.ltb_spec x (a + Z.of_nat (length bs))); cbn [andb]; (lia || done). Qed.

(** The bytes of memory from [a]. *)
Definition load (m : memory) (a : Z) (n : nat) : list Z := map (fun i => m (a + Z.of_nat i)) (seq 0 n).

(** What is stored is found again. *)
Lemma load_overlay m m' a bs n : (n <= length bs)%nat -> (forall i, (i < n)%nat -> m' (a + Z.of_nat i) = overlay m a bs (a + Z.of_nat i)) ->
  load m' a n = take n bs.
Proof.
  intros Hn E. apply list_eq. intros i. unfold load. rewrite list_lookup_fmap. destruct (decide (i < n)%nat) as [L|L].
  - rewrite lookup_seq_lt by done. cbn [fmap option_fmap option_map Nat.add]. rewrite E by done. rewrite lookup_take_lt by done.
    unfold overlay. destruct (Z.leb_spec a (a + Z.of_nat i)), (Z.ltb_spec (a + Z.of_nat i) (a + Z.of_nat (length bs))); try lia. cbn [andb].
    replace (Z.to_nat (a + Z.of_nat i - a)) with i by lia. symmetry. by apply nth_lookup_Some_1 || (rewrite nth_lookup; destruct (lookup_lt_is_Some_2 bs i) as [y Hy]; [lia|]; by rewrite Hy).
  - rewrite lookup_seq_ge by lia. cbn. symmetry. apply lookup_take_ge. lia.
Qed.

Lemma cstring_load m a s : cstring m a s -> load m a (length s) = s.
Proof.
  intros Hs. apply list_eq. intros i. unfold load. rewrite list_lookup_fmap. destruct (s !! i) as [c|] eqn:E.
  - pose proof (lookup_lt_Some _ _ _ E). rewrite lookup_seq_lt by done. cbn. f_equal.
    rewrite <- (app_nil_r s) in Hs. apply cstring_app in Hs as [Hs _]. by apply Hs.
  - apply lookup_ge_None in E. by rewrite lookup_seq_ge.
Qed.

Lemma load_app m a n k : load m a (n + k) = load m a n ++ load m (a + Z.of_nat n) k.
Proof.
  unfold load. rewrite seq_app, map_app. f_equal. cbn [Nat.add]. rewrite <- (Nat.add_0_r n) at 1. rewrite <- fmap_add_seq.
  change (map ?f ?l) with (f <$> l). rewrite <- list_fmap_compose. apply list_fmap_ext. intros i j _. cbn. f_equal. lia.
Qed.
