(* ===== verification/Sort.v ===== *)
(** * Sorting and searching: [qsort] and [bsearch] of [lib/libc_stdlib.c]

    [qsort] works on the bytes of the array in memory and moves elements with
    [memcpy] through its local buffer.  The comparison function is the
    caller's; it gets the bytes of the two elements. *)

From S2P Require Import Prelude Heap CString.

(** [sizeof(tmp)] *)
Definition tmp_size : Z := 64.

Section sort.
(** [tmp]: the address of the local buffer; [b] and [size]: the array. *)
Context (compar : list Z -> list Z -> Z) (tmp b size : Z).

(** [&b[i * size]] *)
Definition slot (i : nat) : Z := b + Z.of_nat i * size.
Definition element (m : memory) (i : nat) : list Z := load m (slot i) (Z.to_nat size).

Definition swap (m : memory) (i j : nat) : memory :=
  let m := memcpy m tmp (slot i) (Z.to_nat size) in
  let m := memcpy m (slot i) (slot j) (Z.to_nat size) in
  memcpy m (slot j) tmp (Z.to_nat size).

Definition qsort_inner_step (i : nat) (m : memory) (j : nat) : memory :=
  if 0 <? compar (element m i) (element m j) then swap m i j else m.

(** [for (j = i + 1; j < nmemb; j++)], [n] rounds from [j] on. *)
Fixpoint qsort_inner (n : nat) (i j : nat) (m : memory) : memory :=
  match n with
  | O => m
  | S k => qsort_inner k i (S j) (qsort_inner_step i m j)
  end.

Fixpoint qsort_outer (nmemb n i : nat) (m : memory) : memory :=
  match n with
  | O => m
  | S k => qsort_outer nmemb k (S i) (qsort_inner (nmemb - S i) i (S i) m)
  end.

Definition qsort (m : memory) (nmemb : nat) : memory :=
  if tmp_size <? size then m else qsort_outer nmemb nmemb 0 m.
End sort.

(** The key has a type of its own; the result is the index of the element
    found. *)
Section search.
Context {K E : Type} (compar : K -> E -> Z).

Fixpoint bsearch_loop (fuel : nat) (key : K) (base : list E) (lo hi : Z) : option (option Z) :=
  match fuel with
  | O => None
  | S n =>
      if lo <? hi then
        let mid := lo + (hi - lo) / 2 in
        e ← base !! Z.to_nat mid;
        let cmp := compar key e in
        if cmp <? 0 then bsearch_loop n key base lo mid
        else if 0 <? cmp then bsearch_loop n key base (mid + 1) hi
        else Some (Some mid)
      else Some None
  end.

Definition bsearch (key : K) (base : list E) : option (option Z) :=
  bsearch_loop (S (length base)) key base 0 (Z.of_nat (length base)).
End search.

(** ** Sorting a list by exchanges *)

Section sorted.
Context {E : Type} (compar : E -> E -> Z).

Definition exchange (b : list E) (i j : nat) : list E :=
  match b !! i, b !! j with
  | Some x, Some y => <[j := x]> (<[i := y]> b)
  | _, _ => b
  end.

Definition inner_step (i : nat) (b : list E) (j : nat) : list E :=
  match b !! i, b !! j with
  | Some x, Some y => if 0 <? compar x y then exchange b i j else b
  | _, _ => b
  end.

Fixpoint inner_loop (n : nat) (i j : nat) (b : list E) : list E :=
  match n with
  | O => b
  | S k => inner_loop k i (S j) (inner_step i b j)
  end.

Fixpoint outer_loop (n : nat) (i : nat) (b : list E) : list E :=
  match n with
  | O => b
  | S k => outer_loop k (S i) (inner_loop (length b - S i) i (S i) b)
  end.

(** What C requires of the comparison: its sign is a total preorder. *)
Class Comparison : Prop := {
  compar_trans : forall x y z, compar x y <= 0 -> compar y z <= 0 -> compar x z <= 0;
  compar_sign : forall x y, 0 < compar x y -> compar y x <= 0;
}.

Context `{Comparison}.

(** No element of [b] from [j] on is smaller than the one at [i]. *)
Definition least_from (b : list E) (i j k : nat) : Prop :=
  forall x y m, b !! i = Some x -> (j <= m < k)%nat -> b !! m = Some y -> compar x y <= 0.

Definition sorted_to (b : list E) (i : nat) : Prop :=
  forall p q x y, (p < i)%nat -> (p < q)%nat -> b !! p = Some x -> b !! q = Some y -> compar x y <= 0.

Lemma compar_refl x : compar x x <= 0.
Proof. destruct (Z.le_gt_cases (compar x x) 0) as [?|Hp]; [done|]. pose proof (compar_sign x x). lia. Qed.

Lemma exchange_lookup (b : list E) i j m x y : (i < j)%nat -> b !! i = Some x -> b !! j = Some y ->
  exchange b i j !! m = if decide (m = i) then Some y else if decide (m = j) then Some x else b !! m.
Proof.
  intros Hij Ei Ej. unfold exchange. rewrite Ei, Ej. pose proof (lookup_lt_Some _ _ _ Ei). pose proof (lookup_lt_Some _ _ _ Ej).
  destruct (decide (m = i)) as [->|Hi].
  - rewrite list_lookup_insert_ne by lia. by apply list_lookup_insert_eq.
  - destruct (decide (m = j)) as [->|Hj].
    + apply list_lookup_insert_eq. by rewrite length_insert.
    + by rewrite !list_lookup_insert_ne by lia.
Qed.

Lemma exchange_perm (b : list E) i j : (i < j)%nat -> Permutation (exchange b i j) b.
Proof.
  intros Hij. unfold exchange. destruct (b !! i) as [x|] eqn:Ei; [|done]. destruct (b !! j) as [y|] eqn:Ej; [|done].
  apply list_elem_of_split_length in Ei as (l1 & l2 & -> & ->).
  rewrite lookup_app_r in Ej by lia. destruct (j - length l1)%nat as [|k] eqn:Ek; [lia|]. cbn in Ej.
  apply list_elem_of_split_length in Ej as (l3 & l4 & -> & ->).
  assert (<[length l1 := y]> (l1 ++ x :: l3 ++ y :: l4) = l1 ++ y :: l3 ++ y :: l4) as ->
    by (rewrite insert_app_r_alt by lia; by rewrite Nat.sub_diag).
  assert (<[j := x]> (l1 ++ y :: l3 ++ y :: l4) = l1 ++ y :: l3 ++ x :: l4) as ->.
  { change (l1 ++ y :: l3 ++ y :: l4) with (l1 ++ (y :: l3) ++ y :: l4).
    change (l1 ++ y :: l3 ++ x :: l4) with (l1 ++ (y :: l3) ++ x :: l4). rewrite !app_assoc.
    rewrite insert_app_r_alt by (rewrite length_app; cbn [length]; lia).
    replace (j - length (l1 ++ y :: l3))%nat with 0%nat by (rewrite length_app; cbn [length]; lia). done. }
  apply Permutation_app_head.
  etrans; [apply Permutation_cons; [reflexivity|symmetry; apply Permutation_middle]|].
  etrans; [apply Permutation_swap|]. apply Permutation_cons; [reflexivity|]. apply Permutation_middle.
Qed.

(** One round of the inner loop. *)
Definition inner_inv (b0 : list E) (i j : nat) (b : list E) : Prop :=
  Permutation b b0 /\ sorted_to b i /\ least_from b i (S i) j.

Lemma inner_step_inv b0 i j b : (i < j)%nat -> inner_inv b0 i j b -> inner_inv b0 i (S j) (inner_step i b j).
Proof.
  intros Hij (Hp & Hs & Hl). unfold inner_step.
  destruct (b !! i) as [x|] eqn:Ei; [|repeat split; try done; by intros u v m E1; rewrite Ei in E1].
  destruct (b !! j) as [y|] eqn:Ej.
  2: { split; [done|]. split; [done|]. intros u v m E1 Hm E2. apply (Hl u v m E1); [|done].
       destruct (decide (m = j)) as [->|]; [congruence|lia]. }
  destruct (Z.ltb_spec 0 (compar x y)) as [Hgt|Hle].
  - assert (compar y x <= 0) as Hyx by (by apply compar_sign).
    split; [etrans; [by apply exchange_perm|done]|]. split.
    + intros p q u v Hpi Hpq Eu Ev. rewrite (exchange_lookup b i j p x y) in Eu by done. rewrite (exchange_lookup b i j q x y) in Ev by done.
      rewrite !decide_False in Eu by lia.
      destruct (decide (q = i)) as [->|]; [injection Ev as <-; apply (Hs p j u y); (done || lia)|].
      destruct (decide (q = j)) as [->|]; [injection Ev as <-; apply (Hs p i u x); (done || lia)|].
      apply (Hs p q u v); (done || lia).
    + intros u v m Eu Hm Ev. rewrite (exchange_lookup b i j i x y), decide_True in Eu by done. injection Eu as <-.
      rewrite (exchange_lookup b i j m x y), decide_False in Ev by (done || lia).
      destruct (decide (m = j)) as [->|]; [by simplify_eq|]. apply compar_trans with x; [done|]. apply (Hl x v m Ei); [lia|done].
  - split; [done|]. split; [done|]. intros u v m Eu Hm Ev. rewrite Ei in Eu. injection Eu as <-.
    destruct (decide (m = j)) as [->|]; [by simplify_eq|]. apply (Hl x v m Ei); [lia|done].
Qed.

Lemma inner_loop_inv b0 i n : forall j b, (i < j)%nat -> inner_inv b0 i j b -> inner_inv b0 i (j + n) (inner_loop n i j b).
Proof.
  induction n as [|n IH]; intros j b Hij Hb; cbn [inner_loop]; [by rewrite Nat.add_0_r|].
  replace (j + S n)%nat with (S j + n)%nat by lia. apply IH; [lia|]. by apply inner_step_inv.
Qed.

Lemma outer_loop_sorted b0 n : forall i b, (i + n = length b)%nat -> Permutation b b0 -> sorted_to b i ->
  Permutation (outer_loop n i b) b0 /\ sorted_to (outer_loop n i b) (i + n).
Proof.
  induction n as [|n IH]; intros i b Hn Hp Hs; cbn [outer_loop]; [by rewrite Nat.add_0_r|].
  destruct (inner_loop_inv b0 i (length b - S i) (S i) b) as (Hp' & Hs' & Hl'); [lia|split; [done|split; [done|]]|].
  { intros x y m _ Hm _. lia. }
  set (b' := inner_loop (length b - S i) i (S i) b) in *.
  assert (length b' = length b) as Elen by (rewrite (Permutation_length Hp'), (Permutation_length Hp); done).
  replace (i + S n)%nat with (S i + n)%nat by lia. apply IH; [lia|done|].
  intros p q x y Hpi Hpq Ex Ey. destruct (decide (p = i)) as [->|]; [|apply (Hs' p q x y); (lia || done)].
  apply (Hl' x y q Ex); [|done]. apply lookup_lt_Some in Ey. lia.
Qed.
End sorted.

(** ** Exchanging elements in memory *)

Section placed.
Context (compar : list Z -> list Z -> Z) (tmp b size : Z) (nmemb : nat).
Context (Hsize : 0 <= size <= tmp_size).
Context (Hapart : tmp + tmp_size <= b \/ b + Z.of_nat nmemb * size <= tmp).

(** The elements of the array. *)
Definition elements (m : memory) : list (list Z) := map (element b size m) (seq 0 nmemb).

Lemma elements_length m : length (elements m) = nmemb.
Proof. unfold elements. by rewrite length_map, length_seq. Qed.

Lemma elements_lookup m i : (i < nmemb)%nat -> elements m !! i = Some (element b size m i).
Proof. intros Hi. unfold elements. rewrite list_lookup_fmap, lookup_seq_lt by done. done. Qed.

(** [m'] is [m] but for the array and the local buffer. *)
Definition array_only (m m' : memory) : Prop :=
  is_memory m' /\ forall x, (x < b \/ b + Z.of_nat nmemb * size <= x) -> (x < tmp \/ tmp + tmp_size <= x) -> m' x = m x.

Lemma array_only_trans m m1 m2 : array_only m m1 -> array_only m1 m2 -> array_only m m2.
Proof. intros [_ F1] [H2 F2]. split; [done|]. intros x Hx Ht. by rewrite F2, F1. Qed.

(** Where the slots are. *)
Lemma slot_bounds i : (i < nmemb)%nat -> b <= slot b size i /\ slot b size i + size <= b + Z.of_nat nmemb * size.
Proof. intros Hi. unfold slot. nia. Qed.

Lemma slots_apart i j : (i < j)%nat -> slot b size i + size <= slot b size j.
Proof. intros Hi. unfold slot. nia. Qed.

Lemma memcpy_memory m dst src n : is_memory m -> dst + Z.of_nat n <= src \/ src + Z.of_nat n <= dst -> is_memory (memcpy m dst src n).
Proof.
  intros Hm Hd x. rewrite memcpy_spec by (done || lia). unfold memcpy_bytes. destruct (_ && _); apply Hm.
Qed.

(** Decide in which of the regions an address is. *)
Ltac by_regions :=
  repeat match goal with |- context [if ?c then _ else _] =>
    let E := fresh in destruct c eqn:E; rewrite ?andb_true_iff, ?andb_false_iff, ?Z.leb_le, ?Z.ltb_lt, ?Z.leb_gt, ?Z.ltb_ge in E end;
  try (f_equal; lia); exfalso; lia.

(** Every byte after an exchange. *)
Lemma swap_bytes m i j : is_memory m -> (i < j < nmemb)%nat ->
  is_memory (swap tmp b size m i j) /\ forall x, swap tmp b size m i j x =
    if (slot b size i <=? x) && (x <? slot b size i + size) then m (slot b size j + (x - slot b size i))
    else if (slot b size j <=? x) && (x <? slot b size j + size) then m (slot b size i + (x - slot b size j))
    else if (tmp <=? x) && (x <? tmp + size) then m (slot b size i + (x - tmp))
    else m x.
Proof.
  intros Hm Hij. pose proof (slot_bounds i ltac:(lia)). pose proof (slot_bounds j ltac:(lia)). pose proof (slots_apart i j ltac:(lia)).
  unfold swap. set (si := slot b size i) in *. set (sj := slot b size j) in *. unfold tmp_size in *.
  pose proof (memcpy_memory m tmp si (Z.to_nat size) Hm ltac:(lia)) as M1. set (m1 := memcpy m tmp si _) in *.
  pose proof (memcpy_memory m1 si sj (Z.to_nat size) M1 ltac:(lia)) as M2. set (m2 := memcpy m1 si sj _) in *.
  split; [apply memcpy_memory; [done|lia]|]. intros x. rewrite memcpy_spec by (done || lia).
  assert (forall y, m2 y = memcpy_bytes m1 si sj size y) as E2 by (intros y; unfold m2; rewrite memcpy_spec by (done || lia); f_equal; lia).
  assert (forall y, m1 y = memcpy_bytes m tmp si size y) as E1 by (intros y; unfold m1; rewrite memcpy_spec by (done || lia); f_equal; lia).
  rewrite Z2Nat.id by lia. unfold memcpy_bytes at 1. rewrite !E2. unfold memcpy_bytes. rewrite !E1. unfold memcpy_bytes.
  by_regions.
Qed.

Lemma swap_elements m i j : is_memory m -> (i < j < nmemb)%nat ->
  elements (swap tmp b size m i j) = exchange (elements m) i j /\ array_only m (swap tmp b size m i j).
Proof.
  intros Hm Hij. destruct (swap_bytes m i j Hm Hij) as [Hm' Hx].
  pose proof (slot_bounds i ltac:(lia)). pose proof (slot_bounds j ltac:(lia)). split; [|split; [done|]].
  - apply list_eq. intros k. destruct (decide (k < nmemb)%nat) as [Hk|Hk].
    + rewrite (exchange_lookup (elements m) i j k (element b size m i) (element b size m j)) by (lia || (apply elements_lookup; lia)).
      rewrite !elements_lookup by done. pose proof (slot_bounds k Hk). unfold element, load.
      assert (forall v, (forall o, 0 <= o < size -> swap tmp b size m i j (slot b size k + o) = m (v + o)) ->
        map (fun o => swap tmp b size m i j (slot b size k + Z.of_nat o)) (seq 0 (Z.to_nat size)) = map (fun o => m (v + Z.of_nat o)) (seq 0 (Z.to_nat size))) as Hv.
      { intros v Hv. apply map_ext_in. intros o Ho%in_seq. apply Hv. lia. }
      destruct (decide (k = i)) as [->|Hki]; [|destruct (decide (k = j)) as [->|Hkj]]; f_equal; apply Hv; intros o Ho; rewrite Hx.
      all: pose proof (slots_apart i j ltac:(lia)); unfold tmp_size in *.
      3: assert ((k < i)%nat \/ (i < k)%nat) as Hd1 by lia; assert ((k < j)%nat \/ (j < k)%nat) as Hd2 by lia;
         assert (slot b size k + size <= slot b size i \/ slot b size i + size <= slot b size k) by (destruct Hd1; [left|right]; by apply slots_apart);
         assert (slot b size k + size <= slot b size j \/ slot b size j + size <= slot b size k) by (destruct Hd2; [left|right]; by apply slots_apart).
      all: by_regions.
    + rewrite !lookup_ge_None_2; [done|..]; [|rewrite elements_length; lia].
      unfold exchange. rewrite !elements_lookup by lia. rewrite !length_insert, elements_length. lia.
  - intros x Ho Ht. rewrite Hx. unfold tmp_size in *.
    by_regions.
Qed.

Lemma step_elements m i j : is_memory m -> (i < j < nmemb)%nat ->
  elements (qsort_inner_step compar tmp b size i m j) = inner_step compar i (elements m) j /\
  array_only m (qsort_inner_step compar tmp b size i m j).
Proof.
  intros Hm Hij. unfold qsort_inner_step, inner_step. rewrite !elements_lookup by lia.
  destruct (_ <? _); [by apply swap_elements|]. split; [done|]. by split.
Qed.

Lemma inner_elements n : forall m i j, is_memory m -> (i < j)%nat -> (j + n <= nmemb)%nat ->
  elements (qsort_inner compar tmp b size n i j m) = inner_loop compar n i j (elements m) /\ array_only m (qsort_inner compar tmp b size n i j m).
Proof.
  induction n as [|n IH]; intros m i j Hm Hij Hn; [by split; [|split]|]. cbn [qsort_inner inner_loop].
  destruct (step_elements m i j Hm ltac:(lia)) as [<- H1]. destruct (IH _ i (S j) (proj1 H1)) as [E H2]; [lia|lia|].
  split; [exact E|by eapply array_only_trans].
Qed.

Lemma outer_elements n : forall m i, is_memory m -> (i + n <= nmemb)%nat ->
  elements (qsort_outer compar tmp b size nmemb n i m) = outer_loop compar n i (elements m) /\
  array_only m (qsort_outer compar tmp b size nmemb n i m).
Proof.
  induction n as [|n IH]; intros m i Hm Hn; [by split; [|split]|]. cbn [qsort_outer outer_loop]. rewrite elements_length.
  destruct (inner_elements (nmemb - S i) m i (S i) Hm) as [<- H1]; [lia|lia|]. destruct (IH _ (S i) (proj1 H1)) as [E H2]; [lia|].
  split; [exact E|by eapply array_only_trans].
Qed.
End placed.

(** ** Searching *)

Section found.
Context {K E : Type} (compar : K -> E -> Z).

(** The array is ordered with respect to the key: first the elements below
    it, then those equal to it, then those above it. *)
Definition ordered (key : K) (base : list E) : Prop :=
  forall p q x y, (p <= q)%nat -> base !! p = Some x -> base !! q = Some y ->
    (compar key x < 0 -> compar key y < 0) /\ (0 < compar key y -> 0 < compar key x).

Lemma bsearch_loop_spec key base fuel : ordered key base -> forall lo hi, 0 <= lo <= hi -> hi <= Z.of_nat (length base) ->
  hi - lo < Z.of_nat fuel ->
  (forall m x, base !! m = Some x -> Z.of_nat m < lo -> 0 < compar key x) ->
  (forall m x, base !! m = Some x -> hi <= Z.of_nat m -> compar key x < 0) ->
  exists r, bsearch_loop compar fuel key base lo hi = Some r /\
    match r with
    | Some mid => exists x, base !! Z.to_nat mid = Some x /\ compar key x = 0
    | None => forall m x, base !! m = Some x -> compar key x <> 0
    end.
Proof.
  intros Ho. induction fuel as [|n IH]; intros lo hi Hlo Hhi Hf Hbelow Habove; [lia|]. cbn [bsearch_loop].
  destruct (Z.ltb_spec lo hi) as [Hlt|Hge].
  - assert (lo <= lo + (hi - lo) / 2 < hi) as Hmid by (Z.to_euclidean_division_equations; lia).
    set (mid := lo + (hi - lo) / 2) in *. destruct (lookup_lt_is_Some_2 base (Z.to_nat mid)) as [e Ee]; [lia|].
    rewrite Ee. cbn [mbind option_bind]. destruct (Z.ltb_spec (compar key e) 0) as [Hc|Hc]; [|destruct (Z.ltb_spec 0 (compar key e)) as [Hc2|Hc2]].
    + apply IH; try lia; [exact Hbelow|]. intros m x Em Hm. apply (Ho (Z.to_nat mid) m e x); (done || lia).
    + apply IH; try lia; [|exact Habove]. intros m x Em Hm. apply (Ho m (Z.to_nat mid) x e); (done || lia).
    + eexists. split; [reflexivity|]. exists e. split; [done|lia].
  - eexists. split; [reflexivity|]. intros m x Em. destruct (Z.le_gt_cases hi (Z.of_nat m)).
    + specialize (Habove m x Em). lia.
    + specialize (Hbelow m x Em). lia.
Qed.
End found.

(** ** The properties *)

(** C34: [qsort] sorts the array in memory: for elements of at most 64 bytes
    and any comparison that is a total preorder, the elements afterwards are a
    permutation of those before in which no element is greater than one behind
    it, and no byte outside the array and the local buffer changes.  Larger
    elements are left in whatever order they were. *)
Theorem qsort_correct (compar : list Z -> list Z -> Z) (HC : Comparison compar) tmp b size (nmemb : nat) m (Hm : is_memory m)
    (Hsize : 0 <= size) (Hapart : tmp + tmp_size <= b \/ b + Z.of_nat nmemb * size <= tmp) :
  let m' := qsort compar tmp b size m nmemb in
  Permutation (elements b size nmemb m') (elements b size nmemb m) /\
  (size <= tmp_size -> forall p q, (p < q < nmemb)%nat -> compar (element b size m' p) (element b size m' q) <= 0) /\
  (forall x, (x < b \/ b + Z.of_nat nmemb * size <= x) -> (x < tmp \/ tmp + tmp_size <= x) -> m' x = m x) /\
  (tmp_size < size -> m' = m).
Proof.
  cbv zeta. unfold qsort. destruct (Z.ltb_spec tmp_size size) as [Hbig|Hsmall]; [split; [done|split; [lia|done]]|].
  destruct (outer_elements compar tmp b size nmemb ltac:(lia) Hapart nmemb m 0 Hm) as [E [_ Hx]]; [lia|].
  destruct (outer_loop_sorted compar (elements b size nmemb m) nmemb 0 (elements b size nmemb m)) as [Hp Hs];
    [by rewrite elements_length|done|intros p q x y Hp; lia|]. rewrite <- E in Hp, Hs.
  split; [exact Hp|]. split; [|split; [exact Hx|lia]]. intros _ p q Hpq. apply (Hs p q); [lia|lia|..]; apply elements_lookup; lia.
Qed.

Definition compare_ints (x y : Z) : Z := x - y.

Lemma compare_ints_comparison : Comparison compare_ints.
Proof. split; unfold compare_ints; lia. Qed.

(** By the two-byte words at their start. *)
Definition compare_words (x y : list Z) : Z := compare_ints (nth 0 x 0 + 256 * nth 1 x 0) (nth 0 y 0 + 256 * nth 1 y 0).

Lemma compare_words_comparison : Comparison compare_words.
Proof. split; unfold compare_words, compare_ints; lia. Qed.

(** 0x0103, 0x0002, 0x0102 at 100, with the buffer at 200. *)
Definition unsorted : memory := fun x => nth (Z.to_nat (x - 100)) [3; 1; 2; 0; 2; 1] 0.

Lemma qsort_correct_witness :
  load (qsort compare_words 200 100 2 unsorted 3) 100 6 = [2; 0; 2; 1; 3; 1] /\
  compare_words (element 100 2 (qsort compare_words 200 100 2 unsorted 3) 0) (element 100 2 (qsort compare_words 200 100 2 unsorted 3) 2) <= 0.
Proof.
  split; [vm_compute; reflexivity|].
  refine (proj1 (proj2 (qsort_correct compare_words compare_words_comparison 200 100 2 3 unsorted _ ltac:(lia) ltac:(unfold tmp_size; lia))) _ 0%nat 2%nat _).
  - intros x. unfold unsorted. destruct (Z.to_nat (x - 100)) as [|[|[|[|[|[|[]]]]]]]; cbn [nth]; lia.
  - unfold tmp_size. lia.
  - lia.
Defined.

(** [bsearch] ends and is right: on an array ordered with respect to the
    key it returns an element equal to the key, and a null pointer only when
    there is none. *)
Theorem bsearch_correct {K E : Type} (compar : K -> E -> Z) key (base : list E) (Ho : ordered compar key base) :
  exists r, bsearch compar key base = Some r /\
    match r with
    | Some mid => exists x, base !! Z.to_nat mid = Some x /\ compar key x = 0
    | None => forall m x, base !! m = Some x -> compar key x <> 0
    end.
Proof.
  apply bsearch_loop_spec; [done|lia|lia|lia|intros; lia|].
  intros m x Em Hm. apply lookup_lt_Some in Em. lia.
Qed.

Lemma bsearch_correct_witness : ordered compare_ints 7 [2; 5; 7; 9] /\ bsearch compare_ints 7 [2; 5; 7; 9] = Some (Some 2).
Proof.
  assert (ordered compare_ints 7 [2; 5; 7; 9]) as Ho.
  { intros p q x y Hpq Ex Ey. unfold compare_ints.
    destruct p as [|[|[|[|p]]]]; cbn in Ex; [injection Ex as <-..|done];
      (destruct q as [|[|[|[|q]]]]; cbn in Ey; [injection Ey as <-..|done]); lia. }
  split; [exact Ho|]. destruct (bsearch_correct compare_ints 7 [2; 5; 7; 9] Ho) as (r & E & _).
  rewrite E. symmetry. exact E.
Defined.
