(* ===== verification/CStringClaims.v ===== *)
(** * Memory and strings: the claims *)

From S2P Require Import Prelude Ctype Heap CString Sort.

(** ** The order of strings *)

Definition chars (s : list Z) : Prop := Forall (fun c => 0 < c < 256) s.

Lemma cstring_chars m p s : cstring m p s -> chars s.
Proof. revert p. induction s as [|c s IH]; intros p; [constructor|]. intros (_ & Hc & H). constructor; [done|by eapply IH]. Qed.

Lemma lex_zero s : forall t, chars s -> chars t -> (lex s t = 0 <-> s = t).
Proof.
  induction s as [|c s IH]; intros [|d t] Hs Ht; cbn [lex]; try done.
  - inversion Ht; subst. split; [lia|done].
  - inversion Hs; subst. split; [lia|done].
  - inversion Hs; inversion Ht; subst. destruct (Z.eqb_spec c d) as [->|].
    + rewrite IH by done. split; [by intros ->|by intros [= ->]].
    + split; [lia|by intros [= -> _]].
Qed.

Lemma lex_opp s : forall t, lex t s = - lex s t.
Proof.
  induction s as [|c s IH]; intros [|d t]; cbn [lex]; try lia.
  destruct (Z.eqb_spec c d), (Z.eqb_spec d c); try lia. apply IH.
Qed.

Lemma lex_trans s : forall t u, chars s -> chars t -> chars u -> lex s t <= 0 -> lex t u <= 0 -> lex s u <= 0.
Proof.
  induction s as [|c s IH]; intros [|d t] [|e u] Hs Ht Hu; cbn [lex]; try lia;
    inversion Hs; inversion Ht; inversion Hu; subst; try lia.
  destruct (Z.eqb_spec c d), (Z.eqb_spec d e), (Z.eqb_spec c e); try lia. by apply IH.
Qed.

(** ** Tokens *)

Definition in_set (ds : list Z) (c : Z) : bool := bool_decide (c ∈ ds).

(** The maximal runs of characters out of the set; [cur] is the run so far. *)
Fixpoint split (ds cur s : list Z) : list (list Z) :=
  match s with
  | [] => match cur with [] => [] | _ => [cur] end
  | c :: s =>
      if in_set ds c then match cur with [] => split ds [] s | _ => cur :: split ds [] s end
      else split ds (cur ++ [c]) s
  end.

Lemma split_delims ds pre s : Forall (fun c => in_set ds c = true) pre -> split ds [] (pre ++ s) = split ds [] s.
Proof. induction 1 as [|c pre Hc _ IH]; [done|]. cbn [app split]. by rewrite Hc. Qed.

Lemma split_token ds tok : Forall (fun c => in_set ds c = false) tok -> forall cur rest, cur ++ tok <> [] ->
  match rest with c :: _ => in_set ds c = true | [] => True end ->
  split ds cur (tok ++ rest) = (cur ++ tok) :: split ds [] (drop 1 rest).
Proof.
  induction 1 as [|c tok Hc _ IH]; intros cur rest Hne Hr.
  - rewrite app_nil_r in *. cbn [app]. destruct rest as [|c rest]; cbn [split drop].
    + by destruct cur.
    + rewrite Hr. rewrite drop_0. by destruct cur.
  - cbn [app split]. rewrite Hc, IH; [by rewrite <- app_assoc|by destruct cur|done].
Qed.

(** A string as delimiters, a token and what follows. *)
Lemma span_exists (f : Z -> bool) (want : bool) s : exists pre rest, s = pre ++ rest /\ Forall (fun c => f c = want) pre /\
  match rest with c :: _ => f c <> want | [] => True end.
Proof.
  induction s as [|c s (pre & rest & -> & Hp & Hr)]; [by exists [], []|].
  destruct (decide (f c = want)) as [Hc|Hc].
  - exists (c :: pre), rest. split; [done|]. split; [by constructor|done].
  - exists [], (c :: pre ++ rest). split; [done|]. split; [constructor|done].
Qed.

Section tokens.
Context (fuel : nat).

(** One call, from the string or from the saved pointer. *)
Lemma strtok_r_spec m s dl ds str save pre tok rest :
  (if truthy str then str else save) = s -> 0 < s -> 0 < dl -> cstring m dl ds -> cstring m s (pre ++ tok ++ rest) ->
  Forall (fun c => in_set ds c = true) pre -> Forall (fun c => in_set ds c = false) tok -> tok <> [] ->
  match rest with c :: _ => in_set ds c = true | [] => True end ->
  (length ds < fuel)%nat -> (length (pre ++ tok ++ rest) < fuel)%nat ->
  let ptr := s + Z.of_nat (length pre) in
  let stop := ptr + Z.of_nat (length tok) in
  exists m', strtok_r fuel m str dl save = Some (m', ptr, stop + Z.of_nat (length (take 1 rest))) /\
    cstring m' ptr tok /\ cstring m' (stop + Z.of_nat (length (take 1 rest))) (drop 1 rest) /\
    (forall x, x <> stop \/ rest = [] -> m' x = m x).
Proof.
  intros Es Hs Hdl Hd Hc Hpre Htok Hne Hrest Hf1 Hf2 ptr stop. rewrite !length_app in Hf2. unfold strtok_r. rewrite Es.
  destruct (Z.eqb_spec s 0), (Z.eqb_spec dl 0); try lia. cbn [orb]. unfold strspn, strcspn.
  rewrite (span_spec true m s dl ds fuel Hd Hdl Hf1 pre (tok ++ rest) 0 fuel);
    [|by rewrite Z.add_0_r|exact Hpre| |lia].
  2: { destruct tok as [|c tok]; [done|]. inversion Htok as [|? ? Hct _]; subst. cbn [app]. unfold in_set in Hct. by rewrite Hct. }
  cbn [mbind option_bind]. rewrite Z.add_0_l. fold ptr.
  apply cstring_app in Hc as [_ Hc]. fold ptr in Hc.
  destruct tok as [|c tok]; [done|]. pose proof Hc as (Em & Hc0 & _). rewrite Em. destruct (Z.eqb_spec c 0); [lia|].
  rewrite (span_spec false m ptr dl ds fuel Hd Hdl Hf1 (c :: tok) rest 0 fuel);
    [|by rewrite Z.add_0_r|exact Htok| |lia].
  2: { destruct rest as [|c' r]; [done|]. unfold in_set in Hrest. by rewrite Hrest. }
  cbn [mbind option_bind]. rewrite Z.add_0_l. fold stop.
  pose proof Hc as [Htk Hend]%cstring_app. fold stop in Hend. destruct rest as [|c' r].
  - cbn [cstring] in Hend. rewrite Hend. cbn [truthy Z.eqb negb take drop length]. rewrite Z.add_0_r.
    eexists. split; [reflexivity|]. split; [by rewrite app_nil_r in Hc|]. done.
  - destruct Hend as (Ec' & Hc' & Hend). rewrite Ec'. unfold truthy. destruct (Z.eqb_spec c' 0); [lia|].
    cbn [negb take drop length]. change (Z.of_nat 1) with 1. rewrite drop_0.
    eexists. split; [reflexivity|]. split; [|split; [|intros x [?|?]; [by apply wr8_other|done]]].
    + rewrite <- (app_nil_r (c :: tok)). apply cstring_app. split; [|cbn [cstring]; apply wr8_same].
      intros i d Ei. destruct (Htk i d Ei) as [H1 H2]. apply lookup_lt_Some in Ei. rewrite wr8_other by (unfold stop; lia). done.
    + apply (cstring_ext m); [done|]. intros x Hx. apply wr8_other. lia.
Qed.

(** The string holds delimiters only. *)
Lemma strtok_r_end m s dl ds str save pre :
  (if truthy str then str else save) = s -> 0 < s -> 0 < dl -> cstring m dl ds -> cstring m s pre ->
  Forall (fun c => in_set ds c = true) pre -> (length ds < fuel)%nat -> (length pre < fuel)%nat ->
  strtok_r fuel m str dl save = Some (m, 0, s + Z.of_nat (length pre)).
Proof.
  intros Es Hs Hdl Hd Hc Hpre Hf1 Hf2. unfold strtok_r. rewrite Es.
  destruct (Z.eqb_spec s 0), (Z.eqb_spec dl 0); try lia. cbn [orb]. unfold strspn.
  rewrite (span_spec true m s dl ds fuel Hd Hdl Hf1 pre [] 0 fuel); [|by rewrite Z.add_0_r, app_nil_r|exact Hpre|done|lia].
  cbn [mbind option_bind]. rewrite Z.add_0_l. rewrite (cstring_end m s pre Hc). done.
Qed.

(** [for (t = strtok_r(s, d, &save); t; t = strtok_r(0, d, &save))] *)
Fixpoint strtok_all (n : nat) (m : memory) (str dl save : Z) : option (memory * list Z) :=
  match n with
  | O => None
  | S n =>
      '(m, tok, save) ← strtok_r fuel m str dl save;
      if tok =? 0 then Some (m, [])
      else '(m, toks) ← strtok_all n m 0 dl save; Some (m, tok :: toks)
  end.

Lemma strtok_all_spec dl ds n : 0 < dl -> (length ds < fuel)%nat -> forall s m p str save,
  (if truthy str then str else save) = p -> 0 < p -> cstring m dl ds -> cstring m p s ->
  (dl + Z.of_nat (length ds) < p \/ p + Z.of_nat (length s) < dl) -> (length s < fuel)%nat -> (length s < n)%nat ->
  exists m' ptrs, strtok_all n m str dl save = Some (m', ptrs) /\ Forall2 (cstring m') ptrs (split ds [] s) /\
    forall x, (x < p \/ p + Z.of_nat (length s) <= x) -> m' x = m x.
Proof.
  intros Hdl Hf. induction n as [|n IH]; intros s m p str save Ep Hp Hd Hs Hap Hfs Hn; [lia|]. cbn [strtok_all].
  destruct (span_exists (in_set ds) true s) as (pre & r1 & -> & Hpre & Hr1).
  destruct (span_exists (in_set ds) false r1) as (tok & rest & -> & Htok & Hrest).
  destruct tok as [|c tok].
  - assert (rest = []) as -> by (destruct rest as [|c r]; [done|]; cbn in Hr1; by destruct (in_set ds c)).
    rewrite !app_nil_r in *. rewrite (strtok_r_end m p dl ds str save pre) by done.
    cbn [mbind option_bind Z.eqb]. exists m, []. split; [done|]. split; [|done].
    rewrite <- (app_nil_r pre), split_delims by done. constructor.
  - assert (match rest with c :: _ => in_set ds c = true | [] => True end) as Hrest'
      by (destruct rest as [|c' r]; [done|]; by destruct (in_set ds c')).
    destruct (strtok_r_spec m p dl ds str save pre (c :: tok) rest Ep Hp Hdl Hd Hs Hpre Htok ltac:(done) Hrest' Hf Hfs)
      as (m1 & -> & Ht1 & Hs1 & Hm1). cbn [mbind option_bind].
    set (ptr := p + Z.of_nat (length pre)) in *. set (stop := ptr + Z.of_nat (length (c :: tok))) in *.
    destruct (Z.eqb_spec ptr 0); [unfold ptr in *; lia|].
    rewrite !length_app in Hn, Hfs, Hap. cbn [length] in Hn, Hfs, Hap.
    assert (length (take 1 rest) + length (drop 1 rest) = length rest)%nat as El by (rewrite <- length_app, take_drop; done).
    assert (length (drop 1 rest) <= length rest)%nat as Ed by lia.
    assert (stop = p + Z.of_nat (length pre) + Z.of_nat (S (length tok))) as Estop by done.
    destruct (IH (drop 1 rest) m1 (stop + Z.of_nat (length (take 1 rest))) 0 (stop + Z.of_nat (length (take 1 rest))))
      as (m' & ptrs & -> & HF & Hm'); try done; try lia.
    { apply (cstring_ext m); [done|]. intros x Hx. apply Hm1. lia. }
    cbn [mbind option_bind]. exists m', (ptr :: ptrs). split; [done|]. split.
    + rewrite split_delims by done. rewrite split_token by done. constructor; [|exact HF]. cbn [app].
      apply (cstring_ext m1); [done|]. intros x Hx. apply Hm'. fold stop in Hx. destruct rest as [|c' r]; cbn [take drop length]; lia.
    + intros x Hx. rewrite !length_app in Hx. cbn [length] in Hx. rewrite Hm' by lia. apply Hm1.
      destruct rest as [|c' r]; [by right|left]. cbn [length] in Hx. lia.
Qed.
End tokens.

(** ** The properties *)

(** [memmove] copies correctly however the two areas overlap: every byte
    of the destination becomes the byte the source had before the call, and
    no other byte changes; [memcpy] does the same when the areas are disjoint
    or the destination is in front, and [memset] fills exactly its area.
    These are the block copies the allocator relies on. *)
Theorem memmove_correct m dst src c n (Hm : is_memory m) :
  (forall x, memmove m dst src n x = memcpy_bytes m dst src (Z.of_nat n) x) /\
  (dst <= src \/ src + Z.of_nat n <= dst -> forall x, memcpy m dst src n x = memcpy_bytes m dst src (Z.of_nat n) x) /\
  (forall x, memset m dst c n x = memset_bytes m dst c (Z.of_nat n) x).
Proof.
  split; [|split].
  - intros x. unfold memmove. destruct (Z.ltb_spec dst src); [apply memcpy_spec; [done|lia]|apply copy_down_spec; [lia|done]].
  - intros Hd x. by apply memcpy_spec.
  - apply memset_spec.
Qed.

(** Bytes 1 2 3 4 5 from address 100, the first three moved up by two. *)
Lemma memmove_correct_witness :
  let m := fun x => if (100 <=? x) && (x <? 105) then x - 99 else 0 in
  map (memmove m 102 100 3) [100; 101; 102; 103; 104] = [1; 2; 1; 2; 3].
Proof.
  intros m. assert (is_memory m) as Hm.
  { intros x. unfold m. destruct (Z.leb_spec 100 x), (Z.ltb_spec x 105); cbn [andb]; lia. }
  pose proof (proj1 (memmove_correct m 102 100 0 3 Hm)) as H. cbn [map]. rewrite !H. reflexivity.
Defined.

(** [strcmp] ends on any two strings and decides a total order: it is 0
    exactly for equal strings, swapping the arguments negates it, and "not
    greater" is transitive, so that it is a comparison [qsort] and [bsearch]
    can use. *)
Theorem strcmp_correct m a b c s t u fuel (Ha : cstring m a s) (Hb : cstring m b t) (Hc : cstring m c u)
    (Hf : (length s + length t < fuel)%nat) :
  exists r r' r2 r3, strcmp fuel m a b = Some r /\ strcmp fuel m b a = Some r' /\
    strcmp fuel m a c = Some r2 /\ strcmp fuel m b c = Some r3 /\
    (r = 0 <-> s = t) /\ r' = - r /\ (r <= 0 -> r3 <= 0 -> r2 <= 0) /\
    forall x y z, s = x ++ y -> t = x ++ z -> r = lex y z.
Proof.
  pose proof (cstring_chars m a s Ha) as Hs. pose proof (cstring_chars m b t Hb) as Ht. pose proof (cstring_chars m c u Hc) as Hu.
  exists (lex s t), (lex t s), (lex s u), (lex t u).
  do 4 (split; [apply strcmp_spec; (done || lia)|]). split; [by apply lex_zero|]. split; [apply lex_opp|].
  split; [by apply lex_trans|]. intros x y z -> ->. clear.
  induction x as [|d x IH]; [done|]. cbn [app lex]. by rewrite Z.eqb_refl.
Qed.

(** "ab", "b" and "" in memory. *)
Definition sample : memory := fun x => nth (Z.to_nat (x - 10)) [97; 98; 0; 98; 0; 0] 0.

Lemma strcmp_correct_witness : exists r r' r2 r3, strcmp 9 sample 10 13 = Some r /\ strcmp 9 sample 13 10 = Some r' /\
  strcmp 9 sample 10 15 = Some r2 /\ strcmp 9 sample 13 15 = Some r3 /\ (r = 0 <-> [97; 98] = [98]) /\ r' = - r.
Proof.
  destruct (strcmp_correct sample 10 13 15 [97; 98] [98] [] 9) as (r & r' & r2 & r3 & E1 & E2 & E3 & E4 & H1 & H2 & _).
  - cbn. repeat split; lia.
  - cbn. repeat split; lia.
  - reflexivity.
  - cbn. lia.
  - exists r, r', r2, r3. repeat (split; [assumption|]). exact H2.
Defined.

(** C15: the loop over [strtok_r] ends and yields the tokens of the string:
    each pointer it returned is, when the loop is over, one of the maximal
    runs of non-delimiters, in order, as a string of its own, and only bytes
    of the string were written. *)
Theorem strtok_r_tokens fuel n m p dl ds s (Hp : 0 < p) (Hdl : 0 < dl) (Hs : cstring m p s) (Hd : cstring m dl ds)
    (Hap : dl + Z.of_nat (length ds) < p \/ p + Z.of_nat (length s) < dl)
    (Hfd : (length ds < fuel)%nat) (Hfs : (length s < fuel)%nat) (Hn : (length s < n)%nat) :
  exists m' ptrs, strtok_all fuel n m p dl 0 = Some (m', ptrs) /\ Forall2 (cstring m') ptrs (split ds [] s) /\
    forall x, (x < p \/ p + Z.of_nat (length s) <= x) -> m' x = m x.
Proof.
  apply (strtok_all_spec fuel dl ds n); try done. unfold truthy. destruct (Z.eqb_spec p 0); [lia|done].
Qed.

(** " ab, c" over the delimiters " ,". *)
Definition sentence : memory := fun x => nth (Z.to_nat (x - 10)) [32; 97; 98; 44; 32; 99; 0; 32; 44; 0] 0.

Lemma strtok_r_tokens_witness : split [32; 44] [] [32; 97; 98; 44; 32; 99] = [[97; 98]; [99]] /\
  exists m' ptrs, strtok_all 9 9 sentence 10 17 0 = Some (m', ptrs) /\ Forall2 (cstring m') ptrs [[97; 98]; [99]].
Proof.
  split; [vm_compute; reflexivity|].
  destruct (strtok_r_tokens 9 9 sentence 10 17 [32; 44] [32; 97; 98; 44; 32; 99]) as (m' & ptrs & E & H & _);
    try (cbn; lia); try (cbn; repeat split; lia).
  exists m', ptrs. split; [exact E|exact H].
Defined.

(** The calls of [for (t = strsep(&p, d); t; t = strsep(&p, d))] after which
    the field is not null, up to [n]. *)
Fixpoint strsep_all (fuel n : nat) (m : memory) (stringp delim : Z) : option nat :=
  match n with
  | O => Some O
  | S n =>
      '(m, field, stringp) ← strsep fuel m stringp delim;
      if field =? 0 then Some O else k ← strsep_all fuel n m stringp delim; Some (S k)
  end.

(** The loop over [strsep] never ends: at the end of the string
    [strsep] leaves the pointer at the NUL instead of making it null, and
    every further call returns another empty field. *)
Theorem strsep_never_ends fuel n m p dl ds (Hp : 0 < p) (Hdl : 0 < dl) (Hs : cstring m p []) (Hf : (0 < fuel)%nat) :
  cstring m dl ds -> strsep_all fuel n m p dl = Some n.
Proof.
  intros _. assert (strsep fuel m p dl = Some (m, p, p)) as E.
  { unfold strsep. destruct (Z.eqb_spec p 0), (Z.eqb_spec dl 0); try lia. cbn [orb]. unfold strcspn.
    destruct fuel as [|f]; [lia|]. cbn [span]. rewrite Z.add_0_r. cbn [cstring] in Hs. rewrite Hs.
    cbn [mbind option_bind Z.eqb]. rewrite Z.add_0_r, Hs. done. }
  induction n as [|n IH]; [done|]. cbn [strsep_all]. rewrite E. cbn [mbind option_bind].
  destruct (Z.eqb_spec p 0); [lia|]. rewrite IH. done.
Qed.

Lemma strsep_never_ends_witness : strsep_all 9 100 sentence 16 17 = Some 100%nat.
Proof. apply (strsep_never_ends 9 100 sentence 16 17 [32; 44]); try lia; cbn; repeat split; lia. Defined.
