(* ===== verification/CStringCopy.v ===== *)
(** * Strings: the copying and the remaining searching functions of [lib/libc_string.c] *)

From S2P Require Import Prelude Ctype Regex Heap CString.

Definition mempcpy (m : memory) (dst src : Z) (n : nat) : memory * Z := (memcpy m dst src n, dst + Z.of_nat n).

(** 0 is the null pointer, for which the length is 0. *)
Fixpoint strnlen (m : memory) (s : Z) (maxlen : nat) : Z :=
  match maxlen with
  | O => 0
  | S k => if (s =? 0) || (m s =? 0) then 0 else 1 + strnlen m (s + 1) k
  end.

Section copies.
Context (fuel : nat).

(** The byte is read before it is written: the strings may be anywhere. *)
Definition strcpy (m : memory) (dst src : Z) : option memory :=
  loop fuel (fun '(m, d, s) => let c := m s in let m := wr8 m d c in if truthy c then Next (m, d + 1, s + 1) else Done m) (m, dst, src).

Definition stpcpy (m : memory) (dst src : Z) : option (memory * Z) :=
  loop fuel (fun '(m, d, s) => let c := m s in let m := wr8 m d c in if truthy c then Next (m, d + 1, s + 1) else Done (m, d)) (m, dst, src).

Definition strcat (m : memory) (dst src : Z) : option memory := n ← strlen fuel m dst; strcpy m (dst + n) src.

Definition strchrnul (m : memory) (s c : Z) : option Z :=
  p ← strchr fuel m s c; if truthy p then Some p else n ← strlen fuel m s; Some (s + n).

(** The last occurrence; the NUL belongs to the string. *)
Definition strrchr (m : memory) (s c : Z) : option Z :=
  loop fuel (fun '(s, last) =>
    let last := if m s =? u8 c then s else last in if m s =? 0 then Done last else Next (s + 1, last)) (s, 0).

Fixpoint strpbrk_loop (n : nat) (m : memory) (s accept : Z) : option Z :=
  match n with
  | O => None
  | S n =>
      if m s =? 0 then Some 0
      else p ← strchr fuel m accept (m s); if truthy p then Some s else strpbrk_loop n m (s + 1) accept
  end.
Definition strpbrk (m : memory) (s accept : Z) : option Z := if s =? 0 then Some 0 else strpbrk_loop fuel m s accept.

(** The allocating copies. *)
Definition strdup {A : Type} `{Allocator A} (heap : A) (m : memory) (s : Z) : option (A * memory * Z) :=
  l ← strlen fuel m s;
  let n := u32 (l + 1) in
  let '(heap, p) := al_malloc heap n in
  Some (heap, if truthy p then memcpy m p s (Z.to_nat n) else m, p).

Definition strndup {A : Type} `{Allocator A} (heap : A) (m : memory) (s : Z) (n : nat) : A * memory * Z :=
  let len := strnlen m s n in
  let '(heap, p) := al_malloc heap (u32 (len + 1)) in
  (heap, if truthy p then wr8 (memcpy m p s (Z.to_nat len)) (p + len) 0 else m, p).
End copies.

(** The loop of [memmem] with [k] positions left. *)
Fixpoint memmem_loop (k : nat) (m : memory) (hay needle : Z) (needlelen : nat) : Z :=
  match k with
  | O => 0
  | S k => if memcmp m hay needle needlelen =? 0 then hay else memmem_loop k m (hay + 1) needle needlelen
  end.

Definition memmem (m : memory) (haystack : Z) (haystacklen : nat) (needle : Z) (needlelen : nat) : Z :=
  if (needlelen =? 0)%nat then haystack
  else if (haystack =? 0) || (needle =? 0) || (haystacklen <? needlelen)%nat then 0
  else memmem_loop (haystacklen + 1 - needlelen) m haystack needle needlelen.

(** ** Copies *)

(** Two areas have no byte in common. *)
Definition apart (a : Z) (n : Z) (b : Z) (k : Z) : Prop := a + n <= b \/ b + k <= a.

Lemma stpcpy_loop s : forall m d p fuel, cstring m p s -> apart d (Z.of_nat (length s) + 1) p (Z.of_nat (length s) + 1) -> (length s < fuel)%nat ->
  exists m', stpcpy fuel m d p = Some (m', d + Z.of_nat (length s)) /\ strcpy fuel m d p = Some m' /\
    forall x, m' x = overlay m d (s ++ [0]) x.
Proof.
  unfold apart. induction s as [|c s IH]; intros m d p fuel Hs Hd Hf; (destruct fuel as [|fuel]; [cbn in Hf; lia|]); unfold stpcpy, strcpy; cbn [loop].
  - cbn [cstring] in Hs. rewrite Hs. eexists. split; [cbn; by rewrite Z.add_0_r|]. split; [reflexivity|]. intros x. apply overlay_wr8. lia.
  - destruct Hs as (-> & Hc & Hs). unfold truthy. destruct (Z.eqb_spec c 0); [lia|]. cbn [negb]. cbn [length] in Hd, Hf.
    destruct (IH (wr8 m d c) (d + 1) (p + 1) fuel) as (m' & E1 & E2 & Hx); [|lia|lia|].
    { eapply cstring_ext; [exact Hs|]. intros x Hx. apply wr8_other. lia. }
    unfold stpcpy, strcpy, truthy in E1, E2. exists m'. split; [|split; [exact E2|]].
    + rewrite E1. cbn [length]. do 2 f_equal. lia.
    + intros x. rewrite Hx. change ((c :: s) ++ [0]) with ([c] ++ (s ++ [0])). rewrite (overlay_app m d [c] (s ++ [0]) x). cbn [length].
      apply overlay_ext. intros y. apply overlay_wr8. lia.
Qed.

Lemma overlay_at m a bs i b : bs !! i = Some b -> overlay m a bs (a + Z.of_nat i) = b.
Proof.
  intros E. pose proof (lookup_lt_Some _ _ _ E). unfold overlay.
  destruct (Z.leb_spec a (a + Z.of_nat i)), (Z.ltb_spec (a + Z.of_nat i) (a + Z.of_nat (length bs))); try lia. cbn [andb].
  replace (Z.to_nat (a + Z.of_nat i - a)) with i by lia. rewrite nth_lookup, E. done.
Qed.

Lemma cstring_lookup m p s i c : cstring m p s -> s !! i = Some c -> m (p + Z.of_nat i) = c /\ 0 < c < 256.
Proof.
  intros Hs E. rewrite <- (app_nil_r s) in Hs. apply cstring_app in Hs as [Hs _]. by apply Hs.
Qed.

Lemma cstring_intro m p s : (forall i c, s !! i = Some c -> m (p + Z.of_nat i) = c /\ 0 < c < 256) -> m (p + Z.of_nat (length s)) = 0 -> cstring m p s.
Proof. intros H H0. rewrite <- (app_nil_r s). apply cstring_app. split; [exact H|exact H0]. Qed.

Lemma cstring_overlay m p s : Forall (fun c => 0 < c < 256) s -> cstring (overlay m p (s ++ [0])) p s.
Proof.
  intros Hs. apply cstring_intro.
  - intros i c E. split; [apply overlay_at; by apply lookup_app_l_Some|]. rewrite Forall_lookup in Hs. by eapply Hs.
  - apply overlay_at. rewrite lookup_app_r by lia. by rewrite Nat.sub_diag.
Qed.

Lemma cstring_bytes m p s : cstring m p s -> Forall (fun c => 0 < c < 256) s.
Proof. intros Hs. apply Forall_lookup. intros i c E. by apply (cstring_lookup m p s i c). Qed.

(** [strncpy] stores exactly [n] bytes. *)
Lemma strncpy_pad n : forall m d p, forall x, strncpy m d p n false x = overlay m d (replicate n 0) x.
Proof.
  induction n as [|n IH]; intros m d p x; [by rewrite overlay_nil|]. cbn [strncpy andb]. rewrite IH.
  change (replicate (S n) 0) with ([0] ++ replicate n 0). rewrite overlay_app. cbn [length]. apply overlay_ext. intros y. apply overlay_wr8. lia.
Qed.

Lemma strncpy_copy n : forall s m d p, cstring m p s -> apart d (Z.of_nat n) p (Z.of_nat (length s) + 1) -> forall x,
  strncpy m d p n true x = overlay m d (take n s ++ replicate (n - length s) 0) x.
Proof.
  unfold apart. induction n as [|n IH]; intros s m d p Hs Hd x; [by rewrite overlay_nil|]. cbn [strncpy andb]. destruct s as [|c s].
  - cbn [cstring] in Hs. rewrite Hs. change (truthy 0) with false. cbn iota. rewrite strncpy_pad. cbn [take app length Nat.sub].
    change (replicate (S n) 0) with ([0] ++ replicate n 0). rewrite overlay_app. cbn [length]. apply overlay_ext. intros y. apply overlay_wr8. lia.
  - destruct Hs as (-> & Hc & Hs). unfold truthy. destruct (Z.eqb_spec c 0); [lia|]. cbn [negb length] in *. rewrite (IH s).
    + cbn [take app Nat.sub]. change (c :: take n s ++ replicate (n - length s) 0) with ([c] ++ (take n s ++ replicate (n - length s) 0)).
      rewrite (overlay_app m d [c] (take n s ++ replicate (n - length s) 0) x). cbn [length]. apply overlay_ext. intros y. apply overlay_wr8. lia.
    + eapply cstring_ext; [exact Hs|]. intros y Hy. apply wr8_other. lia.
    + lia.
Qed.

(** The copying functions build the string they stand for and touch
    nothing else.  For strings that do not overlap the destination, [strcpy]
    and [stpcpy] store the source and its NUL, [stpcpy] returning the NUL;
    [strcat] makes the concatenation; [strncpy] stores exactly [n] bytes, cut
    or padded with NULs; and all of them end. *)
Theorem string_copies_correct m dst src s t n fuel (Hs : cstring m src s) (Ht : cstring m dst t) (Hdst : 0 < dst)
    (Hd : apart dst (Z.of_nat (length t + length s) + 1) src (Z.of_nat (length s) + 1))
    (Hn : apart dst (Z.of_nat n) src (Z.of_nat (length s) + 1))
    (Hf : (length s + length t < fuel)%nat) :
  (exists m', stpcpy fuel m dst src = Some (m', dst + Z.of_nat (length s)) /\ strcpy fuel m dst src = Some m' /\
     cstring m' dst s /\ forall x, m' x = overlay m dst (s ++ [0]) x) /\
  (exists m', strcat fuel m dst src = Some m' /\ cstring m' dst (t ++ s) /\
     forall x, m' x = overlay m (dst + Z.of_nat (length t)) (s ++ [0]) x) /\
  (forall x, strncpy m dst src n true x = overlay m dst (take n s ++ replicate (n - length s) 0) x).
Proof.
  unfold apart in *. pose proof (cstring_bytes _ _ _ Hs) as Hb. split; [|split].
  - destruct (stpcpy_loop s m dst src fuel Hs) as (m' & E1 & E2 & Hx); [unfold apart; lia|lia|]. exists m'. do 2 (split; [done|]). split; [|done].
    eapply cstring_ext; [by apply (cstring_overlay m)|]. intros x _. apply Hx.
  - unfold strcat. rewrite (strlen_spec fuel m dst t Ht) by lia. cbn [mbind option_bind].
    destruct (stpcpy_loop s m (dst + Z.of_nat (length t)) src fuel Hs) as (m' & E1 & E2 & Hx); [unfold apart; lia|lia|].
    exists m'. split; [done|]. split; [|done]. apply cstring_app. split.
    + intros i c E. pose proof (lookup_lt_Some _ _ _ E). rewrite Hx, overlay_out by lia. by apply (cstring_lookup m dst t i c).
    + eapply cstring_ext; [by apply (cstring_overlay m)|]. intros x _. apply Hx.
  - by apply strncpy_copy.
Qed.

(** "cd" behind "ab" at 100. *)
Definition two_strings : memory := fun x => nth (Z.to_nat (x - 100)) [97; 98; 0; 0; 0; 0; 0; 0; 0; 0; 99; 100; 0] 0.

Lemma string_copies_correct_witness : exists m', strcat 9 two_strings 100 110 = Some m' /\ cstring m' 100 [97; 98; 99; 100].
Proof.
  assert (cstring two_strings 110 [99; 100]) as H1 by (cbn; repeat split; lia).
  assert (cstring two_strings 100 [97; 98]) as H2 by (cbn; repeat split; lia).
  destruct (string_copies_correct two_strings 100 110 [99; 100] [97; 98] 3 9 H1 H2) as (_ & (m' & E & Hm & _) & _);
    [lia|left; cbn; lia|left; cbn; lia|cbn; lia|]. exists m'. split; [exact E|exact Hm].
Defined.

(** ** Searches *)

(** The first position of [s] with a property, or its length. *)
Fixpoint first_index (f : Z -> bool) (s : list Z) : nat :=
  match s with
  | [] => 0
  | c :: s => if f c then 0 else S (first_index f s)
  end.

Lemma first_index_found f s : (first_index f s < length s)%nat <-> existsb f s = true.
Proof.
  induction s as [|c s IH]; [cbn; split; [lia|done]|]. cbn [first_index length existsb]. destruct (f c); cbn [orb]; [split; [done|lia]|].
  rewrite <- IH. lia.
Qed.

Lemma strpbrk_loop_spec fuel m ds accept : cstring m accept ds -> 0 < accept -> (length ds < fuel)%nat -> forall s n p, cstring m p s ->
  (length s < n)%nat ->
  strpbrk_loop fuel n m p accept =
    let k := first_index (fun c => bool_decide (c ∈ ds)) s in Some (if (k <? length s)%nat then p + Z.of_nat k else 0).
Proof.
  intros Hds Ha Hfd. induction s as [|c s IH]; intros n p Hs Hf; (destruct n as [|n]; [cbn in Hf; lia|]); cbn [strpbrk_loop].
  - cbn [cstring] in Hs. by rewrite Hs.
  - destruct Hs as (-> & Hc & Hs). destruct (Z.eqb_spec c 0); [lia|].
    destruct (strchr_spec m c ds Hc accept fuel Hds Ha Hfd) as (r & -> & Hr). cbn [mbind option_bind first_index]. rewrite Hr.
    destruct (bool_decide (c ∈ ds)); [cbn; by rewrite Z.add_0_r|]. cbn [length] in Hf. rewrite IH by (done || lia). cbv zeta. cbn [length].
    set (k := first_index _ s). f_equal. destruct (Nat.ltb_spec k (length s)), (Nat.ltb_spec (S k) (S (length s))); lia.
Qed.

Lemma strchr_first c s : 0 < c < 256 -> forall m p fuel, cstring m p s -> (length s < fuel)%nat ->
  strchr fuel m p c = let k := first_index (fun d => d =? c) s in Some (if (k <? length s)%nat then p + Z.of_nat k else 0).
Proof.
  intros Hc. induction s as [|d s IH]; intros m p fuel Hs Hf; (destruct fuel as [|n]; [cbn in Hf; lia|]); unfold strchr; cbn [loop].
  - cbn [cstring] in Hs. rewrite Hs. cbn. by destruct (Z.eqb_spec c 0); [lia|].
  - destruct Hs as (-> & Hd & Hs). destruct (Z.eqb_spec d 0); [lia|]. rewrite (u8_small c) by lia. cbn [first_index length].
    destruct (Z.eqb_spec d c); [cbn; by rewrite Z.add_0_r|]. specialize (IH m (p + 1) n Hs ltac:(cbn in Hf; lia)).
    unfold strchr in IH. rewrite (u8_small c) in IH by lia. rewrite IH. cbv zeta. set (k := first_index _ s). f_equal.
    destruct (Nat.ltb_spec k (length s)), (Nat.ltb_spec (S k) (S (length s))); lia.
Qed.

Lemma first_index_app f l x : first_index f (l ++ [x]) = if existsb f l then first_index f l else (length l + first_index f [x])%nat.
Proof. induction l as [|y l IH]; [done|]. cbn [app first_index existsb length]. destruct (f y); [done|]. rewrite IH. cbn [orb]. by destruct (existsb f l). Qed.

Lemma existsb_rev {A} (f : A -> bool) l : existsb f (rev l) = existsb f l.
Proof.
  induction l as [|x l IH]; [done|]. cbn [rev existsb]. rewrite existsb_app, IH. cbn [existsb]. rewrite orb_false_r. apply orb_comm.
Qed.

(** The last occurrence, by the search from the other end. *)
Lemma strrchr_loop c s : 0 < c < 256 -> forall m p last fuel, cstring m p s -> (length s < fuel)%nat ->
  loop fuel (fun '(s, last) => let last := if m s =? u8 c then s else last in if m s =? 0 then Done last else Next (s + 1, last)) (p, last) =
    Some (if existsb (fun d => d =? c) s then p + Z.of_nat (length s) - 1 - Z.of_nat (first_index (fun d => d =? c) (rev s)) else last).
Proof.
  intros Hc. induction s as [|d s IH]; intros m p last fuel Hs Hf; (destruct fuel as [|n]; [cbn in Hf; lia|]); cbn [loop]; rewrite (u8_small c) by lia.
  - cbn [cstring] in Hs. rewrite Hs. by destruct (Z.eqb_spec 0 c); [lia|].
  - destruct Hs as (-> & Hd & Hs). destruct (Z.eqb_spec d 0); [lia|]. specialize (IH m (p + 1) (if d =? c then p else last) n Hs ltac:(cbn in Hf; lia)).
    rewrite (u8_small c) in IH by lia. cbv zeta in IH |- *. rewrite IH. cbn [existsb rev length]. f_equal.
    rewrite first_index_app, existsb_rev.
    rewrite length_rev. cbn [first_index]. destruct (existsb (fun d => d =? c) s); [rewrite orb_true_r; lia|]. rewrite orb_false_r.
    destruct (d =? c); lia.
Qed.

Lemma memcmp_zero m n : forall a b, memcmp m a b n = 0 <-> forall i, (i < n)%nat -> m (a + Z.of_nat i) = m (b + Z.of_nat i).
Proof.
  induction n as [|n IH]; intros a b; [cbn; split; [lia|done]|]. cbn [memcmp]. destruct (Z.eqb_spec (m a) (m b)) as [E|E]; cbn [negb].
  - rewrite IH. split.
    + intros H [|i] Hi; [by rewrite !Z.add_0_r|]. specialize (H i ltac:(lia)).
      by replace (a + Z.of_nat (S i)) with (a + 1 + Z.of_nat i) by lia; replace (b + Z.of_nat (S i)) with (b + 1 + Z.of_nat i) by lia.
    + intros H i Hi. specialize (H (S i) ltac:(lia)).
      by replace (a + 1 + Z.of_nat i) with (a + Z.of_nat (S i)) by lia; replace (b + 1 + Z.of_nat i) with (b + Z.of_nat (S i)) by lia.
  - split; [lia|]. intros H. specialize (H 0%nat ltac:(lia)). rewrite !Z.add_0_r in H. done.
Qed.

(** The needle is at offset [j] of the haystack. *)
Definition match_at (m : memory) (hay needle : Z) (nl : nat) (j : nat) : Prop :=
  forall i, (i < nl)%nat -> m (hay + Z.of_nat j + Z.of_nat i) = m (needle + Z.of_nat i).

Lemma memmem_loop_spec m needle nl k : forall hay j, 0 < hay ->
  let r := memmem_loop k m (hay + Z.of_nat j) needle nl in
  (exists i, (i < k)%nat /\ r = hay + Z.of_nat (j + i) /\ match_at m hay needle nl (j + i) /\ forall i', (i' < i)%nat -> ~ match_at m hay needle nl (j + i')) \/
  (r = 0 /\ forall i, (i < k)%nat -> ~ match_at m hay needle nl (j + i)).
Proof.
  induction k as [|k IH]; intros hay j Hh; [right; split; [done|lia]|]. cbn [memmem_loop]. pose proof (memcmp_zero m nl (hay + Z.of_nat j) needle) as Hz.
  destruct (Z.eqb_spec (memcmp m (hay + Z.of_nat j) needle nl) 0) as [E|E].
  - left. exists 0%nat. rewrite Nat.add_0_r. split; [lia|]. split; [done|]. split; [unfold match_at; by apply Hz|lia].
  - assert (~ match_at m hay needle nl (j + 0)) as Hno by (rewrite Nat.add_0_r; intros Hm; by apply E, (proj2 Hz)).
    replace (hay + Z.of_nat j + 1) with (hay + Z.of_nat (S j)) by lia. destruct (IH hay (S j) Hh) as [(i & Hi & -> & Hm & Hf)|[-> Hf]].
    + left. exists (S i). split; [lia|]. split; [f_equal; f_equal; lia|]. replace (j + S i)%nat with (S j + i)%nat by lia. split; [done|].
      intros [|i'] Hi'; [done|]. replace (j + S i')%nat with (S j + i')%nat by lia. apply Hf. lia.
    + right. split; [done|]. intros [|i] Hi; [done|]. replace (j + S i)%nat with (S j + i)%nat by lia. apply Hf. lia.
Qed.

(** The searching functions find what they look for, and end: [strchr] the
    first occurrence of a character or null, [strchrnul] the first occurrence
    or the NUL, [strrchr] the last occurrence or null, [strpbrk] the first
    character of a set or null, [strstr] the first occurrence of a string or
    null, and [memmem] the first place where the needle
    lies inside the haystack, or null when there is none. *)
Theorem string_searches_correct m p s accept ds c hay hl needle nl fuel (Hs : cstring m p s) (Hds : cstring m accept ds)
    (Hp : 0 < p) (Ha : 0 < accept) (Hc : 0 < c < 256) (Hh : 0 < hay) (Hn : 0 < needle) (Hnl : (0 < nl)%nat)
    (Hf : (length s + length ds < fuel)%nat) :
  let k := first_index (fun d => d =? c) s in
  strchr fuel m p c = Some (if (k <? length s)%nat then p + Z.of_nat k else 0) /\
  strchrnul fuel m p c = Some (p + Z.of_nat k) /\
  strrchr fuel m p c =
    Some (if existsb (fun d => d =? c) s then p + Z.of_nat (length s) - 1 - Z.of_nat (first_index (fun d => d =? c) (rev s)) else 0) /\
  (let j := first_index (fun d => bool_decide (d ∈ ds)) s in
   strpbrk fuel m p accept = Some (if (j <? length s)%nat then p + Z.of_nat j else 0)) /\
  (exists r, strstr fuel m p accept = Some r /\
    ((r = 0 /\ forall i, ~ occurs_at s ds i) \/
     exists i, r = p + Z.of_nat i /\ occurs_at s ds i /\ (i <= length s)%nat /\ forall i', (i' < i)%nat -> ~ occurs_at s ds i')) /\
  (let r := memmem m hay hl needle nl in
   (exists i, (i + nl <= hl)%nat /\ r = hay + Z.of_nat i /\ match_at m hay needle nl i /\
      forall i', (i' < i)%nat -> ~ match_at m hay needle nl i') \/
   (r = 0 /\ forall i, (i + nl <= hl)%nat -> ~ match_at m hay needle nl i)).
Proof.
  intros k. assert (k <= length s)%nat as Hk.
  { subst k. clear. induction s as [|d s IH]; [done|]. cbn [first_index length]. destruct (d =? c); lia. }
  split; [apply strchr_first; (done || lia)|]. split; [|split; [|split; [|split]]].
  - unfold strchrnul. rewrite (strchr_first c s Hc m p fuel Hs) by lia. cbv zeta. fold k in Hk |- *. cbn [mbind option_bind].
    rewrite (strlen_spec fuel m p s Hs) by lia. cbn [mbind option_bind]. unfold truthy. destruct (Nat.ltb_spec k (length s)) as [L|L].
    + destruct (Z.eqb_spec (p + Z.of_nat k) 0); [lia|done].
    + cbn. do 2 f_equal. lia.
  - unfold strrchr. apply strrchr_loop; (done || lia).
  - unfold strpbrk. destruct (Z.eqb_spec p 0); [lia|]. apply strpbrk_loop_spec; (done || lia).
  - apply strstr_spec; (done || lia).
  - unfold memmem. destruct (Nat.eqb_spec nl 0); [lia|]. destruct (Z.eqb_spec hay 0), (Z.eqb_spec needle 0); try lia. cbn [orb].
    destruct (Nat.ltb_spec hl nl); [right; split; [done|lia]|].
    pose proof (memmem_loop_spec m needle nl (hl + 1 - nl) hay 0 Hh) as Hmm. rewrite Z.add_0_r in Hmm. destruct Hmm as [(i & H1 & H2 & H3 & H4)|[H1 H2]].
    + left. exists i. split; [lia|]. done.
    + right. split; [done|]. intros i Hi. apply (H2 i). lia.
Qed.

Lemma string_searches_correct_witness : strrchr 9 two_strings 100 98 = Some 101 /\ strpbrk 9 two_strings 110 100 = Some 0 /\
  exists r, strstr 9 two_strings 100 110 = Some r.
Proof.
  assert (cstring two_strings 110 [99; 100]) as H1 by (cbn; repeat split; lia).
  assert (cstring two_strings 100 [97; 98]) as H2 by (cbn; repeat split; lia).
  split; [|split].
  - refine (eq_trans (proj1 (proj2 (proj2 (string_searches_correct two_strings 100 [97; 98] 110 [99; 100] 98 1 1 1 1 9 H2 H1 _ _ _ _ _ _ _)))) _);
      (lia || (cbn; lia) || reflexivity).
  - refine (eq_trans (proj1 (proj2 (proj2 (proj2 (string_searches_correct two_strings 110 [99; 100] 100 [97; 98] 98 1 1 1 1 9 H1 H2 _ _ _ _ _ _ _))))) _);
      (lia || (cbn; lia) || reflexivity).
  - destruct (proj1 (proj2 (proj2 (proj2 (proj2 (string_searches_correct two_strings 100 [97; 98] 110 [99; 100] 98 1 1 1 1 9 H2 H1
      ltac:(lia) ltac:(lia) ltac:(lia) ltac:(lia) ltac:(lia) ltac:(lia) ltac:(cbn; lia))))))) as (r & E & _). exists r. exact E.
Defined.
