(* ===== verification/CStringFold.v ===== *)
(** * Strings: the case-insensitive functions of [lib/libc_string.c], and the
    path names of [dirname] and [basename] of [lib/libc_misc.c] *)

From S2P Require Import Prelude Ctype Regex Heap CString CStringClaims CStringCopy.

Section fold.
Context (fuel : nat).

(** The value of a plain [char]: the C implementation decides whether it is
    signed. *)
Context (plain : Z -> Z).

Definition strcasecmp (m : memory) (a b : Z) : option Z :=
  loop fuel (fun '(a, b) =>
    let d := tolower (plain (m a)) - tolower (plain (m b)) in
    if truthy (m a) && truthy (m b) then if truthy d then Done d else Next (a + 1, b + 1) else Done d) (a, b).

(** [n] characters are left to compare. *)
Fixpoint strncasecmp (m : memory) (a b : Z) (n : nat) : Z :=
  match n with
  | O => 0
  | S n =>
      let d := tolower (plain (m a)) - tolower (plain (m b)) in
      if truthy (m a) && truthy (m b) then if truthy d then d else strncasecmp m (a + 1) (b + 1) n else d
  end.

(** The inner loop of [strcasestr]: what is left of the needle at its end. *)
Definition fold_prefix (m : memory) (h n : Z) : option Z :=
  loop fuel (fun i =>
    if truthy (m (n + i)) && (tolower (m (h + i)) =? tolower (m (n + i))) then Next (i + 1) else Done i) 0.

Definition strcasestr (m : memory) (h n : Z) : option Z :=
  r ← loop fuel (fun h =>
    if m h =? 0 then Done (Some 0)
    else
      match fold_prefix m h n with
      | None => Done None
      | Some i => if m (n + i) =? 0 then Done (Some h) else Next (h + 1)
      end) h;
  r.

Definition strcoll (m : memory) (a b : Z) : option Z := strcmp fuel m a b.
Definition strverscmp (m : memory) (a b : Z) : option Z := strcmp fuel m a b.

(** ** Path names *)

(** The result is an address, or the literal ".". *)
Definition dirname (m : memory) (path : Z) : option (memory * (Z + list Z)) :=
  slash ← strrchr fuel m path 47;
  if slash =? 0 then Some (m, inr [46])
  else if slash =? path then Some (wr8 m (path + 1) 0, inl path)
  else Some (wr8 m slash 0, inl path).

Definition basename (m : memory) (path : Z) : option Z :=
  slash ← strrchr fuel m path 47;
  Some (if truthy slash then slash + 1 else path).
End fold.

(** ** Comparison without case *)

(** Both readings of a [char] agree on ASCII and tell bytes apart. *)
Definition plain_char (plain : Z -> Z) : Prop :=
  (forall c, 0 <= c < 256 -> plain c = c) \/ (forall c, 0 <= c < 256 -> plain c = swrap 8 c).

Definition folded (s t : list Z) : Prop := Forall2 (fun c d => tolower c = tolower d) s t.

Lemma tolower_plain plain c d : plain_char plain -> 0 <= c < 256 -> 0 <= d < 256 ->
  tolower (plain c) = tolower (plain d) <-> tolower c = tolower d.
Proof.
  intros [P|P] Hc Hd; rewrite !P by done; [done|]. unfold swrap, tolower, isupper.
  change (2 ^ (8 - 1)) with 128. change (2 ^ 8) with 256.
  assert ((c + 128) mod 256 - 128 = if c <? 128 then c else c - 256) as -> by (destruct (Z.ltb_spec c 128); Z.to_euclidean_division_equations; lia).
  assert ((d + 128) mod 256 - 128 = if d <? 128 then d else d - 256) as -> by (destruct (Z.ltb_spec d 128); Z.to_euclidean_division_equations; lia).
  destruct (Z.ltb_spec c 128), (Z.ltb_spec d 128); repeat match goal with |- context [(?a <=? ?b)] => destruct (Z.leb_spec a b) end; cbn [andb]; lia.
Qed.

(** [strcasecmp] is 0 exactly for strings that are equal up to case. *)
Lemma strcasecmp_spec plain m s : plain_char plain -> forall t a b fuel, cstring m a s -> cstring m b t -> (length s < fuel)%nat ->
  exists r, strcasecmp fuel plain m a b = Some r /\ (r = 0 <-> folded s t).
Proof.
  intros P. assert (forall c, 0 < c < 256 -> tolower c <> 0) as Hne.
  { intros c Hc. unfold tolower, isupper. destruct ((65 <=? c) && (c <=? 90)) eqn:E; lia. }
  induction s as [|c s IH]; intros t a b fuel Hs Ht Hf; (destruct fuel as [|n]; [cbn in Hf; lia|]); unfold strcasecmp; cbn [loop];
    destruct t as [|d t]; cbn [cstring] in Hs, Ht.
  - rewrite Hs, Ht. eexists. split; [reflexivity|]. split; [constructor|lia].
  - destruct Ht as (-> & Hd & _). rewrite Hs. eexists. split; [reflexivity|]. pose proof (tolower_plain plain 0 d P ltac:(lia) ltac:(lia)) as E.
    split; [|inversion 1]. intros E0. specialize (Hne d Hd). assert (tolower 0 = tolower d) as E1 by (apply E; lia). cbn in E1. lia.
  - destruct Hs as (-> & Hc & _). rewrite Ht. unfold truthy at 1 2. destruct (Z.eqb_spec c 0); [lia|]. eexists. split; [reflexivity|].
    pose proof (tolower_plain plain c 0 P ltac:(lia) ltac:(lia)) as E.
    split; [|inversion 1]. intros E0. specialize (Hne c Hc). assert (tolower c = tolower 0) as E1 by (apply E; lia). cbn in E1. lia.
  - destruct Hs as (-> & Hc & Hs), Ht as (-> & Hd & Ht). unfold truthy. destruct (Z.eqb_spec c 0), (Z.eqb_spec d 0); try lia. cbn [negb andb].
    pose proof (tolower_plain plain c d P ltac:(lia) ltac:(lia)) as E.
    destruct (Z.eqb_spec (tolower (plain c) - tolower (plain d)) 0) as [E0|E0]; cbn [negb].
    + destruct (IH t (a + 1) (b + 1) n Hs Ht ltac:(cbn in Hf; lia)) as (r & Er & Hr). unfold strcasecmp, truthy in Er. exists r.
      split; [exact Er|]. rewrite Hr. split; [intros F; constructor; [apply E; lia|exact F]|by inversion 1].
    + eexists. split; [reflexivity|]. split; [lia|]. inversion 1; subst. exfalso. apply E0. rewrite (proj2 E) by done. lia.
Qed.

(** ** The two halves of a path *)

(** A path splits at its last slash: [basename] is what follows it, [dirname]
    what precedes it, and "/" when nothing does. *)
Lemma path_split fuel m p d b : cstring m p (d ++ 47 :: b) -> 47 ∉ b -> 0 < p -> (length d + length b + 1 < fuel)%nat ->
  basename fuel m p = Some (p + Z.of_nat (length d) + 1) /\ cstring m (p + Z.of_nat (length d) + 1) b /\
  exists m', dirname fuel m p = Some (m', inl p) /\ cstring m' p (match d with [] => [47] | _ => d end).
Proof.
  intros Hs Hb Hp Hf. unfold basename, dirname.
  assert (strrchr fuel m p 47 = Some (p + Z.of_nat (length d))) as ->.
  { unfold strrchr. rewrite (strrchr_loop 47 (d ++ 47 :: b)) by (done || (rewrite length_app; cbn [length]; lia) || lia).
    rewrite existsb_app. cbn [existsb]. rewrite Z.eqb_refl, orb_true_r. f_equal. rewrite rev_app_distr. cbn [rev]. rewrite <- app_assoc.
    assert (first_index (fun x => x =? 47) (rev b ++ [47] ++ rev d) = length b) as ->; [|rewrite length_app; cbn [length]; lia].
    rewrite <- length_rev. assert (47 ∉ rev b) as Hr by (rewrite list_elem_of_In, <- in_rev, <- list_elem_of_In; exact Hb).
    clear -Hr. induction (rev b) as [|x l IH]; [done|]. apply not_elem_of_cons in Hr as [Hx Hl]. cbn [app first_index length].
    destruct (Z.eqb_spec x 47); [congruence|]. f_equal. by apply IH. }
  cbn [mbind option_bind]. unfold truthy. destruct (Z.eqb_spec (p + Z.of_nat (length d)) 0); [lia|]. cbn [negb].
  apply cstring_app in Hs as [Hd Hs']. cbn [cstring] in Hs'. destruct Hs' as (H47 & _ & Hb'). split; [done|]. split; [exact Hb'|].
  destruct (Z.eqb_spec (p + Z.of_nat (length d)) p) as [E|E].
  - destruct d; [|cbn [length] in E; lia]. eexists. split; [reflexivity|]. cbn [cstring length] in *. rewrite Z.add_0_r in H47.
    rewrite wr8_other, wr8_same by lia. rewrite H47. split; [done|]. split; [lia|done].
  - eexists. split; [reflexivity|]. destruct d as [|x d]; [cbn in E; lia|]. apply cstring_intro.
    + intros i c Ei. pose proof (lookup_lt_Some _ _ _ Ei). rewrite wr8_other by lia. by apply Hd.
    + by rewrite wr8_same.
Qed.
