(* ===== verification/Time.v ===== *)
(** * Calendar time: [lib/libc_time.c]

    [localtime_r], [mktime] and [strptime].  [time_t] is a 32-bit unsigned
    number of seconds; the code computes in 64 bits, where nothing here
    overflows, and converts back to [int] fields. *)

From S2P Require Import Prelude Ctype.

Record tm : Type := Tm {
  tm_sec : Z;
  tm_min : Z;
  tm_hour : Z;
  tm_mday : Z;
  tm_mon : Z;
  tm_year : Z;
  tm_wday : Z;
  tm_yday : Z;
  tm_isdst : Z
}.

(** The date of a day count: year, zero-based month, day of the month and
    the value stored in [tm_yday]. *)
Definition civil (days : Z) : Z * Z * Z * Z :=
  let z := days + 719468 in
  let era := Z.quot (if 0 <=? z then z else z - 146096) 146097 in
  let doe := u32 (z - era * 146097) in
  let yoe := u32 (doe - doe / 1460 + doe / 36524 - doe / 146096) / 365 in
  let year := s32 (yoe + era * 400) in
  let doy := u32 (doe - (365 * yoe + yoe / 4 - yoe / 100)) in
  let mp := u32 (5 * doy + 2) / 153 in
  let mday := s32 (u32 (doy - u32 (153 * mp + 2) / 5 + 1)) in
  let month := u32 (mp + (if mp <? 10 then 3 else u32 (-9))) in
  (year + b2z (month <=? 2), s32 month - 1, mday, s32 doy).

Definition localtime_r (timep : Z) : tm :=
  let seconds := timep in
  let days := Z.quot seconds 86400 in
  let rem := Z.rem seconds 86400 in
  let '(rem, days) := if rem <? 0 then (rem + 86400, days - 1) else (rem, days) in
  let '(year, mon, mday, yday) := civil days in
  let wday := Z.rem (days + 4) 7 in
  Tm (Z.rem rem 60) (Z.quot (Z.rem rem 3600) 60) (Z.quot rem 3600) mday mon (year - 1900)
    (if wday <? 0 then wday + 7 else wday) yday 0.

Definition is_leap (year : Z) : bool :=
  (Z.rem year 4 =? 0) && (negb (Z.rem year 100 =? 0) || (Z.rem year 400 =? 0)).

Definition year_length (y : Z) : Z := if is_leap y then 366 else 365.

Definition days_in_month : list Z := [31; 28; 31; 30; 31; 30; 31; 31; 30; 31; 30; 31].

(** The loop over the months before [tm_mon]; [None] reads past the table. *)
Fixpoint month_days (n : nat) (month year : Z) : option Z :=
  match n with
  | O => Some 0
  | S k =>
      d ← days_in_month !! Z.to_nat month;
      r ← month_days k (month + 1) year;
      Some (d + b2z ((month =? 1) && is_leap year) + r)
  end.

(** The days from 1970-01-01 to a date, as the three loops count them. *)
Definition date_days (year mon mday : Z) : option Z :=
  let up := nfold (Z.to_nat (year - 1970)) (fun i d => d + year_length (1970 + i)) 0 in
  let down := nfold (Z.to_nat (1970 - year)) (fun i d => d - year_length (1969 - i)) up in
  m ← month_days (Z.to_nat mon) 0 year;
  Some (down + m + (mday - 1)).

(** The [time_t] and the broken-down time with its [tm_wday] set. *)
Definition mktime (t : tm) : option (Z * tm) :=
  let year := tm_year t + 1900 in
  days ← date_days year (tm_mon t) (tm_mday t);
  let wday := Z.rem (days + 4) 7 in
  let wday := if wday <? 0 then wday + 7 else wday in
  Some (u32 (days * 86400 + s32 (tm_hour t * 3600) + s32 (tm_min t * 60) + tm_sec t),
        Tm (tm_sec t) (tm_min t) (tm_hour t) (tm_mday t) (tm_mon t) (tm_year t) wday (tm_yday t) (tm_isdst t)).

(** ** strptime *)

(** [parse_decimal]: the value and the rest; [n] digits were read. *)
Fixpoint parse_digits (max : nat) (s : list Z) (n v : Z) : Z * Z * list Z :=
  match max, s with
  | S k, c :: s' => if isdigit c then parse_digits k s' (n + 1) (v * 10 + c - 48) else (n, v, s)
  | _, _ => (n, v, s)
  end.

Definition parse_decimal (s : list Z) (min max : Z) : option (Z * list Z) :=
  let '(n, v, rest) := parse_digits (Z.to_nat max) s 0 0 in
  if n <? min then None else Some (v, rest).

Definition set_year t v := Tm (tm_sec t) (tm_min t) (tm_hour t) (tm_mday t) (tm_mon t) v (tm_wday t) (tm_yday t) (tm_isdst t).
Definition set_mon t v := Tm (tm_sec t) (tm_min t) (tm_hour t) (tm_mday t) v (tm_year t) (tm_wday t) (tm_yday t) (tm_isdst t).
Definition set_mday t v := Tm (tm_sec t) (tm_min t) (tm_hour t) v (tm_mon t) (tm_year t) (tm_wday t) (tm_yday t) (tm_isdst t).
Definition set_hour t v := Tm (tm_sec t) (tm_min t) v (tm_mday t) (tm_mon t) (tm_year t) (tm_wday t) (tm_yday t) (tm_isdst t).
Definition set_min t v := Tm (tm_sec t) v (tm_hour t) (tm_mday t) (tm_mon t) (tm_year t) (tm_wday t) (tm_yday t) (tm_isdst t).
Definition set_sec t v := Tm v (tm_min t) (tm_hour t) (tm_mday t) (tm_mon t) (tm_year t) (tm_wday t) (tm_yday t) (tm_isdst t).

(** The formats "%Y-%m-%d" and "%H:%M:%S" of the two recursive calls. *)
Definition format_F : list Z := [37; 89; 45; 37; 109; 45; 37; 100].
Definition format_T : list Z := [37; 72; 58; 37; 77; 58; 37; 83].

(** The rest of the input behind a successful parse and the fields so far,
    [inr] the fields when the parse fails; [None] is out of fuel. *)
Fixpoint strptime (fuel : nat) (s format : list Z) (t : tm) : option (list Z * tm + tm) :=
  match fuel with
  | O => None
  | S n =>
      match format with
      | [] => Some (inl (s, t))
      | f :: format =>
          if isspace f then strptime n (skip_spaces s) format t
          else if negb (f =? 37) then
            match s with
            | c :: s => if c =? f then strptime n s format t else Some (inr t)
            | [] => Some (inr t)
            end
          else
            let field (min max : Z) (set : tm -> Z -> tm) (adjust : Z) :=
              match parse_decimal s min max with
              | Some (v, s) => strptime n s (drop 1 format) (set t (v + adjust))
              | None => Some (inr t)
              end in
            let nested (fmt : list Z) :=
              r ← strptime n s fmt t;
              match r with
              | inl (s, t) => strptime n s (drop 1 format) t
              | inr t => Some (inr t)
              end in
            let spec := nth 0 format 0 in
            if spec =? 70 then nested format_F
            else if spec =? 84 then nested format_T
            else if spec =? 89 then field 4 4 set_year (-1900)
            else if spec =? 109 then field 1 2 set_mon (-1)
            else if (spec =? 100) || (spec =? 101) then field 1 2 set_mday 0
            else if spec =? 72 then field 1 2 set_hour 0
            else if spec =? 77 then field 1 2 set_min 0
            else if spec =? 83 then field 1 2 set_sec 0
            else Some (inr t)
      end
  end.

(** ** The civil calendar

    Years are counted from March, in eras of 400 years. *)

Ltac divmod := Z.to_euclidean_division_equations; lia.

(** The year of the era a day of the era lies in. *)
Definition year_of_era (doe : Z) : Z := (doe - doe / 1460 + doe / 36524 - doe / 146096) / 365.

Lemma era_cases doe : 0 <= doe <= 146096 ->
  doe = 146096 \/ doe / 146096 = 0 /\
  (doe / 36524 = 0 \/ doe / 36524 = 1 \/ doe / 36524 = 2 \/ doe / 36524 = 3).
Proof. intros H. divmod. Qed.

Lemma year_of_era_lower doe : 0 <= doe <= 146096 -> let y := year_of_era doe in
  0 <= y <= 399 /\ 365 * y + y / 4 - y / 100 <= doe.
Proof.
  intros H. unfold year_of_era. cbv zeta. destruct (era_cases doe H) as [->|(E & E2)]; [vm_compute; intuition discriminate|].
  destruct E2 as [E2|[E2|[E2|E2]]]; rewrite E, E2; clear E; divmod.
Qed.

Lemma year_of_era_upper doe : 0 <= doe <= 146096 -> let y := year_of_era doe in
  doe < 365 * (y + 1) + (y + 1) / 4 - (y + 1) / 100 + (y + 1) / 400.
Proof.
  intros H. unfold year_of_era. cbv zeta. destruct (era_cases doe H) as [->|(E & E2)]; [vm_compute; reflexivity|].
  destruct E2 as [E2|[E2|[E2|E2]]]; rewrite E, E2; clear E; divmod.
Qed.

(** Leap years up to [n]. *)
Definition leaps (n : Z) : Z := n / 4 - n / 100 + n / 400.

Lemma leaps_step n : 0 < n -> leaps n = leaps (n - 1) + b2z (is_leap n).
Proof.
  intros H. unfold leaps, is_leap. rewrite !Z.rem_mod_nonneg by lia.
  destruct (Z.eqb_spec (n mod 4) 0), (Z.eqb_spec (n mod 100) 0), (Z.eqb_spec (n mod 400) 0);
    cbn [negb andb orb b2z]; divmod.
Qed.

Lemma leaps_era era y : 0 <= y <= 399 -> leaps (400 * era + y) = 97 * era + y / 4 - y / 100.
Proof. intros H. unfold leaps. divmod. Qed.

Lemma leaps_next era y : 0 <= y <= 399 ->
  leaps (400 * era + y + 1) = 97 * era + (y + 1) / 4 - (y + 1) / 100 + (y + 1) / 400.
Proof. intros H. unfold leaps. divmod. Qed.

(** The year loop of [mktime] in closed form. *)
Lemma years_up n : nfold n (fun i d => d + year_length (1970 + i)) 0 =
  365 * Z.of_nat n + leaps (1969 + Z.of_nat n) - leaps 1969.
Proof.
  apply (nfold_ind (fun i d => d = 365 * i + leaps (1969 + i) - leaps 1969)).
  - rewrite Z.add_0_r. lia.
  - intros i d Hi ->. pose proof (leaps_step (1970 + i) ltac:(lia)) as E.
    replace (1970 + i - 1) with (1969 + i) in E by lia. replace (1969 + (i + 1)) with (1970 + i) by lia.
    unfold year_length. destruct (is_leap (1970 + i)); cbn [b2z] in E; lia.
Qed.

Lemma date_days_spec year mon mday m : 1970 <= year -> month_days (Z.to_nat mon) 0 year = Some m ->
  date_days year mon mday = Some (365 * (year - 1970) + leaps (year - 1) - leaps 1969 + m + (mday - 1)).
Proof.
  intros Hy Hm. unfold date_days. rewrite Hm. replace (Z.to_nat (1970 - year)) with 0%nat by lia.
  cbn [nfold mbind option_bind]. rewrite years_up. rewrite Z2Nat.id by lia.
  replace (1969 + (year - 1970)) with (year - 1) by lia. done.
Qed.

(** The months before month [m], the leap day apart. *)
Lemma month_days_table year m : 0 <= m <= 11 -> exists len,
  days_in_month !! Z.to_nat m = Some len /\
  month_days (Z.to_nat m) 0 year =
    Some (if m <? 2 then 31 * m else 59 + (153 * (m - 2) + 2) / 5 + b2z (is_leap year)) /\
  len = (if m <? 2 then (if m =? 0 then 31 else 28) else (153 * (m - 1) + 2) / 5 - (153 * (m - 2) + 2) / 5).
Proof.
  intros Hm.
  assert (m = 0 \/ m = 1 \/ m = 2 \/ m = 3 \/ m = 4 \/ m = 5 \/ m = 6 \/ m = 7 \/ m = 8 \/ m = 9 \/ m = 10 \/ m = 11)
    as Hc by lia.
  repeat (destruct Hc as [->|Hc]; [eexists; split; [reflexivity|]; split;
    [destruct (is_leap year) eqn:E; cbv -[is_leap]; rewrite ?E; reflexivity|reflexivity]|]).
  rewrite Hc. eexists. split; [reflexivity|]. split; [destruct (is_leap year) eqn:E; cbv -[is_leap]; rewrite ?E; reflexivity|reflexivity].
Qed.

(** The last day a [time_t] reaches. *)
Definition last_day : Z := (2 ^ 32 - 1) / 86400.

(** Day of the year counted from January 1. *)
Definition january_day (year mon mday : Z) : option Z :=
  m ← month_days (Z.to_nat mon) 0 year; Some (m + mday - 1).

(** The fields [civil] computes, free of the width conversions. *)
Lemma civil_plain d : 0 <= d <= last_day ->
  let z := d + 719468 in
  let doe := z mod 146097 in
  let yoe := year_of_era doe in
  let doy := doe - (365 * yoe + yoe / 4 - yoe / 100) in
  let mp := (5 * doy + 2) / 153 in
  0 <= yoe <= 399 /\ 0 <= doy < 365 + b2z (is_leap (400 * (z / 146097) + yoe + 1)) /\
  0 <= mp <= 11 /\ 4 <= z / 146097 <= 5 /\
  civil d = (yoe + 400 * (z / 146097) + b2z (10 <=? mp), (if mp <? 10 then mp + 2 else mp - 10),
             doy - (153 * mp + 2) / 5 + 1, doy).
Proof.
  change last_day with 49710. intros Hd. cbv zeta. set (z := d + 719468).
  pose proof (Z.mod_pos_bound z 146097 ltac:(lia)) as Hdoe.
  assert (4 <= z / 146097 <= 5) as Hera by (subst z; divmod).
  pose proof (Z.div_mod z 146097 ltac:(lia)) as Ez.
  set (doe := z mod 146097) in *. set (era := z / 146097) in *.
  pose proof (year_of_era_lower doe ltac:(lia)) as [Hy Hlo]. pose proof (year_of_era_upper doe ltac:(lia)) as Hup.
  cbv zeta in Hup. set (yoe := year_of_era doe) in *. set (doy := doe - (365 * yoe + yoe / 4 - yoe / 100)).
  assert (0 <= doy <= 365) as Hdoy by (subst doy; clearbody yoe doe; clear Ez; divmod).
  set (mp := (5 * doy + 2) / 153). assert (0 <= mp <= 11) as Hmp by (subst mp; divmod).
  pose proof (leaps_step (400 * era + yoe + 1) ltac:(lia)) as Hleap.
  replace (400 * era + yoe + 1 - 1) with (400 * era + yoe) in Hleap by lia.
  rewrite (leaps_era era yoe Hy), (leaps_next era yoe Hy) in Hleap.
  split; [lia|]. split; [subst doy; lia|]. split; [lia|]. split; [lia|]. clear Hleap.
  unfold civil. fold z. destruct (Z.leb_spec 0 z); [|lia]. rewrite Z.quot_div_nonneg by lia. fold era.
  replace (z - era * 146097) with doe by lia. rewrite (u32_small doe) by lia.
  assert (u32 (doe - doe / 1460 + doe / 36524 - doe / 146096) = doe - doe / 1460 + doe / 36524 - doe / 146096) as ->
    by (apply u32_small; clear Ez Hlo Hup Hy Hdoy; clearbody doe; divmod).
  fold (year_of_era doe). fold yoe. fold doy. rewrite (u32_small doy) by lia.
  rewrite (u32_small (5 * doy + 2)) by lia. fold mp. rewrite (u32_small (153 * mp + 2)) by lia.
  assert (0 <= (153 * mp + 2) / 5 <= doy) as Hmd by (subst mp; clear Hmp; clearbody doy; divmod).
  rewrite (u32_small (doy - _ + 1)) by lia.
  assert (forall x, - 2 ^ 31 <= x < 2 ^ 31 -> s32 x = x) as Hs by (intros; apply swrap_small; done).
  rewrite !Hs by lia.
  destruct (Z.ltb_spec mp 10), (Z.leb_spec 10 mp); try lia; cbn [b2z].
  - rewrite u32_small by lia. rewrite Hs by lia. destruct (Z.leb_spec (mp + 3) 2); [lia|]. cbn [b2z].
    f_equal; [f_equal; [f_equal|]|].
    all: rewrite ?Hs by lia; lia.
  - assert (u32 (mp + u32 (-9)) = mp - 9) as ->.
    { unfold u32 at 2. change ((-9) mod 2 ^ 32) with (2 ^ 32 - 9). unfold u32. symmetry. apply Z.mod_unique with 1; lia. }
    rewrite Hs by lia. destruct (Z.leb_spec (mp - 9) 2); [|lia]. cbn [b2z]. f_equal; [f_equal; [f_equal|]|]; rewrite ?Hs by lia; lia.
Qed.

(** The day count and the date determine each other, and [tm_yday] is a day
    of the year that starts in March. *)
Lemma civil_spec d : 0 <= d <= last_day -> exists y mon mday yday len j,
  civil d = (y, mon, mday, yday) /\ 1970 <= y <= 2106 /\ 0 <= mon <= 11 /\
  days_in_month !! Z.to_nat mon = Some len /\
  1 <= mday <= len + b2z ((mon =? 1) && is_leap y) /\
  date_days y mon mday = Some d /\ january_day y mon mday = Some j /\
  yday = (if 2 <=? mon then j - 59 - b2z (is_leap y) else j + 306).
Proof.
  intros Hd. pose proof (civil_plain d Hd) as (Hy & Hdoy & Hmp & Hera & ->).
  change last_day with 49710 in Hd. set (z := d + 719468) in *.
  pose proof (Z.div_mod z 146097 ltac:(lia)) as Ez. pose proof (Z.mod_pos_bound z 146097 ltac:(lia)) as Hdoe.
  set (doe := z mod 146097) in *. set (era := z / 146097) in *. set (yoe := year_of_era doe) in *.
  set (doy := doe - (365 * yoe + yoe / 4 - yoe / 100)) in *.
  assert (z = 146097 * era + 365 * yoe + (yoe / 4 - yoe / 100) + doy) as Ez' by (subst doy; lia).
  pose proof (leaps_era era yoe Hy) as Hl. clearbody doy yoe.
  assert (forall b, 0 <= b2z b <= 1) as Hb by (intros []; cbn; lia).
  pose proof (Hb (is_leap (400 * era + yoe + 1))) as Hb1.
  set (mp := (5 * doy + 2) / 153) in *.
  assert ((153 * mp + 2) / 5 <= doy) as Hlow by (subst mp; clear Hdoe Ez Ez' Hl; divmod).
  assert (mp = 11 \/ doy < (153 * (mp + 1) + 2) / 5) as Hhigh by (subst mp; clear Hdoe Ez Ez' Hl; divmod).
  assert (1969 <= 400 * era + yoe <= 2106 /\ (400 * era + yoe = 1969 -> 306 <= doy) /\
          (400 * era + yoe = 2106 -> doy < 306)) as (Hyear & Hfirst & Hlast)
    by (subst z; clear Hdoe Ez Hhigh Hlow Hmp; clearbody mp; clear Hl; divmod).
  assert (10 <= mp <-> 306 <= doy) as Hmar by (subst mp; clear - Hdoy Hb1; divmod).
  destruct (Z.leb_spec 10 mp) as [H10|H10], (Z.ltb_spec mp 10) as [H10'|H10']; try lia; cbn [b2z].
  - destruct (month_days_table (yoe + 400 * era + 1) (mp - 10) ltac:(lia)) as (len & Hlen & Hm & El).
    destruct (Z.ltb_spec (mp - 10) 2) as [_|]; [|lia].
    exists (yoe + 400 * era + 1), (mp - 10), (doy - (153 * mp + 2) / 5 + 1), doy, len, (31 * (mp - 10) + (doy - (153 * mp + 2) / 5 + 1) - 1).
    split; [reflexivity|]. split; [lia|]. split; [lia|]. split; [exact Hlen|].
    unfold january_day. erewrite date_days_spec by (exact Hm || lia). rewrite Hm.
    destruct (Z.leb_spec 2 (mp - 10)); [lia|].
    replace (yoe + 400 * era + 1 - 1) with (400 * era + yoe) by lia. rewrite Hl.
    change (leaps 1969) with 477. replace (yoe + 400 * era + 1) with (400 * era + yoe + 1) by lia.
    assert (mp = 10 \/ mp = 11) as [E|E] by lia; rewrite E in *.
    + vm_compute in El. change ((153 * 10 + 2) / 5) with 306. change ((153 * (10 + 1) + 2) / 5) with 337 in Hhigh.
      change (10 - 10 =? 1) with false. cbn [andb b2z].
      split; [lia|]. split; [f_equal; lia|]. split; [reflexivity|]. lia.
    + vm_compute in El. change ((153 * 11 + 2) / 5) with 337 in *. change (11 - 10 =? 1) with true. cbn [andb].
      split; [lia|]. split; [f_equal; lia|]. split; [reflexivity|]. lia.
  - destruct (month_days_table (yoe + 400 * era + 0) (mp + 2) ltac:(lia)) as (len & Hlen & Hm & El).
    destruct (Z.ltb_spec (mp + 2) 2) as [|_]; [lia|].
    do 6 eexists. split; [reflexivity|]. split; [lia|]. split; [lia|]. split; [exact Hlen|].
    unfold january_day. erewrite date_days_spec by (exact Hm || lia). rewrite Hm.
    destruct (Z.leb_spec 2 (mp + 2)); [|lia]. destruct (Z.eqb_spec (mp + 2) 1); [lia|].
    pose proof (leaps_step (400 * era + yoe) ltac:(lia)) as Hs.
    replace (yoe + 400 * era + 0) with (400 * era + yoe) in * by lia.
    change (leaps 1969) with 477. replace (mp + 2 - 2) with mp in * by lia. replace (mp + 2 - 1) with (mp + 1) in * by lia.
    cbn [andb b2z mbind option_bind]. split; [lia|]. split; [f_equal; lia|]. split; [reflexivity|]. lia.
Qed.

(** ** strptime on the text of a date *)

(** [n] decimal digits of [v], the leading zeros included. *)
Fixpoint digits (n : nat) (v : Z) : list Z :=
  match n with
  | O => []
  | S k => digits k (v / 10) ++ [48 + v mod 10]
  end.

(** "YYYY-MM-DD HH:MM:SS" of a broken-down time. *)
Definition date_text (t : tm) : list Z :=
  digits 4 (tm_year t + 1900) ++ 45 :: digits 2 (tm_mon t + 1) ++ 45 :: digits 2 (tm_mday t) ++
  32 :: digits 2 (tm_hour t) ++ 58 :: digits 2 (tm_min t) ++ 58 :: digits 2 (tm_sec t).

(** "%F %T" *)
Definition format_FT : list Z := [37; 70; 32; 37; 84].

Lemma isdigit_digit v : isdigit (48 + v mod 10) = true.
Proof. unfold isdigit. pose proof (Z.mod_pos_bound v 10 ltac:(lia)). lia. Qed.

Lemma parse_digits_app k ds s n v : (length ds <= k)%nat -> Forall (fun c => isdigit c = true) ds ->
  parse_digits k (ds ++ s) n v =
    parse_digits (k - length ds) s (n + Z.of_nat (length ds)) (fold_left (fun v c => v * 10 + c - 48) ds v).
Proof.
  revert k n v. induction ds as [|c ds IH]; intros k n v Hk Hd; [cbn; rewrite Nat.sub_0_r, Z.add_0_r; done|].
  destruct k as [|k]; [cbn in Hk; lia|]. inversion Hd as [|? ? Hc Hd']; subst.
  cbn [app parse_digits length fold_left]. rewrite Hc, IH by (cbn in Hk; first [lia|done]). f_equal; lia.
Qed.

Lemma digits_length n v : length (digits n v) = n.
Proof. revert v. induction n as [|n IH]; intros v; cbn; rewrite ?length_app, ?IH; cbn; lia. Qed.

Lemma digits_isdigit n v : Forall (fun c => isdigit c = true) (digits n v).
Proof.
  revert v. induction n as [|n IH]; intros v; cbn; [constructor|].
  apply Forall_app. split; [apply IH|]. constructor; [apply isdigit_digit|constructor].
Qed.

Lemma digits_value n v : 0 <= v < 10 ^ Z.of_nat n ->
  fold_left (fun v c => v * 10 + c - 48) (digits n v) 0 = v.
Proof.
  revert v. induction n as [|n IH]; intros v Hv; [cbn in *; lia|].
  cbn [digits]. rewrite fold_left_app. cbn [fold_left]. rewrite Nat2Z.inj_succ, Z.pow_succ_r in Hv by lia.
  rewrite IH by (split; [apply Z.div_pos; lia|apply Z.div_lt_upper_bound; lia]).
  pose proof (Z.div_mod v 10 ltac:(lia)). lia.
Qed.

(** A field of exactly [n] digits, followed by anything. *)
Lemma parse_decimal_digits (n : nat) v s lo : 0 <= v < 10 ^ Z.of_nat n -> lo <= Z.of_nat n ->
  parse_decimal (digits n v ++ s) lo (Z.of_nat n) = Some (v, s).
Proof.
  intros Hv Hlo. unfold parse_decimal. rewrite Nat2Z.id.
  rewrite parse_digits_app by (rewrite ?digits_length; first [lia|apply digits_isdigit]).
  rewrite digits_length, Nat.sub_diag, digits_value by done. cbn [parse_digits].
  destruct (Z.ltb_spec (0 + Z.of_nat n) lo); [lia|done].
Qed.

Lemma skip_spaces_digits v s : skip_spaces (digits 2 v ++ s) = digits 2 v ++ s.
Proof.
  cbn. pose proof (Z.mod_pos_bound (v / 10) 10 ltac:(lia)).
  assert (isspace (48 + (v / 10) mod 10) = false) as -> by (unfold isspace; lia). done.
Qed.

(** The fields [strptime] sets, the others kept from [t0]. *)
Definition with_date (t0 t : tm) : tm :=
  Tm (tm_sec t) (tm_min t) (tm_hour t) (tm_mday t) (tm_mon t) (tm_year t) (tm_wday t0) (tm_yday t0) (tm_isdst t0).

Lemma strptime_date_text t t0 : 0 <= tm_year t + 1900 < 10000 -> 0 <= tm_mon t <= 11 ->
  0 <= tm_mday t < 100 -> 0 <= tm_hour t < 100 -> 0 <= tm_min t < 100 -> 0 <= tm_sec t < 100 ->
  strptime 20 (date_text t) format_FT t0 = Some (inl ([], with_date t0 t)).
Proof.
  intros Hy Hm Hd Hh Hi Hs. unfold date_text.
  assert (forall v s, 0 <= v < 100 -> parse_decimal (digits 2 v ++ s) 1 2 = Some (v, s)) as H2
    by (intros; apply (parse_decimal_digits 2); cbn; lia).
  assert (forall v s, 0 <= v < 10000 -> parse_decimal (digits 4 v ++ s) 4 4 = Some (v, s)) as H4
    by (intros; apply (parse_decimal_digits 4); cbn; lia).
  assert (parse_decimal (digits 2 (tm_sec t)) 1 2 = Some (tm_sec t, [])) as Hlast
    by (rewrite <- (app_nil_r (digits 2 (tm_sec t))) at 1; apply H2; done).
  cbn -[parse_decimal digits]. rewrite H4 by done. cbn -[parse_decimal digits].
  rewrite H2 by lia. cbn -[parse_decimal digits]. rewrite H2 by lia. cbn -[parse_decimal digits].
  rewrite skip_spaces_digits. rewrite H2 by lia. cbn -[parse_decimal digits]. rewrite H2 by lia.
  cbn -[parse_decimal digits]. rewrite Hlast. cbn -[parse_decimal digits]. unfold with_date. rewrite !Z.add_0_r.
  replace (tm_year t + 1900 + -1900) with (tm_year t) by lia. replace (tm_mon t + 1 + -1) with (tm_mon t) by lia. done.
Qed.

(** The fields of a [localtime_r] result. *)
Lemma localtime_fields t : 0 <= t < 2 ^ 32 -> exists y mon mday yday,
  civil (t / 86400) = (y, mon, mday, yday) /\
  localtime_r t = Tm (t mod 60) (t mod 3600 / 60) (t mod 86400 / 3600) mday mon (y - 1900) ((t / 86400 + 4) mod 7) yday 0.
Proof.
  intros Ht. unfold localtime_r. rewrite Z.quot_div_nonneg, Z.rem_mod_nonneg by lia.
  assert (0 <= t / 86400 /\ 0 <= t mod 86400 < 86400) as [Hd Hr] by divmod.
  destruct (Z.ltb_spec (t mod 86400) 0); [lia|].
  destruct (civil (t / 86400)) as [[[y mon] mday] yday] eqn:E. do 4 eexists. split; [reflexivity|].
  rewrite !Z.rem_mod_nonneg by lia. rewrite !Z.quot_div_nonneg by divmod.
  assert (t mod 86400 mod 60 = t mod 60) as -> by divmod.
  assert (t mod 86400 mod 3600 = t mod 3600) as -> by divmod.
  pose proof (Z.mod_pos_bound (t / 86400 + 4) 7 ltac:(lia)).
  destruct (Z.ltb_spec ((t / 86400 + 4) mod 7) 0); [lia|]. done.
Qed.

Lemma day_range t : 0 <= t < 2 ^ 32 -> 0 <= t / 86400 <= last_day.
Proof. intros Ht. change last_day with 49710. divmod. Qed.

Lemma days_in_month_le m len : days_in_month !! m = Some len -> 28 <= len <= 31.
Proof. intros H. do 12 (destruct m as [|m]; [cbn in H; injection H as <-; lia|]). done. Qed.

(** [mktime] on a date and a time of day. *)
Lemma mktime_fields t tm0 : 0 <= t < 2 ^ 32 ->
  date_days (tm_year tm0 + 1900) (tm_mon tm0) (tm_mday tm0) = Some (t / 86400) ->
  tm_hour tm0 = t mod 86400 / 3600 -> tm_min tm0 = t mod 3600 / 60 -> tm_sec tm0 = t mod 60 ->
  mktime tm0 = Some (t, Tm (tm_sec tm0) (tm_min tm0) (tm_hour tm0) (tm_mday tm0) (tm_mon tm0) (tm_year tm0)
    ((t / 86400 + 4) mod 7) (tm_yday tm0) (tm_isdst tm0)).
Proof.
  intros Ht Hd Hh Hm Hs. unfold mktime. rewrite Hd. cbn [mbind option_bind].
  assert (0 <= t / 86400) as Hp by divmod. rewrite Z.rem_mod_nonneg by lia.
  pose proof (Z.mod_pos_bound (t / 86400 + 4) 7 ltac:(lia)).
  destruct (Z.ltb_spec ((t / 86400 + 4) mod 7) 0); [lia|]. f_equal. f_equal.
  assert (0 <= tm_hour tm0 < 24 /\ 0 <= tm_min tm0 < 60) as [Bh Bm] by (rewrite Hh, Hm; divmod).
  assert (forall x, - 2 ^ 31 <= x < 2 ^ 31 -> s32 x = x) as E by (intros; apply swrap_small; done).
  rewrite !E by lia. rewrite Hh, Hm, Hs. rewrite u32_small by divmod. divmod.
Qed.

(** ** The properties *)

(** C11: [localtime_r] and [mktime] are inverse on every [time_t]: the
    broken-down time has its fields in range (the day within the length of
    its month, the leap day included), [tm_wday] is the weekday counted from
    Thursday 1970-01-01, and [mktime] gives the [time_t] back and changes no
    field. *)
Theorem localtime_mktime_roundtrip t (Ht : 0 <= t < 2 ^ 32) :
  let r := localtime_r t in
  mktime r = Some (t, r) /\
  0 <= tm_sec r < 60 /\ 0 <= tm_min r < 60 /\ 0 <= tm_hour r < 24 /\ 0 <= tm_mon r <= 11 /\
  70 <= tm_year r <= 206 /\ tm_wday r = (t / 86400 + 4) mod 7 /\
  exists len, days_in_month !! Z.to_nat (tm_mon r) = Some len /\
    1 <= tm_mday r <= len + b2z ((tm_mon r =? 1) && is_leap (tm_year r + 1900)).
Proof.
  destruct (localtime_fields t Ht) as (y & mon & mday & yday & Hc & Hr).
  destruct (civil_spec _ (day_range t Ht)) as (y' & mon' & mday' & yday' & len & j & Hc' & Hy & Hmon & Hlen & Hday & Hdd & _).
  rewrite Hc in Hc'. injection Hc' as <- <- <- <-. intros r. subst r. rewrite Hr.
  cbn [tm_sec tm_min tm_hour tm_mday tm_mon tm_year tm_wday tm_yday tm_isdst].
  replace (y - 1900 + 1900) with y by lia.
  split; [|repeat (split; [try lia; divmod|]); eauto].
  rewrite (mktime_fields t) by (cbn; replace (y - 1900 + 1900) with y by lia; done). done.
Qed.

Lemma localtime_mktime_roundtrip_witness : let r := localtime_r 1709210096 in mktime r = Some (1709210096, r).
Proof. exact (proj1 (localtime_mktime_roundtrip 1709210096 ltac:(lia))). Defined.

(** [strptime] with "%F %T" reads the text of a [localtime_r] result
    back into the fields it came from, leaving the others as they were, and
    [mktime] of what it read is the original [time_t]. *)
Theorem strptime_text_roundtrip t t0 (Ht : 0 <= t < 2 ^ 32) :
  exists r, strptime 20 (date_text (localtime_r t)) format_FT t0 = Some (inl ([], r)) /\
    r = with_date t0 (localtime_r t) /\ exists r', mktime r = Some (t, r').
Proof.
  destruct (localtime_fields t Ht) as (y & mon & mday & yday & Hc & Hr).
  destruct (civil_spec _ (day_range t Ht)) as (y' & mon' & mday' & yday' & len & j & Hc' & Hy & Hmon & Hlen & Hday & Hdd & _).
  rewrite Hc in Hc'. injection Hc' as <- <- <- <-. apply days_in_month_le in Hlen.
  assert (0 <= t mod 86400 / 3600 < 100 /\ 0 <= t mod 3600 / 60 < 100 /\ 0 <= t mod 60 < 100) as (Bh & Bm & Bs) by divmod.
  assert (b2z ((mon =? 1) && is_leap y) <= 1) as Hb by (destruct (_ && _); cbn; lia).
  eexists. split; [|split; [reflexivity|]].
  - apply strptime_date_text; rewrite Hr; cbn [tm_sec tm_min tm_hour tm_mday tm_mon tm_year]; lia.
  - eexists. apply mktime_fields; [done|..]; rewrite Hr; cbn; [|done..].
    replace (y - 1900 + 1900) with y by lia. exact Hdd.
Qed.

Lemma strptime_text_roundtrip_witness : exists r,
  strptime 20 (date_text (localtime_r 951782400)) format_FT (Tm 0 0 0 0 0 0 0 0 0) = Some (inl ([], r)) /\
  r = with_date (Tm 0 0 0 0 0 0 0 0 0) (localtime_r 951782400) /\ exists r', mktime r = Some (951782400, r').
Proof. apply (strptime_text_roundtrip 951782400 (Tm 0 0 0 0 0 0 0 0 0)). lia. Defined.

(** [tm_yday] is not the day of the year: [localtime_r] stores the day
    counted from March 1, so that no date has the value C prescribes: it is
    59 or 60 too small from March on and 306 too large in January and
    February. *)
Theorem tm_yday_from_march t (Ht : 0 <= t < 2 ^ 32) :
  let r := localtime_r t in
  exists j, january_day (tm_year r + 1900) (tm_mon r) (tm_mday r) = Some j /\
    tm_yday r = (if 2 <=? tm_mon r then j - 59 - b2z (is_leap (tm_year r + 1900)) else j + 306) /\
    tm_yday r <> j.
Proof.
  destruct (localtime_fields t Ht) as (y & mon & mday & yday & Hc & Hr).
  destruct (civil_spec _ (day_range t Ht)) as (y' & mon' & mday' & yday' & len & j & Hc' & Hy & Hmon & Hlen & Hday & _ & Hj & Hyd).
  rewrite Hc in Hc'. injection Hc' as <- <- <- <-. intros r. subst r. rewrite Hr.
  cbn [tm_sec tm_min tm_hour tm_mday tm_mon tm_year tm_wday tm_yday tm_isdst].
  replace (y - 1900 + 1900) with y by lia. exists j. split; [exact Hj|]. split; [exact Hyd|].
  destruct (2 <=? mon), (is_leap y); cbn [b2z] in Hyd; lia.
Qed.

Lemma tm_yday_from_march_witness : let r := localtime_r 0 in
  exists j, january_day (tm_year r + 1900) (tm_mon r) (tm_mday r) = Some j /\
    tm_yday r = (if 2 <=? tm_mon r then j - 59 - b2z (is_leap (tm_year r + 1900)) else j + 306) /\
    tm_yday r <> j.
Proof. apply (tm_yday_from_march 0). lia. Defined.
