(* ===== verification/HeapArea.v ===== *)
(** * The heap and the rest of memory

    The allocator works on memory that holds more than its array.  What lies
    outside the array no call changes; what a caller stores in a block that
    it holds, and in the memory outside, leaves the allocator alone. *)

From stdpp Require Import gmap.
From S2P Require Import Prelude Heap HeapInv HeapOps HeapClaims.

Section area.
Context (g_heap : Z).

(** [n] bytes from [a] that are not in the array of the heap, or that are in
    one block of it. *)
Definition static (a n : Z) : Prop := a + n <= g_heap \/ g_heap + HEAP_SIZE <= a.
Definition in_block (A : pointers) (a n : Z) : Prop := exists q c, A !! q = Some c /\ q <= a /\ a + n <= q + Z.of_nat (length c).
Definition area (A : pointers) (a n : Z) : Prop := static a n \/ in_block A a n.

(** The bytes outside the array are the same. *)
Definition statics_kept (m m' : memory) : Prop := forall x, static x 1 -> m' x = m x.

Lemma statics_kept_refl m : statics_kept m m.
Proof. by intros x. Qed.

Lemma statics_kept_trans m m1 m2 : statics_kept m m1 -> statics_kept m1 m2 -> statics_kept m m2.
Proof. intros H1 H2 x Hx. by rewrite H2, H1. Qed.

(** ** Where the pointers are *)

Lemma block_range h l b : heap_inv g_heap h l -> b ∈ l -> g_heap <= b_addr b /\ b_end b <= g_heap + HEAP_SIZE /\ 4 <= b_size b.
Proof.
  intros (_ & _ & Hend & _ & Hseg & _) Hb. destruct (seg_bound _ _ _ _ _ _ Hseg Hb) as (? & ? & ?). lia.
Qed.

Lemma pointer_range h A p c : represents g_heap h A -> A !! p = Some c ->
  0 < g_heap /\ g_heap + sizeof_block <= p /\ p + 4 <= g_heap + HEAP_SIZE /\ p + Z.of_nat (length c) <= g_heap + HEAP_SIZE < 2 ^ 32.
Proof.
  intros (l & Hi & Ho & _) E. destruct (Ho p c E) as (b & [Hb _]%elem_of_live & -> & Hs & _).
  pose proof (block_range h l b Hi Hb). destruct Hi as (? & ? & _). unfold b_end in *. lia.
Qed.

(** Two blocks have no byte in common. *)
Lemma blocks_apart h A p c q d : represents g_heap h A -> A !! p = Some c -> A !! q = Some d -> p <> q ->
  p + Z.of_nat (length c) <= q \/ q + Z.of_nat (length d) <= p.
Proof.
  intros (l & Hi & Ho & _) Ep Eq Hne. destruct (Ho p c Ep) as (b & [Hb _]%elem_of_live & -> & Hs & _).
  destruct (Ho q d Eq) as (b' & [Hb' _]%elem_of_live & -> & Hs' & _). pose proof Hi as (_ & _ & _ & _ & Hseg & _).
  assert (b <> b') as Hbb by (by intros ->). apply list_elem_of_split in Hb as (l1 & l2 & ->).
  assert (b' ∈ l1 ++ l2) as Hin by (apply elem_of_app in Hb' as [?|[?|?]%elem_of_cons]; rewrite elem_of_app; (tauto || by subst)).
  destruct (seg_apart _ _ _ _ _ _ _ _ Hseg Hin); unfold b_end, sizeof_block in *; lia.
Qed.

(** ** Calls leave the rest of memory alone *)

Lemma frame_static h l' m' : (forall b, b ∈ l' -> g_heap <= b_addr b /\ b_end b <= g_heap + HEAP_SIZE /\ 4 <= b_size b) ->
  frame l' (h_mem h) m' -> statics_kept (h_mem h) m'.
Proof.
  intros Hl Hf x Hx. apply Hf. intros b Hb Hh. specialize (Hl b Hb). unfold static, in_header, b_end, sizeof_block in *. lia.
Qed.

Lemma malloc_static h A n h' r : represents g_heap h A -> size_ok n -> malloc g_heap h n = Some (h', r) ->
  statics_kept (h_mem h) (h_mem h') /\ h_errno h' = (if r =? 0 then ENOMEM else h_errno h).
Proof.
  intros (l & Hi & _) Hn E. destruct (malloc_spec g_heap h l n Hi Hn) as (h1 & r1 & E1 & [(-> & -> & _)|(l' & b & -> & _ & _ & He & Hi' & Hp & Hf)]);
    rewrite E in E1; injection E1 as -> ->; [by split|].
  assert (b ∈ l') as Hb by (assert (b ∈ live l') as [? _]%elem_of_live by (rewrite Hp; apply elem_of_cons; by left); done).
  pose proof (block_range h1 l' b Hi' Hb) as Hr. pose proof Hi as (Hg & _). split.
  - eapply frame_static; [|exact Hf]. intros b2 [->|Hb2]%elem_of_cons; [done|by apply (block_range h l)].
  - destruct (Z.eqb_spec (b_addr b + sizeof_block) 0); [unfold sizeof_block in *; lia|done].
Qed.

Lemma free_static h A p c h' : represents g_heap h A -> A !! p = Some c -> free g_heap h p = Some h' ->
  statics_kept (h_mem h) (h_mem h') /\ h_errno h' = h_errno h.
Proof.
  intros (l & Hi & Ho & _) Ep E. destruct (Ho p c Ep) as (b & [Hb Hbf]%elem_of_live & -> & _).
  destruct (free_spec g_heap h l b Hi Hb Hbf) as (h1 & l1 & E1 & _ & _ & Hf & He & _). rewrite E in E1. injection E1 as ->.
  split; [|done]. eapply frame_static; [|exact Hf]. intros b2 Hb2. by apply (block_range h l).
Qed.

Lemma realloc_static h A p n h' r : represents g_heap h A -> size_ok n -> 0 < n -> p = 0 \/ is_Some (A !! p) ->
  realloc g_heap h p n = Some (h', r) ->
  statics_kept (h_mem h) (h_mem h') /\ h_errno h' = (if r =? 0 then ENOMEM else h_errno h).
Proof.
  intros HR Hn Hn0 Hp. unfold realloc. destruct (Z.eqb_spec p 0) as [->|Hp0]; [by apply malloc_static with A|].
  destruct (Z.eqb_spec n 0); [lia|]. destruct Hp as [?|[old Eold]]; [done|].
  destruct (Z.leb_spec n (block_size (h_mem h) (p - sizeof_block))) as [Hin|Hgrow].
  { intros [= <- <-]. split; [done|]. by destruct (Z.eqb_spec p 0). }
  destruct HR as [l Hrep]. destruct (malloc_rep g_heap h l A n Hrep Hn) as (h1 & r1 & E1 & D).
  destruct (malloc_static h A n h1 r1 (ex_intro _ l Hrep) Hn E1) as [Hs1 He1]. rewrite E1. cbn [mbind option_bind].
  destruct D as [(-> & Hrep1 & _)|(l' & c & -> & Hr0 & Hsz & Hcl & Hk & Hm)]; [by intros [= <- <-]|].
  assert (truthy (b_addr c + sizeof_block) = true) as -> by (unfold truthy; by destruct (Z.eqb_spec (b_addr c + sizeof_block) 0)).
  pose proof Hrep as (Hi & Ho & _). destruct (Ho p old Eold) as (b & Hb & -> & Hos & _).
  destruct (Hk b Hb) as (Hb' & _ & _). destruct (Hm (h_mem h1) ltac:(done)) as [_ (Hi1 & _ & _)]. rewrite set_mem_id in Hi1.
  replace (b_addr b + sizeof_block - sizeof_block) with (b_addr b) in * by lia.
  rewrite (live_block_size g_heap h1 l' b Hi1 Hb'), (live_block_size g_heap h l b Hi Hb) in *.
  destruct (Z.ltb_spec (b_size b) n); [|lia].
  set (m := memcpy_bytes (h_mem h1) _ _ _). destruct (Hm m) as [Hf Hr].
  { intros x Hx. unfold m, memcpy_bytes. unfold in_payload, b_end in Hx.
    destruct (Z.leb_spec (b_addr c + sizeof_block) x), (Z.ltb_spec x (b_addr c + sizeof_block + b_size b)); try done. lia. }
  destruct (free g_heap (Heap m (h_head h1) (h_end h1) (h_errno h1)) (b_addr b + sizeof_block)) as [h2|] eqn:E2; [|done].
  cbn [mbind option_bind]. intros [= <- <-].
  assert (<[b_addr c + sizeof_block := bytes_at m (b_addr c + sizeof_block) (Z.to_nat n)]> A !! (b_addr b + sizeof_block) = Some old) as Eb.
  { rewrite lookup_insert_ne; [done|]. intros Ec. destruct Hf as (_ & Hf & _). rewrite Ec in Hf. congruence. }
  destruct (free_static _ _ _ _ _ (ex_intro _ l' Hr) Eb E2) as [Hs2 He2]. cbn [set_mem h_mem h_errno] in Hs2, He2.
  split; [|by rewrite He2, He1]. eapply statics_kept_trans; [exact Hs1|]. eapply statics_kept_trans; [|exact Hs2].
  intros x Hx. unfold m, memcpy_bytes. assert (c ∈ l') as Hc by (by apply elem_of_live in Hcl as [? _]).
  pose proof (block_range h1 l' c Hi1 Hc). unfold static, b_end, sizeof_block in *.
  destruct (Z.leb_spec (b_addr c + 12) x), (Z.ltb_spec x (b_addr c + 12 + b_size b)); try done. lia.
Qed.

(** ** Stores of the caller *)

(** Stores into one block: the allocator and the other blocks are as before. *)
Lemma write_block h A p c m' : represents g_heap h A -> A !! p = Some c ->
  (forall x, x < p \/ p + Z.of_nat (length c) <= x -> m' x = h_mem h x) ->
  represents g_heap (set_mem h m') (<[p := bytes_at m' p (length c)]> A).
Proof.
  intros HR E Hm. pose proof HR as (l & Hi & Ho & Hc). destruct (Ho p c E) as (b & Hb & -> & Hs & Hh). exists l. split; [|split].
  - apply (payload_write g_heap h l m' Hi). intros x Hx. apply Hm. specialize (Hx b Hb). unfold in_payload, b_end in Hx. lia.
  - intros q d. destruct (decide (b_addr b + sizeof_block = q)) as [<-|Hne].
    + rewrite lookup_insert_eq. intros [= <-]. exists b. split; [done|]. split; [done|]. rewrite bytes_at_length. split; [lia|]. apply bytes_at_holds.
    + rewrite lookup_insert_ne by done. intros Eq. destruct (Ho q d Eq) as (b' & Hb' & -> & Hs' & Hh'). exists b'.
      split; [done|]. split; [done|]. split; [done|]. apply holds_payload with (h_mem h); [done|done|]. intros x Hx. apply Hm.
      pose proof Hb as [Hbl _]%elem_of_live. pose proof Hb' as [Hbl' _]%elem_of_live. pose proof Hi as (_ & _ & _ & _ & Hseg & _).
      assert (b <> b') as Hbb by (by intros ->). apply list_elem_of_split in Hbl as (l1 & l2 & ->).
      assert (b' ∈ l1 ++ l2) as Hin by (apply elem_of_app in Hbl' as [?|[?|?]%elem_of_cons]; rewrite elem_of_app; (tauto || by subst)).
      destruct (seg_apart _ _ _ _ _ _ _ _ Hseg Hin); unfold in_payload, b_end, sizeof_block in *; lia.
  - intros b' Hb'. destruct (decide (b_addr b + sizeof_block = b_addr b' + sizeof_block)) as [->|Hne];
      [rewrite lookup_insert_eq; by eexists|]. rewrite lookup_insert_ne by done. by apply Hc.
Qed.

(** Stores outside the array. *)
Lemma write_static h A m' : represents g_heap h A -> (forall x, g_heap <= x < g_heap + HEAP_SIZE -> m' x = h_mem h x) ->
  represents g_heap (set_mem h m') A.
Proof.
  intros (l & Hi & Ho & Hc) Hm. exists l. split; [|split; [|done]].
  - pose proof Hi as (Hg & Hfit & Hend & Hh & Hseg & Hna). repeat (split; [done|]). split; [|done]. cbn [set_mem h_mem h_end].
    apply seg_ext with (h_mem h); [|done]. intros b x Hb Hx. apply Hm. pose proof (block_range h l b Hi Hb).
    unfold in_header, b_end, sizeof_block in *. lia.
  - intros q d Eq. destruct (Ho q d Eq) as (b & Hb & -> & Hs & Hh). exists b. do 3 (split; [done|]).
    apply holds_payload with (h_mem h); [done|done|]. intros x Hx. apply Hm. pose proof Hb as [Hbl _]%elem_of_live.
    pose proof (block_range h l b Hi Hbl). unfold in_payload, sizeof_block in *. lia.
Qed.

(** Areas outside the array, or in blocks with the same contents, hold the
    same bytes. *)
Lemma area_kept h A h' A' B a n : represents g_heap h A -> represents g_heap h' A' -> statics_kept (h_mem h) (h_mem h') ->
  B ⊆ A -> B ⊆ A' -> area B a n -> forall x, a <= x < a + n -> h_mem h' x = h_mem h x.
Proof.
  intros HR HR' Hs H1 H2 [Hst|(q & c & Eq & Hlo & Hhi)] x Hx; [apply Hs; unfold static in *; lia|].
  pose proof (lookup_weaken _ _ _ _ Eq H1) as E1. pose proof (lookup_weaken _ _ _ _ Eq H2) as E2.
  pose proof (read_sim g_heap h A q (Z.to_nat (x - q)) c HR E1 ltac:(lia)) as B1.
  pose proof (read_sim g_heap h' A' q (Z.to_nat (x - q)) c HR' E2 ltac:(lia)) as B2.
  rewrite B1 in B2. injection B2 as B2. by replace (q + Z.of_nat (Z.to_nat (x - q))) with x in B2 by lia.
Qed.

Lemma area_mono A B a n : A ⊆ B -> area A a n -> area B a n.
Proof. intros H [?|(q & c & E & ?)]; [by left|right]. exists q, c. split; [by eapply lookup_weaken|done]. Qed.

Lemma area_sub A a n b k : area A a n -> a <= b -> b + k <= a + n -> area A b k.
Proof. intros [H|(q & c & E & H1 & H2)] Hb Hk; [left; unfold static in *; lia|right; exists q, c; split; [done|lia]]. Qed.

(** An area of other blocks is apart from a block. *)
Lemma area_apart h A p c a n : represents g_heap h A -> A !! p = Some c -> area (delete p A) a n ->
  a + n <= p \/ p + Z.of_nat (length c) <= a.
Proof.
  intros HR E [Hst|(q & d & [Hne Eq]%lookup_delete_Some & H1 & H2)].
  - pose proof (pointer_range h A p c HR E). unfold static, sizeof_block in *. lia.
  - destruct (blocks_apart h A p c q d HR E Eq Hne); lia.
Qed.
End area.
