(* ===== verification/EnvMap.v ===== *)
(** * The environment as a list of strings and as a map

    What the strings of [environ] stand for: the entries "name=value", the
    first of a name counting, and the map from names to values.  [Env] shows
    that the functions of [lib/libc_stdlib.c] on memory keep to this. *)

From stdpp Require Import gmap.
From S2P Require Import Prelude Ctype Regex.

(** ** Entries *)

(** The entry starts with the name and '='. *)
Definition entry_matches (entry name : list Z) : bool :=
  bool_decide (take (length name) entry = name) && (peek entry (length name) =? 61).

(** The index of the first entry of the name; -1 for none. *)
Fixpoint find_entry (entries : list (list Z)) (name : list Z) (i : Z) : Z :=
  match entries with
  | [] => -1
  | e :: entries => if entry_matches e name then i else find_entry entries name (i + 1)
  end.

Definition valid_name (name : list Z) : bool := negb (bool_decide (name = [])) && negb (bool_decide (61 ∈ name)).

(** What is behind the first '=', and in front of it. *)
Fixpoint after_equals (entry : list Z) : option (list Z) :=
  match entry with
  | [] => None
  | c :: entry => if c =? 61 then Some entry else after_equals entry
  end.

Fixpoint before_equals (entry : list Z) : list Z :=
  match entry with
  | [] => []
  | c :: entry => if c =? 61 then [] else c :: before_equals entry
  end.

(** The value of a name, by the search that [getenv] makes. *)
Definition entry_value (entries : list (list Z)) (name : list Z) : option (list Z) :=
  if negb (valid_name name) then None
  else
    let index := find_entry entries name 0 in
    if index <? 0 then None
    else e ← entries !! Z.to_nat index; after_equals e.

(** ** The map *)

(** The name and the value of an entry. *)
Definition entry_name (e : list Z) : option (list Z) :=
  match after_equals e with Some _ => Some (before_equals e) | None => None end.

(** The first entry of a name counts. *)
Fixpoint env_map (es : list (list Z)) : gmap (list Z) (list Z) :=
  match es with
  | [] => ∅
  | e :: es => match after_equals e with Some v => <[before_equals e := v]> (env_map es) | None => env_map es end
  end.

Fixpoint names (es : list (list Z)) : list (list Z) :=
  match es with
  | [] => []
  | e :: es => match after_equals e with Some _ => before_equals e :: names es | None => names es end
  end.

Lemma valid_name_spec name : valid_name name = true <-> name <> [] /\ 61 ∉ name.
Proof.
  unfold valid_name. rewrite andb_true_iff, !negb_true_iff, !bool_decide_eq_false. done.
Qed.

Lemma entry_split name value : 61 ∉ name ->
  after_equals (name ++ 61 :: value) = Some value /\ before_equals (name ++ 61 :: value) = name.
Proof.
  induction name as [|c name IH]; intros Hn; [done|]. apply not_elem_of_cons in Hn as [Hc Hn].
  cbn [app after_equals before_equals]. destruct (Z.eqb_spec c 61); [congruence|].
  destruct (IH Hn) as [-> ->]. done.
Qed.

Lemma matches_spec e : forall name, 61 ∉ name ->
  entry_matches e name = true <-> before_equals e = name /\ is_Some (after_equals e).
Proof.
  unfold entry_matches. induction e as [|c e IH]; intros name Hn.
  - cbn. rewrite andb_true_iff. split; [destruct name; cbn; intros [_ ?]; done|intros [_ [? ?]]; done].
  - destruct name as [|d name].
    + cbn [length take]. rewrite bool_decide_eq_true_2 by done. change (peek (c :: e) 0) with c. cbn [andb before_equals after_equals].
      destruct (Z.eqb_spec c 61).
      * split; [intros _; split; [done|by eexists]|done].
      * split; [done|intros [? _]; done].
    + apply not_elem_of_cons in Hn as [Hd Hn]. cbn [length take before_equals after_equals].
      change (peek (c :: e) (S (length name))) with (peek e (length name)). specialize (IH name Hn).
      rewrite andb_true_iff, bool_decide_eq_true in IH |- *.
      destruct (Z.eqb_spec c 61) as [->|Hc].
      * split; [intros [[= ? _] _]; congruence|intros [? _]; done].
      * split.
        -- intros [[= -> E] Hp]. destruct (proj1 IH (conj E Hp)) as [-> ?]. done.
        -- intros [[= -> E] Hs]. destruct (proj2 IH (conj E Hs)) as [-> ?]. done.
Qed.

(** The search finds the first match. *)
Lemma find_entry_spec es name : 61 ∉ name -> forall i, 0 <= i ->
  (find_entry es name i = -1 /\ env_map es !! name = None) \/
  exists es1 e v es2, es = es1 ++ e :: es2 /\ find_entry es name i = i + Z.of_nat (length es1) /\
    before_equals e = name /\ after_equals e = Some v /\ env_map es !! name = Some v /\ env_map es1 !! name = None.
Proof.
  intros Hn. induction es as [|e es IH]; intros i Hi; [by left|]. cbn [find_entry env_map].
  destruct (entry_matches e name) eqn:E.
  - apply (matches_spec e name Hn) in E as [En [v Ev]]. right. exists [], e, v, es. rewrite Ev, En.
    split; [done|]. split; [cbn; lia|]. split; [done|]. split; [done|]. split; [apply lookup_insert_eq|done].
  - assert (forall v, after_equals e = Some v -> before_equals e <> name) as Hne.
    { intros v Ev En. assert (entry_matches e name = true) as E' by (apply matches_spec; [done|by rewrite Ev]). congruence. }
    assert (forall M : gmap (list Z) (list Z),
      match after_equals e with Some v => <[before_equals e := v]> M | None => M end !! name = M !! name) as Hl.
    { intros M. destruct (after_equals e) as [v|] eqn:Ev; [|done]. apply lookup_insert_ne. by eapply Hne. }
    rewrite Hl. destruct (IH (i + 1)) as [[-> ?]|(es1 & e' & v & es2 & -> & -> & En & Ev & Em & Em1)]; [lia|by left|right].
    exists (e :: es1), e', v, es2. split; [done|]. split; [cbn; lia|]. split; [done|]. split; [done|]. split; [done|].
    cbn [env_map]. by rewrite Hl.
Qed.

Lemma env_map_app es1 es2 : env_map (es1 ++ es2) = env_map es1 ∪ env_map es2.
Proof.
  induction es1 as [|e es IH]; cbn [app env_map]; [by rewrite (left_id_L ∅ (∪))|].
  destruct (after_equals e); [|done]. by rewrite IH, insert_union_l.
Qed.

Lemma env_map_none es name : name ∉ names es -> env_map es !! name = None.
Proof.
  induction es as [|e es IH]; [done|]. cbn [names env_map]. destruct (after_equals e) as [v|]; [|done].
  rewrite not_elem_of_cons. intros [? ?]. rewrite lookup_insert_ne by done. by apply IH.
Qed.

Lemma names_app es1 es2 : names (es1 ++ es2) = names es1 ++ names es2.
Proof. induction es1 as [|e es IH]; [done|]. cbn [app names]. destruct (after_equals e); rewrite IH; done. Qed.

Lemma names_none es name : env_map es !! name = None -> name ∉ names es.
Proof.
  induction es as [|e es IH]; [by intros _ ?%elem_of_nil|]. cbn [names env_map]. destruct (after_equals e) as [v|]; [|done].
  intros E%lookup_insert_None. destruct E as [E Hne]. rewrite not_elem_of_cons. split; [done|]. by apply IH.
Qed.

(** ** Changing the list *)

Lemma entry_value_spec es name : valid_name name = true -> entry_value es name = env_map es !! name.
Proof.
  intros Hv. pose proof Hv as [_ Hn]%valid_name_spec. unfold entry_value. rewrite Hv. cbn [negb].
  destruct (find_entry_spec es name Hn 0) as [[-> ->]|(es1 & e & v & es2 & E & -> & En & Ev & -> & _)]; [lia|done|].
  destruct (Z.ltb_spec (0 + Z.of_nat (length es1)) 0); [lia|].
  replace (Z.to_nat (0 + Z.of_nat (length es1))) with (length es1) by lia. rewrite E, list_lookup_middle by done. exact Ev.
Qed.

(** A new entry of a name that is not there. *)
Lemma env_map_add es name value : 61 ∉ name -> NoDup (names es) -> env_map es !! name = None ->
  env_map (es ++ [name ++ 61 :: value]) = <[name := value]> (env_map es) /\ NoDup (names (es ++ [name ++ 61 :: value])).
Proof.
  intros Hn Hd Em. destruct (entry_split name value Hn) as [E1 E2]. split.
  - rewrite env_map_app. cbn [env_map]. rewrite E1, E2. rewrite <- insert_union_r by done. by rewrite (right_id_L ∅ (∪)).
  - rewrite names_app. cbn [names]. rewrite E1, E2. apply list.NoDup_app. split; [done|]. split; [|apply NoDup_singleton].
    intros x Hx ->%list_elem_of_singleton. by apply (names_none _ _ Em).
Qed.

(** Another entry in the place of the first one of its name. *)
Lemma env_map_set es1 e v es2 name value : 61 ∉ name -> before_equals e = name -> after_equals e = Some v ->
  env_map es1 !! name = None ->
  env_map (es1 ++ (name ++ 61 :: value) :: es2) = <[name := value]> (env_map (es1 ++ e :: es2)) /\
  names (es1 ++ (name ++ 61 :: value) :: es2) = names (es1 ++ e :: es2).
Proof.
  intros Hn En Ev Hnone. destruct (entry_split name value Hn) as [E1 E2]. rewrite !names_app, !env_map_app. cbn [names env_map].
  rewrite E1, E2, Ev, En. split; [|done]. rewrite !insert_union_r by done. by rewrite insert_insert_eq.
Qed.

(** The first entry of a name taken away, when no other has it. *)
Lemma env_map_remove es1 e v es2 name : before_equals e = name -> after_equals e = Some v -> env_map es1 !! name = None ->
  NoDup (names (es1 ++ e :: es2)) ->
  env_map (es1 ++ es2) = delete name (env_map (es1 ++ e :: es2)) /\ NoDup (names (es1 ++ es2)).
Proof.
  intros En Ev Em1 Hd. rewrite names_app in Hd |- *. cbn [names] in Hd. rewrite Ev, En in Hd.
  apply list.NoDup_app in Hd as (H1 & H2 & [H3 H4]%list.NoDup_cons). split.
  - rewrite !env_map_app. cbn [env_map]. rewrite Ev, En. rewrite <- insert_union_r by done.
    rewrite delete_insert_id; [done|]. apply lookup_union_None. split; [done|by apply env_map_none].
  - apply list.NoDup_app. split; [done|]. split; [|done]. intros x Hx Hx2. apply (H2 x Hx), elem_of_cons. by right.
Qed.
