(* ===== verification/Env.v ===== *)
(** * The environment: [getenv], [setenv], [putenv], [unsetenv] and
    [clearenv] of [lib/libc_stdlib.c]

    [environ] points to an array of string pointers with a null one behind
    the last; array and strings are bytes of memory, those that [setenv]
    makes in blocks of the heap of [Heap].  An operation gives the heap with
    its memory and errno, the pointer [environ] where it may change, and the
    result of the call. *)

From stdpp Require Import gmap.
From S2P Require Import Prelude Ctype Regex Heap HeapInv HeapOps HeapClaims HeapArea CString CStringCopy EnvMap.

Definition EINVAL : Z := 22.

Section env.
(** [fuel] is for the loops that a NUL or a null pointer ends, [empty] is the
    address of the static array of [clearenv], [frame] that of the local
    array of [putenv]. *)
Context (g_heap empty frame : Z) (fuel : nat).

Definition with_errno (h : heap) (e : Z) : heap := Heap (h_mem h) (h_head h) (h_end h) e.

Definition env_name_matches (m : memory) (entry name name_len : Z) : bool :=
  truthy entry && (strncmp m entry name (Z.to_nat name_len) =? 0) && (m (entry + name_len) =? 61).

Definition env_find (m : memory) (environ name name_len : Z) : option Z :=
  if name =? 0 then Some (-1)
  else
    loop fuel (fun i =>
      if truthy environ && truthy (rd32 m (environ + 4 * i)) then
        if env_name_matches m (rd32 m (environ + 4 * i)) name name_len then Done i else Next (i + 1)
      else Done (-1)) 0.

(** The length, [None] for the result 0. *)
Definition env_valid_name (h : heap) (name : Z) : option (heap * option Z) :=
  if (name =? 0) || (h_mem h name =? 0) then Some (with_errno h EINVAL, None)
  else
    len ← strlen fuel (h_mem h) name;
    p ← strchr fuel (h_mem h) name 61;
    Some (if truthy p then (with_errno h EINVAL, None) else (h, Some len)).

Definition getenv (h : heap) (environ name : Z) : option (heap * Z) :=
  '(h, valid) ← env_valid_name h name;
  match valid with
  | None => Some (h, 0)
  | Some name_len =>
      index ← env_find (h_mem h) environ name name_len;
      if index <? 0 then Some (h, 0)
      else p ← strchr fuel (h_mem h) (rd32 (h_mem h) (environ + 4 * index)) 61; Some (h, p + 1)
  end.

(** [while (environ && environ[count]) count++;] *)
Definition env_count (m : memory) (environ : Z) : option Z :=
  loop fuel (fun count => if truthy environ && truthy (rd32 m (environ + 4 * count)) then Next (count + 1) else Done count) 0.

Definition setenv (h : heap) (environ name value : Z) (overwrite : bool) : option (heap * Z * Z) :=
  '(h, valid) ← env_valid_name h name;
  match valid with
  | None => Some (if value =? 0 then with_errno h EINVAL else h, environ, -1)
  | Some name_len =>
      if value =? 0 then Some (with_errno h EINVAL, environ, -1)
      else
        index ← env_find (h_mem h) environ name name_len;
        if (0 <=? index) && negb overwrite then Some (h, environ, 0)
        else
          value_len ← strlen fuel (h_mem h) value;
          '(h, entry) ← malloc g_heap h (u32 (name_len + value_len + 2));
          if entry =? 0 then Some (with_errno h ENOMEM, environ, -1)
          else
            let m := memcpy (h_mem h) entry name (Z.to_nat name_len) in
            let m := wr8 m (entry + name_len) 61 in
            m ← strcpy fuel m (entry + name_len + 1) value;
            if 0 <=? index then Some (set_mem h (wr32 m (environ + 4 * index) entry), environ, 0)
            else
              count ← env_count m environ;
              '(h, next) ← realloc g_heap (set_mem h m) environ (u32 ((count + 2) * 4));
              if next =? 0 then Some (with_errno h ENOMEM, environ, -1)
              else
                let m := wr32 (h_mem h) (next + 4 * count) entry in
                let m := wr32 m (next + 4 * (count + 1)) 0 in
                Some (set_mem h m, next, 0)
  end.

Definition putenv (h : heap) (environ string : Z) : option (heap * Z * Z) :=
  if string =? 0 then Some (with_errno h EINVAL, environ, -1)
  else
    equals ← strchr fuel (h_mem h) string 61;
    if equals =? 0 then Some (with_errno h EINVAL, environ, -1)
    else
      let name_len := equals - string in
      if (name_len =? 0) || (128 <=? name_len) then Some (with_errno h EINVAL, environ, -1)
      else
        let m := memcpy (h_mem h) frame string (Z.to_nat name_len) in
        let m := wr8 m (frame + name_len) 0 in
        setenv (set_mem h m) environ frame (equals + 1) true.

(** [for (; index < count; index++) environ[index] = environ[index + 1];]
    with [n] rounds to go. *)
Fixpoint env_shift (n : nat) (m : memory) (environ index : Z) : memory :=
  match n with
  | O => m
  | S n => env_shift n (wr32 m (environ + 4 * index) (rd32 m (environ + 4 * (index + 1)))) environ (index + 1)
  end.

Definition unsetenv (h : heap) (environ name : Z) : option (heap * Z) :=
  '(h, valid) ← env_valid_name h name;
  match valid with
  | None => Some (h, -1)
  | Some name_len =>
      index ← env_find (h_mem h) environ name name_len;
      if index <? 0 then Some (h, 0)
      else
        count ← env_count (h_mem h) environ;
        Some (set_mem h (env_shift (Z.to_nat (count - index)) (h_mem h) environ index), 0)
  end.

(** The new [environ] and the result. *)
Definition clearenv : Z * Z := (empty, 0).
End env.
