(* ===== verification/EnvClaims.v ===== *)
(** * The environment functions on memory refine a map *)

From stdpp Require Import gmap.
From S2P Require Import Prelude Ctype Regex Heap HeapInv HeapOps HeapClaims HeapArea CString CStringCopy EnvMap Env.

(** ** Arrays of words *)

Definition word (w : Z) : Prop := 0 <= w < 2 ^ 32.

(** The words from [a] on. *)
Definition words (m : memory) (a : Z) (ws : list Z) : Prop := forall i w, ws !! i = Some w -> rd32 m (a + 4 * Z.of_nat i) = w.

Lemma words_app m a l1 l2 : words m a (l1 ++ l2) <-> words m a l1 /\ words m (a + 4 * Z.of_nat (length l1)) l2.
Proof.
  split.
  - intros H. split; intros i w E.
    + apply H. by apply lookup_app_l_Some.
    + replace (a + 4 * Z.of_nat (length l1) + 4 * Z.of_nat i) with (a + 4 * Z.of_nat (length l1 + i)) by lia. apply H.
      rewrite lookup_app_r by lia. by replace (length l1 + i - length l1)%nat with i by lia.
  - intros [H1 H2] i w E. apply lookup_app_Some in E as [E|[Hi E]]; [by apply H1|].
    specialize (H2 _ _ E). by replace (a + 4 * Z.of_nat (length l1) + 4 * Z.of_nat (i - length l1)) with (a + 4 * Z.of_nat i) in H2 by lia.
Qed.

Lemma words_cons m a w l : words m a (w :: l) <-> rd32 m a = w /\ words m (a + 4) l.
Proof.
  rewrite (words_app m a [w] l). split; intros [H1 H2]; (split; [|exact H2]).
  - specialize (H1 0%nat w eq_refl). by replace (a + 4 * Z.of_nat 0) with a in H1 by lia.
  - intros [|i] x E; [|done]. injection E as <-. by replace (a + 4 * Z.of_nat 0) with a by lia.
Qed.

Lemma words_ext m m' a ws : words m a ws -> (forall x, a <= x < a + 4 * Z.of_nat (length ws) -> m' x = m x) -> words m' a ws.
Proof.
  intros H Hx i w E. pose proof (lookup_lt_Some _ _ _ E). rewrite <- (H i w E). apply rd32_ext. intros x Hi. apply Hx. lia.
Qed.

Lemma words_write m a l1 w l2 v : words m a (l1 ++ w :: l2) -> word v ->
  words (wr32 m (a + 4 * Z.of_nat (length l1)) v) a (l1 ++ v :: l2).
Proof.
  intros H Hv. apply words_app in H as [H1 H2]. apply words_cons in H2 as [_ H2].
  apply words_app. split; [|apply words_cons; split].
  - apply (words_ext m); [done|]. intros x Hx. apply wr32_other. lia.
  - by apply rd32_wr32.
  - apply (words_ext m); [done|]. intros x Hx. apply wr32_other. lia.
Qed.

(** ** Strings and the array of pointers *)

(** Two properties of the elements of two lists. *)
Lemma Forall2_both {X Y} (P Q : X -> Y -> Prop) l k : Forall2 P l k -> Forall2 Q l k -> Forall2 (fun x y => P x y /\ Q x y) l k.
Proof. intros HP HQ. induction HP; inversion HQ; subst; constructor; auto. Qed.

Section claims.
Context (g_heap empty frame : Z) (fuel : nat).

(** The string [s] at [p], in memory that the array of [k] words at [environ]
    has no part in. *)
Record string_in (m : memory) (A : pointers) (environ k p : Z) (s : list Z) : Prop := StringIn {
  si_word : 0 < p /\ p + Z.of_nat (length s) < 2 ^ 32;
  si_string : cstring m p s;
  si_area : area g_heap (delete environ A) p (Z.of_nat (length s) + 1);
  si_apart : apart p (Z.of_nat (length s) + 1) environ (4 * k);
  si_fuel : (length s < fuel)%nat
}.

(** The environment is the array at [environ] of the pointers [ps] to the
    strings [es].  The array is in a block of the heap or outside the heap. *)
Record environment (h : heap) (A : pointers) (environ : Z) (ps : list Z) (es : list (list Z)) : Prop := Environment {
  en_heap : represents g_heap h A;
  en_word : word environ;
  en_null : environ = 0 -> ps = [];
  en_array : environ <> 0 -> words (h_mem h) environ (ps ++ [0]);
  en_place : environ <> 0 -> static g_heap environ (4 * (Z.of_nat (length ps) + 1)) \/
    exists c, A !! environ = Some c /\ 4 * (Z.of_nat (length ps) + 1) <= Z.of_nat (length c);
  en_strings : Forall2 (string_in (h_mem h) A environ (Z.of_nat (length ps) + 1)) ps es;
  en_fuel : (length ps < fuel)%nat
}.

Lemma string_in_kept h A h' A' environ k environ' k' p s :
  represents g_heap h A -> represents g_heap h' A' -> (forall x, static g_heap x 1 -> p <= x < p + Z.of_nat (length s) + 1 -> h_mem h' x = h_mem h x) ->
  delete environ A ⊆ delete environ' A' -> apart p (Z.of_nat (length s) + 1) environ' (4 * k') ->
  string_in (h_mem h) A environ k p s -> string_in (h_mem h') A' environ' k' p s.
Proof.
  intros HR HR' Hs Hsub Hap [Hw Hc Ha _ Hf]. split; [done| |by eapply area_mono|done|done].
  eapply cstring_ext; [exact Hc|]. intros x Hx.
  destruct Ha as [Hst|(q & c & Eq & Hlo & Hhi)]; [apply Hs; [unfold static in *; lia|lia]|].
  pose proof (lookup_weaken _ _ _ _ Eq Hsub) as E2. apply lookup_delete_Some in Eq as [_ E1]. apply lookup_delete_Some in E2 as [_ E2].
  pose proof (read_sim g_heap h A q (Z.to_nat (x - q)) c HR E1 ltac:(lia)) as B1.
  pose proof (read_sim g_heap h' A' q (Z.to_nat (x - q)) c HR' E2 ltac:(lia)) as B2.
  rewrite B1 in B2. injection B2 as B2. by replace (q + Z.of_nat (Z.to_nat (x - q))) with x in B2 by lia.
Qed.

(** ** Names *)

Lemma matches_entry m p name e nm : cstring m p e -> cstring m name nm -> 0 < p ->
  env_name_matches m p name (Z.of_nat (length nm)) = entry_matches e nm.
Proof.
  intros He Hn Hp. unfold env_name_matches, entry_matches, truthy. destruct (Z.eqb_spec p 0); [lia|]. cbn [negb andb]. rewrite Nat2Z.id.
  pose proof (strncmp_prefix m nm e p name He Hn) as Hpre.
  destruct (Z.eqb_spec (strncmp m p name (length nm)) 0) as [E|E]; [|by rewrite bool_decide_eq_false_2 by tauto].
  apply Hpre in E. rewrite bool_decide_eq_true_2 by done. cbn [andb].
  assert (length nm <= length e)%nat as Hl by (rewrite <- E, length_take; lia).
  assert (m (p + Z.of_nat (length nm)) = peek e (length nm)) as ->; [|done]. unfold peek.
  destruct (decide (length nm = length e)) as [->|].
  - rewrite nth_overflow by lia. by apply cstring_end.
  - destruct (lookup_lt_is_Some_2 e (length nm)) as [c Ec]; [lia|]. rewrite nth_lookup, Ec. by apply (cstring_lookup m p e).
Qed.

(** The search and the count, from any place in the array. *)
Lemma find_from h A environ k ps name nm : environ <> 0 -> word environ -> name <> 0 -> cstring (h_mem h) name nm ->
  words (h_mem h) environ (ps ++ [0]) -> forall rs fs done_, ps = done_ ++ rs ->
  Forall2 (string_in (h_mem h) A environ k) rs fs -> forall n, (length rs < n)%nat ->
  loop n (fun i =>
      if truthy environ && truthy (rd32 (h_mem h) (environ + 4 * i)) then
        if env_name_matches (h_mem h) (rd32 (h_mem h) (environ + 4 * i)) name (Z.of_nat (length nm)) then Done i else Next (i + 1)
      else Done (-1)) (Z.of_nat (length done_)) = Some (find_entry fs nm (Z.of_nat (length done_))) /\
  loop n (fun count => if truthy environ && truthy (rd32 (h_mem h) (environ + 4 * count)) then Next (count + 1) else Done count)
    (Z.of_nat (length done_)) = Some (Z.of_nat (length ps)).
Proof.
  intros He Hw Hname Hnm Hws. assert (truthy environ = true) as -> by (unfold truthy; by destruct (Z.eqb_spec environ 0)).
  intros rs. induction rs as [|p rs IH]; intros fs dn Eps Hrs n Hn; (destruct n as [|n]; [cbn in Hn; lia|]); cbn [loop andb].
  - apply Forall2_nil_inv_l in Hrs as ->. rewrite app_nil_r in Eps. subst dn.
    rewrite (Hws (length ps) 0) by (rewrite lookup_app_r, Nat.sub_diag by lia; done). done.
  - apply Forall2_cons_inv_l in Hrs as (e & fs' & Hp & Hrs' & ->). cbn [find_entry].
    rewrite (Hws (length dn) p) by (rewrite Eps, <- app_assoc, lookup_app_r, Nat.sub_diag by lia; done).
    pose proof (si_word _ _ _ _ _ _ Hp). assert (truthy p = true) as -> by (unfold truthy; destruct (Z.eqb_spec p 0); (done || lia)).
    rewrite (matches_entry _ p name e nm (si_string _ _ _ _ _ _ Hp) Hnm) by lia.
    destruct (IH fs' (dn ++ [p])) with (n := n) as [E1 E2]; [by rewrite <- app_assoc|done|cbn in Hn; lia|].
    rewrite length_app in E1, E2. cbn [length] in E1, E2. rewrite Nat2Z.inj_add in E1, E2. change (Z.of_nat 1) with 1 in E1, E2.
    split; [|exact E2]. destruct (entry_matches e nm); [done|exact E1].
Qed.

Lemma env_find_entry h A environ ps es name nm : environment h A environ ps es -> name <> 0 -> cstring (h_mem h) name nm ->
  env_find fuel (h_mem h) environ name (Z.of_nat (length nm)) = Some (find_entry es nm 0) /\
  env_count fuel (h_mem h) environ = Some (Z.of_nat (length ps)).
Proof.
  intros HE Hn Hnm. unfold env_find, env_count. destruct (Z.eqb_spec name 0); [done|].
  destruct (decide (environ = 0)) as [->|He].
  - pose proof (en_strings _ _ _ _ _ HE) as Hs. rewrite (en_null _ _ _ _ _ HE eq_refl) in *. inversion Hs.
    pose proof (en_fuel _ _ _ _ _ HE). by destruct fuel; [lia|].
  - apply (find_from h A environ (Z.of_nat (length ps) + 1) ps name nm He (en_word _ _ _ _ _ HE) Hn Hnm (en_array _ _ _ _ _ HE He) ps es []);
      [done|apply HE|apply HE].
Qed.

(** [env_valid_name] on a string. *)
Lemma env_valid_name_spec h name nm : name <> 0 -> 0 < name -> cstring (h_mem h) name nm -> (length nm < fuel)%nat ->
  env_valid_name fuel h name = Some (if valid_name nm then (h, Some (Z.of_nat (length nm))) else (with_errno h EINVAL, None)).
Proof.
  intros Hn Hp Hs Hf. unfold env_valid_name, valid_name. destruct (Z.eqb_spec name 0); [done|]. cbn [orb]. destruct nm as [|c nm].
  - cbn [cstring] in Hs. by rewrite Hs.
  - pose proof Hs as (Hc & Hcr & _). rewrite Hc. destruct (Z.eqb_spec c 0); [lia|].
    rewrite (strlen_spec fuel _ name (c :: nm)) by done. cbn [mbind option_bind].
    destruct (strchr_spec (h_mem h) 61 (c :: nm) ltac:(lia) name fuel Hs Hp Hf) as (r & -> & Hr). cbn [mbind option_bind].
    rewrite Hr, (bool_decide_eq_false_2 (c :: nm = [])) by done. cbn [negb andb]. by destruct (bool_decide (61 ∈ c :: nm)).
Qed.

(** The '=' of an entry. *)
Lemma strchr_equals s : forall m p n, cstring m p s -> 0 < p -> (length s < n)%nat ->
  strchr n m p 61 = Some (match after_equals s with Some _ => p + Z.of_nat (length (before_equals s)) | None => 0 end).
Proof.
  induction s as [|c s IH]; intros m p n Hs Hp Hn; (destruct n as [|n]; [cbn in Hn; lia|]); unfold strchr; cbn [loop after_equals before_equals].
  - cbn [cstring] in Hs. by rewrite Hs.
  - destruct Hs as (-> & Hc & Hs). destruct (Z.eqb_spec c 0); [lia|]. change (u8 61) with 61. destruct (Z.eqb_spec c 61) as [->|Hne].
    + cbn [length]. f_equal. lia.
    + specialize (IH m (p + 1) n Hs ltac:(lia)). unfold strchr in IH. change (u8 61) with 61 in IH. cbn [length] in Hn |- *. rewrite IH by lia.
      destruct (after_equals s); [|done]. f_equal. lia.
Qed.

Lemma equals_split s v : after_equals s = Some v -> s = before_equals s ++ 61 :: v.
Proof.
  induction s as [|c s IH]; [done|]. cbn [after_equals before_equals]. destruct (Z.eqb_spec c 61) as [->|]; [by intros [= ->]|].
  intros E. cbn [app]. f_equal. by apply IH.
Qed.
(** ** A new entry *)

Lemma memcpy_overlay m dst src n : forall s, length s = n -> (forall i c, s !! i = Some c -> m (src + Z.of_nat i) = c /\ 0 <= c < 256) ->
  apart dst (Z.of_nat n) src (Z.of_nat n) -> forall x, memcpy m dst src n x = overlay m dst s x.
Proof.
  unfold apart. induction n as [|n IH]; intros s Hl Hs Hd x.
  - destruct s; [|done]. by rewrite overlay_nil.
  - destruct s as [|c s _] using rev_ind; [done|]. rewrite length_app in Hl. cbn [length] in Hl.
    change (memcpy m dst src (S n) x) with (wr8 (memcpy m dst src n) (dst + Z.of_nat n) (memcpy m dst src n (src + Z.of_nat n)) x).
    assert (forall x, memcpy m dst src n x = overlay m dst s x) as IHs.
    { apply IH; [lia| |lia]. intros i d E. apply Hs. by apply lookup_app_l_Some. }
    assert (length s = n) as El by lia.
    destruct (Hs n c) as [Hc Hcr]; [rewrite lookup_app_r by lia; by replace (n - length s)%nat with 0%nat by lia|].
    rewrite IHs, overlay_out, Hc by lia. rewrite overlay_app, El.
    rewrite overlay_wr8 by done. apply overlay_ext. intros y. apply IHs.
Qed.

(** The three stores that make an entry. *)
Lemma entry_text m entry name nm value v : cstring m name nm -> cstring m value v -> (length v < fuel)%nat ->
  apart entry (Z.of_nat (length nm + length v) + 2) name (Z.of_nat (length nm) + 1) ->
  apart entry (Z.of_nat (length nm + length v) + 2) value (Z.of_nat (length v) + 1) ->
  exists m', strcpy fuel (wr8 (memcpy m entry name (Z.to_nat (Z.of_nat (length nm)))) (entry + Z.of_nat (length nm)) 61)
      (entry + Z.of_nat (length nm) + 1) value = Some m' /\
    forall x, m' x = overlay m entry (nm ++ 61 :: v ++ [0]) x.
Proof.
  intros Hn Hv Hf Hd1 Hd2. rewrite Nat2Z.id.
  assert (forall x, memcpy m entry name (length nm) x = overlay m entry nm x) as E1.
  { apply memcpy_overlay; [done| |unfold apart in *; lia]. intros i c E. destruct (cstring_lookup m name nm i c Hn E). split; [done|lia]. }
  set (m1 := memcpy _ _ _ _) in *. set (m2 := wr8 m1 _ _).
  assert (forall x, m2 x = overlay m entry (nm ++ [61]) x) as E2.
  { intros x. unfold m2. rewrite overlay_app, overlay_wr8 by lia. apply overlay_ext, E1. }
  destruct (stpcpy_loop v m2 (entry + Z.of_nat (length nm) + 1) value fuel) as (m' & _ & E & Hx); [|unfold apart in *; lia|done|].
  - eapply cstring_ext; [exact Hv|]. intros x Hx. rewrite E2, overlay_out; [done|].
    rewrite length_app. cbn [length]. unfold apart in Hd2. lia.
  - exists m'. split; [exact E|]. intros x. rewrite Hx. change (nm ++ 61 :: v ++ [0]) with (nm ++ [61] ++ (v ++ [0])).
    rewrite app_assoc, (overlay_app m entry (nm ++ [61])). rewrite length_app. cbn [length].
    replace (entry + Z.of_nat (length nm + 1)) with (entry + Z.of_nat (length nm) + 1) by lia. apply overlay_ext, E2.
Qed.

Lemma bytes_at_overlay m m' p bs : (forall x, m' x = overlay m p bs x) -> bytes_at m' p (length bs) = bs.
Proof.
  intros H. apply list_eq. intros i. destruct (bs !! i) as [b|] eqn:E.
  - pose proof (lookup_lt_Some _ _ _ E). rewrite bytes_at_lookup by done. f_equal. rewrite H. by apply overlay_at.
  - apply lookup_ge_None_2. rewrite bytes_at_length. by apply lookup_ge_None_1.
Qed.

(** A block for "name=value", filled in. *)
Lemma make_entry h A environ k name nm value v : represents g_heap h A ->
  string_in (h_mem h) A environ k name nm -> string_in (h_mem h) A environ k value v ->
  Z.of_nat (length nm + length v) + 2 < 2 ^ 32 - 16 ->
  exists h1 r, malloc g_heap h (u32 (Z.of_nat (length nm) + Z.of_nat (length v) + 2)) = Some (h1, r) /\
    h_errno h1 = (if r =? 0 then ENOMEM else h_errno h) /\
    (r = 0 /\ represents g_heap h1 A /\ statics_kept g_heap (h_mem h) (h_mem h1) \/
     r <> 0 /\ A !! r = None /\ exists m,
       strcpy fuel (wr8 (memcpy (h_mem h1) r name (Z.to_nat (Z.of_nat (length nm)))) (r + Z.of_nat (length nm)) 61)
         (r + Z.of_nat (length nm) + 1) value = Some m /\
       represents g_heap (set_mem h1 m) (<[r := nm ++ 61 :: v ++ [0]]> A) /\ statics_kept g_heap (h_mem h) m /\
       cstring m r (nm ++ 61 :: v)).
Proof.
  intros HR Hn Hv Hsz. rewrite u32_small by lia. set (n := Z.of_nat (length nm) + Z.of_nat (length v) + 2).
  assert (size_ok n) as Hok by (unfold size_ok, n; lia).
  destruct (malloc_sim g_heap h A n HR Hok) as (h1 & r & A1 & E & Hspec & HR1).
  destruct (malloc_static g_heap h A n h1 r HR Hok E) as [Hst He]. exists h1, r. split; [done|]. split; [done|].
  destruct Hspec as [[-> ->]|(new & Hlen & (Hr0 & HrA & _) & _ & ->)]; [by left|right]. do 2 (split; [done|]).
  assert (A ⊆ <[r := new]> A) as Hsub by (by apply insert_subseteq).
  assert (forall p s, string_in (h_mem h) A environ k p s -> string_in (h_mem h1) (<[r := new]> A) environ k p s /\
    apart r (Z.of_nat (length new)) p (Z.of_nat (length s) + 1)) as Hkeep.
  { intros p s Hs. split.
    - eapply string_in_kept; [exact HR|exact HR1| |by apply delete_mono|by destruct Hs|exact Hs]. intros x Hx _. by apply Hst.
    - destruct (area_apart g_heap h1 (<[r := new]> A) r new p (Z.of_nat (length s) + 1) HR1 (lookup_insert_eq _ _ _)); [|unfold apart; lia..].
      rewrite delete_insert_id by done. eapply area_mono; [apply delete_subseteq|apply Hs]. }
  destruct (Hkeep _ _ Hn) as [Hn1 Hdn], (Hkeep _ _ Hv) as [Hv1 Hdv].
  replace (Z.of_nat (length new)) with (Z.of_nat (length nm + length v) + 2) in Hdn, Hdv by lia.
  destruct (entry_text (h_mem h1) r name nm value v) as (m & Em & Hm); [apply Hn1|apply Hv1|apply Hv1|done|done|].
  assert (length new = length (nm ++ 61 :: v ++ [0])) as Elen by (rewrite !length_app; cbn [length]; rewrite length_app; cbn [length]; lia).
  exists m. split; [exact Em|]. split; [|split].
  - rewrite <- (bytes_at_overlay (h_mem h1) m r _ Hm), <- Elen.
    pose proof (write_block g_heap h1 _ r new m HR1 (lookup_insert_eq _ _ _)) as HW. rewrite insert_insert_eq in HW. apply HW.
    intros x Hx. rewrite Hm. apply overlay_out. rewrite <- Elen. lia.
  - intros x Hx. rewrite Hm, overlay_out; [by apply Hst|]. rewrite <- Elen.
    pose proof (pointer_range g_heap h1 _ r new HR1 (lookup_insert_eq _ _ _)). unfold static, sizeof_block in *. lia.
  - eapply cstring_ext; [apply (cstring_overlay (h_mem h1) r (nm ++ 61 :: v))|].
    + apply Forall_app. split; [eapply cstring_bytes, Hn|]. constructor; [lia|eapply cstring_bytes, Hv].
    + intros x _. rewrite Hm. by rewrite <- app_assoc.
Qed.
(** ** The array *)

(** Changes that leave the array and the strings alone. *)
Lemma environment_kept h A h' A' environ ps es : environment h A environ ps es -> represents g_heap h' A' ->
  statics_kept g_heap (h_mem h) (h_mem h') -> A ⊆ A' -> environment h' A' environ ps es.
Proof.
  intros HE HR' Hst Hsub. pose proof HE as [HR Hw Hnull Harr Hplace Hss Hf]. split; [done|done|done| | | |done].
  - intros He. eapply words_ext; [by apply Harr|]. rewrite length_app. cbn [length]. intros x Hx.
    apply (area_kept g_heap h A h' A' A environ (4 * (Z.of_nat (length ps) + 1))); try done; [|lia].
    destruct (Hplace He) as [?|(c & E & Hc)]; [by left|right]. exists environ, c. split; [done|lia].
  - intros He. destruct (Hplace He) as [?|(c & E & Hc)]; [by left|right]. exists c. split; [by eapply lookup_weaken|done].
  - eapply list.Forall2_impl; [exact Hss|]. intros p s Hs. eapply string_in_kept; [exact HR|exact HR'| |by apply delete_mono|by destruct Hs|exact Hs].
    intros x Hx _. by apply Hst.
Qed.

(** Stores into the array: fewer pointers, or others. *)
Lemma environment_array h A environ ps es m' ps' es' : environment h A environ ps es -> environ <> 0 ->
  (forall x, x < environ \/ environ + 4 * (Z.of_nat (length ps) + 1) <= x -> m' x = h_mem h x) ->
  words m' environ (ps' ++ [0]) -> (length ps' <= length ps)%nat ->
  Forall2 (string_in (h_mem h) A environ (Z.of_nat (length ps) + 1)) ps' es' ->
  exists A', environment (set_mem h m') A' environ ps' es' /\ delete environ A' = delete environ A /\
    (is_Some (A !! environ) -> is_Some (A' !! environ)).
Proof.
  intros [HR Hw Hnull Harr Hplace Hss Hf] He Hm Hws Hl Hss'.
  assert (exists A', represents g_heap (set_mem h m') A' /\ delete environ A' = delete environ A /\
    (is_Some (A !! environ) -> is_Some (A' !! environ)) /\
    (static g_heap environ (4 * (Z.of_nat (length ps) + 1)) \/
     exists c, A' !! environ = Some c /\ 4 * (Z.of_nat (length ps) + 1) <= Z.of_nat (length c))) as (A' & HR' & Ed & His & Hp').
  { destruct (Hplace He) as [Hst|(c & E & Hc)].
    - exists A. split; [|split; [done|split; [done|by left]]]. apply write_static; [done|]. intros x Hx. apply Hm. unfold static in Hst. lia.
    - exists (<[environ := bytes_at m' environ (length c)]> A). split; [apply write_block; [done|done|]; intros x Hx; apply Hm; lia|].
      split; [by rewrite delete_insert_eq|]. rewrite lookup_insert_eq. split; [by eexists|right]. eexists. split; [done|]. by rewrite bytes_at_length. }
  exists A'. split; [|by split]. split; [done|done|done|done| | |lia].
  - intros _. destruct Hp' as [Hst|(c & E & Hc)]; [left; unfold static in *; lia|right]. exists c. split; [done|lia].
  - eapply list.Forall2_impl; [exact Hss'|]. intros p s Hs. pose proof (si_apart _ _ _ _ _ _ Hs) as Hap. unfold apart in Hap.
    eapply string_in_kept; [exact HR|exact HR'| |by rewrite Ed|unfold apart; lia|exact Hs].
    intros x _ Hx. cbn [set_mem h_mem]. apply Hm. lia.
Qed.

(** The array moved to a block with room for one more word. *)
Lemma realloc_array h A environ ps es : environment h A environ ps es -> environ = 0 \/ is_Some (A !! environ) ->
  exists h2 next, realloc g_heap h environ (u32 ((Z.of_nat (length ps) + 2) * 4)) = Some (h2, next) /\
    statics_kept g_heap (h_mem h) (h_mem h2) /\ h_errno h2 = (if next =? 0 then ENOMEM else h_errno h) /\
    (next = 0 /\ represents g_heap h2 A \/
     next <> 0 /\ exists new, Z.of_nat (length new) = (Z.of_nat (length ps) + 2) * 4 /\ delete environ A !! next = None /\
       represents g_heap h2 (<[next := new]> (delete environ A)) /\ words (h_mem h2) next ps).
Proof.
  intros HE Hpl. pose proof HE as [HR Hw Hnull Harr Hplace _ _]. set (k := Z.of_nat (length ps)) in *.
  assert (0 <= (k + 2) * 4 < 2 ^ 31) as Hk.
  { destruct Hpl as [->|[c E]]; [unfold k; rewrite Hnull by done; cbn; lia|].
    pose proof (pointer_range g_heap h A environ c HR E) as Hr. unfold sizeof_block in Hr.
    destruct Hplace as [Hst|(c' & E' & Hc)]; [lia|unfold static, HEAP_SIZE in *; lia|].
    rewrite E in E'. injection E' as <-. unfold HEAP_SIZE in Hr. unfold k in *. lia. }
  rewrite u32_small by lia. set (n := (k + 2) * 4) in *. assert (size_ok n) as Hn by (unfold size_ok; lia).
  destruct (realloc_sim g_heap h A environ n HR) as (h2 & next & A2 & E & Hspec & HR2); [by split|].
  destruct (realloc_static g_heap h A environ n h2 next HR Hn ltac:(lia) Hpl E) as [Hst He].
  exists h2, next. do 3 (split; [done|]). unfold spec in Hspec. destruct (Z.eqb_spec environ 0) as [->|Hne].
  - assert (delete 0 A = A) as HdA.
    { apply delete_id. destruct (A !! 0) as [c|] eqn:E0; [|done]. pose proof (pointer_range g_heap h A 0 c HR E0). unfold sizeof_block in *. lia. }
    destruct Hspec as [[-> ->]|(new & Hlen & (Hr0 & HrA & _) & _ & ->)]; [by left|right]. split; [done|].
    exists new. rewrite HdA. do 3 (split; [done|]). rewrite Hnull by done. by intros i w ?.
  - destruct (Z.eqb_spec n 0); [lia|]. destruct Hspec as [[-> ->]|(old & new & E0 & Hlen & (Hr0 & HrA & _) & Hpre & ->)]; [by left|right].
    split; [done|]. exists new. do 3 (split; [done|]). destruct (Hplace Hne) as [Hst'|(c & E' & Hc)].
    { pose proof (pointer_range g_heap h A environ old HR E0). unfold static, sizeof_block in *. lia. }
    rewrite E0 in E'. injection E' as <-. intros i w Ei. pose proof (lookup_lt_Some _ _ _ Ei) as Hi.
    specialize (Harr Hne i w ltac:(by apply lookup_app_l_Some)). rewrite <- Harr.
    assert (forall o, 0 <= o < 4 -> h_mem h2 (next + 4 * Z.of_nat i + o) = h_mem h (environ + 4 * Z.of_nat i + o)) as Hb.
    { intros o Ho. set (j := Z.to_nat (4 * Z.of_nat i + o)).
      pose proof (read_sim g_heap h A environ j old HR E0 ltac:(unfold j, k in *; lia)) as B1.
      specialize (Hpre j _ B1 ltac:(unfold j, n, k in *; lia)).
      pose proof (lookup_lt_Some _ _ _ Hpre) as Hj.
      pose proof (read_sim g_heap h2 _ next j new HR2 (lookup_insert_eq _ _ _) Hj) as B2. rewrite Hpre in B2. injection B2 as B2.
      by replace (next + 4 * Z.of_nat i + o) with (next + Z.of_nat j) by (unfold j; lia);
        replace (environ + 4 * Z.of_nat i + o) with (environ + Z.of_nat j) by (unfold j; lia). }
    unfold rd32. pose proof (Hb 0) as H0. rewrite !Z.add_0_r in H0. by rewrite H0, !Hb by lia.
Qed.

(** Two more words at its end. *)
Lemma environment_grown h A environ ps es next new entry text_ :
  represents g_heap h (<[next := new]> (delete environ A)) -> delete environ A !! next = None -> next <> 0 ->
  Z.of_nat (length new) = (Z.of_nat (length ps) + 2) * 4 -> words (h_mem h) next ps -> (S (length ps) < fuel)%nat ->
  Forall2 (string_in (h_mem h) (<[next := new]> (delete environ A)) next 0) (ps ++ [entry]) (es ++ [text_]) ->
  let m := wr32 (wr32 (h_mem h) (next + 4 * Z.of_nat (length ps)) entry) (next + 4 * (Z.of_nat (length ps) + 1)) 0 in
  exists A', environment (set_mem h m) A' next (ps ++ [entry]) (es ++ [text_]) /\ delete next A' = delete environ A /\ is_Some (A' !! next) /\
    statics_kept g_heap (h_mem h) m.
Proof.
  intros HR Hfr Hn0 Hlen Hws Hf Hss m. pose proof (pointer_range g_heap h _ next new HR (lookup_insert_eq _ _ _)) as Hr.
  unfold sizeof_block in Hr. set (k := Z.of_nat (length ps)) in *.
  assert (forall x, x < next \/ next + Z.of_nat (length new) <= x -> m x = h_mem h x) as Hm
    by (intros x Hx; unfold m; rewrite !wr32_other by lia; done).
  pose proof (write_block g_heap h _ next new m HR (lookup_insert_eq _ _ _) Hm) as HR'. rewrite insert_insert_eq in HR'.
  set (A' := <[next := bytes_at m next (length new)]> (delete environ A)) in *. exists A'.
  assert (delete next A' = delete environ A) as Ed by (by apply delete_insert_id).
  split; [|split; [done|split; [by (unfold A'; rewrite lookup_insert_eq; eexists)|intros x Hx; apply Hm; unfold static in Hx; lia]]].
  assert (length (ps ++ [entry]) = S (length ps)) as El by (rewrite length_app; cbn; lia).
  split; [done|unfold word; lia|done| | | |by rewrite El].
  - intros _. unfold m. rewrite <- app_assoc. cbn [app]. apply Forall2_app_inv_l in Hss as (es1 & es2 & _ & He & _).
    inversion He as [|? ? ? ? [Hw _ _ _ _] _]; subst.
    assert (words (h_mem h) next (ps ++ rd32 (h_mem h) (next + 4 * k) :: [rd32 (h_mem h) (next + 4 * (k + 1))])) as Hw2.
    { apply words_app. split; [done|]. fold k. apply words_cons. split; [done|]. apply words_cons. split; [f_equal; lia|]. by intros i w ?. }
    apply (words_write _ _ _ _ _ entry) in Hw2; [|unfold word; lia]. fold k in Hw2.
    change (ps ++ entry :: [rd32 (h_mem h) (next + 4 * (k + 1))]) with (ps ++ [entry] ++ [rd32 (h_mem h) (next + 4 * (k + 1))]) in Hw2.
    rewrite app_assoc in Hw2. apply (words_write _ _ _ _ _ 0) in Hw2; [|unfold word; lia]. rewrite El in Hw2.
    replace (Z.of_nat (S (length ps))) with (k + 1) in Hw2 by (unfold k; lia). by rewrite <- app_assoc in Hw2.
  - intros _. right. eexists. split; [unfold A'; apply lookup_insert_eq|]. rewrite bytes_at_length, El. unfold k in *. lia.
  - eapply list.Forall2_impl; [exact Hss|]. intros p s Hs. destruct Hs as [Hw Hc Ha _ Hfs]. rewrite delete_insert_id in Ha by done.
    assert (area g_heap (delete next A') p (Z.of_nat (length s) + 1)) as Ha' by (by rewrite Ed).
    pose proof (area_apart g_heap (set_mem h m) A' next (bytes_at m next (length new)) p (Z.of_nat (length s) + 1) HR'
      (lookup_insert_eq _ _ _) Ha') as Hap. rewrite bytes_at_length in Hap.
    split; [done| |done|unfold apart; rewrite El; unfold k in *; lia|done].
    eapply cstring_ext; [exact Hc|]. intros x Hx. apply Hm. lia.
Qed.
(** ** The operations *)

Lemma entry_string h A environ ps es h1 r text_ : environment h A environ ps es -> represents g_heap h1 (<[r := text_ ++ [0]]> A) ->
  A !! r = None -> r <> 0 -> cstring (h_mem h1) r text_ -> (length text_ < fuel)%nat ->
  string_in (h_mem h1) (<[r := text_ ++ [0]]> A) environ (Z.of_nat (length ps) + 1) r text_.
Proof.
  intros [HR Hw Hnull _ Hplace _ _] HR1 HrA Hr0 Hc Hf.
  pose proof (pointer_range g_heap h1 _ r _ HR1 (lookup_insert_eq _ _ _)) as Hr. rewrite length_app in Hr. cbn [length] in Hr. unfold sizeof_block in Hr.
  assert (environ <> r /\ apart r (Z.of_nat (length text_) + 1) environ (4 * (Z.of_nat (length ps) + 1))) as [Hne Hap].
  { destruct (decide (environ = 0)) as [->|He]; [split; [done|]; unfold apart; rewrite Hnull by done; cbn [length]; lia|].
    destruct (Hplace He) as [Hst|(c & E & Hcl)]; [unfold static, apart in *; lia|]. assert (environ <> r) as Hne by congruence. split; [done|].
    destruct (blocks_apart g_heap h1 _ r (text_ ++ [0]) environ c HR1 (lookup_insert_eq _ _ _)) as [Hd|Hd]; [by rewrite lookup_insert_ne|done|..];
      unfold apart; rewrite ?length_app in Hd; cbn [length] in Hd; lia. }
  split; [lia|done| |done|done]. right. exists r, (text_ ++ [0]).
  split; [by rewrite lookup_delete_ne, lookup_insert_eq by done|]. rewrite length_app. cbn [length]. lia.
Qed.

(** What every call leaves alone: blocks other than that of the array, and
    memory outside the heap and the array. *)
Definition rest_kept (h : heap) (A : pointers) (environ k : Z) (h' : heap) (A' : pointers) (environ' : Z) : Prop :=
  delete environ A ⊆ delete environ' A' /\
  forall x, static g_heap x 1 -> x < environ \/ environ + 4 * k <= x -> h_mem h' x = h_mem h x.

(** [setenv] when the name is there. *)
Lemma setenv_replaces h A environ ps es es1 e es2 h1 r m text_ : environment h A environ ps es -> es = es1 ++ e :: es2 ->
  represents g_heap (set_mem h1 m) (<[r := text_ ++ [0]]> A) -> statics_kept g_heap (h_mem h) m -> A !! r = None -> r <> 0 ->
  cstring m r text_ -> (length text_ < fuel)%nat ->
  let h' := set_mem h1 (wr32 m (environ + 4 * Z.of_nat (length es1)) r) in
  exists A' ps', environment h' A' environ ps' (es1 ++ text_ :: es2) /\ rest_kept h A environ (Z.of_nat (length ps) + 1) h' A' environ /\
    (is_Some (A !! environ) -> is_Some (A' !! environ)).
Proof.
  intros HE Ees HR1 Hst HrA Hr0 Hc Hf h'. assert (A ⊆ <[r := text_ ++ [0]]> A) as Hsub by (by apply insert_subseteq).
  pose proof (environment_kept h A (set_mem h1 m) _ environ ps es HE HR1 Hst Hsub) as HE1.
  pose proof (entry_string h A environ ps es (set_mem h1 m) r text_ HE HR1 HrA Hr0 Hc Hf) as Hent.
  pose proof HE1 as [_ Hw Hnull Harr _ Hss _]. rewrite Ees in Hss. apply Forall2_app_inv_r in Hss as (ps1 & ps2 & H1 & H2 & Eps).
  apply Forall2_cons_inv_r in H2 as (p & ps3 & Hp & H3 & ->). pose proof (list.Forall2_length _ _ _ H1) as El.
  assert (environ <> 0) as He by (intros ->; specialize (Hnull eq_refl); rewrite Eps in Hnull; by destruct ps1).
  pose proof (pointer_range g_heap _ _ r _ HR1 (lookup_insert_eq _ _ _)) as Hr. unfold sizeof_block in Hr.
  assert (word environ) as Hwe by done. unfold word in Hwe.
  destruct (environment_array (set_mem h1 m) _ environ ps es (wr32 m (environ + 4 * Z.of_nat (length es1)) r) (ps1 ++ r :: ps3) (es1 ++ text_ :: es2) HE1 He)
    as (A' & HE' & Ed & His).
  - intros x Hx. cbn [set_mem h_mem]. apply wr32_other. rewrite Eps, length_app in Hx. cbn [length] in Hx. lia.
  - specialize (Harr He). rewrite Eps, <- app_assoc in Harr. cbn [app] in Harr. rewrite <- El, <- app_assoc. cbn [app].
    eapply words_write; [exact Harr|unfold word; lia].
  - rewrite Eps, !length_app. cbn [length]. lia.
  - apply Forall2_app; [done|]. by constructor.
  - exists A', (ps1 ++ r :: ps3). split; [exact HE'|]. split; [|intros [c E]; apply His; exists c; by eapply lookup_weaken].
    split; [rewrite Ed; by apply delete_mono|]. intros x Hx Hout. unfold h'. cbn [set_mem h_mem]. rewrite wr32_other; [by apply Hst|].
    rewrite Eps, length_app in Hout. cbn [length] in Hout. lia.
Qed.

(** [setenv] when it is not. *)
Lemma setenv_adds h A environ ps es h1 r m text_ : environment h A environ ps es -> (S (length ps) < fuel)%nat ->
  environ = 0 \/ is_Some (A !! environ) ->
  represents g_heap (set_mem h1 m) (<[r := text_ ++ [0]]> A) -> statics_kept g_heap (h_mem h) m -> A !! r = None -> r <> 0 ->
  cstring m r text_ -> (length text_ < fuel)%nat -> h_errno h1 = h_errno h ->
  exists h2 next, realloc g_heap (set_mem h1 m) environ (u32 ((Z.of_nat (length ps) + 2) * 4)) = Some (h2, next) /\
    (next = 0 /\ (exists A', environment (with_errno h2 ENOMEM) A' environ ps es /\
       rest_kept h A environ (Z.of_nat (length ps) + 1) (with_errno h2 ENOMEM) A' environ /\ (is_Some (A !! environ) -> is_Some (A' !! environ))) \/
     next <> 0 /\ (let h' := set_mem h2 (wr32 (wr32 (h_mem h2) (next + 4 * Z.of_nat (length ps)) r) (next + 4 * (Z.of_nat (length ps) + 1)) 0) in
       h_errno h' = h_errno h /\ exists A', environment h' A' next (ps ++ [r]) (es ++ [text_]) /\
       rest_kept h A environ (Z.of_nat (length ps) + 1) h' A' next /\ is_Some (A' !! next))).
Proof.
  intros HE Hfp Hpl HR1 Hst HrA Hr0 Hc Hf He1. set (A1 := <[r := text_ ++ [0]]> A) in *.
  assert (A ⊆ A1) as Hsub by (by apply insert_subseteq).
  pose proof (environment_kept h A (set_mem h1 m) _ environ ps es HE HR1 Hst Hsub) as HE1.
  pose proof (entry_string h A environ ps es (set_mem h1 m) r text_ HE HR1 HrA Hr0 Hc Hf) as Hent. fold A1 in Hent.
  destruct (realloc_array (set_mem h1 m) A1 environ ps es HE1) as (h2 & next & E & Hst2 & He2 & D);
    [destruct Hpl as [?|[c Ec]]; [by left|right; exists c; by eapply lookup_weaken]|].
  exists h2, next. split; [exact E|]. destruct D as [[-> HR2]|(Hn0 & new & Hlen & Hfr & HR2 & Hws)].
  - left. split; [done|]. exists A1. split; [|split; [split; [by apply delete_mono|]|intros [c Ec]; exists c; by eapply lookup_weaken]].
    + eapply environment_kept; [exact HE1|exact HR2|exact Hst2|done].
    + intros x Hx _. cbn [with_errno h_mem]. rewrite Hst2 by done. by apply Hst.
  - right. split; [done|]. intros h'. assert ((next =? 0) = false) as En by lia. rewrite En in He2.
    destruct (environment_grown h2 A1 environ ps es next new r text_ HR2 Hfr Hn0 Hlen Hws Hfp) as (A' & HE' & Ed & His & Hst3).
    { eapply list.Forall2_impl; [apply Forall2_app; [apply HE1|constructor; [exact Hent|constructor]]|]. intros p s Hs.
      assert (delete next (<[next := new]> (delete environ A1)) = delete environ A1) as Ed by (by apply delete_insert_id).
      eapply string_in_kept; [exact HR1|exact HR2|intros x Hx _; by apply Hst2|by rewrite Ed| |exact Hs].
      pose proof (area_apart g_heap h2 _ next new p (Z.of_nat (length s) + 1) HR2 (lookup_insert_eq _ _ _)) as Hap.
      rewrite Ed in Hap. specialize (Hap (si_area _ _ _ _ _ _ Hs)). unfold apart. lia. }
    split; [unfold h'; cbn [set_mem h_errno]; by rewrite He2|]. exists A'. split; [exact HE'|]. split; [|done].
    split; [rewrite Ed; by apply delete_mono|]. intros x Hx _. unfold h'. cbn [set_mem h_mem]. rewrite Hst3, Hst2 by done. by apply Hst.
Qed.
(** What a call of [setenv] with a name, a value and memory for both leaves:
    the new environment, its map, errno, and the rest of memory. *)
Definition setenv_post (h : heap) (A : pointers) (environ : Z) (ps : list Z) (es : list (list Z)) (nm v : list Z) (overwrite : bool)
    (res : heap * Z * Z) : Prop :=
  let '(h', environ', r) := res in
  exists A' ps' es', environment h' A' environ' ps' es' /\ NoDup (names es') /\
    rest_kept h A environ (Z.of_nat (length ps) + 1) h' A' environ' /\
    (environ = 0 \/ is_Some (A !! environ) -> environ' = 0 \/ is_Some (A' !! environ')) /\
    (r = -1 /\ h_errno h' = ENOMEM /\ environ' = environ /\ es' = es \/
     r = 0 /\ h_errno h' = h_errno h /\
     env_map es' = match env_map es !! nm with Some _ => if overwrite then <[nm := v]> (env_map es) else env_map es | None => <[nm := v]> (env_map es) end).

(** A string that is there after a block was allocated. *)
Lemma rest_kept_refl h A environ k e : rest_kept h A environ k (with_errno h e) A environ.
Proof. split; [done|]. by intros x. Qed.

Lemma environment_errno h A environ ps es e : environment h A environ ps es -> environment (with_errno h e) A environ ps es.
Proof. intros HE. by apply (environment_kept h A (with_errno h e) A); [|destruct HE|intros x|]. Qed.

Lemma setenv_spec h A environ ps es name nm value v overwrite : environment h A environ ps es -> NoDup (names es) -> (S (length ps) < fuel)%nat ->
  valid_name nm = true -> string_in (h_mem h) A environ (Z.of_nat (length ps) + 1) name nm ->
  string_in (h_mem h) A environ (Z.of_nat (length ps) + 1) value v -> (S (length nm + length v) < fuel)%nat ->
  Z.of_nat (length nm + length v) + 2 < 2 ^ 32 - 16 ->
  (env_map es !! nm = None -> environ = 0 \/ is_Some (A !! environ)) ->
  exists res, setenv g_heap fuel h environ name value overwrite = Some res /\ setenv_post h A environ ps es nm v overwrite res.
Proof.
  intros HE Hd Hfp Hvalid Hn Hv Hft Hsz Hpl. pose proof Hvalid as [Hne H61]%valid_name_spec. unfold setenv.
  pose proof (si_word _ _ _ _ _ _ Hn) as Hnw. pose proof (si_word _ _ _ _ _ _ Hv) as Hvw.
  rewrite (env_valid_name_spec h name nm), Hvalid by (try lia; apply Hn). cbn [mbind option_bind].
  destruct (Z.eqb_spec value 0); [lia|].
  destruct (env_find_entry h A environ ps es name nm HE ltac:(lia) (si_string _ _ _ _ _ _ Hn)) as [-> _]. cbn [mbind option_bind].
  assert (length (nm ++ 61%Z :: v) < fuel)%nat as Hft' by (rewrite length_app; cbn [length]; lia).
  assert (forall h1 m r, represents g_heap (set_mem h1 m) (<[r := nm ++ 61 :: v ++ [0]]> A) ->
    represents g_heap (set_mem h1 m) (<[r := (nm ++ 61 :: v) ++ [0]]> A)) as Htext by (intros h1 m r; by rewrite <- app_assoc).
  destruct (make_entry h A environ (Z.of_nat (length ps) + 1) name nm value v (en_heap _ _ _ _ _ HE) Hn Hv Hsz)
    as (h1 & r & Em & He1 & Dm).
  destruct (find_entry_spec es nm H61 0) as [[-> Emap]|(es1 & e & w & es2 & Ees & -> & Een & Eaf & Emap & Em1)]; [lia| |].
  - change (0 <=? -1) with false. cbn [andb].
    rewrite (strlen_spec fuel _ value v) by (try lia; apply Hv). cbn [mbind option_bind]. rewrite Em. cbn [mbind option_bind].
    destruct Dm as [(-> & HR1 & Hst)|(Hr0 & HrA & m & -> & HR1 & Hst & Hc)].
    + eexists. split; [reflexivity|]. exists A, ps, es. split; [by eapply environment_kept|]. split; [done|].
      split; [split; [done|]; intros x Hx _; by apply Hst|]. split; [done|]. left. done.
    + destruct (Z.eqb_spec r 0); [done|]. cbn [mbind option_bind].
      pose proof (environment_kept h A (set_mem h1 m) _ environ ps es HE HR1 Hst ltac:(by apply insert_subseteq)) as HE1.
      pose proof (entry_string h A environ ps es (set_mem h1 m) r _ HE (Htext _ _ _ HR1) HrA Hr0 Hc Hft') as Hent.
      destruct (env_find_entry (set_mem h1 m) _ environ ps es r (nm ++ 61 :: v) HE1 Hr0 Hc) as [_ Ecount]. cbn [set_mem h_mem] in Ecount.
      rewrite Ecount. cbn [mbind option_bind].
      destruct (setenv_adds h A environ ps es h1 r m (nm ++ 61 :: v) HE Hfp (Hpl Emap) (Htext _ _ _ HR1) Hst HrA Hr0 Hc Hft' He1)
        as (h2 & next & -> & [(-> & A' & HE' & Hrk & His)|(Hn0 & He' & A' & HE' & Hrk & His)]); cbn [mbind option_bind].
      * eexists. split; [reflexivity|]. exists A', ps, es. split; [done|]. split; [done|]. split; [done|].
        split; [intros [?|?]; [by left|right; by apply His]|]. left. done.
      * destruct (Z.eqb_spec next 0); [done|]. eexists. split; [reflexivity|].
        destruct (env_map_add es nm v H61 Hd Emap) as [Emap' Hd'].
        exists A', (ps ++ [r]), (es ++ [nm ++ 61 :: v]). split; [done|]. split; [done|]. split; [done|]. split; [by right|].
        right. rewrite Emap. done.
  - destruct (Z.leb_spec 0 (0 + Z.of_nat (length es1))); [|lia]. cbn [andb]. destruct overwrite; cbn [negb].
    + rewrite (strlen_spec fuel _ value v) by (try lia; apply Hv). cbn [mbind option_bind]. rewrite Em. cbn [mbind option_bind].
      destruct Dm as [(-> & HR1 & Hst)|(Hr0 & HrA & m & -> & HR1 & Hst & Hc)].
      * eexists. split; [reflexivity|]. exists A, ps, es. split; [by eapply environment_kept|]. split; [done|].
        split; [split; [done|]; intros x Hx _; by apply Hst|]. split; [done|]. left. done.
      * destruct (Z.eqb_spec r 0); [done|]. cbn [mbind option_bind]. eexists. split; [reflexivity|].
        destruct (setenv_replaces h A environ ps es es1 e es2 h1 r m (nm ++ 61 :: v) HE Ees (Htext _ _ _ HR1) Hst HrA Hr0 Hc Hft')
          as (A' & ps' & HE' & Hrk & His).
        destruct (env_map_set es1 e w es2 nm v H61 Een Eaf Em1) as [Emap' Hd']. rewrite <- Ees in Emap', Hd'.
        exists A', ps', (es1 ++ (nm ++ 61 :: v) :: es2). split; [exact HE'|]. split; [by rewrite Hd'|]. split; [exact Hrk|].
        split; [intros [?|?]; [by left|right; by apply His]|]. right. rewrite Emap. done.
    + eexists. split; [reflexivity|]. exists A, ps, es. split; [done|]. split; [done|].
      split; [split; [done|]; by intros x|]. split; [done|]. right. by rewrite Emap.
Qed.
(** [getenv]: the value behind the '=' of the first entry. *)
Lemma getenv_spec h A environ ps es name nm : environment h A environ ps es -> valid_name nm = true ->
  string_in (h_mem h) A environ (Z.of_nat (length ps) + 1) name nm ->
  exists r, getenv fuel h environ name = Some (h, r) /\
    match env_map es !! nm with Some v => 0 < r /\ cstring (h_mem h) r v | None => r = 0 end.
Proof.
  intros HE Hvalid Hn. pose proof Hvalid as [Hne H61]%valid_name_spec. pose proof (si_word _ _ _ _ _ _ Hn) as Hnw. unfold getenv.
  rewrite (env_valid_name_spec h name nm), Hvalid by (try lia; apply Hn). cbn [mbind option_bind].
  destruct (env_find_entry h A environ ps es name nm HE ltac:(lia) (si_string _ _ _ _ _ _ Hn)) as [-> _]. cbn [mbind option_bind].
  destruct (find_entry_spec es nm H61 0) as [[-> ->]|(es1 & e & v & es2 & Ees & -> & Een & Eaf & -> & _)]; [lia|by exists 0|].
  destruct (Z.ltb_spec (0 + Z.of_nat (length es1)) 0); [lia|].
  pose proof HE as [_ _ Hnull Harr _ Hss _]. rewrite Ees in Hss. apply Forall2_app_inv_r in Hss as (ps1 & ps2 & H1 & H2 & Eps).
  apply Forall2_cons_inv_r in H2 as (p & ps3 & Hp & _ & ->). pose proof (list.Forall2_length _ _ _ H1) as El.
  assert (environ <> 0) as He by (intros ->; specialize (Hnull eq_refl); rewrite Eps in Hnull; by destruct ps1).
  rewrite Z.add_0_l, <- El, (Harr He (length ps1) p) by (rewrite Eps, <- app_assoc; cbn [app]; by rewrite list_lookup_middle).
  pose proof (si_word _ _ _ _ _ _ Hp) as Hpw. pose proof (si_string _ _ _ _ _ _ Hp) as Hps.
  rewrite (strchr_equals e _ p fuel Hps), Eaf by (try lia; apply Hp). cbn [mbind option_bind]. eexists. split; [reflexivity|].
  split; [lia|]. rewrite (equals_split e v Eaf) in Hps.
  pose proof (cstring_drop _ p _ (S (length (before_equals e))) Hps ltac:(rewrite length_app; cbn [length]; lia)) as Hd.
  rewrite drop_app_ge in Hd by lia. replace (S (length (before_equals e)) - length (before_equals e))%nat with 1%nat in Hd by lia.
  cbn [drop] in Hd. rewrite drop_0 in Hd. by replace (p + Z.of_nat (S (length (before_equals e)))) with (p + Z.of_nat (length (before_equals e)) + 1) in Hd by lia.
Qed.

(** ** [unsetenv] *)

Lemma env_shift_words a l2 : forall m l1 x, words m a (l1 ++ x :: l2) -> Forall word l2 ->
  words (env_shift (length l2) m a (Z.of_nat (length l1))) a (l1 ++ l2) /\
  forall y, y < a \/ a + 4 * Z.of_nat (length l1 + length l2) <= y -> env_shift (length l2) m a (Z.of_nat (length l1)) y = m y.
Proof.
  induction l2 as [|w l2 IH]; intros m l1 x Hw Hl; cbn [length env_shift].
  - split; [|done]. rewrite app_nil_r. by apply words_app in Hw as [? _].
  - inversion Hl as [|? ? Hww Hl']; subst.
    assert (rd32 m (a + 4 * (Z.of_nat (length l1) + 1)) = w) as ->.
    { replace (a + 4 * (Z.of_nat (length l1) + 1)) with (a + 4 * Z.of_nat (S (length l1))) by lia. apply Hw.
      rewrite lookup_app_r by lia. by replace (S (length l1) - length l1)%nat with 1%nat by lia. }
    pose proof (words_write m a l1 x (w :: l2) w Hw Hww) as Hw'. change (l1 ++ w :: w :: l2) with (l1 ++ [w] ++ w :: l2) in Hw'. rewrite app_assoc in Hw'.
    destruct (IH _ _ _ Hw' Hl') as [H1 H2]. rewrite length_app in H1, H2. cbn [length] in H1, H2.
    replace (Z.of_nat (length l1 + 1)) with (Z.of_nat (length l1) + 1) in H1, H2 by lia. rewrite <- app_assoc in H1.
    split; [exact H1|]. intros y Hy. rewrite H2 by lia. apply wr32_other. lia.
Qed.

Lemma unsetenv_spec h A environ ps es name nm : environment h A environ ps es -> NoDup (names es) -> valid_name nm = true ->
  string_in (h_mem h) A environ (Z.of_nat (length ps) + 1) name nm ->
  exists h' A' ps' es', unsetenv fuel h environ name = Some (h', 0) /\ h_errno h' = h_errno h /\
    environment h' A' environ ps' es' /\ NoDup (names es') /\ env_map es' = delete nm (env_map es) /\
    rest_kept h A environ (Z.of_nat (length ps) + 1) h' A' environ /\ (is_Some (A !! environ) -> is_Some (A' !! environ)).
Proof.
  intros HE Hd Hvalid Hn. pose proof Hvalid as [Hne H61]%valid_name_spec. pose proof (si_word _ _ _ _ _ _ Hn) as Hnw. unfold unsetenv.
  rewrite (env_valid_name_spec h name nm), Hvalid by (try lia; apply Hn). cbn [mbind option_bind].
  destruct (env_find_entry h A environ ps es name nm HE ltac:(lia) (si_string _ _ _ _ _ _ Hn)) as [-> Ecount]. cbn [mbind option_bind].
  destruct (find_entry_spec es nm H61 0) as [[-> Em]|(es1 & e & v & es2 & Ees & -> & Een & Eaf & Em & Em1)]; [lia| |].
  { exists h, A, ps, es. split; [done|]. split; [done|]. split; [done|]. split; [done|]. split; [by rewrite delete_id|]. split; [split; [done|]; by intros x|done]. }
  destruct (Z.ltb_spec (0 + Z.of_nat (length es1)) 0); [lia|]. rewrite Ecount. cbn [mbind option_bind].
  pose proof HE as [_ _ Hnull Harr _ Hss Hfp]. rewrite Ees in Hss. apply Forall2_app_inv_r in Hss as (ps1 & ps2 & H1 & H2 & Eps).
  apply Forall2_cons_inv_r in H2 as (p & ps3 & Hp & H3 & ->). pose proof (list.Forall2_length _ _ _ H1) as El.
  assert (environ <> 0) as He by (intros ->; specialize (Hnull eq_refl); rewrite Eps in Hnull; by destruct ps1).
  rewrite Z.add_0_l, <- El. replace (Z.to_nat (Z.of_nat (length ps) - Z.of_nat (length ps1))) with (length (ps3 ++ [0]))
    by (rewrite Eps, !length_app; cbn [length]; lia).
  specialize (Harr He). rewrite Eps, <- app_assoc in Harr. cbn [app] in Harr.
  destruct (env_shift_words environ (ps3 ++ [0]) (h_mem h) ps1 p Harr) as [Hws Hout].
  { apply Forall_app. split; [|repeat constructor; unfold word; lia]. clear - H3. induction H3 as [|q s l1 l2 [Hq _ _ _ _] _ IH]; constructor; [unfold word; lia|done]. }
  rewrite app_assoc in Hws. destruct (env_map_remove es1 e v es2 nm Een Eaf Em1) as [Emap Hd']; [by rewrite <- Ees|].
  destruct (environment_array h A environ ps es (env_shift (length (ps3 ++ [0])) (h_mem h) environ (Z.of_nat (length ps1))) (ps1 ++ ps3) (es1 ++ es2) HE He)
    as (A' & HE' & Ed & His); [|exact Hws|rewrite Eps, !length_app; cbn [length]; lia|by apply Forall2_app|].
  { intros x Hx. apply Hout. rewrite Eps, length_app in Hx. rewrite length_app. cbn [length] in *. lia. }
  eexists _, A', (ps1 ++ ps3), (es1 ++ es2). split; [reflexivity|]. split; [done|]. split; [exact HE'|]. split; [done|]. split; [by rewrite Emap, <- Ees|].
  split; [|done]. split; [by rewrite Ed|]. intros x _ Hx. apply Hout. rewrite Eps, length_app in Hx. rewrite length_app. cbn [length] in *. lia.
Qed.

(** ** [putenv] *)

(** The local array of [putenv] has no byte of the heap, of the environment
    and of the string. *)
Record frame_free (m : memory) (environ : Z) (ps : list Z) (es : list (list Z)) (string : Z) (s : list Z) : Prop := FrameFree {
  ff_word : 0 < frame /\ frame + 128 <= 2 ^ 32;
  ff_static : static g_heap frame 128;
  ff_array : apart frame 128 environ (4 * (Z.of_nat (length ps) + 1));
  ff_strings : Forall2 (fun p e => apart p (Z.of_nat (length e) + 1) frame 128) ps es;
  ff_string : apart string (Z.of_nat (length s) + 1) frame 128
}.

Lemma environment_frame h A environ ps es string s m : environment h A environ ps es -> frame_free (h_mem h) environ ps es string s ->
  (forall x, x < frame \/ frame + 128 <= x -> m x = h_mem h x) -> environment (set_mem h m) A environ ps es.
Proof.
  intros [HR Hw Hnull Harr Hplace Hss Hf] [Hfw Hfs Hfa Hfss _] Hm. unfold apart, static in *.
  assert (represents g_heap (set_mem h m) A) as HR' by (apply write_static; [done|]; intros x Hx; apply Hm; lia).
  split; [done|done|done| |done| |done].
  - intros He. eapply words_ext; [by apply Harr|]. rewrite length_app. cbn [length]. intros x Hx. apply Hm. lia.
  - eapply list.Forall2_impl; [exact (Forall2_both _ _ _ _ Hss Hfss)|]. intros p e [Hp Hap]. cbn beta in Hap.
    eapply string_in_kept; [exact HR|exact HR'| |done|by destruct Hp|exact Hp]. intros x _ Hx. apply Hm. lia.
Qed.

Lemma putenv_spec h A environ ps es string nm v : environment h A environ ps es -> NoDup (names es) -> (S (length ps) < fuel)%nat ->
  valid_name nm = true -> Z.of_nat (length nm) < 128 -> string_in (h_mem h) A environ (Z.of_nat (length ps) + 1) string (nm ++ 61 :: v) ->
  frame_free (h_mem h) environ ps es string (nm ++ 61 :: v) -> Z.of_nat (length nm + length v) + 2 < 2 ^ 32 - 16 ->
  (env_map es !! nm = None -> environ = 0 \/ is_Some (A !! environ)) ->
  exists m res, (forall x, x < frame \/ frame + 128 <= x -> m x = h_mem h x) /\
    putenv g_heap frame fuel h environ string = Some res /\ setenv_post (set_mem h m) A environ ps es nm v true res.
Proof.
  intros HE Hd Hfp Hvalid Hlen Hs Hff Hsz Hpl. pose proof Hvalid as [Hne H61]%valid_name_spec. pose proof Hs as [Hsw Hsc Hsa Hsap Hsf].
  pose proof Hff as [Hfw Hfs Hfa Hfss Hfstr]. rewrite length_app in Hsa, Hsap, Hsf, Hfstr. cbn [length] in Hsa, Hsap, Hsf, Hfstr.
  destruct (entry_split nm v H61) as [Eaf Ebe]. unfold putenv. destruct (Z.eqb_spec string 0); [lia|].
  rewrite (strchr_equals (nm ++ 61 :: v) _ string fuel Hsc), Eaf, Ebe by (try lia; rewrite length_app; cbn [length]; lia).
  cbn [mbind option_bind]. destruct (Z.eqb_spec (string + Z.of_nat (length nm)) 0); [lia|].
  replace (string + Z.of_nat (length nm) - string) with (Z.of_nat (length nm)) by lia.
  destruct (Z.eqb_spec (Z.of_nat (length nm)) 0); [destruct nm; [done|cbn in *; lia]|].
  destruct (Z.leb_spec 128 (Z.of_nat (length nm))); [lia|]. cbn [orb]. rewrite Nat2Z.id.
  assert (forall x, memcpy (h_mem h) frame string (length nm) x = overlay (h_mem h) frame nm x) as E1.
  { apply memcpy_overlay; [done| |unfold apart in *; lia]. intros i c E.
    destruct (cstring_lookup (h_mem h) string _ i c Hsc ltac:(by apply lookup_app_l_Some)). split; [done|lia]. }
  set (m := wr8 (memcpy (h_mem h) frame string (length nm)) (frame + Z.of_nat (length nm)) 0).
  assert (forall x, m x = overlay (h_mem h) frame (nm ++ [0]) x) as E2.
  { intros x. unfold m. rewrite overlay_app, overlay_wr8 by lia. apply overlay_ext, E1. }
  assert (forall x, x < frame \/ frame + 128 <= x -> m x = h_mem h x) as Hm.
  { intros x Hx. rewrite E2. apply overlay_out. rewrite length_app. cbn [length]. lia. }
  pose proof (environment_frame h A environ ps es string _ m HE Hff Hm) as HE'.
  assert (string_in (h_mem (set_mem h m)) A environ (Z.of_nat (length ps) + 1) frame nm) as Hname.
  { split; [lia| |left; unfold static in *; lia|unfold apart in *; lia|lia]. eapply cstring_ext; [apply (cstring_overlay (h_mem h) frame nm)|].
    - pose proof (cstring_bytes _ _ _ Hsc) as Hb. by apply Forall_app in Hb as [? _].
    - intros x _. apply E2. }
  assert (string_in (h_mem (set_mem h m)) A environ (Z.of_nat (length ps) + 1) (string + Z.of_nat (length nm) + 1) v) as Hvalue.
  { pose proof Hsw as [_ Hsw2]. split; [| |eapply area_sub; [exact Hsa|lia|lia]|unfold apart in *; lia|lia].
    - rewrite length_app in Hsw2. cbn [length] in Hsw2. lia.
    - pose proof (cstring_drop _ string _ (S (length nm)) Hsc ltac:(rewrite length_app; cbn [length]; lia)) as Hdr.
      rewrite drop_app_ge in Hdr by lia. replace (S (length nm) - length nm)%nat with 1%nat in Hdr by lia. cbn [drop] in Hdr. rewrite drop_0 in Hdr.
      replace (string + Z.of_nat (S (length nm))) with (string + Z.of_nat (length nm) + 1) in Hdr by lia.
      eapply cstring_ext; [exact Hdr|]. intros x Hx. apply Hm. unfold apart in Hfstr. lia. }
  destruct (setenv_spec (set_mem h m) A environ ps es frame nm (string + Z.of_nat (length nm) + 1) v true HE' Hd Hfp Hvalid Hname Hvalue)
    as (res & Er & Hpost); [lia|done|done|].
  exists m, res. split; [exact Hm|]. split; [exact Er|exact Hpost].
Qed.
(** ** Errors *)

(** A null pointer, or a name that is empty or contains '='. *)
Definition invalid (h : heap) (A : pointers) (environ : Z) (ps : list Z) (name : Z) : Prop :=
  name = 0 \/ exists nm, string_in (h_mem h) A environ (Z.of_nat (length ps) + 1) name nm /\ valid_name nm = false.

Lemma invalid_name h A environ ps name : invalid h A environ ps name -> env_valid_name fuel h name = Some (with_errno h EINVAL, None).
Proof.
  intros [->|(nm & [Hw Hc _ _ Hf] & Hv)]; [done|]. rewrite (env_valid_name_spec h name nm) by (lia || done). by rewrite Hv.
Qed.

Lemma putenv_errors h environ string s : string = 0 \/ string <> 0 /\ 0 < string /\ cstring (h_mem h) string s /\ (length s < fuel)%nat /\
    (after_equals s = None \/ before_equals s = [] \/ 128 <= Z.of_nat (length (before_equals s))) ->
  putenv g_heap frame fuel h environ string = Some (with_errno h EINVAL, environ, -1).
Proof.
  unfold putenv. intros [->|(Hn & Hp & Hs & Hf & D)]; [done|]. destruct (Z.eqb_spec string 0); [done|].
  rewrite (strchr_equals s _ string fuel Hs Hp Hf). destruct (after_equals s) as [v|]; cbn [mbind option_bind]; [|done].
  destruct (Z.eqb_spec (string + Z.of_nat (length (before_equals s))) 0); [lia|].
  replace (string + Z.of_nat (length (before_equals s)) - string) with (Z.of_nat (length (before_equals s))) by lia.
  destruct D as [?|[->|Hl]]; [done|done|]. destruct (Z.leb_spec 128 (Z.of_nat (length (before_equals s)))); [by rewrite orb_true_r|lia].
Qed.
End claims.

(** ** The property *)

(** C37: the environment is a map from names to values, in memory.  Given the
    array that [environ] points to and its strings, on the real heap or
    outside it, and names and values in memory that the array has no part in:
    [getenv] returns a pointer to the value of the name, or null when there is
    none; [setenv] and [putenv] return, and either fail with ENOMEM, errno set
    and the map unchanged, or succeed and insert, with the old value kept when
    told not to overwrite; [unsetenv] removes; and [clearenv] makes the map
    empty.  No call changes a block of the heap other than the array's, or
    memory outside the heap other than the array and the buffer of [putenv].
    Null pointers and names that are empty or contain '=' are refused with
    EINVAL, and [putenv] also refuses a string without '=' and a name of 128
    characters.  A new name asks for the array to be null or a block of the
    heap, which it is again afterwards: the array that the program starts with
    is neither. *)
Theorem environment_refines_map g_heap empty frame fuel h A environ ps es
    (HE : environment g_heap fuel h A environ ps es) (Hd : NoDup (names es)) (Hfuel : (S (length ps) < fuel)%nat) :
  let M := env_map es in
  let argument := string_in g_heap fuel (h_mem h) A environ (Z.of_nat (length ps) + 1) in
  let may_grow := environ = 0 \/ is_Some (A !! environ) in
  (forall name nm, argument name nm -> valid_name nm = true ->
    (exists r, getenv fuel h environ name = Some (h, r) /\
       match M !! nm with Some v => 0 < r /\ cstring (h_mem h) r v | None => r = 0 end) /\
    (forall value v overwrite, argument value v -> (S (length nm + length v) < fuel)%nat ->
       Z.of_nat (length nm + length v) + 2 < 2 ^ 32 - 16 -> (M !! nm = None -> may_grow) ->
       exists res, setenv g_heap fuel h environ name value overwrite = Some res /\
         setenv_post g_heap fuel h A environ ps es nm v overwrite res) /\
    (exists h' A' ps' es', unsetenv fuel h environ name = Some (h', 0) /\ h_errno h' = h_errno h /\
       environment g_heap fuel h' A' environ ps' es' /\ NoDup (names es') /\ env_map es' = delete nm M /\
       rest_kept g_heap h A environ (Z.of_nat (length ps) + 1) h' A' environ /\ (is_Some (A !! environ) -> is_Some (A' !! environ)))) /\
  (forall string nm v, argument string (nm ++ 61 :: v) -> valid_name nm = true -> Z.of_nat (length nm) < 128 ->
    frame_free g_heap frame (h_mem h) environ ps es string (nm ++ 61 :: v) ->
    Z.of_nat (length nm + length v) + 2 < 2 ^ 32 - 16 -> (M !! nm = None -> may_grow) ->
    exists m res, (forall x, x < frame \/ frame + 128 <= x -> m x = h_mem h x) /\
      putenv g_heap frame fuel h environ string = Some res /\ setenv_post g_heap fuel (set_mem h m) A environ ps es nm v true res) /\
  (0 < empty -> empty + 4 <= 2 ^ 32 -> static g_heap empty 4 -> rd32 (h_mem h) empty = 0 ->
    environment g_heap fuel h A (clearenv empty).1 [] [] /\ (clearenv empty).2 = 0) /\
  (forall name value overwrite, invalid g_heap fuel h A environ ps name ->
    getenv fuel h environ name = Some (with_errno h EINVAL, 0) /\
    setenv g_heap fuel h environ name value overwrite = Some (with_errno h EINVAL, environ, -1) /\
    unsetenv fuel h environ name = Some (with_errno h EINVAL, -1)) /\
  (forall name nm overwrite, argument name nm -> setenv g_heap fuel h environ name 0 overwrite = Some (with_errno h EINVAL, environ, -1)) /\
  (forall string s, string = 0 \/ argument string s /\
      (after_equals s = None \/ before_equals s = [] \/ 128 <= Z.of_nat (length (before_equals s))) ->
    putenv g_heap frame fuel h environ string = Some (with_errno h EINVAL, environ, -1)).
Proof.
  intros M argument may_grow. split; [|split; [|split; [|split; [|split]]]].
  - intros name nm Hn Hv. split; [by eapply getenv_spec|]. split; [|by eapply unsetenv_spec].
    intros value v ow Hval Hf Hsz Hg. by apply setenv_spec.
  - intros string nm v Hs Hv Hl Hff Hsz Hg. by apply putenv_spec.
  - intros H0 H1 Hst Hz. split; [|done]. split; [apply HE|unfold word; cbn; lia|done| |by left|constructor|cbn; lia].
    intros _ [|i] w E; [|done]. injection E as <-. cbn [clearenv fst]. by rewrite Z.add_0_r.
  - intros name value ow Hn. unfold getenv, setenv, unsetenv. rewrite (invalid_name _ _ _ _ _ _ _ Hn). cbn [mbind option_bind].
    split; [done|]. split; [by destruct (value =? 0)|done].
  - intros name nm ow [Hw Hc _ _ Hf]. unfold setenv. rewrite (env_valid_name_spec fuel h name nm) by (lia || done). by destruct (valid_name nm).
  - intros string s D. apply putenv_errors with s. destruct D as [?|[[Hw Hc _ _ Hf] D]]; [by left|right]. split; [lia|]. split; [lia|done].
Qed.

(** A program without an environment, with "A", "1" and "A=2" from 1000 on. *)
Definition sample_heap : heap := Heap (fun x => nth (Z.to_nat (x - 1000)) [65; 0; 49; 0; 65; 61; 50; 0] 0) 0 65536 0.

Lemma sample_represents : represents 65536 sample_heap ∅.
Proof.
  exists []. split; [|split].
  - unfold heap_inv, HEAP_SIZE. repeat split; try done; cbn; lia.
  - intros p c E. by rewrite lookup_empty in E.
  - intros b Hb. by apply elem_of_nil in Hb.
Qed.

Lemma sample_environment : environment 65536 9 sample_heap ∅ 0 [] [].
Proof. split; [apply sample_represents|unfold word; lia|done|done|done|constructor|cbn; lia]. Qed.

Lemma sample_string p s : 4 <= p -> p + Z.of_nat (length s) < 65536 -> cstring (h_mem sample_heap) p s -> (length s < 9)%nat ->
  string_in 65536 9 (h_mem sample_heap) ∅ 0 1 p s.
Proof. intros H1 H2 H3 H4. split; [lia|done|left; unfold static; lia|unfold apart; lia|done]. Qed.

(** setenv("A", "1", 0): the array is allocated, and the map has one name. *)
Lemma environment_refines_map_witness : exists h' environ' A' ps' es',
  setenv 65536 9 sample_heap 0 1000 1002 false = Some (h', environ', 0) /\
  environment 65536 9 h' A' environ' ps' es' /\ env_map es' = {[ [65] := [49] ]}.
Proof.
  destruct (environment_refines_map 65536 200 2000 9 sample_heap ∅ 0 [] [] sample_environment ltac:(constructor) ltac:(cbn; lia)) as (Hset & _).
  destruct (Hset 1000 [65]) as (_ & Hs & _); [apply sample_string; [lia|cbn; lia|repeat split|cbn; lia]|reflexivity|].
  destruct (Hs 1002 [49] false) as ([[h' environ'] r] & E & A' & ps' & es' & HE & _ & _ & _ & D);
    [apply sample_string; [lia|cbn; lia|repeat split|cbn; lia]|cbn; lia|cbn; lia|by left|].
  assert (snd <$> setenv 65536 9 sample_heap 0 1000 1002 false = Some 0) as E0 by (vm_compute; reflexivity). rewrite E in E0. injection E0 as E0.
  destruct D as [(-> & _)|(-> & _ & Em)]; [discriminate E0|].
  exists h', environ', A', ps', es'. split; [exact E|]. split; [exact HE|]. rewrite Em. reflexivity.
Defined.

(** The array that the kernel puts on the stack is no block of the heap.
    With one argument the word in front of it that [realloc] takes for the
    size of a block is the argument count 1, so it copies one byte: after
    setenv("B", "2", 1) the variable A is lost, and so is B.  Stack: argc, the
    argument, null, "A=1", null; strings from 4096 on. *)
Definition started : heap :=
  Heap (fun x => if x <? 4096 then nth (Z.to_nat (x - 2000)) [1; 0; 0; 0; 0; 16; 0; 0; 0; 0; 0; 0; 0; 16; 0; 0; 0; 0; 0; 0] 0
                 else nth (Z.to_nat (x - 4096)) [65; 61; 49; 0; 66; 0; 50; 0; 65; 0] 0) 0 65536 0.

Theorem initial_environ_lost :
  (snd <$> getenv 9 started 2012 4104) = Some 4098 /\
  (match setenv 65536 9 started 2012 4100 4102 true with
   | Some (h', environ', r) => Some (r, snd <$> getenv 9 h' environ' 4104, snd <$> getenv 9 h' environ' 4100)
   | None => None
   end) = Some (0, Some 0, Some 0).
Proof. split; vm_compute; reflexivity. Qed.
