(* ===== verification/Syscall.v ===== *)
(** * System calls: [lib/libsys.c], [lib/libc_internal.h] and the wrappers of
    [lib/libc_syscalls.c], [lib/libc_signal.c] and [lib/libc_misc.c]

    The kernel is not part of the repository: it is the parameter [trap], a
    function of its own state, the memory of the process and the request that
    [inti 0x80] hands over.  Pointers are addresses in that memory. *)

From S2P Require Import Prelude Heap.

(** The call numbers of [include/lamp/abi.h], in order from 0. *)
Inductive lamp_sys : Type :=
| LAMP_SYS_GETPID | LAMP_SYS_YIELD | LAMP_SYS_SLEEP_TICKS | LAMP_SYS_EXIT | LAMP_SYS_WAITPID | LAMP_SYS_NANOSLEEP
| LAMP_SYS_READ | LAMP_SYS_WRITE | LAMP_SYS_POLL | LAMP_SYS_SELECT | LAMP_SYS_TTY_GETMODE | LAMP_SYS_TTY_SETMODE
| LAMP_SYS_CLOCK_GETTIME | LAMP_SYS_GETTIMEOFDAY | LAMP_SYS_CLOCK_GETRES | LAMP_SYS_CLOCK_SETTIME
| LAMP_SYS_CLOSE | LAMP_SYS_DUP | LAMP_SYS_DUP2 | LAMP_SYS_FCNTL | LAMP_SYS_OPEN
| LAMP_SYS_SOCKET | LAMP_SYS_CONNECT | LAMP_SYS_BIND | LAMP_SYS_LISTEN | LAMP_SYS_ACCEPT | LAMP_SYS_SEND | LAMP_SYS_RECV
| LAMP_SYS_EXECVE | LAMP_SYS_VFORK | LAMP_SYS_LSEEK | LAMP_SYS_GETPPID | LAMP_SYS_STAT | LAMP_SYS_FSTAT | LAMP_SYS_GETDENTS
| LAMP_SYS_ACCESS | LAMP_SYS_CHDIR | LAMP_SYS_GETCWD | LAMP_SYS_PIPE | LAMP_SYS_IOCTL | LAMP_SYS_SIGACTION
| LAMP_SYS_SIGPROCMASK | LAMP_SYS_KILL | LAMP_SYS_UMASK | LAMP_SYS_RENAME | LAMP_SYS_UNLINK | LAMP_SYS_MKDIR
| LAMP_SYS_RMDIR | LAMP_SYS_LINK | LAMP_SYS_SYMLINK | LAMP_SYS_READLINK | LAMP_SYS_SIGRETURN | LAMP_SYS_SYSINFO.

#[global] Instance lamp_sys_eq_dec : EqDecision lamp_sys.
Proof. solve_decision. Defined.

(** The error numbers the wrappers name, and the layout of the ABI block. *)
Definition ENOENT : Z := 2.
Definition EBADF : Z := 9.
Definition ECHILD : Z := 10.
Definition EFAULT : Z := 14.
Definition EINVAL : Z := 22.
Definition LAMP_SYSCALL_ABI_MAGIC : Z := 0x30435953.
Definition LAMP_SYSCALL_ABI_VERSION : Z := 1.

(** What the kernel is handed: the number, the six argument registers and the
    two words of the ABI block that are set. *)
Record request : Type := Req {
  rq_nr : lamp_sys;
  rq_args : list Z;
  rq_magic : Z;
  rq_version : Z
}.

Definition abi_call (nr : lamp_sys) (args : list Z) : request :=
  Req nr args LAMP_SYSCALL_ABI_MAGIC LAMP_SYSCALL_ABI_VERSION.

(** The kernel: its next state, the memory after the call, and the result and
    error words it leaves in the ABI block. *)
Class Kernel (K : Type) : Type := trap : K -> memory -> request -> K * memory * Z * Z.

Section calls.
Context {K : Type} `{Kernel K}.

(** The process: the kernel behind it, its memory and the two error cells. *)
Record process : Type := Proc {
  p_kernel : K;
  p_mem : memory;
  errno : Z;
  libsys_errno : Z
}.

Definition M (A : Type) : Type := process -> A * process.
Definition ret {A} (a : A) : M A := fun p => (a, p).
Definition bind {A B} (m : M A) (f : A -> M B) : M B := fun p => let '(a, p) := m p in f a p.
Definition set_errno (e : Z) : M unit := fun p => (tt, Proc (p_kernel p) (p_mem p) e (libsys_errno p)).

(** ** The trap *)

Definition libsys_call6 (nr : lamp_sys) (a0 a1 a2 a3 a4 a5 : Z) : M Z := fun p =>
  let '(k, m, r, e) := trap (p_kernel p) (p_mem p) (abi_call nr [u32 a0; u32 a1; u32 a2; u32 a3; u32 a4; u32 a5]) in
  (s32 r, Proc k m (errno p) (if s32 r =? -1 then s32 e else 0)).

Definition libsys_getpid : M Z := libsys_call6 LAMP_SYS_GETPID 0 0 0 0 0 0.
Definition libsys_getppid : M Z := libsys_call6 LAMP_SYS_GETPPID 0 0 0 0 0 0.
Definition libsys_waitpid (pid status options : Z) : M Z := libsys_call6 LAMP_SYS_WAITPID pid status options 0 0 0.
Definition libsys_read (fd buf len : Z) : M Z := libsys_call6 LAMP_SYS_READ fd buf len 0 0 0.
Definition libsys_write (fd buf len : Z) : M Z := libsys_call6 LAMP_SYS_WRITE fd buf len 0 0 0.
Definition libsys_close (fd : Z) : M Z := libsys_call6 LAMP_SYS_CLOSE fd 0 0 0 0 0.
Definition libsys_dup (oldfd : Z) : M Z := libsys_call6 LAMP_SYS_DUP oldfd 0 0 0 0 0.
Definition libsys_dup2 (oldfd newfd : Z) : M Z := libsys_call6 LAMP_SYS_DUP2 oldfd newfd 0 0 0 0.
Definition libsys_fcntl (fd cmd arg : Z) : M Z := libsys_call6 LAMP_SYS_FCNTL fd cmd arg 0 0 0.
Definition libsys_open (path flags : Z) : M Z := libsys_call6 LAMP_SYS_OPEN path flags 0 0 0 0.
Definition libsys_lseek (fd offset whence : Z) : M Z := libsys_call6 LAMP_SYS_LSEEK fd offset whence 0 0 0.
Definition libsys_stat (path st : Z) : M Z := libsys_call6 LAMP_SYS_STAT path st 0 0 0 0.
Definition libsys_fstat (fd st : Z) : M Z := libsys_call6 LAMP_SYS_FSTAT fd st 0 0 0 0.
Definition libsys_getdents (fd dirp len : Z) : M Z := libsys_call6 LAMP_SYS_GETDENTS fd dirp len 0 0 0.
Definition libsys_access (path mode : Z) : M Z := libsys_call6 LAMP_SYS_ACCESS path mode 0 0 0 0.
Definition libsys_chdir (path : Z) : M Z := libsys_call6 LAMP_SYS_CHDIR path 0 0 0 0 0.
Definition libsys_getcwd (buf size : Z) : M Z := libsys_call6 LAMP_SYS_GETCWD buf size 0 0 0 0.
Definition libsys_pipe (pipefd : Z) : M Z := libsys_call6 LAMP_SYS_PIPE pipefd 0 0 0 0 0.
Definition libsys_ioctl (fd request arg : Z) : M Z := libsys_call6 LAMP_SYS_IOCTL fd request arg 0 0 0.
Definition libsys_sigaction (sig act oldact : Z) : M Z := libsys_call6 LAMP_SYS_SIGACTION sig act oldact 0 0 0.
Definition libsys_sigprocmask (how set oldset : Z) : M Z := libsys_call6 LAMP_SYS_SIGPROCMASK how set oldset 0 0 0.
Definition libsys_kill (pid sig : Z) : M Z := libsys_call6 LAMP_SYS_KILL pid sig 0 0 0 0.
Definition libsys_umask (mask : Z) : M Z := libsys_call6 LAMP_SYS_UMASK mask 0 0 0 0 0.
Definition libsys_rename (oldpath newpath : Z) : M Z := libsys_call6 LAMP_SYS_RENAME oldpath newpath 0 0 0 0.
Definition libsys_unlink (path : Z) : M Z := libsys_call6 LAMP_SYS_UNLINK path 0 0 0 0 0.
Definition libsys_mkdir (path mode : Z) : M Z := libsys_call6 LAMP_SYS_MKDIR path mode 0 0 0 0.
Definition libsys_rmdir (path : Z) : M Z := libsys_call6 LAMP_SYS_RMDIR path 0 0 0 0 0.
Definition libsys_link (oldpath newpath : Z) : M Z := libsys_call6 LAMP_SYS_LINK oldpath newpath 0 0 0 0.
Definition libsys_symlink (target linkpath : Z) : M Z := libsys_call6 LAMP_SYS_SYMLINK target linkpath 0 0 0 0.
Definition libsys_readlink (path buf size : Z) : M Z := libsys_call6 LAMP_SYS_READLINK path buf size 0 0 0.
Definition libsys_execve (path argv envp : Z) : M Z := libsys_call6 LAMP_SYS_EXECVE path argv envp 0 0 0.
Definition libsys_vfork : M Z := libsys_call6 LAMP_SYS_VFORK 0 0 0 0 0 0.
Definition libsys_exit (code : Z) : M Z := libsys_call6 LAMP_SYS_EXIT code 0 0 0 0 0.
Definition libsys_sysinfo (info : Z) : M Z := libsys_call6 LAMP_SYS_SYSINFO info 0 0 0 0 0.

(** ** The error convention of the library *)

Definition set_errno_from_libsys : M unit := fun p => set_errno (libsys_errno p) p.

Definition ret_errno (m : M Z) : M Z :=
  bind m (fun rc =>
    if rc <? 0 then bind set_errno_from_libsys (fun _ => ret (-1))
    else bind (set_errno 0) (fun _ => ret rc)).

(** ** The wrappers *)

Definition getpid : M Z := ret_errno libsys_getpid.
Definition getppid : M Z := ret_errno libsys_getppid.
Definition setsid : M Z := getpid.
Definition getpgrp : M Z := getpid.
Definition vfork : M Z := ret_errno libsys_vfork.
Definition execve (path argv envp : Z) : M Z := ret_errno (libsys_execve path argv envp).
Definition open (path flags : Z) : M Z := ret_errno (libsys_open path flags).
Definition close (fd : Z) : M Z := ret_errno (libsys_close fd).
Definition read (fd buf count : Z) : M Z := ret_errno (libsys_read fd buf count).
Definition write (fd buf count : Z) : M Z := ret_errno (libsys_write fd buf count).
Definition lseek (fd offset whence : Z) : M Z := ret_errno (libsys_lseek fd offset whence).
Definition dup (oldfd : Z) : M Z := ret_errno (libsys_dup oldfd).
Definition dup2 (oldfd newfd : Z) : M Z := ret_errno (libsys_dup2 oldfd newfd).
Definition pipe (pipefd : Z) : M Z := ret_errno (libsys_pipe pipefd).
Definition ioctl (fd request arg : Z) : M Z := ret_errno (libsys_ioctl fd request arg).
Definition chdir (path : Z) : M Z := ret_errno (libsys_chdir path).
Definition access (path mode : Z) : M Z := ret_errno (libsys_access path mode).
Definition unlink (path : Z) : M Z := ret_errno (libsys_unlink path).
Definition rmdir (path : Z) : M Z := ret_errno (libsys_rmdir path).
Definition link (oldpath newpath : Z) : M Z := ret_errno (libsys_link oldpath newpath).
Definition symlink (target linkpath : Z) : M Z := ret_errno (libsys_symlink target linkpath).
Definition readlink (path buf size : Z) : M Z := ret_errno (libsys_readlink path buf size).
Definition mkdir (path mode : Z) : M Z := ret_errno (libsys_mkdir path mode).
Definition rename (oldpath newpath : Z) : M Z := ret_errno (libsys_rename oldpath newpath).
Definition umask (mask : Z) : M Z := bind (libsys_umask mask) (fun rc => ret (u32 rc)).
Definition poll (fds nfds timeout : Z) : M Z := ret_errno (libsys_call6 LAMP_SYS_POLL fds nfds timeout 0 0 0).
Definition sysinfo (info : Z) : M Z := ret_errno (libsys_sysinfo info).

Definition clock_gettime (clock_id ts : Z) : M Z := ret_errno (libsys_call6 LAMP_SYS_CLOCK_GETTIME clock_id ts 0 0 0 0).
Definition clock_getres (clock_id ts : Z) : M Z := ret_errno (libsys_call6 LAMP_SYS_CLOCK_GETRES clock_id ts 0 0 0 0).
Definition clock_settime (clock_id ts : Z) : M Z := ret_errno (libsys_call6 LAMP_SYS_CLOCK_SETTIME clock_id ts 0 0 0 0).
Definition nanosleep (req rem : Z) : M Z := ret_errno (libsys_call6 LAMP_SYS_NANOSLEEP req rem 0 0 0 0).
Definition gettimeofday (tv tz : Z) : M Z := ret_errno (libsys_call6 LAMP_SYS_GETTIMEOFDAY tv tz 0 0 0 0).

(** [time]: [ts] is the address of its local, [tloc] may be null. *)
Definition CLOCK_REALTIME : Z := 0.
Definition time (ts tloc : Z) : M Z :=
  bind (clock_gettime CLOCK_REALTIME ts) (fun rc =>
    if rc <? 0 then ret (u32 (-1))
    else fun p =>
      let t := rd32 (p_mem p) ts in
      (t, if truthy tloc then Proc (p_kernel p) (wr32 (p_mem p) tloc t) (errno p) (libsys_errno p) else p)).

(** [select]: the timeout is its seconds and microseconds, if there is one. *)
Definition select (nfds readfds writefds exceptfds : Z) (timeout : option (Z * Z)) : M Z :=
  let timeout_ms :=
    match timeout with
    | Some (tv_sec, tv_usec) => s32 (u32 (u32 (tv_sec * 1000) + u32 tv_usec / 1000))
    | None => -1
    end in
  ret_errno (libsys_call6 LAMP_SYS_SELECT nfds readfds writefds exceptfds timeout_ms 0).

Definition socket (domain type protocol : Z) : M Z := ret_errno (libsys_call6 LAMP_SYS_SOCKET domain type protocol 0 0 0).
Definition connect (fd addr len : Z) : M Z := ret_errno (libsys_call6 LAMP_SYS_CONNECT fd addr len 0 0 0).
Definition bind_socket (fd addr len : Z) : M Z := ret_errno (libsys_call6 LAMP_SYS_BIND fd addr len 0 0 0).
Definition listen (fd backlog : Z) : M Z := ret_errno (libsys_call6 LAMP_SYS_LISTEN fd backlog 0 0 0 0).
Definition accept (fd addr len : Z) : M Z := ret_errno (libsys_call6 LAMP_SYS_ACCEPT fd addr len 0 0 0).
Definition send (fd buf len flags : Z) : M Z := ret_errno (libsys_call6 LAMP_SYS_SEND fd buf len flags 0 0).
Definition recv (fd buf len flags : Z) : M Z := ret_errno (libsys_call6 LAMP_SYS_RECV fd buf len flags 0 0).
Definition sendto (fd buf len flags dest_addr addrlen : Z) : M Z :=
  ret_errno (libsys_call6 LAMP_SYS_SEND fd buf len flags dest_addr addrlen).

Definition sigprocmask (how set oldset : Z) : M Z := ret_errno (libsys_sigprocmask how set oldset).
Definition kill (pid sig : Z) : M Z := ret_errno (libsys_kill pid sig).
Definition raise (sig : Z) : M Z := bind getpid (fun pid => kill pid sig).

(** The wrappers with a rule of their own. *)
Definition WNOHANG : Z := 1.
Definition waitpid (pid status options : Z) : M Z :=
  bind (libsys_waitpid pid status (Z.land options WNOHANG)) (fun rc =>
    if rc <? 0 then
      bind set_errno_from_libsys (fun _ =>
      bind (if (pid =? -1) && truthy (Z.land options WNOHANG) then set_errno ECHILD else ret tt) (fun _ =>
      ret (-1)))
    else bind (set_errno 0) (fun _ => ret rc)).
Definition wait (status : Z) : M Z := waitpid (-1) status 0.

Definition F_DUPFD : Z := 0.
Definition F_DUPFD_CLOEXEC : Z := 5.
Definition fcntl (fd cmd arg : Z) : M Z :=
  bind (libsys_fcntl fd cmd arg) (fun rc =>
    if rc <? 0 then
      bind set_errno_from_libsys (fun _ =>
      bind (if ((cmd =? F_DUPFD) || (cmd =? F_DUPFD_CLOEXEC)) && (32 <=? u32 arg) then set_errno EBADF else ret tt) (fun _ =>
      ret (-1)))
    else bind (set_errno 0) (fun _ => ret rc)).

Definition getcwd (buf size : Z) : M Z :=
  bind (libsys_getcwd buf size) (fun rc =>
    if rc <? 0 then bind set_errno_from_libsys (fun _ => ret 0)
    else bind (set_errno 0) (fun _ => ret buf)).

Definition fsync (fd : Z) : M Z := if fd <? 0 then bind (set_errno EBADF) (fun _ => ret (-1)) else ret 0.

(** ** The convention *)

(** What POSIX wants of a call that the kernel answered with the words [r]
    and [e]: the result and errno. *)
Definition outcome (r e : Z) : Z * Z :=
  if 0 <=? s32 r then (s32 r, 0) else if s32 r =? -1 then (-1, s32 e) else (-1, 0).

(** The process after the kernel answered. *)
Definition answered (p : process) (nr : lamp_sys) (args : list Z) (r : Z) (p' : process) : Prop :=
  exists w e, trap (p_kernel p) (p_mem p) (abi_call nr (map u32 args)) = (p_kernel p', p_mem p', w, e) /\
    (r, errno p') = outcome w e.

Lemma ret_errno_call6 nr a0 a1 a2 a3 a4 a5 p :
  let '(r, p') := ret_errno (libsys_call6 nr a0 a1 a2 a3 a4 a5) p in answered p nr [a0; a1; a2; a3; a4; a5] r p'.
Proof.
  unfold ret_errno, bind, libsys_call6, answered. cbn [map].
  destruct (trap _ _ _) as [[[k m] w] e] eqn:E. unfold set_errno_from_libsys, set_errno, ret. unfold outcome.
  destruct (Z.ltb_spec (s32 w) 0).
  - cbn. exists w, e. split; [reflexivity|]. destruct (Z.leb_spec 0 (s32 w)); [lia|]. by destruct (s32 w =? -1).
  - cbn. exists w, e. split; [reflexivity|]. by destruct (Z.leb_spec 0 (s32 w)); [|lia].
Qed.
End calls.
Arguments process K : clear implicits.
Arguments M K A : clear implicits.

(** Sequencing of library code that may trap. *)
Declare Scope call_scope.
Delimit Scope call_scope with call.
Notation "'let*' x ':=' m 'in' k" := (bind m (fun x => k))
  (at level 10, x pattern, m at level 100, k at level 200) : call_scope.

(** Every wrapper keeps the library's error convention, whatever the
    kernel does: the request carries the call's own number and its arguments
    as 32-bit words; an answer that is not negative is returned with errno 0;
    -1 is returned with the kernel's error number; any other negative answer
    becomes -1 with errno 0. *)
Theorem wrappers_convention {K} `{Kernel K} (p : process K) (a b c d e f : Z) :
  Forall (fun '(m, nr, args) => let '(r, p') := m p in answered p nr args r p')
    [ (getpid, LAMP_SYS_GETPID, [0; 0; 0; 0; 0; 0]);
      (read a b c, LAMP_SYS_READ, [a; b; c; 0; 0; 0]);
      (write a b c, LAMP_SYS_WRITE, [a; b; c; 0; 0; 0]);
      (open a b, LAMP_SYS_OPEN, [a; b; 0; 0; 0; 0]);
      (close a, LAMP_SYS_CLOSE, [a; 0; 0; 0; 0; 0]);
      (lseek a b c, LAMP_SYS_LSEEK, [a; b; c; 0; 0; 0]);
      (dup a, LAMP_SYS_DUP, [a; 0; 0; 0; 0; 0]);
      (dup2 a b, LAMP_SYS_DUP2, [a; b; 0; 0; 0; 0]);
      (pipe a, LAMP_SYS_PIPE, [a; 0; 0; 0; 0; 0]);
      (vfork, LAMP_SYS_VFORK, [0; 0; 0; 0; 0; 0]);
      (execve a b c, LAMP_SYS_EXECVE, [a; b; c; 0; 0; 0]);
      (unlink a, LAMP_SYS_UNLINK, [a; 0; 0; 0; 0; 0]);
      (link a b, LAMP_SYS_LINK, [a; b; 0; 0; 0; 0]);
      (symlink a b, LAMP_SYS_SYMLINK, [a; b; 0; 0; 0; 0]);
      (readlink a b c, LAMP_SYS_READLINK, [a; b; c; 0; 0; 0]);
      (rename a b, LAMP_SYS_RENAME, [a; b; 0; 0; 0; 0]);
      (mkdir a b, LAMP_SYS_MKDIR, [a; b; 0; 0; 0; 0]);
      (rmdir a, LAMP_SYS_RMDIR, [a; 0; 0; 0; 0; 0]);
      (access a b, LAMP_SYS_ACCESS, [a; b; 0; 0; 0; 0]);
      (chdir a, LAMP_SYS_CHDIR, [a; 0; 0; 0; 0; 0]);
      (ioctl a b c, LAMP_SYS_IOCTL, [a; b; c; 0; 0; 0]);
      (kill a b, LAMP_SYS_KILL, [a; b; 0; 0; 0; 0]);
      (sigprocmask a b c, LAMP_SYS_SIGPROCMASK, [a; b; c; 0; 0; 0]);
      (poll a b c, LAMP_SYS_POLL, [a; b; c; 0; 0; 0]);
      (sysinfo a, LAMP_SYS_SYSINFO, [a; 0; 0; 0; 0; 0]);
      (clock_gettime a b, LAMP_SYS_CLOCK_GETTIME, [a; b; 0; 0; 0; 0]);
      (clock_getres a b, LAMP_SYS_CLOCK_GETRES, [a; b; 0; 0; 0; 0]);
      (clock_settime a b, LAMP_SYS_CLOCK_SETTIME, [a; b; 0; 0; 0; 0]);
      (nanosleep a b, LAMP_SYS_NANOSLEEP, [a; b; 0; 0; 0; 0]);
      (gettimeofday a b, LAMP_SYS_GETTIMEOFDAY, [a; b; 0; 0; 0; 0]);
      (connect a b c, LAMP_SYS_CONNECT, [a; b; c; 0; 0; 0]);
      (bind_socket a b c, LAMP_SYS_BIND, [a; b; c; 0; 0; 0]);
      (accept a b c, LAMP_SYS_ACCEPT, [a; b; c; 0; 0; 0]);
      (sendto a b c d e f, LAMP_SYS_SEND, [a; b; c; d; e; f]);
      (recv a b c d, LAMP_SYS_RECV, [a; b; c; d; 0; 0]) ].
Proof. repeat constructor; apply ret_errno_call6. Qed.

(** [select] hands over its timeout in milliseconds, rounded down, as long as
    it fits an [int]; from 24.9 days on the count wraps, here to a negative
    one, which is how no timeout is written. *)
Theorem select_timeout {K} `{Kernel K} n r w e sec usec : 0 <= sec -> 0 <= usec < 10 ^ 6 -> sec * 1000 + usec / 1000 < 2 ^ 31 ->
  select n r w e (Some (sec, usec)) = ret_errno (libsys_call6 LAMP_SYS_SELECT n r w e (sec * 1000 + usec / 1000) 0) /\
  select n r w e None = ret_errno (libsys_call6 LAMP_SYS_SELECT n r w e (-1) 0) /\
  select n r w e (Some (2147484, 0)) = ret_errno (libsys_call6 LAMP_SYS_SELECT n r w e (-2147483296) 0).
Proof.
  intros Hs Hu Hb. split; [|by split]. unfold select.
  assert (0 <= usec / 1000) by (apply Z.div_pos; lia).
  rewrite (u32_small (sec * 1000)), (u32_small usec), u32_small by lia. unfold s32. by rewrite swrap_small by lia.
Qed.
