(* ===== verification/Stream.v ===== *)
(** * Streams: the unbuffered [FILE] of [lib/libc_stdio.c]

    A stream is a file descriptor with two indicators and one character of
    pushback.  A null [FILE *] is [None]; a function that changes the stream
    returns it.  [frame] is the address of the one-byte local the reading
    functions hand to [read]. *)

From S2P Require Import Prelude Heap Regex Syscall CString.
#[local] Open Scope call_scope.

Definition EOF : Z := -1.
Definition SEEK_SET : Z := 0.
Definition SEEK_CUR : Z := 1.
Definition SEEK_END : Z := 2.
Definition O_RDONLY : Z := 0.
Definition O_WRONLY : Z := 1.
Definition O_CREAT : Z := 0x40.
Definition O_TRUNC : Z := 0x200.
Definition sizeof_FILE : Z := 16.

Record FILE : Type := File {
  f_fd : Z;
  f_eof : Z;
  f_err : Z;
  f_pushback : Z
}.

Definition file_fd (stream : option FILE) : Z := match stream with Some f => f_fd f | None => 1 end.

(** The assignments to a stream that may be null. *)
Definition set_eof (e : Z) (stream : option FILE) : option FILE :=
  match stream with Some f => Some (File (f_fd f) e (f_err f) (f_pushback f)) | None => None end.
Definition take_pushback (stream : option FILE) : option FILE :=
  match stream with Some f => Some (File (f_fd f) (f_eof f) (f_err f) (-1)) | None => None end.

(** The pushed-back character, if there is one. *)
Definition pushback (stream : option FILE) : option Z :=
  match stream with Some f => if 0 <=? f_pushback f then Some (f_pushback f) else None | None => None end.

Definition feof (stream : option FILE) : Z := match stream with Some f => f_eof f | None => 1 end.
Definition ferror (stream : option FILE) : Z := match stream with Some f => f_err f | None => 1 end.
Definition clearerr (stream : option FILE) : option FILE :=
  match stream with Some f => Some (File (f_fd f) 0 0 (f_pushback f)) | None => None end.

Definition ungetc (c : Z) (stream : option FILE) : Z * option FILE :=
  match stream with
  | Some f =>
      if (c =? EOF) || (0 <=? f_pushback f) then (EOF, stream)
      else (u8 c, Some (File (f_fd f) 0 (f_err f) (u8 c)))
  | None => (EOF, None)
  end.

Section stream.
Context {K : Type} `{Kernel K}.
Context (frame : Z).

Definition load8 (a : Z) : M K Z := fun p => (p_mem p a, p).
Definition store8 (a v : Z) : M K unit :=
  fun p => (tt, Proc (p_kernel p) (wr8 (p_mem p) a v) (errno p) (libsys_errno p)).

(** ** Reading *)

Definition fgetc (stream : option FILE) : M K (Z * option FILE) :=
  match pushback stream with
  | Some c => ret (c, take_pushback stream)
  | None =>
      let* n := read (file_fd stream) frame 1 in
      if n =? 1 then let* ch := load8 frame in ret (ch, stream)
      else ret (EOF, set_eof 1 stream)
  end.

(** The loop of [fread]: the number of bytes read; [None] when the fuel is
    used up. *)
Fixpoint fread_loop (fuel : nat) (out total done : Z) (stream : option FILE) : M K (option (Z * option FILE)) :=
  match fuel with
  | O => ret None
  | S fuel =>
      if done <? total then
        match pushback stream with
        | Some c =>
            let* _ := store8 (out + done) c in
            fread_loop fuel out total (done + 1) (take_pushback stream)
        | None =>
            let* n := read (file_fd stream) (out + done) (total - done) in
            if n <=? 0 then ret (Some (done, set_eof 1 stream))
            else fread_loop fuel out total (done + n) stream
        end
      else ret (Some (done, stream))
  end.

(** The result and the stream; every round reads a byte or ends, so [total]
    rounds and the last test are enough. *)
Definition fread (ptr size nmemb : Z) (stream : option FILE) : M K (option (Z * option FILE)) :=
  let total := u32 (size * nmemb) in
  if (size =? 0) || (nmemb =? 0) then ret (Some (0, stream))
  else
    let* r := fread_loop (S (Z.to_nat total)) ptr total 0 stream in
    ret (match r with Some (done, stream) => Some (done / size, stream) | None => None end).

(** The loop of [fgets] with [n] characters of room left. *)
Fixpoint fgets_loop (n : nat) (s i : Z) (stream : option FILE) : M K Z :=
  match n with
  | O => ret i
  | S n =>
      let* r := read (file_fd stream) frame 1 in
      if negb (r =? 1) then ret i
      else
        let* c := load8 frame in
        let* _ := store8 (s + i) c in
        if c =? 10 then ret (i + 1) else fgets_loop n s (i + 1) stream
  end.

Definition fgets (s size : Z) (stream : option FILE) : M K Z :=
  if size <=? 0 then ret 0
  else
    let* i := fgets_loop (Z.to_nat (size - 1)) s 0 stream in
    if i =? 0 then ret 0 else let* _ := store8 (s + i) 0 in ret s.

(** ** Positions *)

Definition fseeko (stream : option FILE) (offset whence : Z) : M K (Z * option FILE) :=
  let adjusted :=
    match pushback stream with Some _ => if whence =? SEEK_CUR then offset - 1 else offset | None => offset end in
  let* r := lseek (file_fd stream) adjusted whence in
  if r <? 0 then ret (-1, stream)
  else ret (0, set_eof 0 (take_pushback stream)).

Definition fseek (stream : option FILE) (offset whence : Z) : M K (Z * option FILE) := fseeko stream (s32 offset) whence.

Definition ftell (stream : option FILE) : M K Z :=
  let* pos := lseek (file_fd stream) 0 SEEK_CUR in
  if pos <? 0 then ret (-1)
  else ret (match pushback stream with Some _ => pos - 1 | None => pos end).

Definition rewind (stream : option FILE) : M K (option FILE) :=
  let* (_, stream) := fseeko stream 0 SEEK_SET in ret (clearerr stream).

(** ** Writing *)

Definition fwrite (ptr size nmemb : Z) (stream : option FILE) : M K Z :=
  let* n := write (file_fd stream) ptr (u32 (size * nmemb)) in
  ret (if n <=? 0 then 0 else n / size).

Definition fputc (c : Z) (stream : option FILE) : M K Z :=
  let* _ := store8 frame (u8 c) in
  let* n := write (file_fd stream) frame 1 in
  ret (if n =? 1 then c else EOF).

(** [fuel] is for [strlen]. *)
Definition fputs (fuel : nat) (s : Z) (stream : option FILE) : M K (option Z) := fun p =>
  match strlen fuel (p_mem p) s with
  | None => (None, p)
  | Some len => (let* n := write (file_fd stream) s len in ret (Some (if n <? 0 then EOF else 0))) p
  end.

(** ** Opening and closing: the [FILE] is a block of an allocator *)

Section alloc.
Context {A : Type} `{Allocator A}.

(** The pointer and what it points to; 0 for null. *)
Definition fdopen (heap : A) (fd : Z) : A * Z * option FILE :=
  let '(heap, f) := al_malloc heap sizeof_FILE in
  (heap, f, if truthy f then Some (File fd 0 0 (-1)) else None).

(** [mode0]: the first character of the mode, 0 for a null mode. *)
Definition mode_flags (mode0 : Z) : Z := if mode0 =? 119 then Z.lor (Z.lor O_WRONLY O_CREAT) O_TRUNC else O_RDONLY.

Definition fopen (heap : A) (path mode0 : Z) : M K (A * Z * option FILE) :=
  let* fd := open path (mode_flags mode0) in
  ret (if fd <? 0 then (heap, 0, None) else fdopen heap fd).

(** [None] for the old stream is the null pointer: a plain [fopen]. *)
Definition freopen (heap : A) (path mode0 ptr : Z) (stream : option FILE) : M K (A * Z * option FILE) :=
  match stream with
  | None => fopen heap path mode0
  | Some f =>
      let* fd := open path (mode_flags mode0) in
      if fd <? 0 then ret (heap, 0, stream)
      else
        let* _ := close (f_fd f) in
        ret (heap, ptr, Some (File fd 0 0 (-1)))
  end.

(** [standard]: the stream is one of the three static objects. *)
Definition fclose (heap : A) (standard : bool) (ptr : Z) (stream : option FILE) : M K (A * Z) :=
  let fd := file_fd stream in
  let heap := if standard then heap else al_free heap ptr in
  let* r := close fd in
  ret (heap, r).

(** ** Lines *)

(** What a call of [getline] leaves: its result, [*lineptr], [*n] (0 where
    the pointer is null) and the bytes it stored from the start of the
    buffer. *)
Record line_result : Type := LineResult {
  l_ret : Z;
  l_ptr : Z;
  l_cap : Z;
  l_bytes : list Z
}.

(** The loop: the buffer, its capacity, what is in it, the last character. *)
Fixpoint getline_loop (fuel : nat) (heap : A) (buf cap : Z) (bytes : list Z) (stream : option FILE) :
    M K (option (A * option (Z * Z * list Z * Z) * option FILE)) :=
  match fuel with
  | O => ret None
  | S fuel =>
      let* (c, stream) := fgetc stream in
      if c =? EOF then ret (Some (heap, Some (buf, cap, bytes, c), stream))
      else
        let len := Z.of_nat (length bytes) in
        let grow := cap <=? len + 1 in
        let cap := if grow then u32 (cap * 2) else cap in
        let '(heap, nb) := if grow then al_realloc heap buf cap else (heap, buf) in
        if grow && (nb =? 0) then let* _ := set_errno ENOMEM in ret (Some (heap, None, stream))
        else
          let bytes := bytes ++ [c] in
          if c =? 10 then ret (Some (heap, Some (nb, cap, bytes, c), stream))
          else getline_loop fuel heap nb cap bytes stream
  end.

(** The rest of [getline] for the values of [*lineptr] and [*n]. *)
Definition getline_into (fuel : nat) (heap : A) (lineptr n : Z) (stream : option FILE) : M K (option (A * line_result * option FILE)) :=
  let cap := if truthy n then n else 128 in
  let '(heap, buf) := if truthy lineptr then (heap, lineptr) else al_malloc heap cap in
  if buf =? 0 then let* _ := set_errno ENOMEM in ret (Some (heap, LineResult (-1) lineptr n [], stream))
  else
    let* r := getline_loop fuel heap buf cap [] stream in
    ret
      match r with
      | None => None
      | Some (heap, None, stream) => Some (heap, LineResult (-1) lineptr n [], stream)
      | Some (heap, Some (buf, cap, bytes, c), stream) =>
          let len := Z.of_nat (length bytes) in
          if (len =? 0) && (c =? EOF) then
            Some (if truthy lineptr then heap else al_free heap buf, LineResult (-1) lineptr n [], stream)
          else Some (heap, LineResult len buf cap (bytes ++ [0]), stream)
      end.

(** [lineptr] and [n] are what the two pointers point to, [None] for null. *)
Definition getline (fuel : nat) (heap : A) (lineptr n : option Z) (stream : option FILE) : M K (option (A * line_result * option FILE)) :=
  match lineptr, n with
  | Some lineptr, Some n => getline_into fuel heap lineptr n stream
  | _, _ => let* _ := set_errno EINVAL in ret (Some (heap, LineResult (-1) (default 0 lineptr) (default 0 n) [], stream))
  end.
End alloc.
End stream.
