(* ===== verification/StreamSpec.v ===== *)
(** * Streams: the file interface of the kernel and the abstract stream

    [FileKernel] states what the library relies on when it reads and seeks in
    a regular file: [read] transfers at least one byte before the end of the
    file, possibly fewer than asked for, and none at the end; [lseek] moves
    the offset, or fails without moving it.  The abstract stream is a position
    in the file's bytes, one slot of pushback and the end indicator. *)

From S2P Require Import Prelude Heap Regex Syscall CString Stream.
#[local] Open Scope call_scope.

(** ** What the kernel promises *)

Definition bytes (l : list Z) : Prop := Forall (fun b => 0 <= b < 256) l.

(** Where [lseek] goes; [None] is an error. *)
Definition lseek_target (size pos off whence : Z) : option Z :=
  let base := if whence =? SEEK_SET then Some 0 else if whence =? SEEK_CUR then Some pos
              else if whence =? SEEK_END then Some size else None in
  b ← base;
  let t := b + off in
  if (0 <=? t) && (t <? 2 ^ 31) then Some t else None.

Class FileKernel (K : Type) `{Kernel K} : Type := {
  (** The bytes of the regular file open at a descriptor, and its offset. *)
  file : K -> Z -> option (list Z * Z);
  file_ok k fd c pos : file k fd = Some (c, pos) -> bytes c /\ 0 <= pos < 2 ^ 31 /\ Z.of_nat (length c) < 2 ^ 31;
  read_law k m fd buf len c pos :
    file k fd = Some (c, pos) -> 0 < len < 2 ^ 31 -> 0 <= buf -> buf + len <= 2 ^ 32 ->
    exists n k' m' e,
      trap k m (abi_call LAMP_SYS_READ [fd; buf; len; 0; 0; 0]) = (k', m', Z.of_nat n, e) /\
      Z.of_nat n <= len /\ Z.of_nat n <= Z.max 0 (Z.of_nat (length c) - pos) /\
      (n = 0%nat <-> Z.of_nat (length c) <= pos) /\
      (forall x, m' x = overlay m buf (take n (drop (Z.to_nat pos) c)) x) /\
      file k' fd = Some (c, pos + Z.of_nat n);
  lseek_law k m fd off whence c pos :
    file k fd = Some (c, pos) -> - 2 ^ 31 <= off < 2 ^ 31 -> 0 <= whence < 2 ^ 31 ->
    exists k' e,
      trap k m (abi_call LAMP_SYS_LSEEK [fd; u32 off; whence; 0; 0; 0]) =
        (k', m, match lseek_target (Z.of_nat (length c)) pos off whence with Some t => t | None => 2 ^ 32 - 1 end, e) /\
      file k' fd = Some (c, match lseek_target (Z.of_nat (length c)) pos off whence with Some t => t | None => pos end)
}.

(** What a file holds after [d] is written at [pos]; a gap is filled with
    zeros. *)
Definition splice (c : list Z) (pos : nat) (d : list Z) : list Z :=
  match d with
  | [] => c
  | _ => take pos c ++ replicate (pos - length c) 0 ++ d ++ drop (pos + length d) c
  end.

(** A file that can be written: [write] transfers a first part of the buffer
    to the offset, all of it or not, or fails and leaves the file alone. *)
Class WritableKernel (K : Type) `{FileKernel K} : Type := {
  writable : K -> Z -> bool;
  write_law k m fd buf len c pos :
    file k fd = Some (c, pos) -> writable k fd = true -> 0 <= len -> pos + len < 2 ^ 31 ->
    0 <= buf -> buf + len <= 2 ^ 32 -> bytes (load m buf (Z.to_nat len)) ->
    exists k' r e,
      trap k m (abi_call LAMP_SYS_WRITE [fd; buf; len; 0; 0; 0]) = (k', m, r, e) /\ writable k' fd = true /\
      ((r = 2 ^ 32 - 1 /\ file k' fd = Some (c, pos)) \/
       (exists n, r = Z.of_nat n /\ Z.of_nat n <= len /\
         file k' fd = Some (splice c (Z.to_nat pos) (load m buf n), pos + Z.of_nat n)))
}.

(** ** The abstract stream *)

Record astream : Type := AStream {
  a_pos : Z;
  a_slot : option Z;
  a_eof : Z
}.

Section abstract.
(** The bytes of the file. *)
Context (c : list Z).

Definition slot_list (o : option Z) : list Z := match o with Some b => [b] | None => [] end.

(** What is left to read. *)
Definition avail (st : astream) : list Z := slot_list (a_slot st) ++ drop (Z.to_nat (a_pos st)) c.

(** Reading [n] bytes: what there is of them; a short read is the end. *)
Definition a_read (n : nat) (st : astream) : list Z * astream :=
  match n with
  | O => ([], st)
  | _ =>
      let got := take n (avail st) in
      (got, AStream (a_pos st + Z.of_nat (length got) - Z.of_nat (length (slot_list (a_slot st)))) None
              (if decide (length got < n)%nat then 1 else a_eof st))
  end.

Definition a_getc (st : astream) : Z * astream :=
  let '(got, st) := a_read 1 st in (match got with b :: _ => b | [] => EOF end, st).

Definition a_ungetc (b : Z) (st : astream) : Z * astream :=
  match a_slot st with
  | Some _ => (EOF, st)
  | None => if b =? EOF then (EOF, st) else (u8 b, AStream (a_pos st) (Some (u8 b)) 0)
  end.

Definition a_tell (st : astream) : Z := a_pos st - Z.of_nat (length (slot_list (a_slot st))).

(** Seeking counts from the position [a_tell] reports. *)
Definition a_seek (off whence : Z) (st : astream) : Z * astream :=
  let off := if whence =? SEEK_CUR then off - Z.of_nat (length (slot_list (a_slot st))) else off in
  match lseek_target (Z.of_nat (length c)) (a_pos st) off whence with
  | Some t => (0, AStream t None 0)
  | None => (-1, st)
  end.

(** A line: up to the first newline, which belongs to it. *)
Fixpoint line (l : list Z) : list Z :=
  match l with
  | [] => []
  | b :: l => b :: (if b =? 10 then [] else line l)
  end.

(** [fgets] as the code has it: it reads past the pushback, which stays, and
    leaves the end indicator alone. *)
Definition a_gets (n : nat) (st : astream) : list Z * astream :=
  let got := line (take n (drop (Z.to_nat (a_pos st)) c)) in
  (got, AStream (a_pos st + Z.of_nat (length got)) (a_slot st) (a_eof st)).

Lemma a_read_none n st : avail st = [] -> (0 < n)%nat -> a_read n st = ([], AStream (a_pos st) None 1).
Proof.
  intros E Hn. unfold a_read. destruct n as [|n]; [lia|]. rewrite E, take_nil. cbn [length].
  destruct (a_slot st) as [b|] eqn:Es; [by unfold avail in E; rewrite Es in E|]. cbn [slot_list length].
  rewrite decide_True by lia. do 2 f_equal. lia.
Qed.

(** Reading in two parts. *)
Lemma a_read_slot n b st : a_slot st = Some b ->
  a_read (S n) st = let '(got, st') := a_read n (AStream (a_pos st) None (a_eof st)) in (b :: got, st').
Proof.
  intros E. unfold a_read, avail. rewrite E. cbn [slot_list app a_slot a_pos a_eof].
  destruct n as [|n].
  { set (l := drop _ c). change (take 1 (b :: l)) with [b]. cbn [length]. rewrite decide_False by lia. f_equal. f_equal. lia. }
  set (l := drop _ c). change (take (S (S n)) (b :: l)) with (b :: take (S n) l). cbn [length].
  f_equal. f_equal; [lia|]. destruct (decide (S _ < S (S n))%nat), (decide (length (take (S n) l) < S n)%nat); (lia || done).
Qed.

Lemma a_read_split n k st : a_slot st = None -> 0 <= a_pos st -> (0 < k <= n)%nat ->
  Z.of_nat k <= Z.of_nat (length c) - a_pos st ->
  a_read n st =
    let '(got, st') := a_read (n - k) (AStream (a_pos st + Z.of_nat k) None (a_eof st)) in
    (take k (drop (Z.to_nat (a_pos st)) c) ++ got, st').
Proof.
  intros E Hp Hk Hl. unfold a_read, avail. rewrite E. cbn [slot_list app a_slot a_pos a_eof length].
  destruct n as [|n]; [lia|]. set (l := drop (Z.to_nat (a_pos st)) c).
  assert (k <= length l)%nat as Hkl by (unfold l; rewrite length_drop; lia).
  replace (Z.to_nat (a_pos st + Z.of_nat k)) with (Z.to_nat (a_pos st) + k)%nat by lia. rewrite <- drop_drop. fold l.
  destruct (S n - k)%nat as [|d] eqn:Ed.
  - assert (S n = k) as -> by lia. rewrite app_nil_r. f_equal. f_equal; [rewrite length_take; lia|].
    rewrite decide_False by (rewrite length_take; lia). done.
  - replace (S n) with (k + S d)%nat by lia. rewrite <- take_take_drop. rewrite length_app.
    rewrite (length_take_le l k) by done. f_equal. f_equal; [lia|].
    destruct (decide (k + _ < k + S d)%nat), (decide (length (take (S d) (drop k l)) < S d)%nat); (lia || done).
Qed.
End abstract.

(** ** What is written *)

Lemma length_load m a n : length (load m a n) = n.
Proof. unfold load. by rewrite length_map, length_seq. Qed.

Lemma take_load m a n k : (k <= n)%nat -> take k (load m a n) = load m a k.
Proof. intros H. replace n with (k + (n - k))%nat by lia. rewrite load_app, take_app_le by (by rewrite length_load). by rewrite take_ge by (by rewrite length_load). Qed.

Lemma splice_head (c : list Z) pos : length (take pos c ++ replicate (pos - length c) 0) = pos.
Proof. rewrite length_app, length_take, length_replicate. lia. Qed.

(** What was written is found from its position on. *)
Lemma drop_splice c pos d : d <> [] -> drop pos (splice c pos d) = d ++ drop (pos + length d) c.
Proof.
  intros Hd. unfold splice. destruct d as [|b d]; [done|]. rewrite app_assoc.
  rewrite drop_app_ge by (by rewrite splice_head). by rewrite splice_head, Nat.sub_diag.
Qed.

Lemma splice_bytes c pos d : bytes c -> bytes d -> bytes (splice c pos d).
Proof.
  intros Hc Hd. unfold splice. destruct d as [|b d]; [done|]. unfold bytes in *. rewrite !Forall_app.
  split; [by apply Forall_take|]. split; [apply Forall_replicate; lia|]. split; [done|by apply Forall_drop].
Qed.

Lemma length_splice c pos d : (length (splice c pos d) <= Nat.max (length c) (pos + length d))%nat.
Proof.
  unfold splice. destruct d as [|b d]; [lia|]. rewrite !length_app, length_take, length_replicate, length_drop. lia.
Qed.
