(* ===== verification/StreamRead.v ===== *)
(** * Streams: the reading functions simulate the abstract stream *)

From S2P Require Import Prelude Heap Regex Syscall CString Stream StreamSpec.
#[local] Open Scope call_scope.

Section sim.
Context {K : Type} `{FileKernel K}.
Context (frame fd : Z) (c : list Z).
Context (Hframe : 0 <= frame < 2 ^ 32) (Hfd : 0 <= fd < 2 ^ 32).

(** A call that the kernel answers with a small non-negative number. *)
Lemma ret_errno_ok nr a0 a1 a2 a3 a4 a5 (p : process K) k m r e :
  trap (p_kernel p) (p_mem p) (abi_call nr [u32 a0; u32 a1; u32 a2; u32 a3; u32 a4; u32 a5]) = (k, m, r, e) -> 0 <= r < 2 ^ 31 ->
  ret_errno (libsys_call6 nr a0 a1 a2 a3 a4 a5) p = (r, Proc k m 0 0).
Proof.
  intros E Hr. unfold ret_errno, bind, libsys_call6. rewrite E. assert (s32 r = r) as -> by (apply swrap_small; lia).
  destruct (Z.ltb_spec r 0); [lia|]. destruct (Z.eqb_spec r (-1)); [lia|]. done.
Qed.

Lemma read_file p pos buf len : file (p_kernel p) fd = Some (c, pos) -> 0 < len < 2 ^ 31 -> 0 <= buf -> buf + len <= 2 ^ 32 ->
  exists n p', read fd buf len p = (Z.of_nat n, p') /\
    Z.of_nat n <= len /\ Z.of_nat n <= Z.max 0 (Z.of_nat (length c) - pos) /\ (n = 0%nat <-> Z.of_nat (length c) <= pos) /\
    (forall x, p_mem p' x = overlay (p_mem p) buf (take n (drop (Z.to_nat pos) c)) x) /\
    file (p_kernel p') fd = Some (c, pos + Z.of_nat n).
Proof.
  intros Hf Hl Hb Hbl. destruct (read_law _ (p_mem p) fd buf len c pos Hf Hl Hb Hbl) as (n & k' & m' & e & E & H1 & H2 & H3 & H4 & H5).
  exists n, (Proc k' m' 0 0). split; [|by repeat (split; [done|])].
  unfold read, libsys_read. apply (ret_errno_ok _ _ _ _ _ _ _ _ _ _ _ e); [|lia]. rewrite !u32_small by lia. exact E.
Qed.

(** The stream [f] in process [p] stands for the abstract stream. *)
Record represents (f : FILE) (p : process K) (st : astream) : Prop := {
  rep_fd : f_fd f = fd;
  rep_file : file (p_kernel p) fd = Some (c, a_pos st);
  rep_slot : f_pushback f = match a_slot st with Some b => b | None => -1 end;
  rep_byte : match a_slot st with Some b => 0 <= b < 256 | None => True end;
  rep_eof : f_eof f = a_eof st
}.

Lemma represents_pushback f p st : represents f p st -> pushback (Some f) = a_slot st.
Proof.
  intros R. unfold pushback. rewrite (rep_slot _ _ _ R). pose proof (rep_byte _ _ _ R). destruct (a_slot st) as [b|]; [|done].
  by destruct (Z.leb_spec 0 b); [|lia].
Qed.

Lemma represents_pos f p st : represents f p st -> 0 <= a_pos st < 2 ^ 31.
Proof. intros R. by apply (file_ok _ _ _ _ (rep_file _ _ _ R)). Qed.

(** The steps the functions take. *)
Lemma represents_store f p st a v k' m' : represents f p st -> k' = p_kernel p ->
  represents f (Proc k' m' a v) st.
Proof. intros R ->. destruct R. by split. Qed.

Lemma represents_taken f p st b : represents f p st -> a_slot st = Some b ->
  represents (File (f_fd f) (f_eof f) (f_err f) (-1)) p (AStream (a_pos st) None (a_eof st)).
Proof. intros R E. destruct R as [R1 R2 R3 R4 R5]. by split. Qed.

Lemma represents_moved f p p' st n : represents f p st -> a_slot st = None -> file (p_kernel p') fd = Some (c, a_pos st + n) ->
  represents f p' (AStream (a_pos st + n) None (a_eof st)).
Proof. intros R E Hf. destruct R as [R1 R2 R3 R4 R5]. rewrite E in R3. by split. Qed.

Lemma represents_end f p p' st : represents f p st -> a_slot st = None -> file (p_kernel p') fd = Some (c, a_pos st) ->
  represents (File (f_fd f) 1 (f_err f) (f_pushback f)) p' (AStream (a_pos st) None 1).
Proof. intros R E Hf. destruct R as [R1 R2 R3 R4 R5]. rewrite E in R3. by split. Qed.

Lemma avail_slot st b : a_slot st = Some b -> avail c st = b :: drop (Z.to_nat (a_pos st)) c.
Proof. intros E. unfold avail. by rewrite E. Qed.

Lemma avail_none st : a_slot st = None -> avail c st = drop (Z.to_nat (a_pos st)) c.
Proof. intros E. unfold avail. by rewrite E. Qed.

(** ** [fread] *)

Lemma fread_loop_spec fuel : forall f p st out total done, represents f p st ->
  0 <= done <= total -> total < 2 ^ 31 -> (Z.to_nat (total - done) < fuel)%nat -> 0 <= out -> out + total <= 2 ^ 32 ->
  exists f' p', let '(got, st') := a_read c (Z.to_nat (total - done)) st in
    fread_loop fuel out total done (Some f) p = (Some (done + Z.of_nat (length got), Some f'), p') /\
    represents f' p' st' /\ (forall x, p_mem p' x = overlay (p_mem p) (out + done) got x).
Proof.
  induction fuel as [|fuel IH]; intros f p st out total done R Hd Ht Hf Ho Hot; [lia|]. cbn [fread_loop].
  destruct (Z.ltb_spec done total) as [L|L].
  2:{ exists f, p. replace (Z.to_nat (total - done)) with 0%nat by lia. cbn [a_read length]. rewrite Z.add_0_r.
      split; [done|]. split; [done|]. intros x. by rewrite overlay_nil. }
  rewrite (represents_pushback _ _ _ R). destruct (a_slot st) as [b|] eqn:Es.
  - unfold bind at 1, store8. pose proof (rep_byte _ _ _ R) as Hb. rewrite Es in Hb.
    set (p1 := Proc _ _ _ _). assert (represents (File (f_fd f) (f_eof f) (f_err f) (-1)) p1 (AStream (a_pos st) None (a_eof st))) as R1.
    { eapply represents_taken; [|exact Es]. by eapply represents_store. }
    destruct (IH _ p1 _ out total (done + 1) R1) as (f' & p' & Hr); [lia..|]. exists f', p'.
    replace (Z.to_nat (total - done)) with (S (Z.to_nat (total - (done + 1)))) by lia. rewrite (a_read_slot c _ b) by done.
    destruct (a_read c _ (AStream (a_pos st) None (a_eof st))) as [got st'] eqn:Eg. destruct Hr as (E & R' & Hm).
    split; [|split; [exact R'|]].
    + cbn [take_pushback]. rewrite E. cbn [length]. do 3 f_equal. lia.
    + intros x. rewrite Hm. change (b :: got) with ([b] ++ got). rewrite overlay_app. cbn [length].
      replace (out + (done + 1)) with (out + done + Z.of_nat 1) by lia. apply overlay_ext. intros y. cbn [p_mem p1]. apply overlay_wr8. lia.
  - unfold bind at 1. cbn [file_fd]. rewrite (rep_fd _ _ _ R).
    destruct (read_file p (a_pos st) (out + done) (total - done) (rep_file _ _ _ R)) as (n & p1 & E & H1 & H2 & H3 & H4 & H5); [lia..|].
    rewrite E. destruct (Z.leb_spec (Z.of_nat n) 0) as [L0|L0].
    + assert (n = 0%nat) as -> by lia. eexists _, p1. pose proof (proj1 H3 eq_refl) as Hend.
      rewrite a_read_none by (try (rewrite avail_none by done; apply drop_ge); lia). cbn [length]. rewrite Z.add_0_r in *.
      split; [reflexivity|]. split; [by apply (represents_end _ p)|]. intros x. rewrite H4. by rewrite !overlay_nil.
    + destruct (IH f p1 (AStream (a_pos st + Z.of_nat n) None (a_eof st)) out total (done + Z.of_nat n)) as (f' & p' & Hr);
        [by apply (represents_moved _ p)|lia..|]. exists f', p'. pose proof (represents_pos _ _ _ R).
      rewrite (a_read_split c _ n) by (done || lia). replace (Z.to_nat (total - done) - n)%nat with (Z.to_nat (total - (done + Z.of_nat n))) by lia.
      destruct (a_read c _ _) as [got st'] eqn:Eg. destruct Hr as (E' & R' & Hm).
      assert (length (take n (drop (Z.to_nat (a_pos st)) c)) = n) as En by (rewrite length_take_le; [done|rewrite length_drop; lia]).
      split; [|split; [exact R'|]].
      * rewrite E', length_app, En. do 3 f_equal. lia.
      * intros x. rewrite Hm, overlay_app, En. rewrite Z.add_assoc. by apply overlay_ext.
Qed.

Lemma fread_spec f p st ptr size nmemb : represents f p st -> 0 <= size -> 0 <= nmemb -> size * nmemb < 2 ^ 31 ->
  0 <= ptr -> ptr + size * nmemb <= 2 ^ 32 ->
  exists f' p', let '(got, st') := a_read c (Z.to_nat (size * nmemb)) st in
    fread ptr size nmemb (Some f) p = (Some (Z.of_nat (length got) / size, Some f'), p') /\
    represents f' p' st' /\ (forall x, p_mem p' x = overlay (p_mem p) ptr got x).
Proof.
  intros R Hs Hn Hm Hp Hpm. unfold fread. destruct (Z.eqb_spec size 0) as [->|]; [|destruct (Z.eqb_spec nmemb 0) as [->|]].
  1,2: exists f, p; rewrite ?Z.mul_0_r, ?Z.mul_0_l; cbn; (split; [done|split; [done|intros x; by rewrite overlay_nil]]).
  cbn [orb]. rewrite u32_small by lia.
  destruct (fread_loop_spec (S (Z.to_nat (size * nmemb))) f p st ptr (size * nmemb) 0 R) as (f' & p' & Hr); [lia..|].
  exists f', p'. rewrite Z.sub_0_r in Hr. destruct (a_read c _ st) as [got st']. destruct Hr as (E & R' & Hx). unfold bind. rewrite E.
  split; [by rewrite Z.add_0_l|]. split; [exact R'|]. by rewrite Z.add_0_r in Hx.
Qed.

(** ** [fgetc] and [ungetc] *)

Lemma fgetc_spec f p st : represents f p st ->
  exists f' p', let '(r, st') := a_getc c st in
    fgetc frame (Some f) p = ((r, Some f'), p') /\ represents f' p' st' /\
    (forall x, x <> frame -> p_mem p' x = p_mem p x).
Proof.
  intros R. unfold fgetc, a_getc. rewrite (represents_pushback _ _ _ R). destruct (a_slot st) as [b|] eqn:Es.
  - eexists _, p. rewrite (a_read_slot c 0 b) by done. cbn [a_read]. split; [reflexivity|]. split; [by eapply represents_taken|done].
  - unfold bind at 1. cbn [file_fd]. rewrite (rep_fd _ _ _ R).
    destruct (read_file p (a_pos st) frame 1 (rep_file _ _ _ R)) as (n & p1 & E & H1 & H2 & H3 & H4 & H5); [lia..|].
    rewrite E. pose proof (represents_pos _ _ _ R) as Hp.
    assert (forall x, x <> frame -> p_mem p1 x = p_mem p x) as Hx.
    { intros x Hx. rewrite H4. apply overlay_out. rewrite length_take. lia. }
    destruct (Z.eqb_spec (Z.of_nat n) 1) as [E1|E1].
    + assert (n = 1%nat) as -> by lia. rewrite (a_read_split c 1 1) by (done || lia). cbn [Nat.sub a_read]. rewrite app_nil_r.
      destruct (drop (Z.to_nat (a_pos st)) c) as [|b l] eqn:Ed.
      { assert (length (drop (Z.to_nat (a_pos st)) c) = 0%nat) as El by (by rewrite Ed). rewrite length_drop in El. lia. }
      eexists f, p1. split; [|split; [by apply (represents_moved _ p)|exact Hx]].
      unfold bind, load8, ret. rewrite H4. change (take 1 (b :: l)) with [b]. unfold overlay. cbn [length].
      destruct (Z.leb_spec frame frame), (Z.ltb_spec frame (frame + Z.of_nat 1)); try lia. cbn [andb]. by rewrite Z.sub_diag.
    + assert (n = 0%nat) as -> by lia. pose proof (proj1 H3 eq_refl) as Hend.
      rewrite a_read_none by (try (rewrite avail_none by done; apply drop_ge); lia).
      eexists _, p1. split; [reflexivity|]. rewrite Z.add_0_r in H5. split; [by apply (represents_end _ p)|exact Hx].
Qed.

Lemma ungetc_spec f p st b : represents f p st ->
  exists f', let '(r, st') := a_ungetc b st in ungetc b (Some f) = (r, Some f') /\ represents f' p st'.
Proof.
  intros R. unfold ungetc, a_ungetc. pose proof (represents_pushback _ _ _ R) as Ep. unfold pushback in Ep.
  destruct R as [R1 R2 R3 R4 R5]. destruct (a_slot st) as [b'|] eqn:Es.
  - exists f. destruct (0 <=? f_pushback f); [|done]. rewrite orb_true_r. split; [done|]. split; rewrite ?Es; done.
  - destruct (0 <=? f_pushback f); [done|]. rewrite orb_false_r. destruct (b =? EOF).
    + exists f. split; [done|]. split; rewrite ?Es; done.
    + eexists. split; [reflexivity|]. split; try done. cbn [a_slot]. apply u8_range.
Qed.
End sim.
