(* ===== verification/RamDisk.v ===== *)
(** * A kernel with one file in memory

    The interface [FileKernel] can be met: descriptor 3 is a file held in
    memory; a [read] transfers at most three bytes and a [write] at most 64, so
    that short transfers happen.  Every other call fails with EINVAL. *)

From S2P Require Import Prelude Heap Syscall CString Stream StreamSpec.

Record disk : Type := Disk {
  d_bytes : list Z;
  d_pos : Z
}.

Definition disk_read (k : disk) (m : memory) (buf len : Z) : disk * memory * Z * Z :=
  let got := take (Z.to_nat (Z.min 3 len)) (drop (Z.to_nat (d_pos k)) (d_bytes k)) in
  (Disk (d_bytes k) (d_pos k + Z.of_nat (length got)), overlay m buf got, Z.of_nat (length got), 0).

Definition disk_lseek (k : disk) (m : memory) (off whence : Z) : disk * memory * Z * Z :=
  match lseek_target (Z.of_nat (length (d_bytes k))) (d_pos k) off whence with
  | Some t => (Disk (d_bytes k) t, m, t, 0)
  | None => (k, m, 2 ^ 32 - 1, EINVAL)
  end.

(** At most 64 bytes a call; past 2^31 bytes the call fails with EFBIG. *)
Definition disk_write (k : disk) (m : memory) (buf len : Z) : disk * memory * Z * Z :=
  let got := load m buf (Z.to_nat (Z.min 64 len)) in
  if d_pos k + len <? 2 ^ 31 then
    (Disk (splice (d_bytes k) (Z.to_nat (d_pos k)) got) (d_pos k + Z.of_nat (length got)), m, Z.of_nat (length got), 0)
  else (k, m, 2 ^ 32 - 1, 27).

#[export] Instance disk_kernel : Kernel disk := fun k m rq =>
  match rq_nr rq, rq_args rq with
  | LAMP_SYS_READ, [fd; buf; len; _; _; _] => if fd =? 3 then disk_read k m buf len else (k, m, 2 ^ 32 - 1, EBADF)
  | LAMP_SYS_WRITE, [fd; buf; len; _; _; _] => if fd =? 3 then disk_write k m buf len else (k, m, 2 ^ 32 - 1, EBADF)
  | LAMP_SYS_LSEEK, [fd; off; whence; _; _; _] => if fd =? 3 then disk_lseek k m (s32 off) whence else (k, m, 2 ^ 32 - 1, EBADF)
  | _, _ => (k, m, 2 ^ 32 - 1, EINVAL)
  end.

Definition disk_ok (k : disk) : bool :=
  forallb (fun b => (0 <=? b) && (b <? 256)) (d_bytes k) && (0 <=? d_pos k) && (d_pos k <? 2 ^ 31) &&
  (Z.of_nat (length (d_bytes k)) <? 2 ^ 31).

Definition disk_file (k : disk) (fd : Z) : option (list Z * Z) :=
  if (fd =? 3) && disk_ok k then Some (d_bytes k, d_pos k) else None.

Lemma disk_ok_spec k : disk_ok k = true <->
  bytes (d_bytes k) /\ 0 <= d_pos k < 2 ^ 31 /\ Z.of_nat (length (d_bytes k)) < 2 ^ 31.
Proof.
  unfold disk_ok, bytes. rewrite !andb_true_iff, Z.leb_le, !Z.ltb_lt, forallb_forall, Forall_forall. split.
  - intros [[[H1 H2] H3] H4]. split; [|lia]. intros x Hx. specialize (H1 x Hx). lia.
  - intros (H1 & H2 & H3). split; [split; [split; [|lia]|lia]|lia]. intros x Hx. specialize (H1 x Hx). lia.
Qed.

Lemma disk_file_some k fd c pos : disk_file k fd = Some (c, pos) ->
  fd = 3 /\ disk_ok k = true /\ d_bytes k = c /\ d_pos k = pos.
Proof.
  unfold disk_file. destruct (Z.eqb_spec fd 3) as [->|]; [|done]. destruct (disk_ok k) eqn:E; [|done]. cbn. by intros [= <- <-].
Qed.

Lemma disk_file_at c pos : bytes c -> 0 <= pos < 2 ^ 31 -> Z.of_nat (length c) < 2 ^ 31 -> disk_file (Disk c pos) 3 = Some (c, pos).
Proof. intros H1 H2 H3. unfold disk_file. cbn [Z.eqb andb]. change (3 =? 3) with true. by rewrite (proj2 (disk_ok_spec (Disk c pos)) (conj H1 (conj H2 H3))). Qed.

Lemma take_length_take (n : nat) (l : list Z) : take (length (take n l)) l = take n l.
Proof.
  rewrite length_take. destruct (Nat.min_spec n (length l)) as [[_ ->]|[L ->]]; [done|]. by rewrite !take_ge by lia.
Qed.

#[export, refine] Instance disk_files : FileKernel disk := {| file := disk_file |}.
Proof.
  - intros k fd c pos (_ & Hk & <- & <-)%disk_file_some. by apply disk_ok_spec.
  - intros k m fd buf len c pos (-> & Hk & <- & <-)%disk_file_some Hl Hb Hbl. apply disk_ok_spec in Hk as (H1 & H2 & H3).
    set (got := take (Z.to_nat (Z.min 3 len)) (drop (Z.to_nat (d_pos k)) (d_bytes k))).
    assert (length got = Nat.min (Z.to_nat (Z.min 3 len)) (length (d_bytes k) - Z.to_nat (d_pos k))) as Hg
      by (unfold got; by rewrite length_take, length_drop).
    exists (length got), (Disk (d_bytes k) (d_pos k + Z.of_nat (length got))), (overlay m buf got), 0.
    split; [reflexivity|]. split; [lia|]. split; [lia|]. split; [lia|]. split.
    + intros x. unfold got at 2. by rewrite (take_length_take (Z.to_nat (Z.min 3 len)) (drop (Z.to_nat (d_pos k)) (d_bytes k))).
    + apply disk_file_at; [done|lia|done].
  - intros k m fd off whence c pos (-> & Hk & <- & <-)%disk_file_some Ho Hw. apply disk_ok_spec in Hk as (H1 & H2 & H3).
    assert (s32 (u32 off) = off) as Es by (unfold s32, u32; rewrite swrap_of_mod by lia; apply swrap_small; lia).
    unfold trap, disk_kernel, abi_call. cbn [rq_nr rq_args]. change (3 =? 3) with true. cbn iota. unfold disk_lseek. rewrite Es.
    destruct (lseek_target _ _ _ _) as [t|] eqn:Et.
    + eexists _, _. split; [reflexivity|]. apply disk_file_at; [done| |done].
      unfold lseek_target in Et. destruct (if whence =? SEEK_SET then _ else _) as [b|]; cbn in Et; [|done].
      destruct (Z.leb_spec 0 (b + off)), (Z.ltb_spec (b + off) (2 ^ 31)); cbn [andb] in Et; simplify_eq; lia.
    + eexists _, _. split; [reflexivity|]. destruct k. by apply disk_file_at.
Defined.

#[export, refine] Instance disk_writes : WritableKernel disk := {| writable := fun _ fd => fd =? 3 |}.
Proof.
  intros k m fd buf len c pos (-> & Hk & <- & <-)%disk_file_some _ Hl Hp Hb Hbl Hby. apply disk_ok_spec in Hk as (H1 & H2 & H3).
  unfold trap, disk_kernel, abi_call. cbn [rq_nr rq_args]. change (3 =? 3) with true. cbn iota. unfold disk_write.
  destruct (Z.ltb_spec (d_pos k + len) (2 ^ 31)); [|lia]. rewrite length_load. set (n := Z.to_nat (Z.min 64 len)).
  eexists _, _, _. split; [reflexivity|]. split; [done|]. right. exists n. split; [done|]. split; [lia|].
  assert (bytes (load m buf n)) as Hn by (rewrite <- (take_load m buf (Z.to_nat len)) by lia; by apply Forall_take).
  apply disk_file_at; [by apply splice_bytes|lia|].
  pose proof (length_splice (d_bytes k) (Z.to_nat (d_pos k)) (load m buf n)) as Hs. rewrite length_load in Hs. lia.
Defined.
