(* ===== verification/StreamClaims.v ===== *)
(** * Streams: lines, positions and the claims *)

From S2P Require Import Prelude Heap Regex Printf Syscall CString Stream StreamSpec StreamRead RamDisk.
#[local] Open Scope call_scope.

Section sim.
Context {K : Type} `{FileKernel K}.
Context (frame fd : Z) (c : list Z).
Context (Hframe : 0 <= frame < 2 ^ 32) (Hfd : 0 <= fd < 2 ^ 32).

#[local] Abbreviation represents := (represents fd c).

(** ** [fgets] *)

Lemma represents_skipped f p p' st n : represents f p st -> file (p_kernel p') fd = Some (c, a_pos st + n) ->
  represents f p' (AStream (a_pos st + n) (a_slot st) (a_eof st)).
Proof. intros R Hf. destruct R. by split. Qed.

Lemma fgets_loop_spec n : forall f p st s i, represents f p st -> 0 <= s + i -> s + i + Z.of_nat n < 2 ^ 32 ->
  (frame < s + i \/ s + i + Z.of_nat n <= frame) ->
  exists p', let '(got, st') := a_gets c n st in
    fgets_loop frame n s i (Some f) p = (i + Z.of_nat (length got), p') /\ represents f p' st' /\
    (forall x, x <> frame -> p_mem p' x = overlay (p_mem p) (s + i) got x).
Proof.
  induction n as [|n IH]; intros f p st s i R Hs Hn Hd; unfold a_gets; cbn [fgets_loop].
  { exists p. rewrite take_0. cbn [line length]. rewrite !Z.add_0_r. split; [done|]. split; [by destruct st|].
    intros x _. by rewrite overlay_nil. }
  unfold bind at 1. cbn [file_fd]. rewrite (rep_fd _ _ _ _ _ R).
  destruct (read_file fd c Hfd p (a_pos st) frame 1 (rep_file _ _ _ _ _ R)) as (k & p1 & E & H1 & H2 & H3 & H4 & H5); [lia..|].
  rewrite E. pose proof (represents_pos _ _ _ _ _ R) as Hp.
  destruct (drop (Z.to_nat (a_pos st)) c) as [|b l] eqn:Ed.
  - assert (length (drop (Z.to_nat (a_pos st)) c) = 0%nat) as El by (by rewrite Ed). rewrite length_drop in El.
    assert (k = 0%nat) as -> by (apply H3; lia). exists p1. cbn [take line length]. rewrite !Z.add_0_r in *. split; [done|].
    split; [by destruct R; split|]. intros x _. rewrite H4. by rewrite !overlay_nil.
  - assert (length (drop (Z.to_nat (a_pos st)) c) = S (length l)) as El by (by rewrite Ed). rewrite length_drop in El.
    assert (k = 1%nat) as -> by lia. cbn [Z.eqb negb]. change (Z.of_nat 1 =? 1) with true. cbn [negb].
    unfold bind at 1, load8. rewrite H4. change (take 1 (b :: l)) with [b].
    assert (overlay (p_mem p) frame [b] frame = b) as ->.
    { unfold overlay. cbn [length]. destruct (Z.leb_spec frame frame), (Z.ltb_spec frame (frame + Z.of_nat 1)); try lia. cbn [andb].
      by rewrite Z.sub_diag. }
    unfold bind at 1, store8. set (p2 := Proc _ _ _ _).
    assert (0 <= b < 256) as Hb.
    { destruct (file_ok _ _ _ _ (rep_file _ _ _ _ _ R)) as (Hc & _). apply (Forall_drop _ (Z.to_nat (a_pos st))) in Hc.
      rewrite Ed in Hc. by inversion Hc. }
    assert (forall x, x <> frame -> p_mem p2 x = overlay (p_mem p) (s + i) [b] x) as Hm2.
    { intros x Hx. cbn [p_mem p2]. rewrite overlay_wr8 by done. unfold overlay at 1 2. destruct (_ && _); [done|]. rewrite H4.
      change (take 1 (b :: l)) with [b]. apply overlay_out. cbn [length]. lia. }
    assert (represents f p2 (AStream (a_pos st + 1) (a_slot st) (a_eof st))) as R2 by (by apply (represents_skipped f p p2 st 1 R)).
    cbn [take line length]. destruct (Z.eqb_spec b 10) as [->|Hb10].
    + exists p2. cbn [length]. split; [done|]. split; [exact R2|exact Hm2].
    + destruct (IH f p2 _ s (i + 1) R2) as (p' & Hr); [lia..|]. exists p'. unfold a_gets in Hr. cbn [a_pos a_slot a_eof] in Hr.
      replace (Z.to_nat (a_pos st + 1)) with (Z.to_nat (a_pos st) + 1)%nat in Hr by lia. rewrite <- drop_drop, Ed in Hr.
      change (drop 1 (b :: l)) with l in Hr. destruct Hr as (E2 & R' & Hm). cbn [length]. split; [rewrite E2; f_equal; lia|].
      split; [by replace (a_pos st + Z.of_nat (S (length (line (take n l))))) with (a_pos st + 1 + Z.of_nat (length (line (take n l)))) by lia|].
      intros x Hx. rewrite Hm by done. change (b :: line (take n l)) with ([b] ++ line (take n l)). rewrite overlay_app. cbn [length].
      replace (s + (i + 1)) with (s + i + Z.of_nat 1) by lia. unfold overlay at 1 2. destruct (_ && _); [done|by apply Hm2].
Qed.

(** ** Positions *)

Lemma lseek_file p pos off whence : file (p_kernel p) fd = Some (c, pos) -> - 2 ^ 31 <= off < 2 ^ 31 -> 0 <= whence < 2 ^ 31 ->
  exists p', p_mem p' = p_mem p /\
    match lseek_target (Z.of_nat (length c)) pos off whence with
    | Some t => lseek fd off whence p = (t, p') /\ 0 <= t < 2 ^ 31 /\ file (p_kernel p') fd = Some (c, t)
    | None => lseek fd off whence p = (-1, p') /\ file (p_kernel p') fd = Some (c, pos)
    end.
Proof.
  intros Hf Ho Hw. destruct (lseek_law _ (p_mem p) fd off whence c pos Hf Ho Hw) as (k' & e & E & Hf').
  unfold lseek, libsys_lseek. destruct (lseek_target _ pos off whence) as [t|] eqn:Et.
  - exists (Proc k' (p_mem p) 0 0). split; [done|]. assert (0 <= t < 2 ^ 31) as Ht.
    { unfold lseek_target in Et. destruct (if whence =? SEEK_SET then _ else _) as [b|]; cbn in Et; [|done].
      destruct (Z.leb_spec 0 (b + off)), (Z.ltb_spec (b + off) (2 ^ 31)); cbn [andb] in Et; simplify_eq; lia. }
    split; [|by split]. apply (ret_errno_ok _ _ _ _ _ _ _ _ _ _ _ e); [|lia]. rewrite (u32_small fd), (u32_small 0), (u32_small whence) by lia. exact E.
  - eexists (Proc k' (p_mem p) (s32 e) (s32 e)). split; [done|]. split; [|done].
    unfold ret_errno, bind, libsys_call6. rewrite (u32_small fd), (u32_small 0), (u32_small whence), E by lia. reflexivity.
Qed.

Lemma fseeko_spec f p st off whence : represents f p st -> - 2 ^ 31 < off < 2 ^ 31 -> 0 <= whence < 2 ^ 31 ->
  exists f' p', let '(r, st') := a_seek c off whence st in
    fseeko (Some f) off whence p = ((r, Some f'), p') /\ represents f' p' st' /\ p_mem p' = p_mem p.
Proof.
  intros R Ho Hw. unfold fseeko, a_seek. rewrite (represents_pushback _ _ _ _ _ R). cbn [file_fd]. rewrite (rep_fd _ _ _ _ _ R).
  assert ((match a_slot st with Some _ => if whence =? SEEK_CUR then off - 1 else off | None => off end) =
    (if whence =? SEEK_CUR then off - Z.of_nat (length (slot_list (a_slot st))) else off)) as ->
    by (destruct (a_slot st), (whence =? SEEK_CUR); cbn [slot_list length]; lia).
  set (adj := if whence =? SEEK_CUR then _ else off).
  assert (- 2 ^ 31 <= adj < 2 ^ 31) as Ha by (unfold adj; destruct (whence =? SEEK_CUR), (a_slot st); cbn [slot_list length]; lia).
  destruct (lseek_file p (a_pos st) adj whence (rep_file _ _ _ _ _ R) Ha Hw) as (p' & Hm & Hr). unfold bind.
  destruct (lseek_target _ _ adj whence) as [t|].
  - destruct Hr as (-> & Ht & Hf). destruct (Z.ltb_spec t 0); [lia|]. eexists _, p'. split; [reflexivity|]. split; [|exact Hm].
    destruct R. by split.
  - destruct Hr as (-> & Hf). exists f, p'. split; [reflexivity|]. split; [by destruct R; split|exact Hm].
Qed.

Lemma ftell_spec f p st : represents f p st ->
  exists p', ftell (Some f) p = (a_tell st, p') /\ represents f p' st /\ p_mem p' = p_mem p.
Proof.
  intros R. unfold ftell, bind. cbn [file_fd]. rewrite (rep_fd _ _ _ _ _ R).
  destruct (lseek_file p (a_pos st) 0 SEEK_CUR (rep_file _ _ _ _ _ R)) as (p' & Hm & Hr); [lia|unfold SEEK_CUR; lia|].
  pose proof (represents_pos _ _ _ _ _ R) as Hp. unfold lseek_target in Hr. cbn [mbind option_bind] in Hr.
  change (SEEK_CUR =? SEEK_SET) with false in Hr. change (SEEK_CUR =? SEEK_CUR) with true in Hr. cbn [mbind option_bind] in Hr.
  rewrite Z.add_0_r in Hr.
  destruct (Z.leb_spec 0 (a_pos st)), (Z.ltb_spec (a_pos st) (2 ^ 31)); try lia. cbn [andb] in Hr. destruct Hr as (-> & _ & Hf).
  destruct (Z.ltb_spec (a_pos st) 0); [lia|]. exists p'. rewrite (represents_pushback _ _ _ _ _ R). split; [|split; [|exact Hm]].
  - unfold ret, a_tell. destruct (a_slot st); cbn [slot_list length]; f_equal; lia.
  - destruct R. by split.
Qed.

(** ** [getline] *)

(** A character read is the first one available, or the end is reached. *)
Lemma a_getc_avail st : 0 <= a_pos st -> let '(r, st1) := a_getc c st in
  a_slot st1 = None /\ 0 <= a_pos st1 /\
  match avail c st with
  | b :: l => r = b /\ avail c st1 = l /\ a_eof st1 = a_eof st
  | [] => r = EOF /\ avail c st1 = [] /\ a_eof st1 = 1
  end.
Proof.
  intros Hp. unfold a_getc. destruct (a_slot st) as [b|] eqn:Es.
  - rewrite (a_read_slot c 0 b) by done. cbn [a_read]. rewrite (avail_slot c st b Es). rewrite avail_none by done. done.
  - destruct (drop (Z.to_nat (a_pos st)) c) as [|b l] eqn:Ed.
    + rewrite a_read_none by (try (rewrite avail_none by done; exact Ed); lia). rewrite avail_none, Ed by done.
      split; [done|]. split; [done|]. split; [done|]. by rewrite avail_none.
    + assert (length (drop (Z.to_nat (a_pos st)) c) = S (length l)) as El by (by rewrite Ed). rewrite length_drop in El.
      rewrite (a_read_split c 1 1) by (done || lia). cbn [Nat.sub a_read]. rewrite Ed. change (take 1 (b :: l)) with [b]. cbn [app].
      split; [done|]. split; [cbn; lia|]. rewrite avail_none, Ed by done. split; [done|]. split; [|done]. rewrite avail_none by done.
      cbn [a_pos]. replace (Z.to_nat (a_pos st + Z.of_nat 1)) with (Z.to_nat (a_pos st) + 1)%nat by lia. rewrite <- drop_drop. by rewrite Ed.
Qed.

Lemma avail_bytes f p st : represents f p st -> bytes (avail c st).
Proof.
  intros R. destruct (file_ok _ _ _ _ (rep_file _ _ _ _ _ R)) as (Hc & _). pose proof (rep_byte _ _ _ _ _ R).
  unfold avail. apply Forall_app. split; [destruct (a_slot st); repeat constructor; lia|by apply Forall_drop].
Qed.

Section line.
Context {A : Type} `{Allocator A}.

(** The allocator refused a request. *)
Definition refused : Prop :=
  (exists (h : A) q n, (al_realloc h q n).2 = 0) \/ (exists (h : A) n, (al_malloc h n).2 = 0).

(** What a line leaves of the stream: [eof] says that the end was reached. *)
Definition after_line (st : astream) (got : list Z) (eof : bool) (st' : astream) : Prop :=
  a_slot st' = None /\ avail c st' = drop (length got) (avail c st) /\ a_eof st' = if eof then 1 else a_eof st.

(** The line does not end in a newline. *)
Definition unfinished (got : list Z) : bool := negb (bool_decide (list.last got = Some 10)).

Lemma getline_loop_spec fuel : forall f p st (heap : A) buf cap bs, represents f p st ->
  (length (avail c st) < fuel)%nat -> Z.of_nat (length bs) < cap ->
  Z.of_nat (length bs) + Z.of_nat (length (avail c st)) < 2 ^ 30 -> buf <> 0 ->
  exists heap' f' p' r, getline_loop frame fuel heap buf cap bs (Some f) p = (Some (heap', r, Some f'), p') /\
    match r with
    | None => errno p' = ENOMEM /\ refused
    | Some (buf', cap', bs', b) =>
        let got := line (avail c st) in
        exists st', represents f' p' st' /\ after_line st got (unfinished got) st' /\
        bs' = bs ++ got /\ Z.of_nat (length bs') < cap' /\ buf' <> 0 /\ (b = EOF <-> unfinished got = true)
    end.
Proof.
  induction fuel as [|fuel IH]; intros f p st heap buf cap bs R Hf Hc Hl Hb; [lia|]. cbn [getline_loop].
  destruct (fgetc_spec frame fd c Hframe Hfd f p st R) as (f1 & p1 & Hg). pose proof (a_getc_avail st (proj1 (represents_pos _ _ _ _ _ R))) as Ha.
  destruct (a_getc c st) as [b st1]. destruct Hg as (E & R1 & _). destruct Ha as (Hs1 & Hp1 & Ha). unfold bind at 1. rewrite E.
  pose proof (avail_bytes _ _ _ R) as Hby. destruct (avail c st) as [|b' l] eqn:Eav.
  - destruct Ha as (-> & Ha1 & Ha2). change (EOF =? EOF) with true. cbn iota. eexists heap, f1, p1, _. split; [reflexivity|].
    exists st1. split; [exact R1|]. cbn [line length]. split; [by split; [|split; [rewrite Eav|]]|]. rewrite app_nil_r. done.
  - destruct Ha as (-> & Ha1 & Ha2). assert (0 <= b' < 256) as Hb256 by (by inversion Hby). unfold EOF at 1. destruct (Z.eqb_spec b' (-1)); [lia|].
    cbn [length] in Hl, Hf. set (grow := cap <=? Z.of_nat (length bs) + 1).
    assert (exists cap', (if grow then u32 (cap * 2) else cap) = cap' /\ Z.of_nat (length (bs ++ [b'])) < cap') as (cap' & -> & Hcap').
    { eexists. split; [reflexivity|]. rewrite length_app. cbn [length]. unfold grow.
      destruct (Z.leb_spec cap (Z.of_nat (length bs) + 1)); [rewrite u32_small by lia|]; lia. }
    destruct (if grow then al_realloc heap buf cap' else (heap, buf)) as [heap1 nb] eqn:Er.
    destruct (grow && (nb =? 0)) eqn:En.
    { apply andb_true_iff in En as [Eg En]. rewrite Eg in Er. apply Z.eqb_eq in En as ->. eexists heap1, f1, _, None. split; [reflexivity|].
      split; [done|]. left. exists heap, buf, cap'. by rewrite Er. }
    assert (nb <> 0) as Hnb.
    { intros ->. destruct grow; [done|]. injection Er as _ ->. done. }
    destruct (Z.eqb_spec b' 10) as [->|H10].
    + eexists heap1, f1, p1, _. split; [reflexivity|]. exists st1. split; [exact R1|]. cbn [line]. change (10 =? 10) with true. cbn iota.
      split; [split; [done|]; split; [by rewrite Eav, Ha1|exact Ha2]|]. do 3 (split; [done|]). cbn. unfold EOF. split; [lia|done].
    + destruct (IH f1 p1 st1 heap1 nb cap' (bs ++ [b']) R1) as (heap' & f' & p' & r & E' & Hr); [rewrite Ha1; lia|done|rewrite Ha1, length_app; cbn [length]; lia|done|].
      exists heap', f', p', r. split; [exact E'|]. destruct r as [[[[buf' cap''] bs'] b]|]; [|exact Hr].
      destruct Hr as (st' & R' & (Hs' & Hv' & He') & -> & Hc' & Hb' & Hbe). rewrite Ha1 in *. cbn [line]. destruct (Z.eqb_spec b' 10); [done|].
      assert (unfinished (b' :: line l) = unfinished (line l)) as Eu.
      { unfold unfinished. destruct (line l); [|done]. cbn. by rewrite bool_decide_eq_false_2 by congruence. }
      exists st'. split; [exact R'|]. split.
      * split; [done|]. rewrite Eu. split; [by rewrite Eav, Hv'|by rewrite He', Ha2].
      * rewrite <- app_assoc in *. split; [done|]. split; [done|]. split; [done|]. by rewrite Eu.
Qed.
End line.
End sim.

(** ** Sequences of operations *)

Inductive op : Type :=
| OGetc
| OUngetc (b : Z)
| ORead (ptr size nmemb : Z)
| OGets (s size : Z)
| OSeek (off whence : Z)
| OTell
| OEof
| OClear.

Section ops.
Context {K : Type} `{Kernel K}.
Context (frame : Z).

(** An operation of the library: its result, and what the caller then finds
    in its buffer: the items read, or the string. *)
Definition run_op (o : op) (stream : option FILE) : M K (option (Z * list Z * option FILE)) :=
  match o with
  | OGetc => let* (r, stream) := fgetc frame stream in ret (Some (r, [], stream))
  | OUngetc b => let '(r, stream) := ungetc b stream in ret (Some (r, [], stream))
  | ORead ptr size nmemb =>
      let* r := fread ptr size nmemb stream in
      fun p => (match r with Some (n, stream) => Some (n, load (p_mem p) ptr (Z.to_nat (n * size)), stream) | None => None end, p)
  | OGets s size =>
      let* r := fgets frame s size stream in
      fun p => (Some (r, if r =? 0 then [] else before_nul (load (p_mem p) s (Z.to_nat size)), stream), p)
  | OSeek off whence => let* (r, stream) := fseeko stream off whence in ret (Some (r, [], stream))
  | OTell => let* r := ftell stream in ret (Some (r, [], stream))
  | OEof => ret (Some (feof stream, [], stream))
  | OClear => ret (Some (0, [], clearerr stream))
  end.

Fixpoint run_ops (os : list op) (stream : option FILE) : M K (option (list (Z * list Z) * option FILE)) :=
  match os with
  | [] => ret (Some ([], stream))
  | o :: os =>
      let* r := run_op o stream in
      match r with
      | None => ret None
      | Some (v, data, stream) =>
          let* r := run_ops os stream in
          ret (match r with Some (obs, stream) => Some ((v, data) :: obs, stream) | None => None end)
      end
  end.
End ops.

(** The same operations on the abstract stream. *)
Definition a_op (c : list Z) (o : op) (st : astream) : Z * list Z * astream :=
  match o with
  | OGetc => let '(r, st) := a_getc c st in (r, [], st)
  | OUngetc b => let '(r, st) := a_ungetc b st in (r, [], st)
  | ORead ptr size nmemb =>
      let '(got, st) := a_read c (Z.to_nat (size * nmemb)) st in
      let n := Z.of_nat (length got) / size in (n, take (Z.to_nat (n * size)) got, st)
  | OGets s size =>
      if size <=? 0 then (0, [], st)
      else
        let '(got, st) := a_gets c (Z.to_nat (size - 1)) st in
        (match got with [] => (0, []) | _ => (s, before_nul (got ++ [0])) end, st)
  | OSeek off whence => let '(r, st) := a_seek c off whence st in (r, [], st)
  | OTell => (a_tell st, [], st)
  | OEof => (a_eof st, [], st)
  | OClear => (0, [], AStream (a_pos st) (a_slot st) 0)
  end.

Fixpoint a_ops (c : list Z) (os : list op) (st : astream) : list (Z * list Z) * astream :=
  match os with
  | [] => ([], st)
  | o :: os =>
      let '(v, data, st) := a_op c o st in
      let '(obs, st) := a_ops c os st in ((v, data) :: obs, st)
  end.

(** Buffers lie in the address space, and apart from the local of [fgets];
    the arguments are in the range of their types. *)
Definition op_ok (frame : Z) (o : op) : Prop :=
  match o with
  | ORead ptr size nmemb => 0 <= size /\ 0 <= nmemb /\ size * nmemb < 2 ^ 31 /\ 0 <= ptr /\ ptr + size * nmemb <= 2 ^ 32
  | OGets s size => 0 < s /\ s + size < 2 ^ 32 /\ (frame < s \/ s + size <= frame)
  | OSeek off whence => - 2 ^ 31 < off < 2 ^ 31 /\ 0 <= whence < 2 ^ 31
  | _ => True
  end.

Lemma before_nul_first l r : before_nul (l ++ 0 :: r) = before_nul (l ++ [0]).
Proof. induction l as [|b l IH]; [done|]. cbn [app before_nul]. destruct (b =? 0); [done|]. by rewrite IH. Qed.

Lemma line_length l : (length (line l) <= length l)%nat.
Proof. induction l as [|b l IH]; [done|]. cbn [line]. destruct (b =? 10); cbn [length]; lia. Qed.

Section refinement.
Context {K : Type} `{FileKernel K}.
Context (frame fd : Z) (c : list Z).
Context (Hframe : 0 <= frame < 2 ^ 32) (Hfd : 0 <= fd < 2 ^ 32).

Lemma read_op_spec f p st ptr size nmemb : represents fd c f p st -> op_ok frame (ORead ptr size nmemb) ->
  exists f' p', let '(v, data, st') := a_op c (ORead ptr size nmemb) st in
    run_op frame (ORead ptr size nmemb) (Some f) p = (Some (v, data, Some f'), p') /\ represents fd c f' p' st'.
Proof.
  intros R (H1 & H2 & H3 & H4 & H5). destruct (fread_spec fd c Hfd f p st ptr size nmemb R H1 H2 H3 H4 H5) as (f' & p' & Hr).
  exists f', p'. cbn [a_op run_op]. destruct (a_read c _ st) as [got st'] eqn:Eg. destruct Hr as (E & R' & Hm).
  split; [|exact R']. unfold bind. rewrite E. do 4 f_equal. apply (load_overlay (p_mem p)); [|intros i _; apply Hm].
  destruct (Z.eqb_spec size 0) as [->|Hs]; [rewrite Z.mul_0_r; cbn; lia|].
  pose proof (Z.mul_div_le (Z.of_nat (length got)) size ltac:(lia)). lia.
Qed.

Lemma gets_op_spec f p st s size : represents fd c f p st -> op_ok frame (OGets s size) ->
  exists f' p', let '(v, data, st') := a_op c (OGets s size) st in
    run_op frame (OGets s size) (Some f) p = (Some (v, data, Some f'), p') /\ represents fd c f' p' st'.
Proof.
  intros R (H1 & H2 & H3). cbn [a_op run_op]. unfold fgets. destruct (Z.leb_spec size 0) as [L|L].
  { exists f, p. unfold bind, ret. cbn. done. }
  destruct (fgets_loop_spec frame fd c Hframe Hfd (Z.to_nat (size - 1)) f p st s 0 R) as (p1 & Hr); [lia..|].
  assert (length (a_gets c (Z.to_nat (size - 1)) st).1 <= Z.to_nat (size - 1))%nat as Hgl.
  { unfold a_gets. cbn [fst]. etrans; [apply line_length|]. rewrite length_take. lia. }
  destruct (a_gets c _ st) as [got st'] eqn:Eg. destruct Hr as (E & R' & Hm). cbn [fst] in Hgl. rewrite Z.add_0_l in E.
  unfold bind at 1. unfold bind at 1. rewrite E. destruct got as [|b got].
  { exists f, p1. split; [|exact R']. reflexivity. }
  cbn [length]. destruct (Z.eqb_spec (Z.of_nat (S (length got))) 0); [lia|]. unfold bind, store8, ret. set (p2 := Proc _ _ _ _).
  exists f, p2. split; [|by eapply represents_store]. destruct (Z.eqb_spec s 0); [lia|]. do 3 f_equal. f_equal.
  set (l := b :: got) in *. change (S (length got)) with (length l) in *.
  assert (load (p_mem p2) s (length l) = l) as El.
  { rewrite (load_overlay (p_mem p) _ s l) by (try done; intros i Hi; cbn [p_mem p2]; rewrite wr8_other by lia; rewrite Hm by lia; by rewrite Z.add_0_r).
    by apply take_ge. }
  replace (Z.to_nat size) with (length l + S (Z.to_nat size - S (length l)))%nat by lia. rewrite load_app, El.
  unfold load at 1. cbn [seq map]. rewrite Z.add_0_r. cbn [p_mem p2]. rewrite wr8_same. change (u8 0) with 0. apply before_nul_first.
Qed.

Lemma op_spec o f p st : represents fd c f p st -> op_ok frame o ->
  exists f' p', let '(v, data, st') := a_op c o st in
    run_op frame o (Some f) p = (Some (v, data, Some f'), p') /\ represents fd c f' p' st'.
Proof.
  intros R Ho. destruct o as [|b|ptr size nmemb|s size|off whence| | |]; [|..].
  - destruct (fgetc_spec frame fd c Hframe Hfd f p st R) as (f' & p' & Hr). exists f', p'. cbn [a_op run_op].
    destruct (a_getc c st) as [r st']. destruct Hr as (E & R' & _). unfold bind. by rewrite E.
  - destruct (ungetc_spec fd c f p st b R) as (f' & Hr). exists f', p. cbn [a_op run_op].
    destruct (a_ungetc b st) as [r st']. destruct Hr as (E & R'). by rewrite E.
  - by apply read_op_spec.
  - by apply gets_op_spec.
  - destruct Ho as [Ho Hw]. destruct (fseeko_spec fd c Hfd f p st off whence R Ho Hw) as (f' & p' & Hr). exists f', p'. cbn [a_op run_op].
    destruct (a_seek c off whence st) as [r st']. destruct Hr as (E & R' & _). unfold bind. by rewrite E.
  - destruct (ftell_spec fd c Hfd f p st R) as (p' & E & R' & _). exists f, p'. cbn [a_op run_op]. unfold bind. by rewrite E.
  - exists f, p. cbn [a_op run_op feof]. by rewrite (rep_eof _ _ _ _ _ R).
  - eexists _, p. cbn [a_op run_op clearerr]. split; [reflexivity|]. by destruct R; split.
Qed.

(** C16: a stream is a position in a file with one byte of pushback.  For every
    sequence of [fgetc], [ungetc], [fread], [fgets], [fseeko], [ftell], [feof]
    and [clearerr] on a stream of a regular file, and however the kernel
    splits the reads, all results and all items delivered to the caller's
    buffers are those of the abstract stream, and each call returns.  The
    abstract stream shows what the code does with pushback: [fread] delivers
    it first, [ftell] and relative seeks count it, a seek drops it, and
    [fgets] reads past it. *)
Theorem stream_refines os f p st (R : represents fd c f p st) (Hok : Forall (op_ok frame) os) :
  exists f' p', let '(obs, st') := a_ops c os st in
    run_ops frame os (Some f) p = (Some (obs, Some f'), p') /\ represents fd c f' p' st'.
Proof.
  revert f p st R. induction Hok as [|o os Ho _ IH]; intros f p st R.
  { exists f, p. cbn. done. }
  cbn [a_ops run_ops]. destruct (op_spec o f p st R Ho) as (f1 & p1 & H1).
  destruct (a_op c o st) as [[v data] st1]. destruct H1 as (E1 & R1). destruct (IH f1 p1 st1 R1) as (f' & p' & H2).
  destruct (a_ops c os st1) as [obs st']. destruct H2 as (E2 & R2). exists f', p'. split; [|exact R2].
  unfold bind. rewrite E1, E2. done.
Qed.

(** [getline] reads one line, with its newline, through the pushback,
    however long it is: it returns its length, its bytes are in the buffer
    with a NUL behind them and the reported capacity holds them; at the end of
    the file it returns -1 and leaves [*lineptr] and [*n] alone.  The stream
    then stands behind the line, and the loop always ends.  The only other
    outcome is -1 with ENOMEM, when the allocator refused a request. *)
Theorem getline_correct {A : Type} `{Allocator A} f p st (heap : A) lineptr n fuel (R : represents fd c f p st)
    (Hn : 0 <= n) (Hl : Z.of_nat (length (avail c st)) < 2 ^ 30) (Hfuel : (length (avail c st) < fuel)%nat) :
  exists heap' r f' p', getline frame fuel heap (Some lineptr) (Some n) (Some f) p = (Some (heap', r, Some f'), p') /\
    let got := line (avail c st) in
    (r = LineResult (-1) lineptr n [] /\ errno p' = ENOMEM /\ refused (A := A)) \/
    (exists st', represents fd c f' p' st' /\ after_line c st got (unfinished got) st' /\
      match got with
      | [] => r = LineResult (-1) lineptr n []
      | _ => l_ret r = Z.of_nat (length got) /\ l_bytes r = got ++ [0] /\ l_ptr r <> 0 /\ Z.of_nat (length got) < l_cap r
      end).
Proof.
  unfold getline, getline_into. set (cap := if truthy n then n else 128).
  assert (0 < cap) as Hcap by (unfold cap, truthy; destruct (Z.eqb_spec n 0); cbn [negb]; lia).
  destruct (if truthy lineptr then (heap, lineptr) else al_malloc heap cap) as [heap1 buf] eqn:Eb.
  destruct (Z.eqb_spec buf 0) as [->|Hbuf].
  - eexists heap1, _, f, _. split; [reflexivity|]. left. split; [done|]. split; [done|]. unfold truthy in Eb.
    destruct (Z.eqb_spec lineptr 0); cbn [negb] in Eb; [|congruence]. right. exists heap, cap. by rewrite Eb.
  - unfold bind at 1.
    destruct (getline_loop_spec frame fd c Hframe Hfd fuel f p st heap1 buf cap [] R) as (heap' & f' & p' & r & E & Hr);
      [done|cbn [length]; lia|cbn [length]; lia|done|].
    rewrite E. destruct r as [[[[buf' cap'] bs] b]|].
    + destruct Hr as (st' & R' & Ha & -> & Hc' & Hb' & Hbe). cbn [app] in *.
      destruct (line (avail c st)) as [|x l] eqn:El.
      * assert (b = EOF) as -> by (by apply Hbe). eexists _, _, f', p'. split; [reflexivity|]. right. by exists st'.
      * cbn [length]. destruct (Z.eqb_spec (Z.of_nat (S (length l))) 0); [lia|]. cbn [andb].
        eexists _, _, f', p'. split; [reflexivity|]. right. exists st'. split; [exact R'|]. split; [exact Ha|]. by repeat split.
    + eexists _, _, f', p'. split; [reflexivity|]. left. by split; [|split; destruct Hr].
Qed.
End refinement.

(** ** The claims on a file in memory *)

(** A process over the disk: "ab\ncd" at descriptor 3. *)
Definition disk_process : process disk := Proc (Disk [97; 98; 10; 99; 100] 0) (fun _ => 0) 0 0.
Definition disk_stream : FILE := File 3 0 0 (-1).

Lemma disk_represents : represents 3 [97; 98; 10; 99; 100] disk_stream disk_process (AStream 0 None 0).
Proof. split; reflexivity. Qed.

Lemma stream_refines_witness :
  let os := [OGetc; OUngetc 122; OTell; ORead 1000 2 2; OGets 2000 9; OGetc; OEof; OSeek 1 0; OUngetc 120; OGets 2000 9] in
  exists f' p', run_ops 500 os (Some disk_stream) disk_process =
    (Some ([(97, []); (122, []); (0, []); (2, [122; 98; 10; 99]); (2000, [100]); (-1, []); (1, []); (0, []); (120, []); (2000, [98; 10])], Some f'), p').
Proof.
  intros os. assert (Forall (op_ok 500) os) as Hok by (unfold os; repeat constructor; lia).
  destruct (stream_refines 500 3 [97; 98; 10; 99; 100] ltac:(lia) ltac:(lia) os disk_stream disk_process _ disk_represents Hok) as (f' & p' & E & _).
  exists f', p'. exact E.
Defined.

#[local] Instance bump : Allocator Z := {|
  al_malloc h n := (h + n, h);
  al_realloc h p n := (h + n, h);
  al_free h p := h;
  al_store h p i bytes := h;
|}.

Lemma getline_correct_witness : exists heap' r f' p',
  getline 500 6 4096 (Some 0) (Some 2) (Some disk_stream) disk_process = (Some (heap', r, Some f'), p') /\
  l_ret r = 3 /\ l_bytes r = [97; 98; 10; 0].
Proof.
  assert (Z.of_nat (length (avail [97; 98; 10; 99; 100] (AStream 0 None 0))) < 2 ^ 30) as Hl by reflexivity.
  assert (length (avail [97; 98; 10; 99; 100]%Z (AStream 0 None 0)) < 6)%nat as Hf by (vm_compute; lia).
  destruct (getline_correct 500 3 [97; 98; 10; 99; 100] ltac:(lia) ltac:(lia) disk_stream disk_process _ 4096 0 2 6 disk_represents ltac:(lia) Hl Hf)
    as (heap' & r & f' & p' & E & [(-> & _)|(st' & _ & _ & H1 & H2 & _)]).
  - vm_compute in E. discriminate E.
  - exists heap', r, f', p'. split; [exact E|]. split; [exact H1|exact H2].
Defined.
