(* ===== verification/GetlineHeap.v ===== *)
(** * [getline] on the real heap

    [getline] of [lib/libc_stdio.c] with the allocator of [lib/libc_stdlib.c]
    behind it: what becomes of the caller's block and of the other
    allocations, on every path. *)

From stdpp Require Import gmap.
From S2P Require Import Prelude Heap HeapInv HeapOps HeapClaims Regex RegexHeap Printf Syscall CString CStringCopy Stream StreamSpec StreamRead RamDisk StreamClaims.
#[local] Open Scope call_scope.

Section getline.
Context (g_heap : Z) (A : gmap Z (list Z)).
#[local] Instance line_allocator : Allocator heap := heap_allocator g_heap.

(** Besides the allocations [A] the heap holds one block, of at least [cap]
    bytes. *)
Definition holds (h : heap) (b cap : Z) : Prop :=
  b <> 0 /\ A !! b = None /\ exists blk, HeapClaims.represents g_heap h (<[b := blk]> A) /\ cap <= Z.of_nat (length blk).

Lemma realloc_holds h b cap n : holds h b cap -> 0 < n < 2 ^ 32 - 16 ->
  exists h' r, al_realloc h b n = (h', r) /\ (r = 0 /\ holds h' b cap \/ r <> 0 /\ holds h' r n).
Proof.
  intros (Hb & Hnone & blk & HR & Hcap) Hn.
  destruct (realloc_sim g_heap h (<[b := blk]> A) b n HR) as (h' & r & A' & E & HS & HR');
    [split; [unfold size_ok; lia|right; rewrite lookup_insert_eq; by eexists]|].
  exists h', r. split; [cbn; by rewrite E|]. unfold spec in HS. destruct (Z.eqb_spec b 0); [done|]. destruct (Z.eqb_spec n 0); [lia|].
  destruct HS as [[-> ->]|(old & new & _ & Hl & (Hr0 & Hnew & _) & _ & ->)].
  - left. split; [done|]. split; [done|]. split; [done|]. by exists blk.
  - right. rewrite delete_insert_id in Hnew, HR' by done. split; [done|]. split; [done|]. split; [done|]. exists new. split; [done|]. lia.
Qed.

Lemma malloc_holds h n : HeapClaims.represents g_heap h A -> size_ok n ->
  exists h' r, al_malloc h n = (h', r) /\ (r = 0 /\ HeapClaims.represents g_heap h' A \/ r <> 0 /\ holds h' r n).
Proof.
  intros HR Hn. destruct (malloc_sim g_heap h A n HR Hn) as (h' & r & A' & E & Hs & HR'). exists h', r.
  split; [cbn; by rewrite E|]. destruct Hs as [[-> ->]|(new & Hl & (Hne & Hf & _) & _ & ->)]; [by left|right].
  split; [done|]. split; [done|]. split; [done|]. exists new. split; [done|]. lia.
Qed.

Lemma free_holds h b cap : holds h b cap -> HeapClaims.represents g_heap (al_free h b) A.
Proof. intros (_ & Hn & blk & HR & _). by eapply free_step. Qed.

Section stream.
Context {K : Type} `{Kernel K} (frame : Z).

(** The loop ends with one block, the one it started with as long as nothing
    was read. *)
Lemma getline_loop_heap fuel : forall h buf cap bs st p h' r st' p', holds h buf cap -> 0 < cap ->
  Z.of_nat (length bs) + Z.of_nat fuel <= 2 ^ 30 ->
  getline_loop frame fuel h buf cap bs st p = (Some (h', r, st'), p') ->
  match r with
  | None => exists b n, holds h' b n
  | Some (buf', cap', bs', _) => holds h' buf' cap' /\ (length bs <= length bs')%nat /\ (length bs' = length bs -> h' = h /\ buf' = buf)
  end.
Proof.
  induction fuel as [|fuel IH]; intros h buf cap bs st p h' r st' p' Hh Hc Hf; [done|]. cbn [getline_loop]. unfold bind at 1.
  destruct (fgetc frame st p) as [[b st1] p1]. destruct (b =? EOF).
  { intros [= <- <- <- <-]. split; [exact Hh|]. by split. }
  assert (forall cap1 h1 nb p2, holds h1 nb cap1 -> 0 < cap1 ->
    (if b =? 10 then ret (Some (h1, Some (nb, cap1, bs ++ [b], b), st1)) else getline_loop frame fuel h1 nb cap1 (bs ++ [b]) st1) p2 = (Some (h', r, st'), p') ->
    match r with
    | None => exists b n, holds h' b n
    | Some (buf', cap', bs', _) => holds h' buf' cap' /\ (length bs <= length bs')%nat /\ (length bs' = length bs -> h' = h /\ buf' = buf)
    end) as Hgo.
  { intros cap1 h1 nb p2 Hh1 Hc1. destruct (b =? 10).
    - intros [= <- <- <- <-]. rewrite length_app. cbn. split; [done|]. split; lia.
    - intros E. specialize (IH h1 nb cap1 (bs ++ [b]) st1 p2 h' r st' p' Hh1 Hc1). rewrite length_app in IH. cbn in IH.
      specialize (IH ltac:(lia) E). destruct r as [[[[buf' cap'] bs'] b']|]; [|done]. destruct IH as (H1 & H2 & H3). split; [done|]. split; lia. }
  destruct (Z.leb_spec cap (Z.of_nat (length bs) + 1)) as [Hle|Hgt].
  - rewrite (u32_small (cap * 2)) by lia. destruct (realloc_holds h buf cap (cap * 2) Hh ltac:(lia)) as (h1 & nb & -> & [[-> Hh1]|[Hnb Hh1]]).
    + cbn [Z.eqb andb]. unfold bind, set_errno, ret. intros [= <- <- <- <-]. by exists buf, cap.
    + destruct (Z.eqb_spec nb 0); [done|]. cbn [andb]. apply Hgo; [done|lia].
  - cbn [andb]. by apply Hgo.
Qed.
End stream.
End getline.

(** What the caller passes: no block, or one of [n] bytes. *)
Definition passed (g_heap : Z) (A : gmap Z (list Z)) (h : heap) (lineptr n : Z) : Prop :=
  (lineptr = 0 /\ HeapClaims.represents g_heap h A) \/ (lineptr <> 0 /\ 0 < n /\ holds g_heap A h lineptr n).

(** The buffer [getline] starts with. *)
Lemma first_buffer g_heap A h lineptr n : passed g_heap A h lineptr n -> 0 <= n < 2 ^ 32 - 16 ->
  let cap := if truthy n then n else 128 in
  exists h1 buf, (if truthy lineptr then (h, lineptr) else @al_malloc _ (heap_allocator g_heap) h cap) = (h1, buf) /\
    (buf = 0 /\ lineptr = 0 /\ HeapClaims.represents g_heap h1 A \/
     buf <> 0 /\ holds g_heap A h1 buf cap /\ (lineptr <> 0 -> h1 = h /\ buf = lineptr)).
Proof.
  intros Hp Hn cap. unfold truthy in *. destruct Hp as [[-> HR]|(Hl & Hn0 & Hh)].
  - cbn [Z.eqb negb]. destruct (malloc_holds g_heap A h cap HR) as (h1 & r & E & D).
    { unfold cap, size_ok. destruct (Z.eqb_spec n 0); cbn [negb]; lia. }
    exists h1, r. split; [exact E|]. destruct D as [[-> D]|[Hr D]]; [by left|by right].
  - assert (cap = n) as -> by (unfold cap; by destruct (Z.eqb_spec n 0); [lia|]). destruct (Z.eqb_spec lineptr 0); [done|].
    cbn [negb]. exists h, lineptr. split; [done|]. by right.
Qed.

(** C20: [getline] on the library's heap, for a stream of a regular file.  It
    returns.  When there is a line it returns its length, and besides the
    other allocations, unchanged, the heap holds one block, the new
    [*lineptr], of at least the new [*n] bytes, into which the line and its
    NUL fit.  At the end of the file it returns -1 and the caller has what was
    passed: a buffer of its own is freed.  When memory runs out it returns -1
    with ENOMEM and leaves [*lineptr] and [*n] alone, although there is then
    one block more than the caller knows of, or the caller's block is gone:
    the buffer grown so far is not freed. *)
Theorem getline_on_heap {K : Type} `{FileKernel K} g_heap A frame fd c (Hframe : 0 <= frame < 2 ^ 32) (Hfd : 0 <= fd < 2 ^ 32)
    f p st h lineptr n fuel (R : StreamRead.represents fd c f p st) (Hn : 0 <= n < 2 ^ 32 - 16)
    (Hpass : passed g_heap A h lineptr n)
    (Hfuel : (length (avail c st) < fuel)%nat) (Hlong : Z.of_nat fuel < 2 ^ 30) :
  exists h' r f' p', @getline K _ frame heap (heap_allocator g_heap) fuel h (Some lineptr) (Some n) (Some f) p = (Some (h', r, Some f'), p') /\
    let got := line (avail c st) in
    (r = LineResult (-1) lineptr n [] /\ errno p' = ENOMEM /\
      (lineptr = 0 /\ HeapClaims.represents g_heap h' A \/ exists b cap, holds g_heap A h' b cap)) \/
    (exists st', StreamRead.represents fd c f' p' st' /\ after_line c st got (unfinished got) st' /\
      match got with
      | [] => r = LineResult (-1) lineptr n [] /\ passed g_heap A h' lineptr n
      | _ => l_ret r = Z.of_nat (length got) /\ l_bytes r = got ++ [0] /\
          Z.of_nat (length got) < l_cap r /\ holds g_heap A h' (l_ptr r) (l_cap r)
      end).
Proof.
  destruct (first_buffer g_heap A h lineptr n Hpass Hn) as (h1 & buf & Eb & D). unfold getline, getline_into. rewrite Eb. clear Eb.
  set (cap := if truthy n then n else 128) in *.
  assert (0 < cap) as Hcap by (unfold cap, truthy; destruct (Z.eqb_spec n 0); cbn [negb]; lia).
  destruct D as [(-> & -> & HR)|(Hbuf & Hh & Hsame)].
  { eexists h1, _, f, _. split; [reflexivity|]. left. split; [done|]. split; [done|]. by left. }
  destruct (Z.eqb_spec buf 0); [done|]. unfold bind at 1.
  destruct (@getline_loop_spec K _ _ frame fd c Hframe Hfd heap (heap_allocator g_heap) fuel f p st h1 buf cap [] R Hfuel)
    as (h2 & f' & p' & r & E & Hr); [cbn [length]; lia..|done|].
  pose proof (getline_loop_heap g_heap A frame fuel h1 buf cap [] (Some f) p h2 r (Some f') p' Hh Hcap ltac:(cbn [length]; lia) E) as Hheap.
  rewrite E. destruct r as [[[[buf' cap'] bs] b]|].
  - destruct Hr as (st' & R' & Ha & -> & Hc' & Hb' & Hbe). destruct Hheap as (Hh' & _ & Hback). cbn [app length] in *.
    destruct (line (avail c st)) as [|x l] eqn:El.
    + assert (b = EOF) as -> by (by apply Hbe). destruct (Hback eq_refl) as [-> ->].
      eexists _, _, f', p'. split; [reflexivity|]. right. exists st'. split; [done|]. split; [exact Ha|]. split; [done|].
      unfold truthy. destruct (Z.eqb_spec lineptr 0) as [->|Hl]; cbn [negb].
      * left. split; [done|]. exact (free_holds g_heap A h1 buf cap Hh).
      * destruct (Hsame Hl) as [-> ->]. right. split; [done|]. destruct Hpass as [[-> _]|(_ & Hn0 & Hp)]; [done|by split].
    + destruct (Z.eqb_spec (Z.of_nat (length (x :: l))) 0); [cbn [length] in *; lia|]. cbn [andb].
      eexists _, _, f', p'. split; [reflexivity|]. right. exists st'. split; [done|]. split; [exact Ha|].
      split; [done|]. split; [done|]. split; [exact Hc'|exact Hh'].
  - eexists _, _, f', p'. split; [reflexivity|]. left. split; [done|]. split; [by destruct Hr|]. by right.
Qed.

(** A first line, read into a buffer the library allocates. *)
Lemma getline_on_heap_witness : exists h' r f' p',
  @getline disk _ 500 heap (heap_allocator 65536) 6 (heap_initial 65536) (Some 0) (Some 2) (Some disk_stream) disk_process = (Some (h', r, Some f'), p') /\
  l_bytes r = [97; 98; 10; 0] /\ holds 65536 ∅ h' (l_ptr r) (l_cap r).
Proof.
  assert (passed 65536 ∅ (heap_initial 65536) 0 2) as Hp by (left; split; [done|by apply initial_represents]).
  assert (length (avail [97; 98; 10; 99; 100]%Z (AStream 0 None 0)) < 6)%nat as Hf by (vm_compute; lia).
  destruct (getline_on_heap 65536 ∅ 500 3 [97; 98; 10; 99; 100] ltac:(lia) ltac:(lia) disk_stream disk_process _ (heap_initial 65536) 0 2 6
    disk_represents ltac:(lia) Hp Hf ltac:(lia)) as (h' & r & f' & p' & E & [(_ & He & _)|(st' & _ & _ & _ & Hb & _ & Hh)]).
  - assert (errno p' = 0) as H0; [|by rewrite H0 in He].
    assert (errno (@getline disk _ 500 heap (heap_allocator 65536) 6 (heap_initial 65536) (Some 0) (Some 2) (Some disk_stream) disk_process).2 = 0) as H0
      by (vm_compute; reflexivity).
    by rewrite E in H0.
  - by exists h', r, f', p'.
Defined.

(** A heap with a block of 4 bytes, a large one and 20 bytes of room; a line of
    20 characters.  The block is grown twice, and the second time fails: -1,
    the pointer the caller still has is that of a free block. *)
Definition tight : heap := (@al_malloc _ (heap_allocator 65536) (@al_malloc _ (heap_allocator 65536) (heap_initial 65536) 2).1 262096).1.

Example getline_dangles :
  match @getline disk _ 500 heap (heap_allocator 65536) 30 tight (Some 65548) (Some 2) (Some disk_stream) (Proc (Disk (repeat 97 20) 0) (fun _ => 0) 0 0) with
  | (Some (h, r, _), p) => (l_ret r, l_ptr r, errno p, block_free (h_mem tight) 65536, block_free (h_mem h) 65536) = (-1, 65548, ENOMEM, 0, 1)
  | _ => False
  end.
Proof. vm_compute. reflexivity. Qed.
