(* ===== verification/StreamWrite.v ===== *)
(** * Streams: the writing functions, and what is read back

    [fwrite] and [vfprintf] over a file that can be written.  A [write] may
    take only a first part of the buffer; none of the functions tries again. *)

From S2P Require Import Prelude Heap Regex Printf PrintfSpec PrintfCorrect PrintfClaims Syscall CString CStringCopy Stream StreamSpec StreamRead RamDisk StreamClaims.
#[local] Open Scope call_scope.

Section write.
Context {K : Type} `{Kernel K}.
Context (frame : Z).

(** [vfprintf]: [frame] is the address of its 512-byte buffer. *)
Definition vfprintf (stream : option FILE) (fmt : list Z) (ap : list arg) : M K (option Z) := fun p =>
  match vsnprintf true 512 fmt ap with
  | None => (None, p)
  | Some (n, buf, _) =>
      let m := overlay (p_mem p) frame buf in
      let p := Proc (p_kernel p) m (errno p) (libsys_errno p) in
      match strlen 512 m frame with
      | None => (None, p)
      | Some len => (let* _ := write (file_fd stream) frame len in ret (Some n)) p
      end
  end.

(** The calls that the output helpers make for a null buffer: every character
    goes through the parameter [c] of [out_char], at [frame]. *)
Fixpoint make_calls (calls : list (Z * Z)) : M K unit :=
  match calls with
  | [] => ret tt
  | (fd, c) :: calls =>
      let* _ := store8 frame (u8 c) in
      let* _ := write fd frame 1 in
      make_calls calls
  end.
End write.

(** Where the kernel refuses the descriptor -1, [vsnprintf] with a null buffer
    leaves EBADF in errno unless the text is empty; the kernel is asked once
    for each character. *)
Lemma null_buffer_errno {K : Type} `{Kernel K} (frame size : Z) fmt ap t (p : process K)
    (Hbad : forall k m, trap k m (abi_call LAMP_SYS_WRITE [u32 (-1); u32 frame; 1; 0; 0; 0]) = (k, m, u32 (-1), EBADF)) :
  formats fmt ap t -> 0 <= size -> Z.of_nat (length t) < 2 ^ 31 ->
  exists calls, vsnprintf false size fmt ap = Some (Z.of_nat (length t), [], calls) /\ length calls = length t /\
    (make_calls frame calls p).2 = Proc (p_kernel p) (fold_left (fun m c => wr8 m frame (u8 c)) t (p_mem p))
      (match t with [] => errno p | _ => EBADF end) (match t with [] => libsys_errno p | _ => EBADF end).
Proof.
  intros Ht Hs Hl. eexists. split; [by apply vsnprintf_text|]. split; [by rewrite length_map|]. clear Ht Hs Hl fmt ap.
  revert p. induction t as [|c t IH]; intros p; [by destruct p|]. cbn [map make_calls fold_left]. unfold bind at 1, store8 at 1.
  unfold write, ret_errno, libsys_write, libsys_call6, bind. cbn [p_kernel p_mem]. rewrite (u32_small 1), !(u32_small 0), Hbad by lia.
  change (s32 (u32 (-1))) with (-1). change (s32 EBADF) with EBADF. cbn [Z.eqb Z.ltb Z.compare Pos.eqb].
  unfold set_errno_from_libsys, set_errno, ret. cbn [p_kernel p_mem errno libsys_errno]. rewrite IH. cbn [p_kernel p_mem errno libsys_errno].
  by destruct t.
Qed.

Section written.
Context {K : Type} `{WritableKernel K}.
Context (fd : Z) (Hfd : 0 <= fd < 2 ^ 32).

(** What a [write] takes: a first part of the buffer; nothing, if it fails. *)
Lemma write_file p c pos buf len : file (p_kernel p) fd = Some (c, pos) -> writable (p_kernel p) fd = true ->
  0 <= len -> pos + len < 2 ^ 31 -> 0 <= buf < 2 ^ 32 -> buf + len <= 2 ^ 32 -> bytes (load (p_mem p) buf (Z.to_nat len)) ->
  exists n r p', write fd buf len p = (r, p') /\ (r = Z.of_nat n \/ r = -1 /\ n = 0%nat) /\ Z.of_nat n <= len /\
    file (p_kernel p') fd = Some (splice c (Z.to_nat pos) (load (p_mem p) buf n), pos + Z.of_nat n) /\
    p_mem p' = p_mem p.
Proof.
  intros Hf Hw Hl Hp Hb Hbl Hby. destruct (file_ok _ _ _ _ Hf) as (_ & Hpos & _).
  destruct (write_law _ _ fd buf len c pos Hf Hw Hl Hp (proj1 Hb) Hbl Hby) as (k' & r & e & E & _ & [[-> Hf']|(n & -> & Hn & Hf')]).
  - exists 0%nat, (-1), (Proc k' (p_mem p) (s32 e) (s32 e)). split.
    + unfold write, libsys_write, ret_errno, bind, libsys_call6.
      rewrite (u32_small fd), (u32_small 0), (u32_small len), (u32_small buf), E by lia. reflexivity.
    + split; [by right|]. split; [lia|]. split; [|done]. cbn [load seq map]. by rewrite Z.add_0_r.
  - exists n, (Z.of_nat n), (Proc k' (p_mem p) 0 0). split; [|by split; [left|]].
    apply (ret_errno_ok _ _ _ _ _ _ _ _ _ _ _ e); [|lia].
    rewrite (u32_small fd), (u32_small 0), (u32_small len), (u32_small buf) by lia. exact E.
Qed.

(** Seeking back to [pos] and one more operation. *)
Lemma seek_then frame (Hframe : 0 <= frame < 2 ^ 32) c f p st pos o : represents fd c f p st -> 0 <= pos < 2 ^ 31 ->
  op_ok frame o ->
  exists f' p', let '(v, data, st') := a_op c o (AStream pos None 0) in
    run_ops frame [OSeek pos SEEK_SET; o] (Some f) p = (Some ([(0, []); (v, data)], Some f'), p') /\ represents fd c f' p' st'.
Proof.
  intros R Hp Ho. assert (op_ok frame (OSeek pos SEEK_SET)) as Hs by (unfold op_ok, SEEK_SET; lia).
  destruct (op_spec frame fd c Hframe Hfd _ f p st R Hs) as (f1 & p1 & Ha1).
  cbn [a_op] in Ha1. unfold a_seek, lseek_target in Ha1. change (SEEK_SET =? SEEK_CUR) with false in Ha1. change (SEEK_SET =? SEEK_SET) with true in Ha1.
  cbn [mbind option_bind] in Ha1. rewrite Z.add_0_l in Ha1.
  destruct (Z.leb_spec 0 pos), (Z.ltb_spec pos (2 ^ 31)); try lia. cbn [andb] in Ha1. destruct Ha1 as (E1 & R1).
  destruct (op_spec frame fd c Hframe Hfd o f1 p1 _ R1 Ho) as (f2 & p2 & Ha2). exists f2, p2.
  destruct (a_op c o _) as [[v data] st']. destruct Ha2 as (E2 & R2). split; [|exact R2].
  cbn [run_ops]. unfold bind. rewrite E1, E2. done.
Qed.

(** [c'] is [c] with a first part of the bytes at [buf] written over it. *)
Lemma represents_written c f p p' st n buf : represents fd c f p st ->
  file (p_kernel p') fd = Some (splice c (Z.to_nat (a_pos st)) (load (p_mem p) buf n), a_pos st + Z.of_nat n) ->
  represents fd (splice c (Z.to_nat (a_pos st)) (load (p_mem p) buf n)) f p' (AStream (a_pos st + Z.of_nat n) (a_slot st) (a_eof st)).
Proof. intros R Hf. destruct R. by split. Qed.

Lemma load_nil m a n : load m a n = [] -> n = 0%nat.
Proof. intros E. rewrite <- (length_load m a n), E. done. Qed.

(** Reading from where something was written. *)
Lemma read_written c pos d (k : nat) : (k <= length d)%nat -> (0 < k)%nat -> take k (avail (splice c (Z.to_nat pos) d) (AStream pos None 0)) = take k d.
Proof.
  intros Hk Hk0. rewrite avail_none by done. cbn [a_pos]. rewrite drop_splice by (by destruct d; [cbn in Hk; lia|]).
  by rewrite take_app_le.
Qed.

(** What [fwrite] reports as written is in the file and is read back.  The
    kernel may take only part of the buffer, which [fwrite] does not try
    again: it returns the number [r] of items that are completely in the file,
    0 if the call failed, the rest of the file is as before, and seeking back
    and reading [r] items delivers exactly the caller's first [r] items. *)
Theorem fwrite_fread_roundtrip frame c f p pos e ptr size nmemb ptr2 (Hframe : 0 <= frame < 2 ^ 32)
    (R : represents fd c f p (AStream pos None e)) (Hw : writable (p_kernel p) fd = true)
    (Hs : 0 < size) (Hn : 0 <= nmemb) (Hl : pos + size * nmemb < 2 ^ 31)
    (Hp : 0 <= ptr < 2 ^ 32) (Hpe : ptr + size * nmemb <= 2 ^ 32) (Hp2 : 0 <= ptr2) (Hp2e : ptr2 + size * nmemb <= 2 ^ 32)
    (Hb : bytes (load (p_mem p) ptr (Z.to_nat (size * nmemb)))) :
  exists n r p1, fwrite ptr size nmemb (Some f) p = (r, p1) /\ r = Z.of_nat n / size /\ 0 <= r <= nmemb /\
    represents fd (splice c (Z.to_nat pos) (load (p_mem p) ptr n)) f p1 (AStream (pos + Z.of_nat n) None e) /\
    exists f' p', run_ops frame [OSeek pos SEEK_SET; ORead ptr2 size r] (Some f) p1 =
      (Some ([(0, []); (r, load (p_mem p) ptr (Z.to_nat (r * size)))], Some f'), p').
Proof.
  pose proof (represents_pos _ _ _ _ _ R) as Hpos. cbn [a_pos] in Hpos.
  destruct (write_file p c pos ptr (size * nmemb) (rep_file _ _ _ _ _ R) Hw) as (n & r & p1 & E & Hr & Hnl & Hf & Hm); try lia; [done|].
  exists n, (Z.of_nat n / size), p1.
  assert (0 <= Z.of_nat n / size) as Hq by (apply Z.div_pos; lia).
  assert (Z.of_nat n / size <= nmemb) as Hq' by (apply Z.div_le_upper_bound; lia).
  pose proof (Z.mul_div_le (Z.of_nat n) size Hs) as Hmul.
  split.
  { unfold fwrite, bind. cbn [file_fd]. rewrite (rep_fd _ _ _ _ _ R), u32_small, E by lia. unfold ret. f_equal.
    destruct Hr as [->|[-> ->]]; [|by rewrite Z.div_0_l by lia]. destruct (Z.leb_spec (Z.of_nat n) 0); [|done].
    assert (n = 0%nat) as -> by lia. by rewrite Z.div_0_l by lia. }
  split; [done|]. split; [lia|].
  assert (R1 := represents_written c f p p1 _ n ptr R Hf). cbn [a_pos a_slot a_eof] in R1. split; [exact R1|].
  destruct (seek_then frame Hframe _ f p1 _ pos (ORead ptr2 size (Z.of_nat n / size)) R1 Hpos) as (f' & p' & Ho).
  { unfold op_ok. nia. }
  exists f', p'. cbn [a_op] in Ho. unfold a_read in Ho. rewrite (Z.mul_comm size) in Ho. set (q := Z.of_nat n / size) in *.
  destruct (Z.to_nat (q * size)) as [|k] eqn:Ek.
  - assert (q = 0) as Eq by nia. rewrite Eq in *. cbn [length] in Ho. rewrite Z.div_0_l, take_nil in Ho by lia. by destruct Ho as [Ho _].
  - rewrite <- Ek in Ho. rewrite read_written, (take_load (p_mem p) ptr n), length_load in Ho by (rewrite ?length_load; lia).
    rewrite Z2Nat.id, Z.div_mul, take_ge in Ho by (rewrite ?length_load; lia). rewrite <- Ek. by destruct Ho as [Ho _].
Qed.

Lemma line_first l r : Forall (fun b => b <> 10) l -> line (l ++ 10 :: r) = l ++ [10].
Proof. induction 1 as [|b l Hb _ IH]; [done|]. cbn [app line]. destruct (Z.eqb_spec b 10); [done|]. by rewrite IH. Qed.

Lemma before_nul_all l : Forall (fun b => 0 < b < 256) l -> before_nul (l ++ [0]) = l.
Proof. intros Hl. apply before_nul_app. eapply list.Forall_impl; [exact Hl|]. cbn. lia. Qed.

(** A text that fits the buffer of [vfprintf]. *)
Lemma vfprintf_text frame c f p st fmt ap t : represents fd c f p st -> writable (p_kernel p) fd = true ->
  formats fmt ap t -> Forall (fun b => 0 < b < 256) t -> (length t < 512)%nat ->
  0 < frame -> frame + 512 <= 2 ^ 32 -> a_pos st + 512 < 2 ^ 31 ->
  exists n p1, vfprintf frame (Some f) fmt ap p = (Some (Z.of_nat (length t)), p1) /\ (n <= length t)%nat /\
    represents fd (splice c (Z.to_nat (a_pos st)) (take n t)) f p1 (AStream (a_pos st + Z.of_nat n) (a_slot st) (a_eof st)) /\
    p_mem p1 = overlay (p_mem p) frame (t ++ [0]).
Proof.
  intros R Hw Hf Ht Hl Hfr Hfe Hp. unfold vfprintf. rewrite (vsnprintf_text true 512 fmt ap t Hf) by (lia || (unfold int_length; lia)).
  change (true && negb (512 =? 0)) with true. cbn iota. rewrite take_ge by lia. set (m := overlay (p_mem p) frame (t ++ [0])).
  set (q := Proc (p_kernel p) m _ _).
  rewrite (strlen_spec 512 m frame t) by ((by apply cstring_overlay) || lia).
  assert (load m frame (length t) = t) as El.
  { rewrite (load_overlay (p_mem p) m frame (t ++ [0])) by (rewrite ?length_app; cbn [length]; (lia || done)). by rewrite take_app_length. }
  destruct (write_file q c (a_pos st) frame (Z.of_nat (length t)) (rep_file _ _ _ _ _ R) Hw)
    as (n & r & p1 & E & _ & Hn & Hf1 & Hm1); [lia..| |].
  { cbn [p_mem q]. rewrite Nat2Z.id, El. eapply list.Forall_impl; [exact Ht|]. cbn. lia. }
  exists n, p1. cbn [p_mem q] in Hf1. assert (take n t = load m frame n) as -> by (rewrite <- El; apply take_load; lia). split; [|split; [lia|]].
  - unfold bind. cbn [file_fd]. rewrite (rep_fd _ _ _ _ _ R), E. done.
  - split; [destruct R; by split|exact Hm1].
Qed.

(** A line printed to a file is the line [fgets] reads there.  [vfprintf]
    (and so [fprintf] and [printf]) returns the length of the text, the file
    has a first part of it at the position and is otherwise as before; if the
    kernel took all of it, then seeking back and reading a line into a large
    enough buffer delivers the text.  If not, [vfprintf] does not tell. *)
Theorem fprintf_fgets_roundtrip frame frame2 c f p pos e fmt ap l s size
    (R : represents fd c f p (AStream pos None e)) (Hw : writable (p_kernel p) fd = true)
    (Hf : formats fmt ap (l ++ [10])) (Hl : Forall (fun b => 0 < b < 256 /\ b <> 10) l) (Hll : (length l < 511)%nat)
    (Hfr : 0 < frame) (Hfe : frame + 512 <= 2 ^ 32) (Hp : pos + 512 < 2 ^ 31) (Hfr2 : 0 <= frame2 < 2 ^ 32)
    (Hs : op_ok frame2 (OGets s size)) (Hsize : Z.of_nat (length l) + 1 < size) :
  exists n p1, vfprintf frame (Some f) fmt ap p = (Some (Z.of_nat (length l) + 1), p1) /\ (n <= length l + 1)%nat /\
    represents fd (splice c (Z.to_nat pos) (take n (l ++ [10]))) f p1 (AStream (pos + Z.of_nat n) None e) /\
    (n = (length l + 1)%nat -> exists f' p', run_ops frame2 [OSeek pos SEEK_SET; OGets s size] (Some f) p1 =
      (Some ([(0, []); (s, l ++ [10])], Some f'), p')).
Proof.
  pose proof (represents_pos _ _ _ _ _ R) as Hpos. cbn [a_pos] in Hpos.
  assert (Forall (fun b => 0 < b < 256) (l ++ [10])) as Ht.
  { apply Forall_app. split; [|by repeat constructor; lia]. eapply list.Forall_impl; [exact Hl|]. cbn. lia. }
  destruct (vfprintf_text frame c f p _ fmt ap (l ++ [10]) R Hw Hf Ht) as (n & p1 & E & Hn & R1 & _);
    rewrite ?length_app in *; cbn [length a_pos a_slot a_eof] in *; try lia.
  exists n, p1. split; [by rewrite E; do 2 f_equal; lia|]. split; [done|]. split; [exact R1|]. intros En.
  rewrite take_ge in R1 by (rewrite length_app; cbn [length]; lia).
  destruct (seek_then frame2 Hfr2 _ f p1 _ pos (OGets s size) R1 Hpos Hs) as (f' & p' & Ho). exists f', p'.
  cbn [a_op] in Ho. destruct (Z.leb_spec size 0); [lia|]. unfold a_gets in Ho. cbn [a_pos] in Ho.
  rewrite drop_splice, <- app_assoc in Ho by (by destruct l). rewrite take_app_ge in Ho by lia.
  destruct (Z.to_nat (size - 1) - length l)%nat as [|k] eqn:Ek; [lia|]. cbn [app take] in Ho.
  rewrite line_first in Ho by (eapply list.Forall_impl; [exact Hl|]; cbn; lia).
  rewrite before_nul_all in Ho by done. destruct l; by destruct Ho as [Ho _].
Qed.
End written.

(** ** The claims on a file in memory *)

(** A process over an empty disk, with letters from 1000 on. *)
Definition blank_process : process disk := Proc (Disk [] 0) (fun x => if 1000 <=? x then 65 + (x - 1000) mod 26 else 0) 0 0.

Lemma blank_represents : represents 3 [] disk_stream blank_process (AStream 0 None 0).
Proof. split; reflexivity. Qed.

Lemma blank_writable : writable (p_kernel blank_process) 3 = true.
Proof. done. Qed.

(** Ten items of seven bytes: the kernel takes 64 bytes, so 9 are written. *)
Lemma fwrite_fread_roundtrip_witness : exists p1 f' p',
  fwrite 1000 7 10 (Some disk_stream) blank_process = (9, p1) /\
  run_ops 500 [OSeek 0 SEEK_SET; ORead 5000 7 9] (Some disk_stream) p1 =
    (Some ([(0, []); (9, load (p_mem blank_process) 1000 63)], Some f'), p').
Proof.
  assert (bytes (load (p_mem blank_process) 1000 (Z.to_nat (7 * 10)))) as Hb by (vm_compute; repeat constructor; discriminate).
  destruct (fwrite_fread_roundtrip 3 ltac:(lia) 500 [] disk_stream blank_process 0 0 1000 7 10 5000 ltac:(lia) blank_represents blank_writable
    ltac:(lia) ltac:(lia) ltac:(lia) ltac:(lia) ltac:(lia) ltac:(lia) ltac:(lia) Hb) as (n & r & p1 & E & _ & _ & _ & f' & p' & Eo).
  assert ((fwrite 1000 7 10 (Some disk_stream) blank_process).1 = 9) as E9 by (vm_compute; reflexivity).
  rewrite E in E9. cbn [fst] in E9. subst r. exists p1, f', p'. split; [exact E|exact Eo].
Defined.

(** "x=%d" and a newline, with 42. *)
Lemma fprintf_fgets_roundtrip_witness : exists p1 f' p',
  vfprintf 2000 (Some disk_stream) [120; 61; 37; 100; 10] [VInt 42] blank_process = (Some 5, p1) /\
  run_ops 500 [OSeek 0 SEEK_SET; OGets 5000 80] (Some disk_stream) p1 =
    (Some ([(0, []); (5000, [120; 61; 52; 50; 10])], Some f'), p').
Proof.
  assert (formats [120; 61; 37; 100; 10] [VInt 42] ([120; 61; 52; 50] ++ [10])) as Hf.
  { do 2 (eapply formats_char; [done|]). change [52; 50; 10] with (text (DUint 42 10 0 false 0 false false (-1) []) ++ [10]).
    eapply formats_directive; [reflexivity|]. eapply formats_char; [done|]. apply formats_nil. }
  destruct (fprintf_fgets_roundtrip 3 ltac:(lia) 2000 500 [] disk_stream blank_process 0 0 _ _ _ 5000 80 blank_represents blank_writable Hf)
    as (n & p1 & E & _ & R & Ho).
  all: try (repeat constructor; cbn; lia).
  assert (p_kernel (vfprintf 2000 (Some disk_stream) [120; 61; 37; 100; 10] [VInt 42] blank_process).2 = Disk [120; 61; 52; 50; 10] 5) as Ek
    by (vm_compute; reflexivity).
  rewrite E in Ek. cbn [snd] in Ek.
  destruct Ho as (f' & p' & Eo); [|exists p1, f', p'; split; [exact E|exact Eo]].
  pose proof (rep_file _ _ _ _ _ R) as Rf. rewrite Ek in Rf. injection Rf as _ Rf. cbn. lia.
Defined.
