(* ===== verification/Lifecycle.v ===== *)
(** * Streams from [fopen] to [fclose]

    [FilesKernel] adds names to the file interface: which descriptors are open,
    the name behind each, the bytes of a named file.  The theorem follows a
    text from the stream it is printed to, through the file, to the stream it
    is read from, and the descriptors and heap blocks on the way. *)

From stdpp Require Import gmap.
From S2P Require Import Prelude Heap HeapInv HeapOps HeapClaims Regex RegexHeap Printf PrintfSpec PrintfCorrect Syscall CString CStringCopy Stream StreamSpec StreamRead RamDisk StreamClaims StreamWrite.
#[local] Open Scope call_scope.

(** ** What the kernel promises *)

(** The flags of the two modes. *)
Abbreviation write_flags := (Z.lor (Z.lor O_WRONLY O_CREAT) O_TRUNC).

(** [regular]: the name is that of a regular file, or of none yet. *)
Class FilesKernel (K : Type) `{WritableKernel K} : Type := {
  descriptors : K -> gset Z;
  name_of : K -> Z -> option (list Z);
  content : K -> list Z -> option (list Z);
  regular : K -> list Z -> bool;
  name_content k fd name c pos : name_of k fd = Some name -> file k fd = Some (c, pos) -> content k name = Some c;
  content_regular k name c : content k name = Some c -> regular k name = true;
  (** Transfers and seeks open and close nothing. *)
  transfer_law k m nr args : nr ∈ [LAMP_SYS_READ; LAMP_SYS_WRITE; LAMP_SYS_LSEEK] ->
    let '(k', _, _, _) := trap k m (abi_call nr args) in
    descriptors k' = descriptors k /\ forall fd, name_of k' fd = name_of k fd;
  (** It fails, or the result is a new descriptor, at the start of the file or
      of an emptied one. *)
  open_law k m path flags name : regular k name = true -> flags = O_RDONLY \/ flags = write_flags ->
    cstring m path name -> 0 < path < 2 ^ 32 ->
    exists k' r e,
      trap k m (abi_call LAMP_SYS_OPEN [path; flags; 0; 0; 0; 0]) = (k', m, r, e) /\
      ((r = 2 ^ 32 - 1 /\ descriptors k' = descriptors k) \/
       (0 <= r < 2 ^ 31 /\ (r ∉ descriptors k) /\ descriptors k' = ({[r]} ∪ descriptors k) /\ name_of k' r = Some name /\
        (if flags =? O_RDONLY then exists c, content k name = Some c /\ file k' r = Some (c, 0)
         else file k' r = Some ([], 0) /\ writable k' r = true)));
  (** A close releases the descriptor even when it reports an error. *)
  close_law k m fd : fd ∈ descriptors k ->
    exists k' r e,
      trap k m (abi_call LAMP_SYS_CLOSE [fd; 0; 0; 0; 0; 0]) = (k', m, r, e) /\ (r = 0 \/ r = 2 ^ 32 - 1) /\
      descriptors k' = (descriptors k ∖ {[fd]}) /\ forall name, content k' name = content k name
}.

(** ** Code that only transfers and seeks *)

Section quiet.
Context {K : Type} `{FilesKernel K}.

(** The code leaves the table of descriptors alone. *)
Definition quiet {X : Type} (m : M K X) : Prop := forall p,
  descriptors (p_kernel (m p).2) = descriptors (p_kernel p) /\ forall fd, name_of (p_kernel (m p).2) fd = name_of (p_kernel p) fd.

Lemma quiet_pure {X} (m : M K X) : (forall p, p_kernel (m p).2 = p_kernel p) -> quiet m.
Proof. intros Hm p. by rewrite Hm. Qed.

Lemma quiet_bind {X Y} (m : M K X) (f : X -> M K Y) : quiet m -> (forall x, quiet (f x)) -> quiet (bind m f).
Proof.
  intros Hm Hf p. unfold bind. destruct (Hm p) as [E1 E2]. destruct (m p) as [x q]. cbn [snd] in *.
  destruct (Hf x q) as [F1 F2]. split; [congruence|]. intros fd. by rewrite F2.
Qed.

Lemma quiet_ret {X} (x : X) : quiet (ret x).
Proof. by apply quiet_pure. Qed.

Lemma quiet_call nr a0 a1 a2 a3 a4 a5 : nr ∈ [LAMP_SYS_READ; LAMP_SYS_WRITE; LAMP_SYS_LSEEK] ->
  quiet (ret_errno (libsys_call6 nr a0 a1 a2 a3 a4 a5)).
Proof.
  intros Hnr. apply quiet_bind.
  - intros p. unfold libsys_call6. pose proof (transfer_law (p_kernel p) (p_mem p) nr [u32 a0; u32 a1; u32 a2; u32 a3; u32 a4; u32 a5] Hnr) as Ht.
    by destruct (trap _ _ _) as [[[k m] r] e].
  - intros r. destruct (r <? 0); (apply quiet_bind; [by apply quiet_pure|intros; apply quiet_ret]).
Qed.
End quiet.

Create HintDb quiet discriminated.
#[export] Hint Resolve quiet_ret : quiet.
#[export] Hint Extern 1 (quiet (read _ _ _)) => (apply quiet_call; compute_done) : quiet.
#[export] Hint Extern 1 (quiet (write _ _ _)) => (apply quiet_call; compute_done) : quiet.
#[export] Hint Extern 1 (quiet (lseek _ _ _)) => (apply quiet_call; compute_done) : quiet.
#[export] Hint Extern 1 (quiet (load8 _)) => (by apply quiet_pure) : quiet.
#[export] Hint Extern 1 (quiet (store8 _ _)) => (by apply quiet_pure) : quiet.

(** One step of a proof that code is quiet. *)
Ltac quiet_step :=
  match goal with
  | |- quiet (bind _ _) => apply quiet_bind; [|intros ?]
  | |- quiet (match ?x with _ => _ end) => destruct x
  | |- quiet (let '_ := ?x in _) => destruct x
  | |- quiet _ => solve [auto with quiet]
  end.

Section ops.
Context {K : Type} `{FilesKernel K}.
Context (frame : Z).

Lemma quiet_fgetc stream : quiet (fgetc frame stream).
Proof. unfold fgetc. repeat quiet_step. Qed.

Lemma quiet_fread_loop fuel : forall out total done stream, quiet (fread_loop fuel out total done stream).
Proof. induction fuel as [|fuel IH]; intros out total done stream; cbn [fread_loop]; repeat (quiet_step || apply IH). Qed.

Lemma quiet_fgets_loop n : forall s i stream, quiet (fgets_loop frame n s i stream).
Proof. induction n as [|n IH]; intros s i stream; cbn [fgets_loop]; repeat (quiet_step || apply IH). Qed.

Lemma quiet_op o stream : quiet (run_op frame o stream).
Proof.
  destruct o; cbn [run_op]; unfold fread, fgets, fseeko, ftell.
  all: repeat (quiet_step || apply quiet_fgetc || apply quiet_fread_loop || apply quiet_fgets_loop).
  all: by apply quiet_pure.
Qed.

Lemma quiet_ops os : forall stream, quiet (run_ops frame os stream).
Proof.
  induction os as [|o os IH]; intros stream; cbn [run_ops]; [apply quiet_ret|].
  apply quiet_bind; [apply quiet_op|intros r]. repeat (quiet_step || apply IH).
Qed.

Lemma quiet_vfprintf stream fmt ap : quiet (vfprintf frame stream fmt ap).
Proof.
  intros p. unfold vfprintf. destruct (vsnprintf _ _ _ _) as [[[n buf] ?]|]; [|done]. destruct (strlen _ _ _) as [len|]; [|done].
  set (q := Proc _ _ _ _). change (p_kernel p) with (p_kernel q). apply (quiet_bind (write _ _ _)); [auto with quiet|intros _; apply quiet_ret].
Qed.
End ops.

(** ** Opening and closing on the library's heap *)

Section lifecycle.
Context {K : Type} `{FilesKernel K}.
Context (g_heap : Z).
#[local] Instance library_heap : Allocator heap := heap_allocator g_heap.

(** The descriptors after a failure to open: those there were, or one more
    when the kernel opened the file and there was no memory for the stream. *)
Definition leaked (h : heap) (p p' : process K) : Prop :=
  descriptors (p_kernel p') = descriptors (p_kernel p) \/
  (al_malloc h sizeof_FILE).2 = 0 /\
  exists fd, (fd ∉ descriptors (p_kernel p)) /\ descriptors (p_kernel p') = ({[fd]} ∪ descriptors (p_kernel p)).

(** A stream of the file [name] at its start: its block and its descriptor are
    new. *)
Definition opened (A : gmap Z (list Z)) (h' : heap) (ptr : Z) (f : FILE) (p p' : process K) (name c : list Z) : Prop :=
  ptr <> 0 /\ A !! ptr = None /\ (exists b, HeapClaims.represents g_heap h' (<[ptr := b]> A)) /\
  exists fd, 0 <= fd < 2 ^ 31 /\ (fd ∉ descriptors (p_kernel p)) /\
    descriptors (p_kernel p') = ({[fd]} ∪ descriptors (p_kernel p)) /\
    name_of (p_kernel p') fd = Some name /\ represents fd c f p' (AStream 0 None 0).

Lemma open_result path mode0 name p : regular (p_kernel p) name = true -> cstring (p_mem p) path name -> 0 < path < 2 ^ 32 ->
  exists r p', open path (mode_flags mode0) p = (r, p') /\ p_mem p' = p_mem p /\
    ((r = -1 /\ descriptors (p_kernel p') = descriptors (p_kernel p)) \/
     (0 <= r < 2 ^ 31 /\ (r ∉ descriptors (p_kernel p)) /\ descriptors (p_kernel p') = ({[r]} ∪ descriptors (p_kernel p)) /\
      name_of (p_kernel p') r = Some name /\
      (if mode0 =? 119 then file (p_kernel p') r = Some ([], 0) /\ writable (p_kernel p') r = true
       else exists c, content (p_kernel p) name = Some c /\ file (p_kernel p') r = Some (c, 0)))).
Proof.
  intros Hr Hs Hp. assert (mode_flags mode0 = O_RDONLY \/ mode_flags mode0 = write_flags) as Hm
    by (unfold mode_flags; destruct (mode0 =? 119); by (left + right)).
  destruct (open_law (p_kernel p) (p_mem p) path (mode_flags mode0) name Hr Hm Hs Hp) as (k' & r & e & E & D).
  assert (u32 (mode_flags mode0) = mode_flags mode0) as Em by (destruct Hm as [-> | ->]; reflexivity).
  destruct D as [(-> & Hd)|(Hrange & Hn & Hd & Hname & Hf)].
  - exists (-1), (Proc k' (p_mem p) (s32 e) (s32 e)). split; [|by split; [|left]].
    unfold open, libsys_open, ret_errno, bind, libsys_call6. rewrite (u32_small path), Em, (u32_small 0), E by lia. reflexivity.
  - exists r, (Proc k' (p_mem p) 0 0). split.
    { unfold open, libsys_open. apply (ret_errno_ok _ _ _ _ _ _ _ _ _ _ _ e); [|done]. by rewrite (u32_small path), Em, (u32_small 0) by lia. }
    split; [done|]. right. do 4 (split; [done|]). unfold mode_flags in Hf. by destruct (mode0 =? 119).
Qed.

Lemma fopen_spec h A path mode0 name p : HeapClaims.represents g_heap h A ->
  regular (p_kernel p) name = true -> cstring (p_mem p) path name -> 0 < path < 2 ^ 32 ->
  exists h' ptr o p', fopen h path mode0 p = ((h', ptr, o), p') /\ p_mem p' = p_mem p /\
    match o with
    | None => HeapClaims.represents g_heap h' A /\ leaked h p p'
    | Some f => exists c, opened A h' ptr f p p' name c /\
        if mode0 =? 119 then c = [] /\ writable (p_kernel p') (f_fd f) = true else content (p_kernel p) name = Some c
    end.
Proof.
  intros HR Hreg Hs Hp. destruct (open_result path mode0 name p Hreg Hs Hp) as (r & p' & E & Hm & D).
  unfold fopen, bind. rewrite E. destruct D as [(-> & Hd)|(Hr & Hn & Hd & Hname & Hf)].
  { exists h, 0, None, p'. split; [done|]. split; [done|]. split; [done|by left]. }
  destruct (Z.ltb_spec r 0); [lia|]. unfold fdopen.
  destruct (RegexHeap.malloc_step g_heap A h sizeof_FILE HR) as (h' & ptr & Ea & D); [unfold HeapClaims.size_ok, sizeof_FILE; lia|].
  change (al_malloc h sizeof_FILE = (h', ptr)) in Ea. destruct (al_malloc h sizeof_FILE) as [h0 ptr0] eqn:Ea'. injection Ea as -> ->.
  unfold truthy. destruct D as [(-> & HR')|(Hptr & HA & HR')].
  - exists h', 0, None, p'. split; [done|]. split; [done|]. split; [done|]. right. rewrite Ea'. split; [done|]. by exists r.
  - destruct (Z.eqb_spec ptr 0); [done|]. exists h', ptr, (Some (File r 0 0 (-1))), p'. split; [done|]. split; [done|].
    assert (forall c, file (p_kernel p') r = Some (c, 0) -> opened A h' ptr (File r 0 0 (-1)) p p' name c) as Ho.
    { intros c Hc. split; [done|]. split; [done|]. split; [done|]. exists r. do 4 (split; [done|]). by split. }
    destruct (mode0 =? 119).
    + exists []. split; [apply Ho|]; tauto.
    + destruct Hf as (c & Hc & Hf). exists c. split; [by apply Ho|done].
Qed.

Lemma fclose_spec h A ptr b f p : HeapClaims.represents g_heap h (<[ptr := b]> A) -> A !! ptr = None ->
  f_fd f ∈ descriptors (p_kernel p) -> 0 <= f_fd f < 2 ^ 31 ->
  exists h' r p', fclose h false ptr (Some f) p = ((h', r), p') /\ HeapClaims.represents g_heap h' A /\ p_mem p' = p_mem p /\
    descriptors (p_kernel p') = (descriptors (p_kernel p) ∖ {[f_fd f]}) /\
    forall name, content (p_kernel p') name = content (p_kernel p) name.
Proof.
  intros HR HA Hfd Hr. destruct (close_law (p_kernel p) (p_mem p) (f_fd f) Hfd) as (k' & r & e & E & D & Hd & Hc).
  unfold fclose, bind, close, libsys_close, ret_errno, bind, libsys_call6. cbn [file_fd].
  rewrite (u32_small (f_fd f)), (u32_small 0), E by lia.
  destruct D as [-> | ->]; eexists _, _, _; (split; [reflexivity|]); (split; [by eapply RegexHeap.free_step|]); done.
Qed.
(** ** Sessions

    What a program does with a file: open, print or read, close. *)

Definition save_text (frame : Z) (h : heap) (path : Z) (fmt : list Z) (ap : list arg) : M K (heap * option (option Z)) :=
  let* r := fopen h path 119 in
  let '(h, ptr, stream) := r in
  match stream with
  | None => ret (h, None)
  | Some _ =>
      let* n := vfprintf frame stream fmt ap in
      let* (h, _) := fclose h false ptr stream in ret (h, Some n)
  end.

(** [None] when the reading operations are out of fuel. *)
Definition load_file (frame : Z) (h : heap) (path : Z) (os : list op) : M K (option (heap * option (list (Z * list Z)))) :=
  let* r := fopen h path 114 in
  let '(h, ptr, stream) := r in
  match stream with
  | None => ret (Some (h, None))
  | Some _ =>
      let* r := run_ops frame os stream in
      match r with
      | None => ret None
      | Some (obs, stream) => let* (h, _) := fclose h false ptr stream in ret (Some (h, Some obs))
      end
  end.

Lemma descriptors_back (fd : Z) (D D' D'' : gset Z) : fd ∉ D -> D' = {[fd]} ∪ D -> D'' = D' ∖ {[fd]} -> D'' = D.
Proof.
  intros Hn -> ->. apply set_eq. intros x. rewrite elem_of_difference, elem_of_union, elem_of_singleton. split; [tauto|].
  intros Hx. split; [by right|]. by intros ->.
Qed.

(** Closing a stream that [fopen] opened, after quiet code. *)
Lemma closed_after A h ptr f f' fd c st p0 p1 p name c0 : opened A h ptr f p0 p1 name c0 -> f_fd f = fd ->
  descriptors (p_kernel p) = descriptors (p_kernel p1) -> represents fd c f' p st ->
  exists h' r p', fclose h false ptr (Some f') p = ((h', r), p') /\ HeapClaims.represents g_heap h' A /\ p_mem p' = p_mem p /\
    descriptors (p_kernel p') = descriptors (p_kernel p0) /\ forall n, content (p_kernel p') n = content (p_kernel p) n.
Proof.
  intros (_ & HA & (b & HR) & fd0 & Hfd & Hn & Hd & _ & R0) Efd Hq R. rewrite (rep_fd _ _ _ _ _ R0) in Efd. subst fd0.
  pose proof (rep_fd _ _ _ _ _ R) as Ef.
  destruct (fclose_spec h A ptr b f' p HR HA) as (h' & r & p' & E & HR' & Hm & Hd' & Hc); rewrite ?Ef; [rewrite Hq, Hd; by apply elem_of_union_l, elem_of_singleton|lia|].
  exists h', r, p'. split; [done|]. split; [done|]. split; [done|]. split; [|done]. rewrite Ef in Hd'.
  by eapply descriptors_back; [exact Hn|exact Hd|rewrite Hd', Hq].
Qed.

(** Reading sessions. *)
Lemma load_session frame (Hframe : 0 <= frame < 2 ^ 32) h A path name os p : HeapClaims.represents g_heap h A ->
  regular (p_kernel p) name = true -> cstring (p_mem p) path name -> 0 < path < 2 ^ 32 -> Forall (op_ok frame) os ->
  exists h' out p', load_file frame h path os p = (Some (h', out), p') /\ HeapClaims.represents g_heap h' A /\
    match out with
    | None => leaked h p p'
    | Some obs => descriptors (p_kernel p') = descriptors (p_kernel p) /\
        exists c, content (p_kernel p) name = Some c /\ obs = (a_ops c os (AStream 0 None 0)).1
    end.
Proof.
  intros HR Hreg Hs Hp Hos. destruct (fopen_spec h A path 114 name p HR Hreg Hs Hp) as (h1 & ptr & o & p1 & E & _ & Ho).
  unfold load_file, bind at 1. rewrite E. destruct o as [f|]; [|by exists h1, None, p1].
  destruct Ho as (c & Ho & Hc). pose proof Ho as (_ & _ & _ & fd & Hfd & _ & _ & _ & R).
  destruct (stream_refines frame fd c Hframe ltac:(lia) os f p1 _ R Hos) as (f' & p2 & Hr).
  destruct (a_ops c os (AStream 0 None 0)) as [obs st'] eqn:Ea. destruct Hr as (Eo & R2).
  pose proof (proj1 (quiet_ops frame os (Some f) p1)) as Hq. rewrite Eo in Hq. cbn [snd] in Hq.
  destruct (closed_after A h1 ptr f f' fd c st' p p1 p2 name c Ho (rep_fd _ _ _ _ _ R) Hq R2) as (h2 & r & p3 & Ec & HR2 & _ & Hd & _).
  unfold bind. rewrite Eo, Ec. exists h2, (Some obs), p3. split; [done|]. split; [done|]. split; [done|]. exists c. by rewrite Ea.
Qed.

(** A session that prints a text the buffer of [vfprintf] holds. *)
Lemma save_session frame h A path name fmt ap t p : HeapClaims.represents g_heap h A ->
  regular (p_kernel p) name = true -> cstring (p_mem p) path name -> 0 < path < 2 ^ 32 ->
  formats fmt ap t -> Forall (fun b => 0 < b < 256) t -> (length t < 512)%nat -> 0 < frame -> frame + 512 <= 2 ^ 32 ->
  exists h' out p', save_text frame h path fmt ap p = ((h', out), p') /\ HeapClaims.represents g_heap h' A /\
    match out with
    | None => leaked h p p'
    | Some r => r = Some (Z.of_nat (length t)) /\ descriptors (p_kernel p') = descriptors (p_kernel p) /\
        p_mem p' = overlay (p_mem p) frame (t ++ [0]) /\
        exists n, (n <= length t)%nat /\ content (p_kernel p') name = Some (take n t)
    end.
Proof.
  intros HR Hreg Hs Hp Hf Ht Hl Hfr Hfe. destruct (fopen_spec h A path 119 name p HR Hreg Hs Hp) as (h1 & ptr & o & p1 & E & Hm1 & Ho).
  unfold save_text, bind at 1. rewrite E. destruct o as [f|]; [|by exists h1, None, p1].
  destruct Ho as (c & Ho & -> & Hw). pose proof Ho as (_ & _ & _ & fd & Hfd & _ & _ & Hname & R). rewrite (rep_fd _ _ _ _ _ R) in Hw.
  destruct (vfprintf_text fd ltac:(lia) frame [] f p1 _ fmt ap t R Hw Hf Ht Hl Hfr Hfe) as (n & p2 & Ev & Hn & R2 & Hm2); [cbn; lia|].
  destruct (quiet_vfprintf frame (Some f) fmt ap p1) as [Hq Hqn]. rewrite Ev in Hq, Hqn. cbn [snd] in Hq, Hqn.
  destruct (closed_after A h1 ptr f f fd _ _ p p1 p2 name [] Ho (rep_fd _ _ _ _ _ R) Hq R2) as (h2 & r & p3 & Ec & HR2 & Hm3 & Hd & Hcn).
  unfold bind. rewrite Ev, Ec. exists h2, (Some (Some (Z.of_nat (length t)))), p3. split; [done|]. split; [done|]. split; [done|]. split; [done|].
  split; [by rewrite Hm3, Hm2, Hm1|]. exists n. split; [done|]. rewrite Hcn.
  erewrite (name_content _ fd name _ _); [|by rewrite Hqn|exact (rep_file _ _ _ _ _ R2)]. cbn [a_pos].
  unfold splice. destruct (take n t) as [|b l]; [done|]. cbn [Z.to_nat take length Nat.sub replicate app]. by rewrite drop_nil, app_nil_r.
Qed.
End lifecycle.

Section roundtrip.
Context {K : Type} `{FilesKernel K}.

(** C17: a text printed to a file and read back, from [fopen] to the last
    [fclose], on the heap of the library and any kernel with named files.  The
    printing session either cannot open the file, or [fprintf] reports the
    whole length and the file then holds a first part of the text, all of it
    unless the kernel took less.  A reading session on it either cannot open
    it, or every sequence of stream operations sees exactly what is in the
    file.  Whatever happens no block of the heap is lost, and no descriptor,
    with one exception: when the file opened but there was no memory for its
    stream, [fopen] forgets the descriptor. *)
Theorem saved_file_loaded g_heap h A p path name fmt ap t frame frame2 os
    (HR : HeapClaims.represents g_heap h A) (Hreg : regular (p_kernel p) name = true)
    (Hs : cstring (p_mem p) path name) (Hp : 0 < path < 2 ^ 32)
    (Hapart : path + Z.of_nat (length name) < frame \/ frame + 512 <= path)
    (Hf : formats fmt ap t) (Ht : Forall (fun b => 0 < b < 256) t) (Hl : (length t < 512)%nat)
    (Hfr : 0 < frame) (Hfe : frame + 512 <= 2 ^ 32) (Hfr2 : 0 <= frame2 < 2 ^ 32) (Hos : Forall (op_ok frame2) os) :
  exists h1 saved p1, save_text g_heap frame h path fmt ap p = ((h1, saved), p1) /\ HeapClaims.represents g_heap h1 A /\
    match saved with
    | None => leaked g_heap h p p1
    | Some r => r = Some (Z.of_nat (length t)) /\ descriptors (p_kernel p1) = descriptors (p_kernel p) /\
        exists n, (n <= length t)%nat /\ content (p_kernel p1) name = Some (take n t) /\
        exists h2 loaded p2, load_file g_heap frame2 h1 path os p1 = (Some (h2, loaded), p2) /\ HeapClaims.represents g_heap h2 A /\
          match loaded with
          | None => leaked g_heap h1 p1 p2
          | Some obs => obs = (a_ops (take n t) os (AStream 0 None 0)).1 /\ descriptors (p_kernel p2) = descriptors (p_kernel p)
          end
    end.
Proof.
  destruct (save_session g_heap frame h A path name fmt ap t p HR Hreg Hs Hp Hf Ht Hl Hfr Hfe) as (h1 & saved & p1 & E & HR1 & Ho).
  exists h1, saved, p1. split; [done|]. split; [done|]. destruct saved as [r|]; [|done]. destruct Ho as (-> & Hd & Hm & n & Hn & Hc).
  split; [done|]. split; [done|]. exists n. split; [done|]. split; [done|].
  assert (cstring (p_mem p1) path name) as Hs1.
  { eapply cstring_ext; [exact Hs|]. intros x Hx. rewrite Hm. apply overlay_out. rewrite length_app. cbn [length]. lia. }
  destruct (load_session g_heap frame2 Hfr2 h1 A path name os p1 HR1 (content_regular _ _ _ Hc) Hs1 Hp Hos) as (h2 & out & p2 & E2 & HR2 & Ho2).
  exists h2, out, p2. split; [done|]. split; [done|]. destruct out as [obs|]; [|done]. destruct Ho2 as (Hd2 & c & Hc2 & ->).
  rewrite Hc in Hc2. injection Hc2 as <-. split; [done|congruence].
Qed.
End roundtrip.

(** ** A cabinet with one file

    The file "f" on the disk of [RamDisk], open at descriptor 3 or not. *)

Record cabinet : Type := Cabinet {
  cab_disk : disk;
  cab_open : bool
}.

Definition file_f : list Z := [102].

(** Opening empties the file or starts at its first byte. *)
Definition cab_opened (k : cabinet) (flags : Z) : disk := Disk (if flags =? O_RDONLY then d_bytes (cab_disk k) else []) 0.

#[local] Instance cabinet_kernel : Kernel cabinet := fun k m rq =>
  let refused e := (k, m, 2 ^ 32 - 1, e) in
  match rq_nr rq, rq_args rq with
  | LAMP_SYS_OPEN, [path; flags; _; _; _; _] =>
      if negb (cab_open k) && (m path =? 102) && (m (path + 1) =? 0) && disk_ok (cab_opened k flags)
      then (Cabinet (cab_opened k flags) true, m, 3, 0) else refused ENOENT
  | LAMP_SYS_CLOSE, [fd; _; _; _; _; _] => if cab_open k && (fd =? 3) then (Cabinet (cab_disk k) false, m, 0, 0) else refused EBADF
  | LAMP_SYS_READ, _ | LAMP_SYS_WRITE, _ | LAMP_SYS_LSEEK, _ =>
      if cab_open k then let '(d, m', r, e) := disk_kernel (cab_disk k) m rq in (Cabinet d true, m', r, e) else refused EBADF
  | _, _ => refused EINVAL
  end.

Definition cab_file (k : cabinet) (fd : Z) : option (list Z * Z) := if cab_open k then disk_file (cab_disk k) fd else None.

Lemma cab_file_some k fd x : cab_file k fd = Some x -> cab_open k = true /\ file (cab_disk k) fd = Some x.
Proof. unfold cab_file. by destruct (cab_open k). Qed.

(** A transfer or seek is the disk's. *)
Lemma cab_trap k m nr args : cab_open k = true -> nr ∈ [LAMP_SYS_READ; LAMP_SYS_WRITE; LAMP_SYS_LSEEK] ->
  trap k m (abi_call nr args) = (let '(d, m', r, e) := trap (cab_disk k) m (abi_call nr args) in (Cabinet d true, m', r, e)).
Proof.
  intros Ho Hnr. repeat (apply elem_of_cons in Hnr as [->|Hnr]; [by cbn; rewrite Ho|]). by apply elem_of_nil in Hnr.
Qed.

#[local, refine] Instance cabinet_files : FileKernel cabinet := {| file := cab_file |}.
Proof.
  - intros k fd c pos [_ E]%cab_file_some. by apply (file_ok (cab_disk k) fd).
  - intros k m fd buf len c pos [Ho E]%cab_file_some Hl Hb Hbl.
    destruct (read_law (cab_disk k) m fd buf len c pos E Hl Hb Hbl) as (n & d & m' & e & Et & H1 & H2 & H3 & H4 & H5).
    exists n, (Cabinet d true), m', e. rewrite cab_trap, Et by (done || compute_done). by repeat (split; [done|]).
  - intros k m fd off whence c pos [Ho E]%cab_file_some Hoff Hw.
    destruct (lseek_law (cab_disk k) m fd off whence c pos E Hoff Hw) as (d & e & Et & H1).
    exists (Cabinet d true), e. by rewrite cab_trap, Et by (done || compute_done).
Defined.

#[local, refine] Instance cabinet_writes : WritableKernel cabinet := {| writable := fun _ fd => fd =? 3 |}.
Proof.
  intros k m fd buf len c pos [Ho E]%cab_file_some Hw Hl Hp Hb Hbl Hby.
  destruct (@write_law disk _ _ disk_writes (cab_disk k) m fd buf len c pos E Hw Hl Hp Hb Hbl Hby) as (d & r & e & Et & Hwr & H1).
  exists (Cabinet d true), r, e. by rewrite cab_trap, Et by (done || compute_done).
Defined.

#[local, refine] Instance cabinet_names : FilesKernel cabinet := {|
  descriptors k := if cab_open k then {[3]} else ∅;
  name_of k fd := if cab_open k && (fd =? 3) then Some file_f else None;
  content k name := if bool_decide (name = file_f) then Some (d_bytes (cab_disk k)) else None;
  regular k name := bool_decide (name = file_f)
|}.
Proof.
  - intros k fd name c pos En [Ho E]%cab_file_some. apply (disk_file_some (cab_disk k)) in E as (-> & _ & <- & _). rewrite Ho in En. by injection En as <-.
  - intros k name c. by destruct (bool_decide (name = file_f)).
  - intros k m nr args Hnr. destruct (cab_open k) eqn:Ho.
    + rewrite cab_trap by done. by destruct (trap (cab_disk k) m (abi_call nr args)) as [[[d m'] r] e].
    + repeat (apply elem_of_cons in Hnr as [->|Hnr]; [by cbn; rewrite Ho; cbn; rewrite Ho|]). by apply elem_of_nil in Hnr.
  - intros k m path flags name ->%bool_decide_eq_true Hfl (H1 & _ & H2) Hp. cbn.
    rewrite H1, H2. cbn. destruct (cab_open k) eqn:Ho; cbn [negb andb]; [eexists _, _, _; split; [done|by left; rewrite Ho]|].
    destruct (disk_ok (cab_opened k flags)) eqn:Hk; [|eexists _, _, _; split; [done|by left; rewrite Ho]].
    eexists _, _, _. split; [reflexivity|]. right. split; [lia|]. split; [set_solver|]. split; [set_solver|]. split; [done|].
    unfold cab_file, disk_file. cbn [cab_open cab_disk]. rewrite Hk. unfold cab_opened. destruct (flags =? O_RDONLY); [by eexists|done].
  - intros k m fd Hfd. cbn in *. destruct (cab_open k) eqn:Ho; [|by apply elem_of_empty in Hfd]. apply elem_of_singleton in Hfd as ->. cbn.
    eexists _, _, _. split; [reflexivity|]. split; [by left|]. split; [set_solver|done].
Defined.

(** "n=%d" with 42, read back with [fgets]. *)
Lemma saved_file_loaded_witness :
  let p := Proc (Cabinet (Disk [1; 2] 0) false) (fun x => if x =? 100 then 102 else 0) 0 0 in
  exists h1 p1 h2 p2, save_text 65536 2000 (heap_initial 65536) 100 [110; 61; 37; 100] [VInt 42] p = ((h1, Some (Some 4)), p1) /\
    load_file 65536 500 h1 100 [OGets 5000 80] p1 = (Some (h2, Some [(5000, [110; 61; 52; 50])]), p2).
Proof.
  intros p. assert (formats [110; 61; 37; 100] [VInt 42] [110; 61; 52; 50]) as Hf.
  { do 2 (eapply formats_char; [done|]). change [52; 50] with (text (DUint 42 10 0 false 0 false false (-1) []) ++ []).
    eapply formats_directive; [reflexivity|]. apply formats_nil. }
  assert (HeapClaims.represents 65536 (heap_initial 65536) ∅) as HR by (apply initial_represents; reflexivity).
  assert (regular (p_kernel p) file_f = true) as Hreg by reflexivity.
  assert (cstring (p_mem p) 100 file_f) as Hs by (split; [done|split; [lia|done]]).
  assert (Forall (op_ok 500) [OGets 5000 80]) as Hos by (repeat constructor; lia).
  assert (Forall (fun b => 0 < b < 256) [110; 61; 52; 50]) as Ht by (repeat constructor; lia).
  destruct (saved_file_loaded 65536 (heap_initial 65536) ∅ p 100 file_f _ _ _ 2000 500 [OGets 5000 80] HR Hreg Hs ltac:(lia) ltac:(cbn; lia)
    Hf Ht ltac:(cbn; lia) ltac:(lia) ltac:(lia) ltac:(lia) Hos) as (h1 & s & p1 & E & _ & Ho).
  assert (match save_text 65536 2000 (heap_initial 65536) 100 [110; 61; 37; 100] [VInt 42] p with
          | ((h, s), q) => (s, match load_file 65536 500 h 100 [OGets 5000 80] q with (Some (_, l), _) => l | _ => None end)
          end = (Some (Some 4), Some [(5000, [110; 61; 52; 50])])) as Es by (vm_compute; reflexivity).
  rewrite E in Es. injection Es as -> Es. destruct Ho as (_ & _ & n & _ & _ & h2 & l & p2 & E2 & _ & _).
  rewrite E2 in Es. subst l. by exists h1, p1, h2, p2.
Defined.
