(* ===== verification/Files.v ===== *)
(** * Files and directories: the [stat] functions of [lib/libc_syscalls.c] and
    [opendir], [readdir] and [closedir] of [lib/libc_misc.c]

    The kernel's structures and the library's lie in memory at the offsets the
    C layout gives them; [lst] and [lent] are the addresses of the locals the
    kernel fills. *)

From S2P Require Import Prelude Heap Regex Printf Syscall CString CStringCopy Stream.
#[local] Open Scope call_scope.

Definition rd16 (m : memory) (a : Z) : Z := m a + 2 ^ 8 * m (a + 1).
Definition wr16 (m : memory) (a v : Z) : memory := wr8 (wr8 m a v) (a + 1) (v / 2 ^ 8).

Section files.
Context {K : Type} `{Kernel K}.

Definition update (f : memory -> memory) : M K unit :=
  fun p => (tt, Proc (p_kernel p) (f (p_mem p)) (errno p) (libsys_errno p)).

(** ** [stat] *)

(** Ten fields are copied, the three times are 0. *)
Definition stat_copy (dst src : Z) (m : memory) : memory :=
  let m := fold_left (fun m o => wr32 m (dst + o) (rd32 m (src + o))) [0; 4; 8; 12; 16; 20; 24; 28; 32; 36] m in
  fold_left (fun m o => wr32 m (dst + o) 0) [40; 44; 48] m.

Definition stat (lst path st : Z) : M K Z :=
  let* rc := libsys_stat path lst in
  if rc <? 0 then let* _ := set_errno_from_libsys in ret (-1)
  else
    let* _ := update (stat_copy st lst) in
    let* _ := set_errno 0 in ret 0.

Definition lstat (lst path st : Z) : M K Z := stat lst path st.

Definition fstat (lst fd st : Z) : M K Z :=
  let* rc := libsys_fstat fd lst in
  if rc <? 0 then let* _ := set_errno_from_libsys in ret (-1)
  else
    let* _ := update (stat_copy st lst) in
    let* _ := set_errno 0 in ret 0.

(** ** Directories

    A [DIR] is the descriptor and, from offset 4, a [struct dirent]: [d_ino],
    [d_off], [d_reclen], [d_type] and [d_name] at offsets 0, 4, 8, 10 and 11. *)

Definition sizeof_lamp_dirent : Z := 272.
Definition sizeof_DIR : Z := 272.

(** What [readdir] copies from the kernel's structure at [lent]. *)
Definition dirent_copy (ent lent : Z) (m : memory) : memory :=
  let m := wr32 m ent (rd32 m lent) in
  let m := wr32 m (ent + 4) (rd32 m (lent + 4)) in
  let m := wr16 m (ent + 8) (rd32 m (lent + 8)) in
  let m := wr8 m (ent + 10) (rd32 m (lent + 12)) in
  strncpy m (ent + 11) (lent + 16) 256 true.

Definition readdir (lent dirp : Z) : M K Z := fun p =>
  if dirp =? 0 then (0, p)
  else
    (let* rc := libsys_getdents (s32 (rd32 (p_mem p) dirp)) lent sizeof_lamp_dirent in
     if rc <=? 0 then ret 0
     else let* _ := update (dirent_copy (dirp + 4) lent) in ret (dirp + 4)) p.

Section alloc.
Context {A : Type} `{Allocator A}.

Definition opendir (heap : A) (path : Z) : M K (A * Z) :=
  let* fd := open path O_RDONLY in
  if fd <? 0 then ret (heap, 0)
  else
    let '(heap, d) := al_malloc heap sizeof_DIR in
    if d =? 0 then let* _ := close fd in ret (heap, 0)
    else let* _ := update (fun m => wr32 m d fd) in ret (heap, d).

Definition closedir (heap : A) (dirp : Z) : M K (A * Z) := fun p =>
  (let* rc := if dirp =? 0 then ret (-1) else close (s32 (rd32 (p_mem p) dirp)) in
   ret (al_free heap dirp, rc)) p.
End alloc.
End files.

(** The fields of [struct stat] are the kernel's, and the times are 0. *)
Lemma stat_copy_spec dst src m : is_memory m -> apart dst 52 src 40 ->
  Forall (fun o => rd32 (stat_copy dst src m) (dst + o) = rd32 m (src + o)) [0; 4; 8; 12; 16; 20; 24; 28; 32; 36] /\
  Forall (fun o => rd32 (stat_copy dst src m) (dst + o) = 0) [40; 44; 48].
Proof.
  unfold apart. intros Hm Hd. assert (forall a, 0 <= rd32 m a < 2 ^ 32) as Hr.
  { intros a. unfold rd32. pose proof (Hm a). pose proof (Hm (a + 1)). pose proof (Hm (a + 2)). pose proof (Hm (a + 3)). lia. }
  assert (forall os m', (forall o, o ∈ os -> 0 <= o <= 36) -> (forall o, 0 <= o <= 36 -> rd32 m' (src + o) = rd32 m (src + o)) ->
    fold_left (fun m o => wr32 m (dst + o) (rd32 m (src + o))) os m' = fold_left (fun m' o => wr32 m' (dst + o) (rd32 m (src + o))) os m') as Ef.
  { induction os as [|o os IH]; intros m' Ho Hm'; [done|]. cbn [fold_left]. rewrite (Hm' o) by (apply Ho; by left).
    apply IH; [intros x Hx; apply Ho; by right|]. intros x Hx. rewrite rd32_wr32_other; [by apply Hm'|]. specialize (Ho o ltac:(by left)). lia. }
  unfold stat_copy. rewrite Ef; [|intros o Ho; repeat (apply elem_of_cons in Ho as [->|Ho]; [lia|]); by apply elem_of_nil in Ho|done].
  cbn [fold_left]. split; repeat constructor;
    repeat first [rewrite rd32_wr32 by (apply Hr || lia); reflexivity | rewrite rd32_wr32_other by lia].
Qed.

(** ** What the kernel promises *)

Record entry : Type := Entry {
  e_ino : Z;
  e_off : Z;
  e_reclen : Z;
  e_type : Z;
  e_name : list Z
}.

(** Fields that fit those of [struct dirent], and a name that fits [d_name]
    with its NUL. *)
Definition entry_ok (e : entry) : Prop :=
  0 <= e_ino e < 2 ^ 32 /\ - 2 ^ 31 <= e_off e < 2 ^ 31 /\ 0 <= e_reclen e < 2 ^ 16 /\ 0 <= e_type e < 2 ^ 8 /\
  (length (e_name e) < 256)%nat.

(** The kernel's structure at [a] holds the entry. *)
Definition lamp_dirent (m : memory) (a : Z) (e : entry) : Prop :=
  rd32 m a = e_ino e /\ rd32 m (a + 4) = u32 (e_off e) /\ rd32 m (a + 8) = e_reclen e /\ rd32 m (a + 12) = e_type e /\
  cstring m (a + 16) (e_name e).

(** [getdents] with room for one structure delivers the next entry, and 0 at
    the end. *)
Class DirKernel (K : Type) `{Kernel K} : Type := {
  (** What is left to read of the directory open at a descriptor. *)
  entries : K -> Z -> option (list entry);
  entries_ok k fd l : entries k fd = Some l -> Forall entry_ok l;
  getdents_law k m fd buf l :
    entries k fd = Some l -> 0 < buf -> buf + sizeof_lamp_dirent <= 2 ^ 32 ->
    exists k' m' e,
      trap k m (abi_call LAMP_SYS_GETDENTS [fd; buf; sizeof_lamp_dirent; 0; 0; 0]) =
        (k', m', match l with [] => 0 | _ => sizeof_lamp_dirent end, e) /\
      entries k' fd = Some (tail l) /\
      (forall x, x < buf \/ buf + sizeof_lamp_dirent <= x -> m' x = m x) /\
      match l with [] => True | e :: _ => lamp_dirent m' buf e end
}.

(** ** Reading a directory *)

Lemma rd16_wr16 m a v : 0 <= v < 2 ^ 16 -> rd16 (wr16 m a v) a = v.
Proof.
  intros Hv. unfold rd16, wr16. rewrite wr8_same, wr8_other, wr8_same by lia. unfold u8. Z.to_euclidean_division_equations. lia.
Qed.

Lemma wr16_other m a v x : x < a \/ a + 2 <= x -> wr16 m a v x = m x.
Proof. intros Hx. unfold wr16. by rewrite !wr8_other by lia. Qed.

Lemma rd16_ext m m' a : (forall x, a <= x < a + 2 -> m' x = m x) -> rd16 m' a = rd16 m a.
Proof. intros E. unfold rd16. by rewrite !E by lia. Qed.

(** The [struct dirent] at [a]. *)
Definition dirent_at (m : memory) (a : Z) : entry :=
  Entry (rd32 m a) (s32 (rd32 m (a + 4))) (rd16 m (a + 8)) (m (a + 10)) (before_nul (load m (a + 11) 256)).

Lemma before_nul_string s r : Forall (fun c => 0 < c < 256) s -> before_nul (s ++ 0 :: r) = s.
Proof. induction 1 as [|c s Hc _ IH]; [done|]. cbn [app before_nul]. destruct (Z.eqb_spec c 0); [lia|]. by rewrite IH. Qed.

(** The copy moves every field, and changes nothing outside [d_*]. *)
Lemma dirent_copy_spec m ent lent e : lamp_dirent m lent e -> entry_ok e -> apart ent 268 lent sizeof_lamp_dirent ->
  dirent_at (dirent_copy ent lent m) ent = e /\
  forall x, x < ent \/ ent + 267 <= x -> dirent_copy ent lent m x = m x.
Proof.
  unfold apart, sizeof_lamp_dirent. intros (H1 & H2 & H3 & H4 & H5) (B1 & B2 & B3 & B4 & B5) Hd. unfold dirent_copy.
  set (m1 := wr32 m ent _). set (m2 := wr32 m1 _ _). set (m3 := wr16 m2 _ _). set (m4 := wr8 m3 _ _).
  assert (forall x, x < ent \/ ent + 11 <= x -> m4 x = m x) as Hout.
  { intros x Hx. unfold m4, m3, m2, m1. by rewrite wr8_other, wr16_other, !wr32_other by lia. }
  assert (cstring m4 (lent + 16) (e_name e)) as Hs by (eapply cstring_ext; [exact H5|]; intros x Hx; apply Hout; lia).
  assert (forall x, strncpy m4 (ent + 11) (lent + 16) 256 true x =
    overlay m4 (ent + 11) (e_name e ++ replicate (256 - length (e_name e)) 0) x) as Ecp.
  { intros x. rewrite (strncpy_copy 256 (e_name e)) by ((exact Hs) || (unfold apart; lia)). by rewrite take_ge by lia. }
  set (name := e_name e ++ _) in *. assert (length name = 256%nat) as Hlen by (unfold name; rewrite length_app, length_replicate; lia).
  set (m5 := strncpy m4 _ _ _ _) in *.
  assert (forall x, x < ent + 11 -> m5 x = m4 x) as H54 by (intros x Hx; rewrite Ecp; apply overlay_out; lia).
  split.
  - destruct e as [ino off reclen type nm]. cbn [e_ino e_off e_reclen e_type e_name] in *. unfold dirent_at. f_equal.
    + rewrite (rd32_ext m4) by (intros; apply H54; lia). rewrite (rd32_ext m1); [unfold m1; by rewrite rd32_wr32 by lia|].
      intros x Hx. unfold m4, m3, m2. by rewrite wr8_other, wr16_other, wr32_other by lia.
    + assert (rd32 m1 (lent + 4) = u32 off) as E1 by (rewrite <- H2; apply rd32_ext; intros x Hx; apply wr32_other; lia).
      rewrite (rd32_ext m4) by (intros; apply H54; lia). rewrite (rd32_ext m2).
      * unfold m2. rewrite rd32_wr32, E1 by (rewrite E1; apply u32_range). unfold s32, u32. rewrite swrap_of_mod by lia. by apply swrap_small; lia.
      * intros x Hx. unfold m4, m3. by rewrite wr8_other, wr16_other by lia.
    + assert (rd32 m2 (lent + 8) = reclen) as E2 by (rewrite <- H3; apply rd32_ext; intros x Hx; unfold m2, m1; by rewrite !wr32_other by lia).
      rewrite (rd16_ext m4) by (intros; apply H54; lia). rewrite (rd16_ext m3) by (intros x Hx; unfold m4; by rewrite wr8_other by lia).
      unfold m3. rewrite E2. by apply rd16_wr16.
    + assert (rd32 m3 (lent + 12) = type) as E3.
      { rewrite <- H4. apply rd32_ext. intros x Hx. unfold m3, m2, m1. by rewrite wr16_other, !wr32_other by lia. }
      rewrite H54 by lia. unfold m4. rewrite wr8_same, E3. by apply u8_small.
    + rewrite (load_overlay m4 m5 (ent + 11) name 256) by (lia || (intros; apply Ecp)). rewrite take_ge by lia. unfold name.
      destruct (256 - length nm)%nat as [|k] eqn:Ek; [lia|]. apply before_nul_string. by apply (cstring_bytes m (lent + 16)).
  - intros x Hx. rewrite Ecp, overlay_out by lia. apply Hout. lia.
Qed.

(** The usual loop over [readdir]: the entries, up to the first null. *)
Fixpoint list_dir {K} `{Kernel K} (fuel : nat) (lent dirp : Z) : M K (option (list entry)) :=
  match fuel with
  | O => ret None
  | S n =>
      let* ent := readdir lent dirp in
      if ent =? 0 then ret (Some [])
      else fun p =>
        let '(r, p') := list_dir n lent dirp p in
        (match r with Some l => Some (dirent_at (p_mem p) ent :: l) | None => None end, p')
  end.

Section reading.
Context {K : Type} `{DirKernel K}.
Context (lent dirp fd : Z) (Hlent : 0 < lent) (Hle : lent + sizeof_lamp_dirent <= 2 ^ 32).
Context (Hdirp : 0 < dirp) (Hd : apart dirp sizeof_DIR lent sizeof_lamp_dirent) (Hfd : 0 <= fd < 2 ^ 31).

(** The [DIR] at [dirp] is open with [l] left to read. *)
Definition opened (p : process K) (l : list entry) : Prop :=
  rd32 (p_mem p) dirp = fd /\ entries (p_kernel p) fd = Some l.

Lemma readdir_spec p l : opened p l -> exists p', opened p' (tail l) /\
  readdir lent dirp p = ((match l with [] => 0 | _ => dirp + 4 end), p') /\
  match l with [] => True | e :: _ => dirent_at (p_mem p') (dirp + 4) = e end.
Proof.
  unfold apart, sizeof_DIR, sizeof_lamp_dirent in *. intros [Hm He]. unfold readdir. destruct (Z.eqb_spec dirp 0); [lia|].
  assert (s32 (rd32 (p_mem p) dirp) = fd) as -> by (rewrite Hm; apply swrap_small; lia).
  destruct (getdents_law _ (p_mem p) fd lent l He Hlent Hle) as (k' & m' & err & E & Hk & Hout & Hin).
  unfold bind at 1, libsys_getdents, libsys_call6. unfold sizeof_lamp_dirent in *.
  rewrite (u32_small fd), (u32_small lent), (u32_small 272), !(u32_small 0), E by lia.
  assert (rd32 m' dirp = fd) as Hm' by (rewrite <- Hm; apply rd32_ext; intros x Hx; apply Hout; lia).
  destruct l as [|e l].
  - eexists (Proc k' m' _ _). split; [split; [exact Hm'|exact Hk]|]. split; [reflexivity|done].
  - pose proof (entries_ok _ _ _ He) as Hok. inversion_clear Hok as [|? ? Hoke _].
    destruct (dirent_copy_spec m' (dirp + 4) lent e Hin Hoke) as [Hat Hother]; [unfold apart, sizeof_lamp_dirent; lia|].
    change (s32 272) with 272. change (272 <=? 0) with false. cbn iota.
    eexists (Proc k' (dirent_copy (dirp + 4) lent m') _ _). split; [split; [|exact Hk]|split; [reflexivity|exact Hat]].
    cbn [p_mem]. rewrite <- Hm'. apply rd32_ext. intros x Hx. apply Hother. lia.
Qed.

Lemma list_dir_spec l : forall p fuel, opened p l -> (length l < fuel)%nat -> exists p', list_dir fuel lent dirp p = (Some l, p') /\ opened p' [].
Proof.
  induction l as [|e l IH]; intros p fuel Ho Hf; (destruct fuel as [|n]; [cbn in Hf; lia|]); cbn [list_dir];
    destruct (readdir_spec p _ Ho) as (p1 & Ho1 & E & Hat); unfold bind; rewrite E.
  - by exists p1.
  - destruct (Z.eqb_spec (dirp + 4) 0); [lia|]. destruct (IH p1 n Ho1) as (p' & -> & Ho'); [cbn [length] in Hf; lia|]. exists p'. by rewrite Hat.
Qed.
End reading.

(** C18: a directory is read completely and in order.  When [open] and [malloc]
    succeed, [opendir] returns the new [DIR]; the loop over [readdir] ends and
    yields exactly the directory's entries, every field and name intact,
    although the kernel's structure and [struct dirent] differ in layout and
    widths; after it [readdir] keeps returning null; and [closedir] closes the
    descriptor [open] returned and frees the block.  When [malloc] refuses,
    [opendir] closes the descriptor again and returns null. *)
Theorem directory_listed {K} `{DirKernel K} {A} `{Allocator A} lent (heap heap1 : A) path fd dirp l (p p1 : process K) fuel
    (Hlent : 0 < lent) (Hle : lent + sizeof_lamp_dirent <= 2 ^ 32)
    (Ho : open path O_RDONLY p = (fd, p1)) (Hfd : 0 <= fd < 2 ^ 31) (He : entries (p_kernel p1) fd = Some l)
    (Ha : al_malloc heap sizeof_DIR = (heap1, dirp)) (Hf : (length l < fuel)%nat) :
  (dirp = 0 -> opendir heap path p = let '(_, p2) := close fd p1 in ((heap1, 0), p2)) /\
  (0 < dirp -> apart dirp sizeof_DIR lent sizeof_lamp_dirent ->
    exists p2 p3 p4, opendir heap path p = ((heap1, dirp), p2) /\ list_dir fuel lent dirp p2 = (Some l, p3) /\
      readdir lent dirp p3 = (0, p4) /\
      closedir heap1 dirp p4 = let '(rc, p5) := close fd p4 in ((al_free heap1 dirp, rc), p5)).
Proof.
  unfold opendir, bind, update. rewrite Ho. destruct (Z.ltb_spec fd 0); [lia|]. rewrite Ha. split.
  - intros ->. change (0 =? 0) with true. cbn beta iota. by destruct (close fd p1).
  - intros Hd0 Hd. destruct (Z.eqb_spec dirp 0); [lia|]. set (p2 := Proc (p_kernel p1) (wr32 (p_mem p1) dirp fd) (errno p1) (libsys_errno p1)).
    assert (opened dirp fd p2 l) as Ho2 by (split; [cbn; apply rd32_wr32; lia|exact He]).
    destruct (list_dir_spec lent dirp fd Hlent Hle Hd0 Hd Hfd l p2 fuel Ho2 Hf) as (p3 & E3 & Ho3).
    destruct (readdir_spec lent dirp fd Hlent Hle Hd0 Hd Hfd p3 [] Ho3) as (p4 & [Hm4 _] & E4 & _).
    exists p2, p3, p4. do 3 (split; [done|]). unfold closedir, bind. destruct (Z.eqb_spec dirp 0); [lia|]. rewrite Hm4.
    unfold s32. rewrite swrap_small by lia. by destruct (close fd p4).
Qed.

(** ** A kernel with one directory *)

(** Descriptor 4, once opened, is the directory with these entries left. *)
Record dir_disk : Type := DirDisk {
  dd_entries : list entry
}.

Definition store_entry (m : memory) (a : Z) (e : entry) : memory :=
  overlay (wr32 (wr32 (wr32 (wr32 m a (e_ino e)) (a + 4) (u32 (e_off e))) (a + 8) (e_reclen e)) (a + 12) (e_type e))
    (a + 16) (e_name e ++ [0]).

#[export] Instance dir_kernel : Kernel dir_disk := fun k m rq =>
  match rq_nr rq, rq_args rq with
  | LAMP_SYS_OPEN, _ => (k, m, 4, 0)
  | LAMP_SYS_GETDENTS, [fd; buf; _; _; _; _] =>
      if fd =? 4 then
        match dd_entries k with
        | [] => (k, m, 0, 0)
        | e :: l => (DirDisk l, store_entry m buf e, sizeof_lamp_dirent, 0)
        end
      else (k, m, 2 ^ 32 - 1, EBADF)
  | LAMP_SYS_CLOSE, _ => (k, m, 0, 0)
  | _, _ => (k, m, 2 ^ 32 - 1, EINVAL)
  end.

Definition name_ok (e : entry) : bool := forallb (fun c => (0 <? c) && (c <? 256)) (e_name e).
Definition entry_okb (e : entry) : bool :=
  (0 <=? e_ino e) && (e_ino e <? 2 ^ 32) && (- 2 ^ 31 <=? e_off e) && (e_off e <? 2 ^ 31) && (0 <=? e_reclen e) && (e_reclen e <? 2 ^ 16) &&
  (0 <=? e_type e) && (e_type e <? 2 ^ 8) && (length (e_name e) <? 256)%nat && name_ok e.

Lemma entry_okb_spec e : entry_okb e = true -> entry_ok e /\ Forall (fun c => 0 < c < 256) (e_name e).
Proof.
  unfold entry_okb, name_ok, entry_ok. rewrite !andb_true_iff, !Z.leb_le, !Z.ltb_lt, Nat.ltb_lt, forallb_forall, Forall_forall.
  intros [Ho Hn]. split; [lia|]. intros c Hc. specialize (Hn c Hc). lia.
Qed.

Lemma store_entry_spec m a e : entry_ok e -> Forall (fun c => 0 < c < 256) (e_name e) ->
  lamp_dirent (store_entry m a e) a e /\ forall x, x < a \/ a + sizeof_lamp_dirent <= x -> store_entry m a e x = m x.
Proof.
  intros (B1 & B2 & B3 & B4 & B5) Hn. pose proof (u32_range (e_off e)) as Hu. unfold store_entry, lamp_dirent, sizeof_lamp_dirent. set (m4 := wr32 _ (a + 12) _).
  assert (forall x, x < a + 16 -> overlay m4 (a + 16) (e_name e ++ [0]) x = m4 x) as Hlow by (intros x Hx; apply overlay_out; lia).
  split.
  - do 4 (rewrite (rd32_ext m4 (overlay _ _ _)) by (intros; apply Hlow; lia); split;
      [unfold m4; repeat first [rewrite rd32_wr32 by lia; reflexivity | rewrite rd32_wr32_other by lia]|]).
    by apply cstring_overlay.
  - intros x Hx. rewrite overlay_out by (rewrite length_app; cbn [length]; lia). unfold m4. by rewrite !wr32_other by lia.
Qed.

#[export, refine] Instance dir_entries : DirKernel dir_disk :=
  {| entries := fun k fd => if (fd =? 4) && forallb entry_okb (dd_entries k) then Some (dd_entries k) else None |}.
Proof.
  - intros k fd l E. destruct ((fd =? 4) && _) eqn:Eb; [|done]. injection E as <-. apply andb_true_iff in Eb as [_ Eb].
    rewrite forallb_forall in Eb. apply Forall_forall. intros e He. by apply entry_okb_spec, Eb.
  - intros k m fd buf l E Hb Hbe. destruct ((fd =? 4) && _) eqn:Eb; [|done]. injection E as <-. apply andb_true_iff in Eb as [Efd Eb].
    unfold trap, dir_kernel, abi_call. cbn [rq_nr rq_args]. rewrite Efd. destruct k as [[|e l]]; cbn [dd_entries] in *.
    + eexists _, m, 0. by repeat split.
    + cbn [forallb] in Eb. apply andb_true_iff in Eb as [Ee El]. destruct (entry_okb_spec e Ee) as [Ho Hn].
      destruct (store_entry_spec m buf e Ho Hn) as [Hin Hout]. eexists _, _, 0. split; [reflexivity|]. cbn [tail dd_entries andb]. by rewrite El.
Defined.

(** "." and "a.c". *)
Definition two_entries : list entry := [Entry 7 1 272 2 [46]; Entry 9 (-1) 272 1 [97; 46; 99]].

#[local] Instance bump_alloc : Allocator Z := {|
  al_malloc h n := (h + n, h);
  al_realloc h p n := (h + n, h);
  al_free h p := h;
  al_store h p i bytes := h;
|}.

Lemma directory_listed_witness : exists p2 p3 : process dir_disk,
  opendir 4096 600 (Proc (DirDisk two_entries) (fun _ => 0) 0 0) = ((4368, 4096), p2) /\ list_dir 3 1000 4096 p2 = (Some two_entries, p3).
Proof.
  set (p := Proc (DirDisk two_entries) (fun _ => 0) 0 0).
  assert (open 600 O_RDONLY p = (4, p)) as Ho by reflexivity.
  assert (entries (p_kernel p) 4 = Some two_entries) as He by reflexivity.
  assert (al_malloc 4096 sizeof_DIR = (4368, 4096)) as Ha by reflexivity.
  destruct (proj2 (directory_listed 1000 4096 4368 600 4 4096 two_entries p p 3 ltac:(lia) ltac:(done) Ho ltac:(lia) He Ha ltac:(cbn; lia))
    ltac:(lia) ltac:(right; done)) as (p2 & p3 & _ & E2 & E3 & _).
  exists p2, p3. split; [exact E2|exact E3].
Defined.
