(* ===== verification/Signal.v ===== *)
(** * Signals: [lib/libc_signal.c]

    [sigaction] translates between the library's structure and the kernel's,
    which it hands over in memory at the addresses of its locals [la] and
    [old]; [restorer] is the address of [__lamp_signal_restorer]. *)

From S2P Require Import Prelude Heap Syscall CString.
#[local] Open Scope call_scope.

(** ** Signal sets: a 32-bit word *)

Definition sigemptyset : Z := 0.
Definition sigfillset : Z := 0xffffffff.
Definition sig_in_range (sig : Z) : bool := (0 <? sig) && (sig <=? 32).
Definition sigaddset (set sig : Z) : Z := if sig_in_range sig then Z.lor set (u32 (Z.shiftl 1 (sig - 1))) else set.
Definition sigdelset (set sig : Z) : Z := if sig_in_range sig then Z.land set (unot 32 (u32 (Z.shiftl 1 (sig - 1)))) else set.
Definition sigismember (set sig : Z) : bool := sig_in_range sig && truthy (Z.land set (u32 (Z.shiftl 1 (sig - 1)))).
Definition sigisemptyset (set : Z) : bool := set =? 0.

Lemma sig_bit sig : sig_in_range sig = true -> u32 (Z.shiftl 1 (sig - 1)) = 2 ^ (sig - 1) /\ 0 <= sig - 1 < 32.
Proof.
  unfold sig_in_range. rewrite andb_true_iff, Z.ltb_lt, Z.leb_le. intros Hs. split; [|lia].
  rewrite shiftl_mul, Z.mul_1_l by lia. apply u32_small. split; [pose proof (pow2_pos (sig - 1)); lia|apply Z.pow_lt_mono_r; lia].
Qed.

Lemma sigismember_bit set sig : sigismember set sig = sig_in_range sig && Z.testbit set (sig - 1).
Proof.
  unfold sigismember. destruct (sig_in_range sig) eqn:E; [|done]. destruct (sig_bit sig E) as [-> Hs]. cbn [andb]. apply truthy_land_bit. lia.
Qed.

(** A word is a set of the signals 1 to 32: the operations are those on sets,
    and signals out of range are members of none. *)
Lemma sigset_spec set sig j :
  sigismember (sigaddset set sig) j = (sig_in_range j && (j =? sig)) || sigismember set j /\
  sigismember (sigdelset set sig) j = sigismember set j && negb (j =? sig) /\
  sigismember sigemptyset j = false /\ sigismember sigfillset j = sig_in_range j.
Proof.
  rewrite !sigismember_bit. destruct (sig_in_range j) eqn:Ej; cbn [andb orb]; [|done]. destruct (sig_bit j Ej) as [_ Hj].
  unfold sigaddset, sigdelset, sigemptyset, sigfillset. split; [|split; [|split; [apply Z.bits_0|]]].
  - destruct (sig_in_range sig) eqn:Es.
    + destruct (sig_bit sig Es) as [-> Hs]. rewrite Z.lor_spec, Z.pow2_bits_eqb by lia.
      rewrite orb_comm. f_equal. lia.
    + destruct (Z.eqb_spec j sig); [congruence|done].
  - destruct (sig_in_range sig) eqn:Es.
    + destruct (sig_bit sig Es) as [-> Hs]. assert (0 <= 2 ^ (sig - 1) < 2 ^ 32) as Hr
        by (split; [pose proof (pow2_pos (sig - 1)); lia|apply Z.pow_lt_mono_r; lia]).
      rewrite Z.land_spec, testbit_unot, Z.pow2_bits_eqb by lia.
      f_equal. f_equal. lia.
    + destruct (Z.eqb_spec j sig); [congruence|by rewrite andb_true_r].
  - change 0xffffffff with (2 ^ 32 - 1). rewrite testbit_mask by lia. lia.
Qed.

(** ** Actions *)

Definition SIG_DFL : Z := 0.
Definition SIG_IGN : Z := 1.
Definition SIG_ERR : Z := 2 ^ 32 - 1.
Definition SA_RESTART : Z := 4.

(** [struct sigaction]; handlers and the restorer are code addresses. *)
Record sigact : Type := Sigact {
  sa_handler : Z;
  sa_mask : Z;
  sa_flags : Z;
  sa_restorer : Z
}.

(** [lamp_sigaction_t]: handler, flags, mask and restorer, in this order. *)
Definition store_action (m : memory) (a : Z) (s : sigact) : memory :=
  wr32 (wr32 (wr32 (wr32 m a (sa_handler s)) (a + 4) (u32 (sa_flags s))) (a + 8) (sa_mask s)) (a + 12) (sa_restorer s).
Definition load_action (m : memory) (a : Z) : sigact :=
  Sigact (rd32 m a) (rd32 m (a + 8)) (s32 (rd32 m (a + 4))) (rd32 m (a + 12)).

Section sigaction.
Context {K : Type} `{Kernel K}.
Context (la old restorer : Z).

(** The restorer is filled in for a handler that has none. *)
Definition with_restorer (s : sigact) : sigact :=
  if (SIG_IGN <? sa_handler s) && (sa_restorer s =? 0) then Sigact (sa_handler s) (sa_mask s) (sa_flags s) restorer else s.

(** [act] is [None] for null; [want]: [oldact] is not null. *)
Definition sigaction (sig : Z) (act : option sigact) (want : bool) : M K (Z * option sigact) :=
  let* _ := fun p : process K =>
    (tt, match act with
         | Some s => Proc (p_kernel p) (store_action (p_mem p) la (with_restorer s)) (errno p) (libsys_errno p)
         | None => p
         end) in
  let* rc := libsys_sigaction sig (match act with Some _ => la | None => 0 end) (if want then old else 0) in
  if rc <? 0 then let* _ := set_errno_from_libsys in ret (-1, None)
  else fun p => ((0, if want then Some (load_action (p_mem p) old) else None), p).

Definition signal (sig handler : Z) : M K Z :=
  let* (rc, prev) := sigaction sig (Some (Sigact handler 0 SA_RESTART 0)) true in
  ret (if rc <? 0 then SIG_ERR else match prev with Some s => sa_handler s | None => 0 end).
End sigaction.

(** ** What the kernel promises *)

Definition sigact_ok (s : sigact) : Prop :=
  0 <= sa_handler s < 2 ^ 32 /\ 0 <= sa_mask s < 2 ^ 32 /\ - 2 ^ 31 <= sa_flags s < 2 ^ 31 /\ 0 <= sa_restorer s < 2 ^ 32.

(** The table of actions: the call installs what [act] points to, if it is
    not null, and leaves the previous action at [oldact]. *)
Class SignalKernel (K : Type) `{Kernel K} : Type := {
  action : K -> Z -> option sigact;
  action_ok k sig s : action k sig = Some s -> sigact_ok s;
  sigaction_law k m sig act old s : action k sig = Some s -> is_memory m -> 0 <= sig < 2 ^ 32 -> 0 <= act < 2 ^ 32 -> 0 <= old < 2 ^ 32 ->
    exists k' e,
      trap k m (abi_call LAMP_SYS_SIGACTION [sig; act; old; 0; 0; 0]) = (k', if old =? 0 then m else store_action m old s, 0, e) /\
      action k' sig = Some (if act =? 0 then s else load_action m act)
}.

Lemma load_store m a s : sigact_ok s -> load_action (store_action m a s) a = s.
Proof.
  intros (H1 & H2 & H3 & H4). unfold load_action, store_action. destruct s as [h ms fl r]. cbn [sa_handler sa_mask sa_flags sa_restorer] in *.
  pose proof (u32_range fl). repeat first [rewrite rd32_wr32 by lia | rewrite rd32_wr32_other by lia].
  f_equal. unfold s32, u32. rewrite swrap_of_mod by lia. by apply swrap_small; lia.
Qed.

Lemma wr32_memory m a v : is_memory m -> is_memory (wr32 m a v).
Proof. intros Hm x. unfold wr32, wr8. repeat (destruct (x =? _); [apply u8_range|]). apply Hm. Qed.

Lemma store_action_memory m a s : is_memory m -> is_memory (store_action m a s).
Proof. intros Hm. unfold store_action. by do 4 apply wr32_memory. Qed.

Section claims.
Context {K : Type} `{SignalKernel K}.
Context (la old restorer : Z) (Hla : 0 < la < 2 ^ 32) (Hold : 0 < old < 2 ^ 32) (Hr : 0 <= restorer < 2 ^ 32).

Lemma with_restorer_ok s : sigact_ok s -> sigact_ok (with_restorer restorer s).
Proof. unfold with_restorer, sigact_ok. intros Hs. destruct ((_ <? _) && _); cbn; [|done]. by destruct Hs as (? & ? & ? & _). Qed.

(** When the restorer is filled in. *)
Lemma with_restorer_given s : sa_restorer s <> 0 -> with_restorer restorer s = s.
Proof. intros Hs. unfold with_restorer. by rewrite (proj2 (Z.eqb_neq _ _) Hs), andb_false_r. Qed.

Lemma with_restorer_none s : sa_handler s <= SIG_IGN -> with_restorer restorer s = s.
Proof. intros Hs. unfold with_restorer. by rewrite (proj2 (Z.ltb_ge _ _) Hs). Qed.

Lemma with_restorer_handler s : SIG_IGN < sa_handler s -> sa_restorer s = 0 ->
  with_restorer restorer s = Sigact (sa_handler s) (sa_mask s) (sa_flags s) restorer.
Proof. intros Hs Hz. unfold with_restorer. by rewrite (proj2 (Z.ltb_lt _ _) Hs), Hz. Qed.

Lemma sigaction_spec sig act want (p : process K) s : action (p_kernel p) sig = Some s -> is_memory (p_mem p) -> 0 <= sig < 2 ^ 32 ->
  match act with Some a => sigact_ok a | None => True end ->
  exists p', sigaction la old restorer sig act want p = ((0, if want then Some s else None), p') /\
    action (p_kernel p') sig = Some (match act with Some a => with_restorer restorer a | None => s end) /\ is_memory (p_mem p').
Proof.
  intros Hs Hm Hsig Ha. unfold sigaction, bind at 1.
  set (p1 := match act with Some _ => Proc _ _ _ _ | None => p end).
  assert (action (p_kernel p1) sig = Some s) as Hs1 by (unfold p1; by destruct act).
  assert (is_memory (p_mem p1)) as Hm1 by (unfold p1; destruct act; [by apply store_action_memory|done]).
  set (a := match act with Some _ => la | None => 0 end). set (o := if want then old else 0).
  assert (0 <= a < 2 ^ 32) as Ha32 by (unfold a; destruct act; lia). assert (0 <= o < 2 ^ 32) as Ho32 by (unfold o; destruct want; lia).
  destruct (sigaction_law (p_kernel p1) (p_mem p1) sig a o s Hs1 Hm1 Hsig Ha32 Ho32) as (k' & e & E & Hk).
  unfold bind at 1, libsys_sigaction, libsys_call6. rewrite !(u32_small sig), (u32_small a), (u32_small o), !(u32_small 0), E by lia.
  change (s32 0) with 0. change (0 <? 0) with false. change (0 =? -1) with false. cbn iota.
  eexists. split; [reflexivity || f_equal|cbn [p_kernel p_mem]; rewrite Hk; split; [f_equal|]].
  - f_equal. f_equal. destruct want; [|done]. f_equal. cbn [p_mem]. unfold o. destruct (Z.eqb_spec old 0); [lia|].
    apply load_store. by apply (action_ok _ _ _ Hs).
  - unfold a. destruct act as [s'|]; [|done]. destruct (Z.eqb_spec la 0); [lia|]. cbn [p1 p_mem]. apply load_store. by apply with_restorer_ok.
  - destruct (o =? 0); [done|by apply store_action_memory].
Qed.

(** C27: installing and querying a handler are inverse.  [sigaction] with a new
    action returns the previous one; a later query returns exactly the action
    that was installed when it names a restorer, or when it is no handler
    ([SIG_DFL], [SIG_IGN]); for a handler without restorer it returns that
    action with the library's restorer, and nothing else changed.  [signal]
    returns the handler of the action before it, and the handler it installs
    is the one the next [signal] returns.  Fields keep their values on the way
    through the kernel's structure, which orders them differently. *)
Theorem sigaction_roundtrip sig a s handler (p : process K) (Hs : action (p_kernel p) sig = Some s) (Hm : is_memory (p_mem p)) (Hsig : 0 <= sig < 2 ^ 32)
    (Ha : sigact_ok a) (Hh : 0 <= handler < 2 ^ 32) :
  exists p1 b p2 p3 p4,
    sigaction la old restorer sig (Some a) true p = ((0, Some s), p1) /\
    sigaction la old restorer sig None true p1 = ((0, Some b), p2) /\
    (sa_restorer a <> 0 -> b = a) /\
    (sa_handler a <= SIG_IGN -> b = a) /\
    (SIG_IGN < sa_handler a -> sa_restorer a = 0 -> b = Sigact (sa_handler a) (sa_mask a) (sa_flags a) restorer) /\
    signal la old restorer sig handler p2 = (sa_handler a, p3) /\
    signal la old restorer sig SIG_DFL p3 = (handler, p4).
Proof.
  destruct (sigaction_spec sig (Some a) true p s Hs Hm Hsig Ha) as (p1 & E1 & H1 & Hm1).
  destruct (sigaction_spec sig None true p1 _ H1 Hm1 Hsig I) as (p2 & E2 & H2 & Hm2).
  assert (forall h, 0 <= h < 2 ^ 32 -> sigact_ok (Sigact h 0 SA_RESTART 0)) as Hok by (intros h Hr'; unfold sigact_ok, SA_RESTART; cbn; lia).
  destruct (sigaction_spec sig (Some (Sigact handler 0 SA_RESTART 0)) true p2 _ H2 Hm2 Hsig (Hok handler Hh)) as (p3 & E3 & H3 & Hm3).
  destruct (sigaction_spec sig (Some (Sigact SIG_DFL 0 SA_RESTART 0)) true p3 _ H3 Hm3 Hsig (Hok SIG_DFL ltac:(unfold SIG_DFL; lia))) as (p4 & E4 & _).
  assert (forall x, sa_handler (with_restorer restorer x) = sa_handler x) as Ew by (intros x; unfold with_restorer; by destruct (_ && _)).
  exists p1, (with_restorer restorer a), p2, p3, p4. do 2 (split; [done|]).
  split; [by intros; apply with_restorer_given|]. split; [by intros; apply with_restorer_none|]. split; [by apply with_restorer_handler|].
  unfold signal, bind. rewrite E3, E4. unfold ret. by rewrite !Ew.
Qed.
End claims.

(** ** A kernel with a table of actions *)

Definition sig_table : Type := Z -> sigact.

#[export] Instance table_kernel : Kernel sig_table := fun k m rq =>
  match rq_nr rq, rq_args rq with
  | LAMP_SYS_SIGACTION, [sig; act; old; _; _; _] =>
      (if act =? 0 then k else fun x => if x =? sig then load_action m act else k x,
       if old =? 0 then m else store_action m old (k sig), 0, 0)
  | _, _ => (k, m, 2 ^ 32 - 1, EINVAL)
  end.

Definition sigact_okb (s : sigact) : bool :=
  (0 <=? sa_handler s) && (sa_handler s <? 2 ^ 32) && (0 <=? sa_mask s) && (sa_mask s <? 2 ^ 32) &&
  (- 2 ^ 31 <=? sa_flags s) && (sa_flags s <? 2 ^ 31) && (0 <=? sa_restorer s) && (sa_restorer s <? 2 ^ 32).

Lemma sigact_okb_spec s : sigact_okb s = true <-> sigact_ok s.
Proof. unfold sigact_okb, sigact_ok. rewrite !andb_true_iff, !Z.leb_le, !Z.ltb_lt. lia. Qed.

Lemma rd32_range m a : is_memory m -> 0 <= rd32 m a < 2 ^ 32.
Proof. intros Hm. unfold rd32. pose proof (Hm a). pose proof (Hm (a + 1)). pose proof (Hm (a + 2)). pose proof (Hm (a + 3)). lia. Qed.

Lemma load_action_ok m a : is_memory m -> sigact_ok (load_action m a).
Proof.
  intros Hm. unfold load_action, sigact_ok. cbn [sa_handler sa_mask sa_flags sa_restorer].
  pose proof (swrap_range 32 (rd32 m (a + 4)) ltac:(lia)) as Hs. change (2 ^ (32 - 1)) with (2 ^ 31) in Hs.
  split; [by apply rd32_range|]. split; [by apply rd32_range|]. split; [exact Hs|by apply rd32_range].
Qed.

#[export, refine] Instance table_signals : SignalKernel sig_table :=
  {| action := fun k sig => if sigact_okb (k sig) then Some (k sig) else None |}.
Proof.
  - intros k sig s E. destruct (sigact_okb (k sig)) eqn:Eb; [|done]. injection E as <-. by apply sigact_okb_spec.
  - intros k m sig act old s E Hm H1 H2 H3. destruct (sigact_okb (k sig)) eqn:Eb; [|done]. injection E as <-.
    eexists _, 0. split; [reflexivity|]. destruct (act =? 0); cbn beta; [by rewrite Eb|]. rewrite Z.eqb_refl.
    by rewrite (proj2 (sigact_okb_spec _) (load_action_ok m act Hm)).
Defined.

(** Signal 15: a handler without restorer, and one with a restorer of its own. *)
Lemma sigaction_roundtrip_witness : exists p1 p2 p3 p4 : process sig_table,
  sigaction 64 128 4096 15 None true p1 = ((0, Some (Sigact 512 6 4 4096)), p2) /\
  sigaction 64 128 4096 15 None true p3 = ((0, Some (Sigact 512 6 4 777)), p4).
Proof.
  set (p := @Proc sig_table (fun _ => Sigact 0 0 0 0) (fun _ => 0) 0 0).
  assert (action (p_kernel p) 15 = Some (Sigact 0 0 0 0)) as Hs by reflexivity.
  assert (is_memory (p_mem p)) as Hm by (intros x; cbn; lia).
  assert (sigact_ok (Sigact 512 6 4 0)) as Ha by (unfold sigact_ok; cbn; lia).
  assert (sigact_ok (Sigact 512 6 4 777)) as Hb by (unfold sigact_ok; cbn; lia).
  destruct (sigaction_roundtrip 64 128 4096 ltac:(lia) ltac:(lia) ltac:(lia) 15 _ _ 513 p Hs Hm ltac:(lia) Ha ltac:(lia))
    as (p1 & a & p2 & _ & _ & _ & Ea & _ & _ & Fa & _).
  destruct (sigaction_roundtrip 64 128 4096 ltac:(lia) ltac:(lia) ltac:(lia) 15 _ _ 513 p Hs Hm ltac:(lia) Hb ltac:(lia))
    as (p3 & b & p4 & _ & _ & _ & Eb & Fb & _).
  exists p1, p2, p3, p4. rewrite Ea, Eb, (Fa eq_refl eq_refl), (Fb ltac:(done)). by split.
Defined.
