(* ===== verification/FileStatus.v ===== *)
(** * File status: [stat], [lstat] and [fstat] over a kernel with named files

    [Files] translates the functions; here the structures at both ends are
    records, the kernel's promise is a class, and the functions are shown to
    deliver the kernel's record. *)

From S2P Require Import Prelude Heap Regex Printf Syscall CString CStringCopy Stream Signal Files.

(** ** The two structures *)

(** [lamp_stat_t] of [include/lamp/abi.h]: ten unsigned words. *)
Record lamp_stat : Type := LampStat {
  l_dev : Z; l_ino : Z; l_mode : Z; l_nlink : Z; l_uid : Z;
  l_gid : Z; l_rdev : Z; l_size : Z; l_blksize : Z; l_blocks : Z
}.

(** [struct stat] of [sys/stat.h]: the size is an [off_t], which is signed. *)
Record struct_stat : Type := StructStat {
  st_dev : Z; st_ino : Z; st_mode : Z; st_nlink : Z; st_uid : Z;
  st_gid : Z; st_rdev : Z; st_size : Z; st_blksize : Z; st_blocks : Z;
  st_atime : Z; st_mtime : Z; st_ctime : Z
}.

Definition sizeof_lamp_stat : Z := 40.
Definition sizeof_stat : Z := 52.

Definition lamp_stat_at (m : memory) (a : Z) : lamp_stat :=
  LampStat (rd32 m a) (rd32 m (a + 4)) (rd32 m (a + 8)) (rd32 m (a + 12)) (rd32 m (a + 16))
           (rd32 m (a + 20)) (rd32 m (a + 24)) (rd32 m (a + 28)) (rd32 m (a + 32)) (rd32 m (a + 36)).

Definition stat_at (m : memory) (a : Z) : struct_stat :=
  StructStat (rd32 m a) (rd32 m (a + 4)) (rd32 m (a + 8)) (rd32 m (a + 12)) (rd32 m (a + 16))
             (rd32 m (a + 20)) (rd32 m (a + 24)) (s32 (rd32 m (a + 28))) (rd32 m (a + 32)) (rd32 m (a + 36))
             (rd32 m (a + 40)) (rd32 m (a + 44)) (rd32 m (a + 48)).

(** What a program is meant to see of the kernel's record. *)
Definition seen_as (s : lamp_stat) : struct_stat :=
  StructStat (l_dev s) (l_ino s) (l_mode s) (l_nlink s) (l_uid s) (l_gid s) (l_rdev s)
             (s32 (l_size s)) (l_blksize s) (l_blocks s) 0 0 0.

#[global] Instance lamp_stat_eq_dec : EqDecision lamp_stat.
Proof. solve_decision. Defined.

(** ** What the kernel promises *)

(** The status of a name or of an open descriptor is put into the buffer, or
    the call fails with an error number; the files stay what they are. *)
Class StatKernel (K : Type) `{Kernel K} : Type := {
  status : K -> list Z -> option lamp_stat;
  open_status : K -> Z -> option lamp_stat;
  stat_law k m path buf name : cstring m path name -> 0 < path < 2 ^ 32 -> 0 < buf -> buf + sizeof_lamp_stat <= 2 ^ 32 -> is_memory m ->
    exists k' m' r e, trap k m (abi_call LAMP_SYS_STAT [path; buf; 0; 0; 0; 0]) = (k', m', r, e) /\
      (forall n, status k' n = status k n) /\ is_memory m' /\ (forall x, x < buf \/ buf + sizeof_lamp_stat <= x -> m' x = m x) /\
      match status k name with
      | Some s => r = 0 /\ lamp_stat_at m' buf = s
      | None => r = 2 ^ 32 - 1 /\ 0 < e < 2 ^ 31
      end;
  fstat_law k m fd buf : 0 <= fd < 2 ^ 31 -> 0 < buf -> buf + sizeof_lamp_stat <= 2 ^ 32 -> is_memory m ->
    exists k' m' r e, trap k m (abi_call LAMP_SYS_FSTAT [fd; buf; 0; 0; 0; 0]) = (k', m', r, e) /\
      (forall n, status k' n = status k n) /\ is_memory m' /\ (forall x, x < buf \/ buf + sizeof_lamp_stat <= x -> m' x = m x) /\
      match open_status k fd with
      | Some s => r = 0 /\ lamp_stat_at m' buf = s
      | None => r = 2 ^ 32 - 1 /\ 0 < e < 2 ^ 31
      end
}.

(** ** The copy *)

Lemma fold_wr32_out (f : memory -> Z -> Z) dst os m x :
  (forall o, o ∈ os -> x < dst + o \/ dst + o + 4 <= x) -> fold_left (fun m o => wr32 m (dst + o) (f m o)) os m x = m x.
Proof.
  revert m. induction os as [|o os IH]; intros m Ho; [done|]. cbn [fold_left].
  rewrite IH by (intros o' Ho'; apply Ho; by right). apply wr32_other. apply Ho. by left.
Qed.

Lemma stat_copy_out dst src m x : x < dst \/ dst + sizeof_stat <= x -> stat_copy dst src m x = m x.
Proof.
  unfold sizeof_stat. intros Hx. unfold stat_copy.
  rewrite (fold_wr32_out (fun _ _ => 0)), (fold_wr32_out (fun m o => rd32 m (src + o))); [done|..];
    intros o Ho; repeat (apply elem_of_cons in Ho as [->|Ho]; [lia|]); by apply elem_of_nil in Ho.
Qed.

Lemma stat_copy_seen dst src m : is_memory m -> apart dst sizeof_stat src sizeof_lamp_stat ->
  stat_at (stat_copy dst src m) dst = seen_as (lamp_stat_at m src).
Proof.
  intros Hm Ha. destruct (stat_copy_spec dst src m Hm Ha) as [H1 H2].
  repeat (apply Forall_cons_1 in H1 as [? H1]). repeat (apply Forall_cons_1 in H2 as [? H2]).
  rewrite !Z.add_0_r in *. unfold stat_at, seen_as, lamp_stat_at. cbn [l_dev l_ino l_mode l_nlink l_uid l_gid l_rdev l_size l_blksize l_blocks].
  congruence.
Qed.

(** ** The functions *)

Section status.
Context {K : Type} `{StatKernel K}.
Context (lst st : Z) (Hlst : 0 < lst) (Hfit : lst + sizeof_lamp_stat <= 2 ^ 32) (Hapart : apart st sizeof_stat lst sizeof_lamp_stat).

(** [rc] and [p'] report [want]: the record at [st], or an error number and
    [st] as it was.  Elsewhere the memory is the same, the local aside. *)
Definition reports (want : option lamp_stat) (p : process K) (rc : Z) (p' : process K) : Prop :=
  (forall n, status (p_kernel p') n = status (p_kernel p) n) /\
  match want with
  | Some s => rc = 0 /\ errno p' = 0 /\ stat_at (p_mem p') st = seen_as s /\
      forall x, x < st \/ st + sizeof_stat <= x -> x < lst \/ lst + sizeof_lamp_stat <= x -> p_mem p' x = p_mem p x
  | None => rc = -1 /\ 0 < errno p' /\ forall x, x < lst \/ lst + sizeof_lamp_stat <= x -> p_mem p' x = p_mem p x
  end.

(** What [stat] and [fstat] do behind their call. *)
Definition fill (rc : Z) : M K Z :=
  if rc <? 0 then bind set_errno_from_libsys (fun _ => ret (-1))
  else bind (update (stat_copy st lst)) (fun _ => bind (set_errno 0) (fun _ => ret 0)).

Lemma fill_reports nr a (p : process K) want k' m' r e :
  0 <= a < 2 ^ 32 -> trap (p_kernel p) (p_mem p) (abi_call nr [a; lst; 0; 0; 0; 0]) = (k', m', r, e) ->
  (forall n, status k' n = status (p_kernel p) n) -> is_memory m' ->
  (forall x, x < lst \/ lst + sizeof_lamp_stat <= x -> m' x = p_mem p x) ->
  match want with Some s => r = 0 /\ lamp_stat_at m' lst = s | None => r = 2 ^ 32 - 1 /\ 0 < e < 2 ^ 31 end ->
  exists rc p', bind (libsys_call6 nr a lst 0 0 0 0) fill p = (rc, p') /\ reports want p rc p'.
Proof.
  unfold sizeof_lamp_stat in *. intros Ha E Hk Hm Hout Hw. unfold bind at 1, libsys_call6. rewrite (u32_small a), (u32_small lst), !(u32_small 0), E by lia.
  destruct want as [s|]; destruct Hw as [-> Hw].
  - eexists 0, _. split; [reflexivity|]. split; [exact Hk|]. split; [done|]. split; [done|]. cbn [p_mem]. split.
    + by rewrite stat_copy_seen, Hw.
    + intros x H1 H2. rewrite stat_copy_out by done. by apply Hout.
  - eexists (-1), _. split; [reflexivity|]. split; [exact Hk|]. split; [done|]. split; [|exact Hout].
    change (s32 (2 ^ 32 - 1)) with (-1). cbn. unfold s32. rewrite swrap_small by lia. lia.
Qed.
End status.

(** C32: [stat], [lstat] and [fstat] deliver the kernel's record.  When the name
    or descriptor has a status, they return 0 with errno 0 and the structure
    holds every field of it, with the three times 0 and the size read as a
    signed word, so that a file of 2 GiB or more has a negative size;
    otherwise they return -1 with the kernel's error and leave the structure
    alone.  The kernel's files and the rest of the memory keep their state.
    [lstat] is [stat]: it reports what the kernel's [stat] says of the name. *)
Theorem stat_correct {K : Type} `{StatKernel K} lst st (p : process K) path name fd
    (Hmem : is_memory (p_mem p)) (Hlst : 0 < lst) (Hfit : lst + sizeof_lamp_stat <= 2 ^ 32)
    (Hapart : apart st sizeof_stat lst sizeof_lamp_stat)
    (Hname : cstring (p_mem p) path name) (Hpath : 0 < path < 2 ^ 32) (Hfd : 0 <= fd < 2 ^ 31) :
  (exists rc p', stat lst path st p = (rc, p') /\ reports lst st (status (p_kernel p) name) p rc p') /\
  (exists rc p', lstat lst path st p = (rc, p') /\ reports lst st (status (p_kernel p) name) p rc p') /\
  (exists rc p', fstat lst fd st p = (rc, p') /\ reports lst st (open_status (p_kernel p) fd) p rc p').
Proof.
  destruct (stat_law (p_kernel p) (p_mem p) path lst name Hname Hpath Hlst Hfit Hmem) as (k & m & r & e & E & Hk & Hm & Hout & Hw).
  destruct (fstat_law (p_kernel p) (p_mem p) fd lst Hfd Hlst Hfit Hmem) as (k2 & m2 & r2 & e2 & E2 & Hk2 & Hm2 & Hout2 & Hw2).
  assert (exists rc p', stat lst path st p = (rc, p') /\ reports lst st (status (p_kernel p) name) p rc p') as Hs
    by (exact (fill_reports lst st Hlst Hfit Hapart LAMP_SYS_STAT path p _ k m r e ltac:(lia) E Hk Hm Hout Hw)).
  split; [exact Hs|]. split; [exact Hs|].
  exact (fill_reports lst st Hlst Hfit Hapart LAMP_SYS_FSTAT fd p _ k2 m2 r2 e2 ltac:(lia) E2 Hk2 Hm2 Hout2 Hw2).
Qed.

(** ** A kernel with named files *)

(** Names and descriptors with their status. *)
Record tree : Type := Tree {
  by_name : list (list Z * lamp_stat);
  by_fd : list (Z * lamp_stat)
}.

(** The string at [path] is [n]. *)
Definition no_nul (n : list Z) : bool := forallb (fun c => negb (c =? 0)) n.
Definition spells (m : memory) (path : Z) (n : list Z) : bool := no_nul n && bool_decide (load m path (S (length n)) = n ++ [0]).
Definition find_name (k : tree) (test : list Z -> bool) : option lamp_stat := snd <$> List.find (fun '(n, _) => test n) (by_name k).
Definition find_fd (k : tree) (fd : Z) : option lamp_stat := snd <$> List.find (fun '(d, _) => d =? fd) (by_fd k).

Definition store_stat (m : memory) (a : Z) (s : lamp_stat) : memory :=
  fold_left (fun m '(o, v) => wr32 m (a + o) v)
    [(0, l_dev s); (4, l_ino s); (8, l_mode s); (12, l_nlink s); (16, l_uid s); (20, l_gid s); (24, l_rdev s);
     (28, l_size s); (32, l_blksize s); (36, l_blocks s)] m.

#[local] Instance tree_kernel : Kernel tree := fun k m rq =>
  let answer found buf e := match found with Some s => (k, store_stat m buf s, 0, 0) | None => (k, m, 2 ^ 32 - 1, e) end in
  match rq_nr rq, rq_args rq with
  | LAMP_SYS_STAT, path :: buf :: _ => answer (find_name k (spells m path)) buf ENOENT
  | LAMP_SYS_FSTAT, fd :: buf :: _ => answer (find_fd k fd) buf EBADF
  | _, _ => (k, m, 2 ^ 32 - 1, EINVAL)
  end.

(** A status is words. *)
Definition wrapped (s : lamp_stat) : lamp_stat :=
  LampStat (u32 (l_dev s)) (u32 (l_ino s)) (u32 (l_mode s)) (u32 (l_nlink s)) (u32 (l_uid s))
           (u32 (l_gid s)) (u32 (l_rdev s)) (u32 (l_size s)) (u32 (l_blksize s)) (u32 (l_blocks s)).

Lemma load_cons m a n : load m a (S n) = m a :: load m (a + 1) n.
Proof. change (S n) with (1 + n)%nat. rewrite load_app. cbn. by rewrite Z.add_0_r. Qed.

Lemma spells_cstring m path name n : cstring m path name -> spells m path n = no_nul n && bool_decide (n = name).
Proof.
  unfold spells. revert path name. induction n as [|c n IH]; intros path name Hs.
  - cbn [length]. rewrite load_cons. cbn [no_nul forallb andb app]. apply bool_decide_ext.
    destruct name as [|d name]; cbn [cstring] in Hs; [by rewrite Hs|]. split; [intros [=]; lia|done].
  - cbn [length no_nul forallb]. rewrite load_cons. destruct (Z.eqb_spec c 0) as [->|Hc]; [done|]. cbn [negb andb].
    destruct name as [|d name]; cbn [cstring] in Hs.
    + rewrite !bool_decide_eq_false_2; [done|done|]. cbn. intros [=]. lia.
    + destruct Hs as (Hd & _ & Hs). specialize (IH (path + 1) name Hs). fold (no_nul n). destruct (no_nul n); [|done]. cbn [andb] in *.
      rewrite Hd. destruct (Z.eqb_spec d c) as [->|Hne].
      * etrans; [|etrans; [exact IH|]]; apply bool_decide_ext; [cbn; split; [by intros [=]|by intros ->]|split; [by intros ->|by intros [=]]].
      * rewrite !bool_decide_eq_false_2; [done|intros [=]; congruence|cbn; intros [=]; congruence].
Qed.

Lemma store_stat_memory m a s : is_memory m -> is_memory (store_stat m a s).
Proof. intros Hm. unfold store_stat. cbn [fold_left]. by do 10 apply wr32_memory. Qed.

Lemma store_stat_out m a s x : x < a \/ a + sizeof_lamp_stat <= x -> store_stat m a s x = m x.
Proof. unfold sizeof_lamp_stat, store_stat. cbn [fold_left]. intros Hx. by rewrite !wr32_other by lia. Qed.

Lemma store_stat_at m a s : lamp_stat_at (store_stat m a s) a = wrapped s.
Proof.
  unfold lamp_stat_at, store_stat, wrapped. cbn [fold_left]. rewrite !Z.add_0_r.
  f_equal; repeat first [rewrite rd32_wr32_any; reflexivity | rewrite rd32_wr32_other by lia].
Qed.

#[local, refine] Instance tree_status : StatKernel tree :=
  {| status k name := wrapped <$> find_name k (fun n => no_nul n && bool_decide (n = name));
     open_status k fd := wrapped <$> find_fd k fd |}.
Proof.
  - intros k m path buf name Hs Hp Hb Hf Hm.
    assert (find_name k (spells m path) = find_name k (fun n => no_nul n && bool_decide (n = name))) as Ef.
    { unfold find_name. f_equal. induction (by_name k) as [|[n s] l IH]; [done|]. cbn [List.find]. by rewrite (spells_cstring m path name n Hs), IH. }
    unfold trap, tree_kernel, abi_call. cbn [rq_nr rq_args]. rewrite Ef. clear Ef. destruct (find_name k _) as [s|]; cbn [fmap option_fmap option_map].
    + eexists _, _, _, _. split; [reflexivity|]. split; [done|]. split; [by apply store_stat_memory|]. split; [intros; by apply store_stat_out|].
      split; [done|apply store_stat_at].
    + eexists _, _, _, _. do 4 (split; [done|]). by split.
  - intros k m fd buf Hfd Hb Hf Hm. unfold trap, tree_kernel, abi_call. cbn [rq_nr rq_args]. destruct (find_fd k fd) as [s|]; cbn [fmap option_fmap option_map].
    + eexists _, _, _, _. split; [reflexivity|]. split; [done|]. split; [by apply store_stat_memory|]. split; [intros; by apply store_stat_out|].
      split; [done|apply store_stat_at].
    + eexists _, _, _, _. do 4 (split; [done|]). by split.
Defined.

(** A directory "d" and a file "f" of 3 GiB, which is open at 5. *)
Definition sample_tree : tree :=
  let f := LampStat 1 8 0x81A4 1 0 0 0 (3 * 2 ^ 30) 512 6291456 in
  Tree [([100], LampStat 1 7 0x41ED 2 0 0 0 512 512 1); ([102], f)] [(5, f)].

Lemma stat_correct_witness :
  let p := Proc sample_tree (fun x => if x =? 100 then 102 else 0) 0 0 in
  (exists p', stat 4096 100 8192 p = (0, p') /\ st_size (stat_at (p_mem p') 8192) = - 2 ^ 30) /\
  (exists p', fstat 4096 6 8192 p = (-1, p') /\ 0 < errno p').
Proof.
  intros p. assert (is_memory (p_mem p)) as Hm by (intros x; cbn; case_match; lia).
  destruct (stat_correct 4096 8192 p 100 [102] 6 Hm ltac:(lia) ltac:(unfold sizeof_lamp_stat; lia)
    ltac:(unfold apart, sizeof_stat, sizeof_lamp_stat; lia) ltac:(by vm_compute) ltac:(lia) ltac:(lia))
    as ((rc & p1 & E1 & _ & R1) & _ & (rc2 & p2 & E2 & _ & R2)).
  assert (status (p_kernel p) [102] = Some (LampStat 1 8 0x81A4 1 0 0 0 (3 * 2 ^ 30) 512 6291456)) as Es by by vm_compute.
  assert (open_status (p_kernel p) 6 = None) as Eo by by vm_compute.
  rewrite Es in R1. rewrite Eo in R2. destruct R1 as (-> & _ & R1 & _), R2 as (-> & R2 & _). split.
  - exists p1. split; [exact E1|]. rewrite R1. by vm_compute.
  - by exists p2.
Defined.
