(* ===== verification/Headers.v ===== *)
(** * What the headers define

    The tables of numbers that the library shares with the kernel
    ([include/lamp/abi.h]) and with its programs ([sysroot/include]), and the
    macros with a body: descriptor sets, file types, device numbers, wait
    statuses. *)

From Stdlib Require Import String Ascii.
From stdpp Require Import strings.
From S2P Require Import Prelude Syscall Signal.

(** ** Tables *)

(** The errors the kernel reports, without their prefix. *)
Definition LAMP_ERRNO : list (string * Z) :=
  [("EPERM", 1); ("ENOENT", 2); ("ESRCH", 3); ("EINTR", 4); ("EIO", 5); ("EBADF", 9);
   ("ECHILD", 10); ("EAGAIN", 11); ("EACCES", 13); ("ENOMEM", 12); ("EFAULT", 14);
   ("EBUSY", 16); ("EEXIST", 17); ("ENOTDIR", 20); ("EISDIR", 21); ("EINVAL", 22);
   ("EMFILE", 24); ("ENOTTY", 25); ("ENOSPC", 28); ("ESPIPE", 29); ("EROFS", 30);
   ("EPIPE", 32); ("ERANGE", 34); ("ENAMETOOLONG", 36); ("ENOSYS", 38); ("ELOOP", 40);
   ("EOVERFLOW", 75); ("ENOTSOCK", 88); ("EOPNOTSUPP", 95); ("EAFNOSUPPORT", 97); ("ENOTCONN", 107)]%string.

(** The errors of [errno.h]. *)
Definition errno_h : list (string * Z) :=
  [("EPERM", 1); ("ENOENT", 2); ("ESRCH", 3); ("EINTR", 4); ("EIO", 5); ("EBADF", 9);
   ("ECHILD", 10); ("EAGAIN", 11); ("ENOMEM", 12); ("EACCES", 13); ("EFAULT", 14);
   ("EBUSY", 16); ("EEXIST", 17); ("EXDEV", 18); ("ENOTDIR", 20); ("EISDIR", 21);
   ("EINVAL", 22); ("EMFILE", 24); ("ENOTTY", 25); ("EMSGSIZE", 90); ("ENODEV", 19);
   ("ENOSPC", 28); ("ESPIPE", 29); ("EROFS", 30); ("EPIPE", 32); ("ERANGE", 34);
   ("ENAMETOOLONG", 36); ("ENOSYS", 38); ("ELOOP", 40); ("ENOTEMPTY", 39); ("EOVERFLOW", 75);
   ("ENOTSOCK", 88); ("EOPNOTSUPP", 95); ("EAFNOSUPPORT", 97); ("ENOTCONN", 107)]%string.

(** The signals of [signal.h], those of the kernel included. *)
Definition signal_numbers : list (string * Z) :=
  [("SIGHUP", 1); ("SIGINT", 2); ("SIGQUIT", 3); ("SIGILL", 4); ("SIGTRAP", 5);
   ("SIGABRT", 6); ("SIGBUS", 7); ("SIGFPE", 8); ("SIGKILL", 9); ("SIGUSR1", 10);
   ("SIGSEGV", 11); ("SIGUSR2", 12); ("SIGPIPE", 13); ("SIGALRM", 14); ("SIGTERM", 15);
   ("SIGCHLD", 17); ("SIGCONT", 18); ("SIGSTOP", 19); ("SIGTSTP", 20); ("SIGTTIN", 21);
   ("SIGTTOU", 22); ("SIGURG", 23); ("SIGXCPU", 24); ("SIGXFSZ", 25); ("SIGVTALRM", 26);
   ("SIGPROF", 27); ("SIGWINCH", 28)]%string.

(** The flags of [termios.h]: input. *)
Definition c_iflag_bits : list (string * Z) :=
  [("IGNBRK", 0x0001); ("BRKINT", 0x0002); ("IGNPAR", 0x0004); ("PARMRK", 0x0008); ("INPCK", 0x0010);
   ("ISTRIP", 0x0020); ("INLCR", 0x0040); ("IGNCR", 0x0080); ("ICRNL", 0x0100); ("IUCLC", 0x0200);
   ("IXON", 0x0400); ("IXANY", 0x0800); ("IXOFF", 0x1000); ("IMAXBEL", 0x2000); ("IUTF8", 0x4000)]%string.

(** Output. *)
Definition c_oflag_bits : list (string * Z) :=
  [("OPOST", 0x0001); ("OLCUC", 0x0002); ("ONLCR", 0x0004); ("OCRNL", 0x0008); ("ONOCR", 0x0010);
   ("ONLRET", 0x0020); ("OFILL", 0x0040); ("OFDEL", 0x0080); ("NLDLY", 0x0100); ("CRDLY", 0x0600);
   ("TABDLY", 0x1800); ("BSDLY", 0x2000); ("VTDLY", 0x4000); ("FFDLY", 0x8000)]%string.

(** Control. *)
Definition c_cflag_bits : list (string * Z) :=
  [("CBAUD", 0x100f); ("CSIZE", 0x0030); ("CS5", 0x0000); ("CS6", 0x0010); ("CS7", 0x0020);
   ("CS8", 0x0030); ("CSTOPB", 0x0040); ("CREAD", 0x0080); ("PARENB", 0x0100); ("PARODD", 0x0200);
   ("HUPCL", 0x0400); ("CLOCAL", 0x0800)]%string.

(** Local modes, those of the kernel first. *)
Definition c_lflag_kernel : list (string * Z) :=
  [("ISIG", 0x1); ("ICANON", 0x2); ("ECHO", 0x8); ("ECHOE", 0x8); ("ECHOK", 0x10); ("ECHONL", 0x20); ("ECHOKE", 0x800);
   ("ECHOPRT", 0x400); ("IEXTEN", 0x8000)]%string.
Definition c_lflag_more : list (string * Z) :=
  [("XCASE", 0x0004); ("TOSTOP", 0x0100); ("FLUSHO", 0x1000); ("NOFLSH", 0x8000)]%string.

(** Places in [c_cc]. *)
Definition c_cc_index : list (string * Z) :=
  [("VINTR", 0); ("VQUIT", 1); ("VERASE", 2); ("VKILL", 3); ("VEOF", 4); ("VTIME", 5);
   ("VMIN", 6); ("VSWTC", 7); ("VSTART", 8); ("VSTOP", 9); ("VSUSP", 10); ("VEOL", 11);
   ("VREPRINT", 12); ("VDISCARD", 13); ("VWERASE", 14); ("VLNEXT", 15); ("VEOL2", 16)]%string.

(** Speeds. *)
Definition baud_rates : list (string * Z) :=
  [("B0", 0); ("B50", 1); ("B75", 2); ("B110", 3); ("B134", 4); ("B150", 5);
   ("B200", 6); ("B300", 7); ("B600", 8); ("B1200", 9); ("B1800", 10); ("B2400", 11);
   ("B4800", 12); ("B9600", 13); ("B19200", 14); ("B38400", 15); ("B57600", 0x1001);
   ("B115200", 0x1002); ("B230400", 0x1003); ("B460800", 0x1004); ("B500000", 0x1005);
   ("B576000", 0x1006); ("B921600", 0x1007); ("B1000000", 0x1008); ("B1152000", 0x1009);
   ("B1500000", 0x100a); ("B2000000", 0x100b); ("B2500000", 0x100c); ("B3000000", 0x100d);
   ("B3500000", 0x100e); ("B4000000", 0x100f)]%string.

Definition NCCS : Z := 32.
Definition CBAUD : Z := 0x100f.

(** ** Descriptor sets *)

Definition FD_ZERO : Z := 0.
Definition FD_SET (fd set : Z) : Z := Z.lor set (u32 (Z.shiftl 1 fd)).
Definition FD_CLR (fd set : Z) : Z := Z.land set (unot 32 (u32 (Z.shiftl 1 fd))).
Definition FD_ISSET (fd set : Z) : bool := truthy (Z.land set (u32 (Z.shiftl 1 fd))).

(** ** File types *)

Definition S_IFMT : Z := 0xF000.
Definition S_IFSOCK : Z := 0xC000.
Definition S_IFLNK : Z := 0xA000.
Definition S_IFREG : Z := 0x8000.
Definition S_IFBLK : Z := 0x6000.
Definition S_IFDIR : Z := 0x4000.
Definition S_IFCHR : Z := 0x2000.
Definition S_IFIFO : Z := 0x1000.
Definition S_ISREG (m : Z) : bool := Z.land m S_IFMT =? S_IFREG.
Definition S_ISDIR (m : Z) : bool := Z.land m S_IFMT =? S_IFDIR.
Definition S_ISCHR (m : Z) : bool := Z.land m S_IFMT =? S_IFCHR.
Definition S_ISBLK (m : Z) : bool := Z.land m S_IFMT =? S_IFBLK.
Definition S_ISFIFO (m : Z) : bool := Z.land m S_IFMT =? S_IFIFO.
Definition S_ISLNK (m : Z) : bool := Z.land m S_IFMT =? S_IFLNK.
Definition S_ISSOCK (m : Z) : bool := Z.land m S_IFMT =? S_IFSOCK.

(** The kernel's types: of a mode, and of a directory entry. *)
Definition LAMP_S_IF : list (string * Z) :=
  [("SOCK", 0xC000); ("LNK", 0xA000); ("REG", 0x8000); ("DIR", 0x4000); ("CHR", 0x2000); ("FIFO", 0x1000)]%string.
Definition LAMP_DT : list (string * Z) :=
  [("UNKNOWN", 0); ("REG", 8); ("DIR", 4); ("CHR", 2); ("LNK", 10); ("SOCK", 12)]%string.

(** ** Device numbers and wait statuses *)

Definition major (dev : Z) : Z := Z.land (Z.shiftr dev 8) 0xff.
Definition minor (dev : Z) : Z := Z.land dev 0xff.
Definition makedev (ma mi : Z) : Z := Z.lor (Z.shiftl (Z.land ma 0xff) 8) (Z.land mi 0xff).

Definition WEXITSTATUS (s : Z) : Z := Z.land (Z.shiftr s 8) 0xff.
Definition WIFEXITED (s : Z) : Z := 1.
Definition WIFSIGNALED (s : Z) : Z := 0.
Definition WIFSTOPPED (s : Z) : Z := 0.
Definition WSTOPSIG (s : Z) : Z := 0.
Definition WTERMSIG (s : Z) : Z := 0.

(** ** Agreement of the tables *)

(** The values of two entries have a bit in common. *)
Definition overlap (l : list (string * Z)) : list (string * string) :=
  '(a, x) ← l; '(b, y) ← l;
  if String.ltb a b && truthy (Z.land x y) then [(a, b)] else [].

(** Every error of the kernel has its name and number in [errno.h], where no
    number stands for two errors, so a program that compares [errno] with a
    name means the kernel's error.  Signals have different numbers that fit a
    signal set.  The types of directory entries are those of modes, shifted.
    No input flag or speed of [termios.h] overlaps another, every place fits
    [c_cc], and every speed fits its field; but of the local modes [ECHOE] is
    the bit of [ECHO], and [NOFLSH] that of [IEXTEN]. *)
Theorem tables_agree :
  incl LAMP_ERRNO errno_h /\ NoDup (map snd errno_h) /\
  NoDup (map snd signal_numbers) /\ Forall (fun s => sig_in_range s = true) (map snd signal_numbers) /\
  Forall (fun '(t, d) => d = 0 \/ exists m, In (t, m) LAMP_S_IF /\ d = Z.shiftr m 12) LAMP_DT /\
  overlap c_iflag_bits = [] /\ overlap c_oflag_bits = [] /\ NoDup (map snd baud_rates) /\
  Forall (fun b => Z.land b CBAUD = b) (map snd baud_rates) /\ Forall (fun i => 0 <= i < NCCS) (map snd c_cc_index) /\
  overlap (c_lflag_kernel ++ c_lflag_more) = [("ECHO", "ECHOE"); ("IEXTEN", "NOFLSH")]%string.
Proof.
  repeat split; try reflexivity; try (apply (bool_decide_unpack _); vm_compute; exact I).
  - assert (forallb (fun e => bool_decide (e ∈ errno_h)) LAMP_ERRNO = true) as Hall by (vm_compute; reflexivity).
    intros e He. rewrite forallb_forall in Hall. by apply list_elem_of_In, (bool_decide_eq_true_1 _), Hall.
  - repeat (apply Forall_cons_2; [first [by left | right; eexists; split; [cbn; tauto|reflexivity]]|]). apply Forall_nil_2.
Qed.

(** A word is a set of the descriptors 0 to 31. *)
Theorem fd_set_spec set fd j : 0 <= fd < 32 -> 0 <= j < 32 ->
  FD_ISSET j FD_ZERO = false /\
  FD_ISSET j (FD_SET fd set) = (j =? fd) || FD_ISSET j set /\
  FD_ISSET j (FD_CLR fd set) = negb (j =? fd) && FD_ISSET j set.
Proof.
  intros Hf Hj. assert (forall n, 0 <= n < 32 -> 0 <= 2 ^ n < 2 ^ 32) as Hp
    by (intros n Hn; split; [pose proof (pow2_pos n); lia|apply Z.pow_lt_mono_r; lia]).
  assert (forall n, 0 <= n < 32 -> u32 (Z.shiftl 1 n) = 2 ^ n) as Hb
    by (intros n Hn; rewrite shiftl_mul, Z.mul_1_l by lia; by apply u32_small, Hp).
  unfold FD_ISSET, FD_SET, FD_CLR. rewrite !Hb, !truthy_land_bit by lia. split; [apply Z.bits_0|].
  rewrite Z.lor_spec, Z.land_spec, testbit_unot, Z.pow2_bits_eqb by (lia || by apply Hp).
  rewrite (Z.eqb_sym fd j). by destruct (Z.testbit set j), (j =? fd).
Qed.

(** The tests of the file type exclude each other, and each finds its type
    whatever the permission bits are. *)
Theorem file_types m t : In t [S_ISREG; S_ISDIR; S_ISCHR; S_ISBLK; S_ISFIFO; S_ISLNK; S_ISSOCK] -> t m = true ->
  (List.filter (fun t => t m) [S_ISREG; S_ISDIR; S_ISCHR; S_ISBLK; S_ISFIFO; S_ISLNK; S_ISSOCK] = [t]) /\
  (forall perm, 0 <= perm < 2 ^ 12 -> t (Z.lor (Z.land m S_IFMT) perm) = true).
Proof.
  intros Ht Hm. assert (forall perm, 0 <= perm < 2 ^ 12 -> Z.land (Z.lor (Z.land m S_IFMT) perm) S_IFMT = Z.land m S_IFMT) as Hp.
  { intros perm Hr. rewrite Z.land_lor_distr_l, <- Z.land_assoc. change (Z.land S_IFMT S_IFMT) with S_IFMT.
    assert (Z.land perm S_IFMT = 0) as ->; [|by rewrite Z.lor_0_r]. apply Z.bits_inj'. intros i Hi. rewrite Z.land_spec, Z.bits_0.
    destruct (Z.ltb_spec i 12); [|by rewrite (testbit_high perm 12)]. apply andb_false_intro2. change S_IFMT with (Z.shiftl 15 12).
    by rewrite Z.shiftl_spec_low by lia. }
  cbn [In] in Ht. repeat (destruct Ht as [<-|Ht]; [split;
    [cbn [List.filter]; unfold S_ISREG, S_ISDIR, S_ISCHR, S_ISBLK, S_ISFIFO, S_ISLNK, S_ISSOCK in *; apply Z.eqb_eq in Hm; by rewrite Hm
    |intros perm Hr; unfold S_ISREG, S_ISDIR, S_ISCHR, S_ISBLK, S_ISFIFO, S_ISLNK, S_ISSOCK in *; by rewrite Hp]|]). done.
Qed.

(** Device numbers of 8 bits each, and the status of a child that left. *)
Theorem device_and_status ma mi code : 0 <= ma < 256 -> 0 <= mi < 256 -> 0 <= code < 256 ->
  major (makedev ma mi) = ma /\ minor (makedev ma mi) = mi /\ WEXITSTATUS (Z.shiftl code 8) = code.
Proof.
  intros H1 H2 H3. unfold major, minor, makedev, WEXITSTATUS. change 0xff with (2 ^ 8 - 1). rewrite !land_mask, !shiftl_mul, !shiftr_div by lia.
  rewrite (Z.mod_small ma), (Z.mod_small mi), lor_add_disjoint' by lia. rewrite Z.div_mul by lia. rewrite (Z.mod_small code) by lia.
  split; [|split; [|done]]; Z.to_euclidean_division_equations; lia.
Qed.
