(* ===== verification/Process.v ===== *)
(** * Processes: [exit] and [rand] of [lib/libc_stdlib.c], [execvp] of [lib/libc_syscalls.c] *)

From S2P Require Import Prelude Regex EnvMap Syscall.

(** ** Exit handlers *)

Section exit.
(** Handlers are the program's functions.  What one does when it runs is to
    call [atexit] for each handler of a list. *)
Context {F : Type} (registers : F -> list F).

(** [g_exit_handlers] up to [g_exit_handler_count]. *)
Definition EXIT_HANDLERS : nat := 32.

(** [None]: a null function.  The new table and the result. *)
Definition atexit (handlers : list F) (function : option F) : list F * Z :=
  match function with
  | None => (handlers, -1)
  | Some f => if (EXIT_HANDLERS <=? length handlers)%nat then (handlers, -1) else (handlers ++ [f], 0)
  end.

Definition run_handler (handlers : list F) (f : F) : list F :=
  fold_left (fun h g => (atexit h (Some g)).1) (registers f) handlers.

(** The loop of [exit]: the count goes down before the handler runs.  The
    result is the handlers run, in order; [_exit] follows. *)
Fixpoint exit_loop (fuel : nat) (handlers : list F) (ran : list F) : option (list F) :=
  match fuel with
  | O => None
  | S n =>
      match rev handlers with
      | [] => Some ran
      | f :: rest => exit_loop n (run_handler (rev rest) f) (ran ++ [f])
      end
  end.

(** What a handler and those it registers do: the last registered first. *)
Fixpoint unwind (n : nat) (f : F) : list F :=
  f :: match n with O => [] | S n => concat (map (unwind n) (rev (registers f))) end.

Definition total (size : F -> nat) (hs : list F) : nat := sum_list_with size hs.

Lemma total_app size hs gs : total size (hs ++ gs) = (total size hs + total size gs)%nat.
Proof. apply sum_list_with_app. Qed.

Lemma total_nil size : total size [] = 0%nat.
Proof. reflexivity. Qed.

Lemma total_cons size f hs : total size (f :: hs) = (size f + total size hs)%nat.
Proof. reflexivity. Qed.

Section size.
(** [size f] bounds the number of handlers [f] brings about, itself included. *)
Context (size : F -> nat) (Hsize : forall f, (total size (registers f) < size f)%nat).

Lemma size_pos f : (0 < size f)%nat.
Proof. pose proof (Hsize f). lia. Qed.

Lemma length_total hs : (length hs <= total size hs)%nat.
Proof. induction hs as [|f hs IH]; [done|]. rewrite total_cons. cbn [length]. pose proof (size_pos f). lia. Qed.

Lemma run_handler_total gs : forall hs, (total size (fold_left (fun h g => (atexit h (Some g)).1) gs hs) <= total size hs + total size gs)%nat.
Proof.
  induction gs as [|g gs IH]; intros hs; [rewrite total_nil; cbn [fold_left]; lia|]. rewrite total_cons. cbn [fold_left]. etrans; [apply IH|]. cbn [atexit].
  destruct (EXIT_HANDLERS <=? length hs)%nat; cbn [fst]; [lia|]. rewrite total_app, total_cons, total_nil. lia.
Qed.

(** Nothing is refused while the table has room. *)
Lemma run_handler_room gs : forall hs, (length hs + length gs <= EXIT_HANDLERS)%nat ->
  fold_left (fun h g => (atexit h (Some g)).1) gs hs = hs ++ gs.
Proof.
  induction gs as [|g gs IH]; intros hs Hr; [by rewrite app_nil_r|]. cbn [fold_left atexit length] in *.
  destruct (Nat.leb_spec EXIT_HANDLERS (length hs)); [lia|]. cbn [fst]. rewrite IH by (rewrite length_app; cbn [length]; lia).
  by rewrite <- app_assoc.
Qed.

Lemma exit_ends fuel : forall hs ran, (total size hs < fuel)%nat -> exists l, exit_loop fuel hs ran = Some l.
Proof.
  induction fuel as [|n IH]; intros hs ran Hf; [lia|]. cbn [exit_loop]. destruct (rev hs) as [|f rest] eqn:E; [by eexists|].
  apply IH. assert (hs = rev rest ++ [f]) as -> by (rewrite <- (rev_involutive hs), E; done).
  pose proof (run_handler_total (registers f) (rev rest)). pose proof (Hsize f). rewrite total_app, total_cons, total_nil in Hf. unfold run_handler. lia.
Qed.

Lemma unwind_enough n : forall m f, (size f <= n)%nat -> (n <= m)%nat -> unwind m f = unwind n f.
Proof.
  induction n as [|n IH]; intros m f Hn Hm; [pose proof (size_pos f); lia|]. destruct m as [|m]; [lia|]. cbn [unwind]. f_equal. f_equal.
  apply map_ext_in. intros g Hg%in_rev. apply IH; [|lia]. pose proof (Hsize f).
  assert (size g <= total size (registers f))%nat; [|lia]. apply in_split in Hg as (l1 & l2 & ->). rewrite total_app, total_cons. lia.
Qed.

Lemma unwind_step n f : (size f <= n)%nat -> unwind n f = f :: concat (map (unwind n) (rev (registers f))).
Proof. intros Hn. rewrite <- (unwind_enough n (S n) f) by lia. done. Qed.

Lemma exit_order fuel : forall hs ran n, (total size hs < fuel)%nat -> (total size hs <= EXIT_HANDLERS)%nat -> (total size hs <= n)%nat ->
  exit_loop fuel hs ran = Some (ran ++ concat (map (unwind n) (rev hs))).
Proof.
  induction fuel as [|k IH]; intros hs ran n Hf Hr Hn; [lia|]. cbn [exit_loop]. destruct (rev hs) as [|f rest] eqn:E; [by rewrite app_nil_r|].
  assert (hs = rev rest ++ [f]) as -> by (rewrite <- (rev_involutive hs), E; done). clear E. rewrite total_app, total_cons, total_nil in *. pose proof (Hsize f).
  pose proof (length_total (rev rest)). pose proof (length_total (registers f)).
  unfold run_handler. rewrite run_handler_room by lia. rewrite (IH _ _ n) by (rewrite total_app; lia).
  rewrite <- app_assoc, rev_app_distr, rev_involutive, map_app, concat_app. cbn [map concat]. rewrite (unwind_step n f) by lia. done.
Qed.
End size.
End exit.

(** C26: [exit] runs every registered handler, the last registered first, and
    a handler registered while another runs next after it; then the table is
    empty and it goes on to [_exit].  It always ends when the handlers bring
    about finitely many more, also when some of their [atexit] calls are
    refused because the table of 32 is full. *)
Theorem exit_runs_handlers {F : Type} (registers : F -> list F) (size : F -> nat) (handlers : list F)
    (Hsize : forall f, (total size (registers f) < size f)%nat) :
  (forall fuel, (total size handlers < fuel)%nat -> exists ran, exit_loop registers fuel handlers [] = Some ran) /\
  ((total size handlers <= EXIT_HANDLERS)%nat -> forall fuel, (total size handlers < fuel)%nat ->
    exit_loop registers fuel handlers [] = Some (concat (map (unwind registers (total size handlers)) (rev handlers)))).
Proof.
  split; [intros fuel Hf; by eapply exit_ends|].
  intros Hr fuel Hf. by rewrite (exit_order registers size Hsize fuel handlers [] (total size handlers)).
Qed.

(** Handlers 1, 2 and 3, where 2 registers 10 and 11. *)
Lemma exit_runs_handlers_witness :
  let registers (f : Z) := if f =? 2 then [10; 11] else [] in
  exit_loop registers 10 [1; 2; 3] [] = Some [3; 2; 11; 10; 1].
Proof.
  intros registers. set (size := fun f : Z => if f =? 2 then 3%nat else 1%nat).
  assert (forall f, (total size (registers f) < size f)%nat) as Hsize.
  { intros f. unfold registers, size. destruct (f =? 2); cbn; lia. }
  refine (eq_trans (proj2 (exit_runs_handlers registers size [1; 2; 3] Hsize) _ 10%nat _) eq_refl); cbn; unfold EXIT_HANDLERS; lia.
Defined.

(** ** Pseudo-random numbers *)

Definition RAND_MAX : Z := 32767.
Definition rand (seed : Z) : Z * Z :=
  let seed := u32 (u32 (seed * 1103515245) + 12345) in (s32 ((seed / 65536) mod (RAND_MAX + 1)), seed).

Lemma rand_range seed : 0 <= (rand seed).1 <= RAND_MAX.
Proof.
  unfold rand. cbn [fst]. set (x := u32 _). pose proof (Z.mod_pos_bound (x / 65536) (RAND_MAX + 1) ltac:(unfold RAND_MAX; lia)) as Hm.
  unfold RAND_MAX in *. unfold s32. rewrite swrap_small by lia. lia.
Qed.

(** ** [execvp] *)

(** What an attempt to execute a path gives: the new program, or the error
    number with which [execve] returned. *)
Inductive execvp_result : Type :=
| Replaced (path : list Z)
| Failed (errno : Z).

Section execvp.
Context (execve_errno : list Z -> option Z).

Definition attempt (path : list Z) : execvp_result :=
  match execve_errno path with None => Replaced path | Some e => Failed e end.

(** The directory up to the next ':' and what is behind it. *)
Fixpoint until_colon (p : list Z) : list Z * list Z :=
  match p with
  | [] => ([], [])
  | c :: p => if c =? 58 then ([], p) else let '(d, rest) := until_colon p in (c :: d, rest)
  end.

(** The search; [err] is errno when no directory is left. *)
Fixpoint exec_search (fuel : nat) (file path_env : list Z) (err : Z) : option execvp_result :=
  match fuel with
  | O => None
  | S n =>
      match path_env with
      | [] => Some (Failed err)
      | _ :: tail =>
          let '(dir, rest) := until_colon path_env in
          if (length dir =? 0)%nat then exec_search n file tail err
          else if 256 <? Z.of_nat (length dir) + 1 + Z.of_nat (length file) + 1 then exec_search n file rest err
          else
            match attempt (dir ++ 47 :: file) with
            | Replaced path => Some (Replaced path)
            | Failed e => if negb (e =? ENOENT) then Some (Failed e) else exec_search n file rest e
            end
      end
  end.

(** "PATH" and "/bin" *)
Definition PATH : list Z := [80; 65; 84; 72].
Definition default_path : list Z := [47; 98; 105; 110].

(** [env]: the strings of the environment, in which [getenv] looks PATH up;
    [err]: the errno of before the call; the name is [None] for null. *)
Definition execvp (env : list (list Z)) (file : option (list Z)) (err : Z) : option execvp_result :=
  match file with
  | None => Some (Failed EFAULT)
  | Some file =>
      if bool_decide (47 ∈ file) then Some (attempt file)
      else
        let path_env := match entry_value env PATH with Some p => p | None => default_path end in
        exec_search (S (length path_env)) file path_env err
  end.

(** ** The paths that are tried *)

(** The fields of a list separated by colons. *)
Fixpoint fields (p : list Z) : list (list Z) :=
  match p with
  | [] => [[]]
  | c :: p =>
      if c =? 58 then [] :: fields p
      else match fields p with d :: ds => (c :: d) :: ds | [] => [[c]] end
  end.

Definition usable (file dir : list Z) : bool :=
  negb (bool_decide (dir = [])) && (Z.of_nat (length dir) + Z.of_nat (length file) + 2 <=? 256).

Definition candidates (file path : list Z) : list (list Z) :=
  map (fun dir => dir ++ 47 :: file) (List.filter (usable file) (fields path)).

(** The first candidate that exists decides. *)
Fixpoint first_existing (cs : list (list Z)) (err : Z) : execvp_result :=
  match cs with
  | [] => Failed err
  | c :: cs =>
      match attempt c with
      | Failed e => if e =? ENOENT then first_existing cs e else Failed e
      | r => r
      end
  end.

Lemma until_colon_fields p : let '(d, rest) := until_colon p in
  (length rest <= length p)%nat /\ (p <> [] -> (length rest < length p)%nat) /\
  (fields p = d :: fields rest \/ fields p = [d] /\ rest = []).
Proof.
  induction p as [|c p IH]; [cbn; split; [lia|]; split; [done|by right]|]. cbn [until_colon fields].
  destruct (c =? 58); [cbn [length]; split; [lia|]; split; [lia|by left]|]. destruct (until_colon p) as [d rest]. destruct IH as (H1 & H2 & H3).
  cbn [length]. split; [lia|]. split; [intros _; lia|]. destruct H3 as [-> |[-> ->]]; [by left|by right].
Qed.

Lemma candidates_nil file : candidates file [] = [].
Proof. reflexivity. Qed.

Lemma until_colon_nil p : (until_colon p).1 = [] -> p <> [] -> exists q, p = 58 :: q /\ (until_colon p).2 = q.
Proof.
  destruct p as [|c p]; [done|]. cbn [until_colon]. destruct (Z.eqb_spec c 58) as [->|]; [intros _ _; by exists p|].
  by destruct (until_colon p).
Qed.

Lemma exec_search_spec file fuel : forall p err, (length p < fuel)%nat ->
  exec_search fuel file p err = Some (first_existing (candidates file p) err).
Proof.
  induction fuel as [|n IH]; intros p err Hf; [lia|]. cbn [exec_search]. destruct p as [|c p]; [done|].
  pose proof (until_colon_fields (c :: p)) as Hu. pose proof (until_colon_nil (c :: p)) as Hn.
  destruct (until_colon (c :: p)) as [d rest]. cbn [fst snd] in Hn. destruct Hu as (H1 & H2 & H3). specialize (H2 ltac:(done)).
  assert (candidates file (c :: p) = if usable file d then (d ++ 47 :: file) :: candidates file rest else candidates file rest) as ->.
  { unfold candidates. destruct H3 as [-> |[-> ->]]; cbn [List.filter]; by destruct (usable file d). }
  unfold usable. destruct d as [|x d].
  - destruct (Hn eq_refl ltac:(done)) as (q & [= _ ->] & ->). rewrite bool_decide_eq_true_2 by done. cbn [negb andb length Nat.eqb].
    apply IH. cbn [length] in Hf. lia.
  - rewrite bool_decide_eq_false_2 by done. cbn [negb andb]. destruct (Nat.eqb_spec (length (x :: d)) 0) as [E|_]; [done|].
    destruct (Z.ltb_spec 256 (Z.of_nat (length (x :: d)) + 1 + Z.of_nat (length file) + 1)),
      (Z.leb_spec (Z.of_nat (length (x :: d)) + Z.of_nat (length file) + 2) 256); try lia.
    + apply IH. lia.
    + cbn [first_existing]. destruct (attempt _) as [path|e]; [done|]. destruct (e =? ENOENT); [apply IH; lia|done].
Qed.
End execvp.

(** C29: [execvp] runs the first program found: a name with a slash is executed
    as it is; another is looked up in the non-empty directories of PATH (or
    "/bin") in order, those whose path does not fit the buffer of 256 bytes
    left out.  Only ENOENT makes it go on; the first other error, or the last
    ENOENT, is the result; a null name is EFAULT; and the search ends for
    every PATH. *)
Theorem execvp_correct (exec : list Z -> option Z) (env : list (list Z)) file err :
  execvp exec env file err = Some
    match file with
    | None => Failed EFAULT
    | Some file =>
        if bool_decide (47 ∈ file) then attempt exec file
        else first_existing exec
          (candidates file (match entry_value env PATH with Some p => p | None => default_path end)) err
    end.
Proof. unfold execvp. destruct file as [file|]; [|done]. case_bool_decide; [done|]. apply exec_search_spec. lia. Qed.
