(* ===== verification/Getopt.v ===== *)
(** * Command-line options: [getopt] of [lib/libc_misc.c]

    The four globals and the static cursor are the state.  The cursor is a
    pointer into the argument being read: null, or the suffix still to read.
    [argv] is the list of the arguments, so [argc] is its length. *)

From S2P Require Import Prelude Ctype Regex.

Record getopt_state : Type := Getopt {
  optind : Z;
  g_getopt_pos : option (list Z);
  optarg : option (list Z);
  optopt : Z
}.

(** The initial values of the globals. *)
Definition getopt_initial : getopt_state := Getopt 1 None None 0.

(** [strchr]: the suffix that starts at the character. *)
Fixpoint strchr_from (s : list Z) (c : Z) : option (list Z) :=
  match s with
  | [] => None
  | d :: t => if d =? c then Some s else strchr_from t c
  end.

Section getopt.
Context (argv : list (list Z)) (optstring : list Z).

(** The part behind the cursor's initialisation. *)
Definition getopt_char (st : getopt_state) (pos : list Z) : Z * getopt_state :=
  let c := peek pos 0 in
  let pos := drop 1 pos in
  let at_end := bool_decide (pos = []) in
  match strchr_from optstring c with
  | Some spec =>
      if c =? 58 then (63, Getopt (if at_end then optind st + 1 else optind st) (Some pos) None c)
      else if peek spec 1 =? 58 then
        if negb at_end then (c, Getopt (optind st + 1) None (Some pos) c)
        else if optind st + 1 <? Z.of_nat (length argv) then
          (c, Getopt (optind st + 2) None (argv !! Z.to_nat (optind st + 1)) c)
        else ((if peek optstring 0 =? 58 then 58 else 63), Getopt (optind st + 1) (Some pos) None c)
      else if at_end then (c, Getopt (optind st + 1) None None c)
      else (c, Getopt (optind st) (Some pos) None c)
  | None => (63, Getopt (if at_end then optind st + 1 else optind st) (Some pos) None c)
  end.

Definition getopt (st : getopt_state) : Z * getopt_state :=
  let st := if optind st =? 0 then Getopt 1 None None (optopt st) else Getopt (optind st) (g_getopt_pos st) None (optopt st) in
  match g_getopt_pos st with
  | Some ((_ :: _) as pos) => getopt_char st pos
  | _ =>
      match argv !! Z.to_nat (optind st) with
      | None => (-1, st)
      | Some arg =>
          if negb (peek arg 0 =? 45) || (peek arg 1 =? 0) then (-1, st)
          else if (peek arg 1 =? 45) && (peek arg 2 =? 0) then (-1, Getopt (optind st + 1) (g_getopt_pos st) None (optopt st))
          else getopt_char st (drop 1 arg)
      end
  end.

(** [getopt_long] and [getopt_long_only] know no long options. *)
Definition getopt_long (st : getopt_state) : Z * getopt_state := getopt st.

(** The usual loop over it: each result with [optarg] and [optopt], and
    [optind] at the end. *)
Fixpoint options (fuel : nat) (st : getopt_state) : option (list (Z * option (list Z) * Z) * Z) :=
  match fuel with
  | O => None
  | S n =>
      let '(r, st) := getopt st in
      if r =? -1 then Some ([], optind st)
      else '(l, i) ← options n st; Some ((r, optarg st, optopt st) :: l, i)
  end.

(** ** The reference: a parser of the argument list *)

Inductive event : Type :=
| EFlag (c : Z)
| EArg (c : Z) (a : list Z)
| EUnknown (c : Z)
| EMissing (c : Z).

Inductive option_kind : Type := KFlag | KArg | KUnknown.

(** An option letter takes an argument when a colon follows its first
    occurrence in [optstring]; the colon itself is no option. *)
Definition kind (c : Z) : option_kind :=
  if c =? 58 then KUnknown
  else
    match strchr_from optstring c with
    | Some (_ :: 58 :: _) => KArg
    | Some _ => KFlag
    | None => KUnknown
    end.

(** A group of letters behind a dash, and the arguments behind it. *)
Fixpoint group (cs : list Z) (rest : list (list Z)) : list event * list (list Z) :=
  match cs with
  | [] => ([], rest)
  | c :: cs =>
      match kind c with
      | KUnknown => let '(es, rest) := group cs rest in (EUnknown c :: es, rest)
      | KFlag => let '(es, rest) := group cs rest in (EFlag c :: es, rest)
      | KArg =>
          match cs, rest with
          | _ :: _, _ => ([EArg c cs], rest)
          | [], a :: rest => ([EArg c a], rest)
          | [], [] => ([EMissing c], [])
          end
      end
  end.

Definition is_option (arg : list Z) : bool := match arg with 45 :: _ :: _ => true | _ => false end.

(** The events of an argument list and its operands. *)
Fixpoint parse (fuel : nat) (args : list (list Z)) : list event * list (list Z) :=
  match fuel, args with
  | S n, arg :: rest =>
      if bool_decide (arg = [45; 45]) then ([], rest)
      else if is_option arg then
        let '(es, rest) := group (drop 1 arg) rest in
        let '(es', operands) := parse n rest in (es ++ es', operands)
      else ([], args)
  | _, _ => ([], args)
  end.

(** How the caller of [getopt] sees an event. *)
Definition seen (e : event) : Z * option (list Z) * Z :=
  match e with
  | EFlag c => (c, None, c)
  | EArg c a => (c, Some a, c)
  | EUnknown c => (63, None, c)
  | EMissing c => ((if peek optstring 0 =? 58 then 58 else 63), None, c)
  end.

(** ** The loop and the reference agree *)

Definition between (st : getopt_state) : Prop :=
  0 < optind st /\ (g_getopt_pos st = None \/ g_getopt_pos st = Some []).

Definition remaining (st : getopt_state) : list (list Z) := drop (Z.to_nat (optind st)) argv.

(** The state inside a group. *)
Definition inside (st : getopt_state) (cs : list Z) (rest : list (list Z)) : Prop :=
  0 < optind st /\ optind st < Z.of_nat (length argv) /\ g_getopt_pos st = Some cs /\ drop (Z.to_nat (optind st + 1)) argv = rest.

Lemma strchr_from_head s c t : strchr_from s c = Some t -> exists u, t = c :: u.
Proof.
  induction s as [|d s IH]; [done|]. cbn [strchr_from]. destruct (Z.eqb_spec d c) as [->|]; [intros [= <-]; by exists s|done].
Qed.

Lemma kind_arg c spec : c <> 58 -> strchr_from optstring c = Some spec ->
  kind c = if peek spec 1 =? 58 then KArg else KFlag.
Proof.
  intros Hc E. unfold kind. destruct (Z.eqb_spec c 58); [done|]. rewrite E. destruct (strchr_from_head _ _ _ E) as [u ->].
  destruct u as [|d u]; [done|]. unfold peek. cbn [nth]. destruct (Z.eqb_spec d 58) as [->|Hd]; [done|].
  destruct d as [|d|d]; try done. do 7 (destruct d as [d|d|]; try done).
Qed.

(** What a call inside a group does, by the kind of the letter. *)
Lemma getopt_inside st c cs rest : inside st (c :: cs) rest -> 0 < c < 256 ->
  exists st', getopt st =
    match kind c with
    | KUnknown => (63, st')
    | KFlag => (c, st')
    | KArg => match cs, rest with [], [] => ((if peek optstring 0 =? 58 then 58 else 63), st') | _, _ => (c, st') end
    end /\ optopt st' = c /\
    match kind c, cs with
    | KArg, _ :: _ => between st' /\ remaining st' = rest /\ optarg st' = Some cs
    | KArg, [] => between st' /\ remaining st' = drop 1 rest /\ optarg st' = head rest
    | _, _ :: _ => inside st' cs rest /\ optarg st' = None
    | _, [] => between st' /\ remaining st' = rest /\ optarg st' = None
    end.
Proof.
  intros (H1 & H2 & H3 & H4) Hc. unfold getopt. destruct (Z.eqb_spec (optind st) 0); [lia|]. cbn [g_getopt_pos]. rewrite H3.
  unfold getopt_char. change (peek (c :: cs) 0) with c. change (drop 1 (c :: cs)) with cs. cbn [optind].
  assert (forall st', optind st' = optind st + 1 -> remaining st' = rest) as Hrem by (intros st' E; unfold remaining; by rewrite E).
  destruct (strchr_from optstring c) as [spec|] eqn:Es.
  - destruct (Z.eqb_spec c 58) as [->|H58].
    { change (kind 58) with KUnknown. eexists. split; [reflexivity|]. split; [done|]. destruct cs as [|d cs].
      - rewrite bool_decide_eq_true_2 by done. split; [split; [cbn; lia|by right]|]. split; [by apply Hrem|done].
      - rewrite bool_decide_eq_false_2 by done. done. }
    rewrite (kind_arg c spec H58 Es). destruct (peek spec 1 =? 58).
    + destruct cs as [|d cs].
      * rewrite bool_decide_eq_true_2 by done. cbn [negb]. destruct (Z.ltb_spec (optind st + 1) (Z.of_nat (length argv))) as [L|L].
        -- destruct (drop (Z.to_nat (optind st + 1)) argv) as [|a l] eqn:Ed.
           { assert (length (drop (Z.to_nat (optind st + 1)) argv) = 0%nat) as El by (by rewrite Ed). rewrite length_drop in El. lia. }
           subst rest. eexists. split; [reflexivity|]. split; [done|]. split; [split; [cbn; lia|by left]|]. split.
           ++ unfold remaining. cbn [optind]. replace (Z.to_nat (optind st + 2)) with (Z.to_nat (optind st + 1) + 1)%nat by lia.
              by rewrite <- drop_drop, Ed.
           ++ cbn [optarg head]. rewrite <- (Nat.add_0_r (Z.to_nat (optind st + 1))), <- lookup_drop, Ed. done.
        -- assert (rest = []) as -> by (rewrite <- H4; apply drop_ge; lia).
           eexists. split; [reflexivity|]. split; [done|]. split; [split; [cbn; lia|by right]|]. split; [by rewrite Hrem|done].
      * rewrite bool_decide_eq_false_2 by done. cbn [negb]. eexists. split; [reflexivity|]. split; [done|].
        split; [split; [cbn; lia|by left]|]. split; [by apply Hrem|done].
    + destruct cs as [|d cs].
      * rewrite bool_decide_eq_true_2 by done. eexists. split; [reflexivity|]. split; [done|]. split; [split; [cbn; lia|by left]|].
        split; [by apply Hrem|done].
      * rewrite bool_decide_eq_false_2 by done. eexists. split; [reflexivity|]. done.
  - assert (kind c = KUnknown) as -> by (unfold kind; rewrite Es; by destruct (c =? 58)).
    eexists. split; [reflexivity|]. split; [done|]. destruct cs as [|d cs].
    + rewrite bool_decide_eq_true_2 by done. split; [split; [cbn; lia|by right]|]. split; [by apply Hrem|done].
    + rewrite bool_decide_eq_false_2 by done. done.
Qed.

Definition is_string (a : list Z) : Prop := Forall (fun c => 0 < c < 256) a.

Lemma options_next n st r st' l i : getopt st = (r, st') -> r <> -1 -> options n st' = Some (l, i) ->
  options (S n) st = Some ((r, optarg st', optopt st') :: l, i).
Proof. intros E Hr Eo. cbn [options]. rewrite E. destruct (Z.eqb_spec r (-1)); [done|]. by rewrite Eo. Qed.

Lemma group_options cs : forall st rest, cs <> [] -> is_string cs -> inside st cs rest ->
  let '(es, rest') := group cs rest in
  exists st', between st' /\ remaining st' = rest' /\
    forall n l i, options n st' = Some (l, i) -> options (length es + n) st = Some (map seen es ++ l, i).
Proof.
  induction cs as [|c cs IH]; [done|]. intros st rest _ Hs Hi. inversion Hs as [|? ? Hc Hs']; subst.
  destruct (getopt_inside st c cs rest Hi Hc) as (st1 & E & Eo & Hst). cbn [group]. destruct (kind c) eqn:Ek.
  - destruct cs as [|d cs].
    + destruct Hst as (Hb & Hr & Ha). exists st1. split; [done|]. split; [done|]. intros n l i En.
      cbn [length map app Nat.add]. rewrite (options_next n st c st1 l i E) by (done || lia). by rewrite Ha, Eo.
    + destruct Hst as [Hi1 Ha]. specialize (IH st1 rest ltac:(done) Hs' Hi1). destruct (group (d :: cs) rest) as [es rest'].
      destruct IH as (st' & Hb & Hr & Hn). exists st'. split; [done|]. split; [done|]. intros n l i En.
      cbn [length map app Nat.add]. rewrite (options_next _ st c st1 _ _ E ltac:(lia) (Hn n l i En)). by rewrite Ha, Eo.
  - destruct cs as [|d cs]; [destruct rest as [|a rest]|]; destruct Hst as (Hb & Hr & Ha); exists st1; (split; [done|]; split; [done|]);
      intros n l i En; cbn [length map app Nat.add seen].
    + rewrite (options_next n st _ st1 l i E) by (try done; destruct (_ =? 58); lia). rewrite Ha, Eo. done.
    + rewrite (options_next n st c st1 l i E) by (done || lia). rewrite Ha, Eo. done.
    + rewrite (options_next n st c st1 l i E) by (done || lia). rewrite Ha, Eo. done.
  - destruct cs as [|d cs].
    + destruct Hst as (Hb & Hr & Ha). exists st1. split; [done|]. split; [done|]. intros n l i En.
      cbn [length map app Nat.add]. rewrite (options_next n st 63 st1 l i E) by (done || lia). by rewrite Ha, Eo.
    + destruct Hst as [Hi1 Ha]. specialize (IH st1 rest ltac:(done) Hs' Hi1). destruct (group (d :: cs) rest) as [es rest'].
      destruct IH as (st' & Hb & Hr & Hn). exists st'. split; [done|]. split; [done|]. intros n l i En.
      cbn [length map app Nat.add]. rewrite (options_next _ st 63 st1 _ _ E ltac:(lia) (Hn n l i En)). by rewrite Ha, Eo.
Qed.

(** A call between two arguments. *)
Lemma getopt_between st : between st ->
  match remaining st with
  | [] => exists st', getopt st = (-1, st') /\ optind st' = optind st
  | arg :: rest => is_string arg ->
      if bool_decide (arg = [45; 45]) then exists st', getopt st = (-1, st') /\ optind st' = optind st + 1
      else if is_option arg then
        getopt st = getopt (Getopt (optind st) (Some (drop 1 arg)) None (optopt st)) /\
        inside (Getopt (optind st) (Some (drop 1 arg)) None (optopt st)) (drop 1 arg) rest
      else exists st', getopt st = (-1, st') /\ optind st' = optind st
  end.
Proof.
  intros [Ho Hp]. unfold remaining, getopt. cbn [optind optopt g_getopt_pos]. assert ((optind st =? 0) = false) as -> by lia.
  cbn [g_getopt_pos optind optopt].
  set (k := Z.to_nat (optind st)). assert (argv !! k = head (drop k argv)) as Ek.
  { rewrite <- (Nat.add_0_r k) at 1. rewrite <- lookup_drop. by destruct (drop k argv). }
  destruct (drop k argv) as [|arg rest] eqn:Ed.
  - cbn [head] in Ek. destruct Hp as [-> | ->]; rewrite Ek; eexists; (split; [reflexivity|done]).
  - cbn [head] in Ek. intros Hs.
    assert (inside (Getopt (optind st) (Some (drop 1 arg)) None (optopt st)) (drop 1 arg) rest) as Hin.
    { split; [done|]. split; [apply lookup_lt_Some in Ek; cbn [optind]; lia|]. split; [done|]. cbn [optind].
      replace (Z.to_nat (optind st + 1)) with (k + 1)%nat by lia. rewrite <- drop_drop, Ed. done. }
    destruct arg as [|c0 [|c1 t]].
    + cbn [is_option]. rewrite bool_decide_eq_false_2 by done. destruct Hp as [-> | ->]; rewrite Ek; eexists; (split; [reflexivity|done]).
    + rewrite bool_decide_eq_false_2 by done. assert (is_option [c0] = false) as -> by (cbn; by repeat case_match).
      destruct Hp as [-> | ->]; rewrite Ek; (replace (peek [c0] 1) with 0 by done); rewrite orb_true_r; eexists; (split; reflexivity).
    + inversion Hs as [|? ? H0 Hs1]; subst. inversion Hs1 as [|? ? H1 Hs2]; subst.
      destruct (Z.eqb_spec c0 45) as [->|H45].
      * destruct (bool_decide_reflect (45 :: c1 :: t = [45; 45])) as [[= -> ->]|Hne].
        { destruct Hp as [-> | ->]; rewrite Ek; eexists; (split; [reflexivity|done]). }
        cbn [is_option]. split; [|exact Hin].
        assert ((c1 =? 0) = false) as E0 by (by destruct (Z.eqb_spec c1 0); [lia|]).
        assert ((c1 =? 45) && (peek t 0 =? 0) = false) as E1.
        { destruct (Z.eqb_spec c1 45) as [->|]; [|done]. destruct t as [|d t]; [done|]. cbn [andb].
          inversion Hs2; subst. change (peek (d :: t) 0) with d. by destruct (Z.eqb_spec d 0); [lia|]. }
        destruct Hp as [-> | ->]; rewrite Ek; (change (peek (45 :: c1 :: t) 0) with 45); (change (peek (45 :: c1 :: t) 1) with c1);
          (change (peek (45 :: c1 :: t) 2) with (peek t 0)); rewrite E0, E1; reflexivity.
      * rewrite bool_decide_eq_false_2 by congruence.
        assert (is_option (c0 :: c1 :: t) = false) as ->.
        { unfold is_option. destruct c0 as [|c0|c0]; try done. do 6 (destruct c0 as [c0|c0|]; try done). }
        destruct Hp as [-> | ->]; rewrite Ek; (change (peek (c0 :: c1 :: t) 0) with c0);
          (destruct (Z.eqb_spec c0 45); [done|eexists; split; reflexivity]).
Qed.

Lemma parse_options n : forall st, between st -> Forall is_string (remaining st) -> (length (remaining st) <= n)%nat ->
  let '(es, operands) := parse n (remaining st) in
  exists i, drop (Z.to_nat i) argv = operands /\ forall m, (length es < m)%nat -> options m st = Some (map seen es, i).
Proof.
  induction n as [|n IH]; intros st Hb Hs Hn; pose proof (getopt_between st Hb) as Hg;
    (destruct (remaining st) as [|arg rest] eqn:Er; [destruct Hg as (st' & E & Eo); exists (optind st); split; [exact Er|];
       intros [|m] Hm; [cbn in Hm; lia|]; cbn [options]; by rewrite E, Eo|]); [cbn in Hn; lia|].
  inversion Hs as [|? ? Hs1 Hs2]; subst. specialize (Hg Hs1). cbn [parse].
  assert (drop (Z.to_nat (optind st + 1)) argv = rest) as Erest.
  { destruct Hb as [Hb _]. replace (Z.to_nat (optind st + 1)) with (Z.to_nat (optind st) + 1)%nat by lia.
    rewrite <- drop_drop. unfold remaining in Er. by rewrite Er. }
  destruct (bool_decide (arg = [45; 45])).
  { destruct Hg as (st' & E & Eo). exists (optind st + 1). split; [exact Erest|].
    intros [|m] Hm; [cbn in Hm; lia|]. cbn [options]. by rewrite E, Eo. }
  destruct (is_option arg) eqn:Eopt.
  - destruct Hg as [E Hin]. destruct arg as [|c0 [|c1 t]]; [done|by cbn in Eopt; repeat case_match|].
    change (drop 1 (c0 :: c1 :: t)) with (c1 :: t) in *. inversion Hs1 as [|? ? _ Hs1']; subst c0.
    pose proof (group_options (c1 :: t) _ rest ltac:(done) ltac:(by inversion Hs1) Hin) as Hgo.
    assert (forall es r, group (c1 :: t) rest = (es, r) -> exists k, r = drop k rest) as Hsuf.
    { clear. generalize (c1 :: t). intros l. induction l as [|c l IHl]; intros es r; cbn [group]; [intros [= _ <-]; by exists 0%nat|].
      destruct (kind c); [destruct (group l rest); intros [= _ <-]; by eapply IHl| |destruct (group l rest); intros [= _ <-]; by eapply IHl].
      destruct l; [destruct rest as [|a rest]; intros [= _ <-]; [by exists 0%nat|by exists 1%nat]|intros [= _ <-]; by exists 0%nat]. }
    destruct (group (c1 :: t) rest) as [es rest'] eqn:Eg. destruct (Hsuf es rest' eq_refl) as [k ->].
    destruct Hgo as (st' & Hb' & Hr' & Hn'). specialize (IH st' Hb'). rewrite Hr' in IH.
    specialize (IH ltac:(by apply Forall_drop) ltac:(rewrite length_drop; cbn [length] in Hn; lia)).
    destruct (parse n (drop k rest)) as [es' operands]. destruct IH as (i & Hi & Ho). exists i. split; [exact Hi|].
    intros m Hm. rewrite length_app in Hm. specialize (Hn' (m - length es)%nat (map seen es') i (Ho (m - length es)%nat ltac:(lia))).
    replace (length es + (m - length es))%nat with m in Hn' by lia. rewrite map_app. rewrite <- Hn'.
    destruct m as [|m]; [lia|]. cbn [options]. by rewrite E.
  - destruct Hg as (st' & E & Eo). exists (optind st). split; [exact Er|]. intros [|m] Hm; [cbn in Hm; lia|]. cbn [options]. by rewrite E, Eo.
Qed.
End getopt.

(** C19: the loop over [getopt] is a parser of the argument list.  For every
    program name, arguments and option string, calling [getopt] from its
    initial state until it returns -1 ends after one call per event and one
    more; the results with [optarg] and [optopt] are the events of the
    reference parser (grouped flags, arguments in the same or the next word,
    unknown letters, a missing argument, "--"), and [optind] is left at the
    first operand. *)
Theorem getopt_equivalent (prog : list Z) (args : list (list Z)) optstring (Hs : Forall is_string args) :
  let argv := prog :: args in
  let '(events, operands) := parse optstring (length args) args in
  exists i, drop (Z.to_nat i) argv = operands /\
    forall fuel, (length events < fuel)%nat ->
      options argv optstring fuel getopt_initial = Some (map (seen optstring) events, i).
Proof. apply (parse_options (prog :: args) optstring (length args) getopt_initial); [split; [cbn; lia|by left]|done|done]. Qed.

(** "-ab" "-ofile" "-o" "x" "-?" "--" "y" with "abo:". *)
Lemma getopt_equivalent_witness :
  let args := [[45; 97; 98]; [45; 111; 102]; [45; 111]; [120]; [45; 63]; [45; 45]; [121]] in
  exists i, drop (Z.to_nat i) ([112] :: args) = [[121]] /\
    options ([112] :: args) [97; 98; 111; 58] 9 getopt_initial =
      Some ([(97, None, 97); (98, None, 98); (111, Some [102], 111); (111, Some [120], 111); (63, None, 63)], i).
Proof.
  intros args. assert (Forall is_string args) as Hs by (unfold args; repeat constructor).
  destruct (getopt_equivalent [112] args [97; 98; 111; 58] Hs) as (i & Hi & Ho). exists i. split; [exact Hi|].
  apply (Ho 9%nat). vm_compute. lia.
Defined.
