(* ===== verification/Inet.v ===== *)
(** * Internet addresses: the byte-order and dotted-quad functions of [lib/libc_misc.c]

    Addresses are 32-bit words in network byte order, as [in_addr] keeps
    them.  The functions call [strtoul] and [snprintf], so this component
    composes [Numbers] and [Printf]. *)

From S2P Require Import Prelude Ctype Regex Numbers Printf PrintfSpec PrintfCorrect PrintfClaims Scan ScanClaims.

(** [__builtin_bswap32] *)
Definition bswap32 (x : Z) : Z :=
  Z.lor (Z.lor (Z.shiftl (Z.land x 255) 24) (Z.shiftl (Z.land (Z.shiftr x 8) 255) 16))
        (Z.lor (Z.shiftl (Z.land (Z.shiftr x 16) 255) 8) (Z.land (Z.shiftr x 24) 255)).

Definition htons (x : Z) : Z := u16 (Z.lor (Z.shiftl x 8) (Z.shiftr x 8)).
Definition ntohs (x : Z) : Z := htons x.
Definition htonl (x : Z) : Z := bswap32 x.
Definition ntohl (x : Z) : Z := htonl x.

(** The loop of [inet_aton] with [k] parts to go; [None] is the result 0. *)
Fixpoint aton_parts (k : nat) (p : list Z) : option (list Z) :=
  match k with
  | O => Some []
  | S k =>
      match p with
      | [] => None
      | _ =>
          let '(v, stop, _) := strtoul p 10 in
          if (length stop =? length p)%nat || (255 <? v) then None
          else
            match k with
            | O => match stop with [] => Some [v] | _ => None end
            | _ =>
                match stop with
                | c :: p => if c =? 46 then parts ← aton_parts k p; Some (v :: parts) else None
                | [] => None
                end
            end
      end
  end.

(** The address stored, if the result is 1.  [None] and [false] are the null
    pointers, here and below. *)
Definition inet_aton (cp : option (list Z)) (inp : bool) : option Z :=
  match cp with
  | Some cp =>
      if negb inp then None
      else
        parts ← aton_parts 4 cp;
        Some (htonl (Z.lor (Z.lor (Z.lor (u32 (Z.shiftl (peek parts 0) 24)) (Z.shiftl (peek parts 1) 16)) (Z.shiftl (peek parts 2) 8)) (peek parts 3)))
  | None => None
  end.

(** "%u.%u.%u.%u" and its arguments. *)
Definition quad_format : list Z := [37; 117; 46; 37; 117; 46; 37; 117; 46; 37; 117].
Definition quad_args (a : Z) : list arg :=
  [VInt (Z.land (Z.shiftr a 24) 255); VInt (Z.land (Z.shiftr a 16) 255); VInt (Z.land (Z.shiftr a 8) 255); VInt (Z.land a 255)].

(** [inet_ntoa]: what is in its static buffer. *)
Definition inet_ntoa (s_addr : Z) : option (list Z) :=
  '(_, buf, _) ← vsnprintf true 16 quad_format (quad_args (ntohl s_addr)); Some buf.

Definition AF_INET : Z := 2.
Definition EINVAL : Z := 22.
Definition ENOSPC : Z := 28.
Definition EAFNOSUPPORT : Z := 97.

(** [inet_ntop]: the errno of a null result, if it is one, and the bytes that
    are stored in [dst]. *)
Definition inet_ntop (af : Z) (src : option Z) (dst : bool) (size : Z) : option (option Z * list Z) :=
  match src with
  | Some src =>
      if negb dst || (size =? 0) then Some (Some EINVAL, [])
      else if af =? AF_INET then
        '(n, buf, _) ← vsnprintf true size quad_format (quad_args (ntohl src));
        Some (if (n <? 0) || (size <=? u32 n) then Some ENOSPC else None, buf)
      else Some (Some EAFNOSUPPORT, [])
  | None => Some (Some EINVAL, [])
  end.

(** [inet_pton]: the errno of the result -1, or what [inet_aton] gives. *)
Definition inet_pton (af : Z) (src : option (list Z)) (dst : bool) : Z + option Z :=
  match src with
  | Some src =>
      if negb dst then inl EINVAL
      else if af =? AF_INET then inr (inet_aton (Some src) dst)
      else inl EAFNOSUPPORT
  | None => inl EINVAL
  end.

(** "localhost" *)
Definition localhost : list Z := [108; 111; 99; 97; 108; 104; 111; 115; 116].
Definition INADDR_LOOPBACK : Z := 0x7f000001.

(** [gethostbyname]: the address of the host; [None] for HOST_NOT_FOUND. *)
Definition gethostbyname (name : option (list Z)) : option Z :=
  match name with
  | Some name => if bool_decide (name = localhost) then Some (htonl INADDR_LOOPBACK) else inet_aton (Some name) true
  | None => None
  end.

(** ** Byte order *)

Lemma shiftr_land_255 x n : 0 <= n -> Z.land (Z.shiftr x n) 255 = (x / 2 ^ n) mod 256.
Proof. intros Hn. rewrite shiftr_div by done. change 255 with (2 ^ 8 - 1). by rewrite land_mask. Qed.

Lemma lor_bytes a b c d : 0 <= a < 256 -> 0 <= b < 256 -> 0 <= c < 256 -> 0 <= d < 256 ->
  Z.lor (Z.lor (Z.shiftl a 24) (Z.shiftl b 16)) (Z.lor (Z.shiftl c 8) d) = a * 2 ^ 24 + b * 2 ^ 16 + c * 2 ^ 8 + d.
Proof.
  intros Ha Hb Hc Hd. rewrite !shiftl_mul by lia. rewrite (lor_add_disjoint' d c 8) by lia.
  replace (a * 2 ^ 24) with (a * 2 ^ 8 * 2 ^ 16) by lia. rewrite <- (Z.shiftl_mul_pow2 (a * 2 ^ 8)), <- (Z.shiftl_mul_pow2 b) by lia.
  rewrite <- Z.shiftl_lor, Z.shiftl_mul_pow2 by lia. rewrite (lor_add_disjoint' b a 8) by lia.
  rewrite (lor_add_disjoint' (c * 2 ^ 8 + d) _ 16), ?shiftl_mul by lia. lia.
Qed.

Lemma bswap32_spec x : 0 <= x < 2 ^ 32 ->
  bswap32 x = (x mod 256) * 2 ^ 24 + (x / 2 ^ 8) mod 256 * 2 ^ 16 + (x / 2 ^ 16) mod 256 * 2 ^ 8 + (x / 2 ^ 24) mod 256.
Proof.
  intros Hx. unfold bswap32. rewrite !shiftr_land_255 by lia. change 255 with (2 ^ 8 - 1). rewrite land_mask by lia.
  change (2 ^ 8) with 256 at 1. apply lor_bytes; apply Z.mod_pos_bound; lia.
Qed.

Lemma bswap32_range x : 0 <= x < 2 ^ 32 -> 0 <= bswap32 x < 2 ^ 32.
Proof.
  intros Hx. rewrite bswap32_spec by done.
  pose proof (Z.mod_pos_bound x 256 ltac:(lia)). pose proof (Z.mod_pos_bound (x / 2 ^ 8) 256 ltac:(lia)).
  pose proof (Z.mod_pos_bound (x / 2 ^ 16) 256 ltac:(lia)). pose proof (Z.mod_pos_bound (x / 2 ^ 24) 256 ltac:(lia)). lia.
Qed.

(** A word is its four bytes. *)
Lemma word_bytes a b c d : 0 <= a < 256 -> 0 <= b < 256 -> 0 <= c < 256 -> 0 <= d < 256 ->
  let x := a * 2 ^ 24 + b * 2 ^ 16 + c * 2 ^ 8 + d in
  x mod 256 = d /\ (x / 2 ^ 8) mod 256 = c /\ (x / 2 ^ 16) mod 256 = b /\ (x / 2 ^ 24) mod 256 = a.
Proof. intros Ha Hb Hc Hd x. subst x. Z.to_euclidean_division_equations. lia. Qed.

Lemma bytes_word x : 0 <= x < 2 ^ 32 ->
  x = (x / 2 ^ 24) mod 256 * 2 ^ 24 + (x / 2 ^ 16) mod 256 * 2 ^ 16 + (x / 2 ^ 8) mod 256 * 2 ^ 8 + x mod 256.
Proof. intros Hx. Z.to_euclidean_division_equations. lia. Qed.

Lemma bswap32_involutive x : 0 <= x < 2 ^ 32 -> bswap32 (bswap32 x) = x.
Proof.
  intros Hx. pose proof (bswap32_range x Hx). rewrite (bswap32_spec (bswap32 x)) by done. rewrite (bswap32_spec x) by done.
  destruct (word_bytes (x mod 256) ((x / 2 ^ 8) mod 256) ((x / 2 ^ 16) mod 256) ((x / 2 ^ 24) mod 256)) as (-> & -> & -> & ->);
    try (apply Z.mod_pos_bound; lia). rewrite (bytes_word x Hx) at 5. lia.
Qed.

(** ** Dotted quads *)

(** The text of an address given by its four parts. *)
Definition quad_text (parts : list Z) : list Z :=
  numeral (peek parts 0) 10 false ++ 46 :: numeral (peek parts 1) 10 false ++
  46 :: numeral (peek parts 2) 10 false ++ 46 :: numeral (peek parts 3) 10 false.

Definition octet (v : Z) : Prop := 0 <= v < 256.

Lemma numeral_octet v : octet v -> (0 < length (numeral v 10 false) <= 3)%nat.
Proof.
  intros Hv. unfold octet in Hv. destruct (numeral_value v 10 false) as (vs & _ & _ & Hne); [lia|lia|].
  split; [destruct (numeral v 10 false); [done|cbn; lia]|]. apply (numeral_digits_length 10 false ltac:(lia) 64 v 3); lia.
Qed.

Lemma quad_formats a b c d : octet a -> octet b -> octet c -> octet d ->
  formats quad_format [VInt a; VInt b; VInt c; VInt d] (quad_text [a; b; c; d]).
Proof.
  unfold octet. intros Ha Hb Hc Hd. unfold quad_format, quad_text, peek. cbn [nth].
  assert (unsigned_conversion 117 10) as Hu by (by left).
  assert (forall v fmt ap t, 0 <= v < 256 -> formats fmt ap t -> formats (37 :: 117 :: fmt) (VInt v :: ap) (numeral v 10 false ++ t)) as Hone.
  { intros v fmt ap t Hv Ht. destruct (unsigned_directive 117 10 v fmt ap Hu ltac:(lia)) as (dir & Ed & Et).
    change (117 =? 88) with false in Et. rewrite <- Et. by eapply formats_directive. }
  apply Hone; [done|]. apply formats_char; [done|]. apply Hone; [done|]. apply formats_char; [done|].
  apply Hone; [done|]. apply formats_char; [done|]. rewrite <- (app_nil_r (numeral d 10 false)). apply Hone; [done|constructor].
Qed.

Lemma quad_length a b c d : octet a -> octet b -> octet c -> octet d -> (7 <= length (quad_text [a; b; c; d]) <= 15)%nat.
Proof.
  intros Ha%numeral_octet Hb%numeral_octet Hc%numeral_octet Hd%numeral_octet. unfold quad_text, peek. cbn [nth].
  rewrite !length_app. cbn [length]. rewrite !length_app. cbn [length]. rewrite !length_app. cbn [length]. lia.
Qed.

(** One part: the digits up to what stops them. *)
Lemma strtoul_part v rest : octet v -> stops 10 rest ->
  strtoul (numeral v 10 false ++ rest) 10 = (v, rest, false).
Proof.
  intros Hv Hs. unfold octet in Hv. destruct (numeral_value v 10 false) as (vs & Hd & Ev & Hne); [lia|lia|].
  pose proof (strtoul_reads 10 [] (numeral v 10 false) vs rest ltac:(lia) ltac:(constructor) Hd Hne Hs ltac:(lia)) as E.
  cbn [app] in E. rewrite E, Ev. f_equal. f_equal. apply Z.mod_small. lia.
Qed.

Lemma aton_part k v p : octet v -> aton_parts (S (S k)) (numeral v 10 false ++ 46 :: p) = parts ← aton_parts (S k) p; Some (v :: parts).
Proof.
  intros Hv. pose proof (numeral_octet v Hv) as Hl. pose proof (strtoul_part v (46 :: p) Hv ltac:(cbn; lia)) as E.
  cbn [aton_parts]. destruct (numeral v 10 false ++ 46 :: p) as [|x l] eqn:El; [by destruct (numeral v 10 false)|].
  rewrite E. assert (length (x :: l) = length (numeral v 10 false) + S (length p))%nat as Elen by (rewrite <- El, length_app; done).
  destruct (Nat.eqb_spec (length (46 :: p)) (length (x :: l))) as [E1|_]; [rewrite Elen in E1; cbn [length] in E1; lia|].
  unfold octet in Hv. destruct (Z.ltb_spec 255 v); [lia|]. reflexivity.
Qed.

Lemma aton_last v : octet v -> aton_parts 1 (numeral v 10 false) = Some [v].
Proof.
  intros Hv. pose proof (numeral_octet v Hv) as Hl. pose proof (strtoul_part v [] Hv I) as E. rewrite app_nil_r in E.
  cbn [aton_parts]. destruct (numeral v 10 false) as [|x l] eqn:El; [cbn in Hl; lia|]. rewrite E. cbn [length Nat.eqb orb].
  unfold octet in Hv. destruct (Z.ltb_spec 255 v); [lia|]. reflexivity.
Qed.

Lemma aton_quad a b c d : octet a -> octet b -> octet c -> octet d -> aton_parts 4 (quad_text [a; b; c; d]) = Some [a; b; c; d].
Proof.
  intros Ha Hb Hc Hd. unfold quad_text, peek. cbn [nth]. rewrite aton_part by done. rewrite aton_part by done. rewrite aton_part by done.
  by rewrite aton_last.
Qed.

(** The parts of an address in network byte order. *)
Definition parts_of (s_addr : Z) : list Z :=
  [s_addr mod 256; (s_addr / 2 ^ 8) mod 256; (s_addr / 2 ^ 16) mod 256; (s_addr / 2 ^ 24) mod 256].

Lemma quad_args_parts s : 0 <= s < 2 ^ 32 -> quad_args (ntohl s) = map VInt (parts_of s).
Proof.
  intros Hs. unfold quad_args, parts_of, ntohl, htonl. rewrite !shiftr_land_255 by lia. change 255 with (2 ^ 8 - 1). rewrite land_mask by lia.
  change (2 ^ 8) with 256 at 2. rewrite bswap32_spec by done.
  destruct (word_bytes (s mod 256) ((s / 2 ^ 8) mod 256) ((s / 2 ^ 16) mod 256) ((s / 2 ^ 24) mod 256)) as (-> & -> & -> & ->);
    try (apply Z.mod_pos_bound; lia). done.
Qed.

Lemma quad_word a b c d : octet a -> octet b -> octet c -> octet d ->
  Z.lor (Z.lor (Z.lor (u32 (Z.shiftl a 24)) (Z.shiftl b 16)) (Z.shiftl c 8)) d = a * 2 ^ 24 + b * 2 ^ 16 + c * 2 ^ 8 + d.
Proof.
  unfold octet. intros Ha Hb Hc Hd. rewrite u32_small by (rewrite shiftl_mul by lia; lia). rewrite <- (Z.lor_assoc _ (Z.shiftl c 8) d). by apply lor_bytes.
Qed.

Lemma parts_octets s : Forall octet (parts_of s).
Proof. repeat constructor; apply Z.mod_pos_bound; lia. Qed.

Lemma aton_parts_of s : 0 <= s < 2 ^ 32 -> inet_aton (Some (quad_text (parts_of s))) true = Some s.
Proof.
  intros Hs. pose proof (parts_octets s) as Ho. unfold inet_aton, parts_of in *. cbn [negb].
  inversion Ho as [|? ? Ha Ho1]; subst. inversion Ho1 as [|? ? Hb Ho2]; subst. inversion Ho2 as [|? ? Hc Ho3]; subst. inversion Ho3 as [|? ? Hd _]; subst.
  rewrite aton_quad by done. cbn [mbind option_bind]. unfold peek. cbn [nth]. rewrite quad_word by done. f_equal. unfold htonl.
  rewrite <- (bswap32_involutive s Hs) at 5. f_equal. by rewrite bswap32_spec.
Qed.

(** C25: [inet_ntoa], [inet_ntop], [inet_aton] and [inet_pton] are inverse on
    every address.  The text is the four bytes in memory order, in decimal,
    with dots; it fits the 16-byte buffer; [inet_ntop] gives it for every
    size that holds it with its NUL, and ENOSPC with the cut text in the
    buffer for every smaller one; and the two parsers read it back to the
    same 32-bit word.  Null pointers, a size of 0 and other address families
    have their errors. *)
Theorem inet_roundtrip s (Hs : 0 <= s < 2 ^ 32) :
  let t := quad_text (parts_of s) in
  (7 <= length t <= 15)%nat /\ inet_ntoa s = Some (t ++ [0]) /\
  (forall size, 0 < size < 2 ^ 32 ->
    inet_ntop AF_INET (Some s) true size =
      Some (if Z.of_nat (length t) <? size then (None, t ++ [0]) else (Some ENOSPC, take (Z.to_nat (size - 1)) t ++ [0]))) /\
  inet_aton (Some t) true = Some s /\ inet_pton AF_INET (Some t) true = inr (Some s) /\ htonl (ntohl s) = s /\
  (forall af src dst size, src = None \/ dst = false \/ size = 0 -> inet_ntop af src dst size = Some (Some EINVAL, [])) /\
  (forall af src dst, src = None \/ dst = false -> inet_pton af src dst = inl EINVAL) /\
  (forall af size, af <> AF_INET -> 0 < size ->
    inet_ntop af (Some s) true size = Some (Some EAFNOSUPPORT, []) /\ inet_pton af (Some t) true = inl EAFNOSUPPORT).
Proof.
  pose proof (parts_octets s) as Ho. unfold parts_of in Ho.
  inversion Ho as [|? ? Ha Ho1]; subst. inversion Ho1 as [|? ? Hb Ho2]; subst. inversion Ho2 as [|? ? Hc Ho3]; subst. inversion Ho3 as [|? ? Hd _]; subst.
  pose proof (quad_length _ _ _ _ Ha Hb Hc Hd) as Hl. pose proof (quad_formats _ _ _ _ Ha Hb Hc Hd) as Hf. fold (parts_of s) in Hl, Hf.
  change [VInt (s mod 256); VInt ((s / 2 ^ 8) mod 256); VInt ((s / 2 ^ 16) mod 256); VInt ((s / 2 ^ 24) mod 256)] with (map VInt (parts_of s)) in Hf.
  intros t. fold t in Hl, Hf. assert (int_length t) as Hi by (unfold int_length; lia). split; [exact Hl|].
  split; [|split; [|split; [|split; [|split; [|split; [|split]]]]]].
  - unfold inet_ntoa. rewrite quad_args_parts, (vsnprintf_text true 16 _ _ t Hf) by (done || lia). cbn [mbind option_bind].
    change (negb (16 =? 0)) with true. cbn [andb]. by rewrite take_ge by lia.
  - intros size Hz. unfold inet_ntop. destruct (Z.eqb_spec size 0); [lia|]. change (AF_INET =? AF_INET) with true. cbn [negb orb].
    rewrite quad_args_parts, (vsnprintf_text true size _ _ t Hf) by (done || lia). cbn [mbind option_bind].
    destruct (Z.ltb_spec (Z.of_nat (length t)) 0); [lia|]. cbn [orb]. rewrite u32_small by lia.
    destruct (Z.eqb_spec size 0); [lia|]. cbn [andb negb]. destruct (Z.ltb_spec (Z.of_nat (length t)) size), (Z.leb_spec size (Z.of_nat (length t))); try lia; [|done].
    by rewrite take_ge by lia.
  - by apply aton_parts_of.
  - unfold inet_pton. change (AF_INET =? AF_INET) with true. cbn [negb]. unfold t. by rewrite aton_parts_of.
  - by apply bswap32_involutive.
  - intros af [src|] dst size [H|[H|H]]; try done; subst; unfold inet_ntop; by rewrite ?orb_true_r.
  - by intros af [src|] dst [H|H]; subst.
  - intros af size Haf Hz. unfold inet_ntop, inet_pton. destruct (Z.eqb_spec size 0), (Z.eqb_spec af AF_INET); done || lia.
Qed.

(** 127.0.0.1 *)
Lemma inet_roundtrip_witness : inet_ntoa 0x0100007f = Some [49; 50; 55; 46; 48; 46; 48; 46; 49; 0].
Proof. exact (proj1 (proj2 (inet_roundtrip 0x0100007f ltac:(lia)))). Defined.

(** Where [inet_aton] leaves the dotted quad: white space in front of a part,
    and parts that wrap modulo 2^32. *)
Theorem inet_aton_departures :
  inet_aton (Some [32; 49; 46; 9; 50; 46; 51; 46; 52]) true = inet_aton (Some [49; 46; 50; 46; 51; 46; 52]) true /\
  inet_aton (Some [52; 50; 57; 52; 57; 54; 55; 50; 57; 55; 46; 50; 46; 51; 46; 52]) true = inet_aton (Some [49; 46; 50; 46; 51; 46; 52]) true.
Proof. split; reflexivity. Qed.
