(* ===== verification/Terminal.v ===== *)
(** * Standard streams: the rest of [lib/libc_stdio.c] and [strerror]

    The functions over [stdin], [stdout] and [stderr], the other names of the
    stream functions, and [perror].  [literal] gives the address of a string
    literal of the library. *)

From Stdlib Require Import String Ascii.
From stdpp Require Import strings.
From S2P Require Import Prelude Heap Regex RegexVM Printf PrintfSpec PrintfCorrect PrintfClaims Syscall CString CStringCopy Stream StreamSpec StreamWrite.
#[local] Open Scope call_scope.

Definition stdin : option FILE := Some (File 0 0 0 (-1)).
Definition stdout : option FILE := Some (File 1 0 0 (-1)).
Definition stderr : option FILE := Some (File 2 0 0 (-1)).

Definition ENOSYS : Z := 38.

Definition strerror (errnum : Z) : list Z :=
  RegexVM.bytes
    (if errnum =? ENOENT then "No such file"%string
     else if errnum =? EINVAL then "Invalid argument"%string
     else if errnum =? EBADF then "Bad file descriptor"%string
     else if errnum =? ENOSYS then "Function not implemented"%string
     else "Error"%string).

Definition fileno (stream : option FILE) : Z := file_fd stream.
Definition fileno_unlocked (stream : option FILE) : Z := fileno stream.
Definition feof_unlocked (stream : option FILE) : Z := feof stream.
Definition ferror_unlocked (stream : option FILE) : Z := ferror stream.
Definition fflush (stream : option FILE) : Z := 0.
Definition setbuf (stream : option FILE) (buf : Z) : option FILE := stream.
Definition setvbuf (stream : option FILE) (buf mode size : Z) : Z := 0.

Section stdio.
Context {K : Type} `{Kernel K}.
Context (frame : Z) (fuel : nat) (literal : list Z -> Z).

(** Calls that can run out of fuel, one after the other. *)
Definition andthen {A B} (x : M K (option A)) (f : A -> M K (option B)) : M K (option B) :=
  bind x (fun r => match r with Some a => f a | None => ret None end).

Definition fputs_unlocked (s : Z) (stream : option FILE) : M K (option Z) := fputs fuel s stream.

Definition puts (s : Z) : M K (option Z) :=
  andthen (fputs fuel s stdout) (fun r => if r =? EOF then ret (Some EOF) else fputs fuel (literal [10]) stdout).

Definition putc (c : Z) (stream : option FILE) : M K Z := fputc frame c stream.
Definition putc_unlocked (c : Z) (stream : option FILE) : M K Z := fputc frame c stream.
Definition putchar (c : Z) : M K Z := fputc frame c stdout.
Definition putchar_unlocked (c : Z) : M K Z := fputc frame c stdout.
Definition getc (stream : option FILE) : M K (Z * option FILE) := fgetc frame stream.
Definition getc_unlocked (stream : option FILE) : M K (Z * option FILE) := fgetc frame stream.
Definition getchar (input : option FILE) : M K (Z * option FILE) := fgetc frame input.
Definition getchar_unlocked (input : option FILE) : M K (Z * option FILE) := getchar input.
Definition fgets_unlocked (s size : Z) (stream : option FILE) : M K Z := fgets frame s size stream.

Definition snprintf (str : bool) (size : Z) (fmt : list Z) (ap : list arg) : option (Z * list Z * list (Z * Z)) := vsnprintf str size fmt ap.
Definition fprintf (stream : option FILE) (fmt : list Z) (ap : list arg) : M K (option Z) := vfprintf frame stream fmt ap.
Definition printf (fmt : list Z) (ap : list arg) : M K (option Z) := vfprintf frame stdout fmt ap.

(** [dprintf] is [vfprintf] with the descriptor for the stream. *)
Definition dprintf (fd : Z) (fmt : list Z) (ap : list arg) : M K (option Z) := fun p =>
  match vsnprintf true 512 fmt ap with
  | None => (None, p)
  | Some (n, buf, _) =>
      let m := overlay (p_mem p) frame buf in
      let p := Proc (p_kernel p) m (errno p) (libsys_errno p) in
      match strlen 512 m frame with
      | None => (None, p)
      | Some len => (let* _ := write fd frame len in ret (Some n)) p
      end
  end.

(** The error number is looked at when its message is due: after the first
    two strings were written. *)
Definition perror (s : Z) : M K (option unit) :=
  andthen
    (if truthy s then andthen (fputs fuel s stderr) (fun _ => fputs fuel (literal (RegexVM.bytes ": "%string)) stderr) else ret (Some 0))
    (fun _ =>
      andthen (fun p => fputs fuel (literal (strerror (errno p))) stderr p)
        (fun _ => andthen (fputs fuel (literal [10]) stderr) (fun _ => ret (Some tt)))).

Definition openlog : M K unit := ret tt.
Definition closelog : M K unit := ret tt.
Definition vsyslog (priority : Z) (format : list Z) (ap : list arg) : M K (option unit) :=
  andthen (vfprintf frame stderr format ap) (fun _ => let* _ := fputc frame 10 stderr in ret (Some tt)).
Definition syslog (priority : Z) (format : list Z) (ap : list arg) : M K (option unit) := vsyslog priority format ap.
End stdio.

(** ** A terminal *)

(** What is written to descriptor 1 or 2 appears there, all of it. *)
Class TerminalKernel (K : Type) `{Kernel K} : Type := {
  console : K -> Z -> list Z;
  terminal_law k m fd buf len : fd = 1 \/ fd = 2 -> 0 <= buf -> 0 <= len < 2 ^ 31 -> buf + len <= 2 ^ 32 -> exists k' e,
    trap k m (abi_call LAMP_SYS_WRITE [fd; buf; len; 0; 0; 0]) = (k', m, len, e) /\
    forall fd', console k' fd' = if fd' =? fd then console k fd ++ load m buf (Z.to_nat len) else console k fd'
}.

Section terminal.
Context {K : Type} `{TerminalKernel K}.
Context (frame : Z) (fuel : nat) (literal : list Z -> Z).

(** [p'] is [p] after [text] was written to [fd]. *)
Record shown (p p' : process K) (fd : Z) (text : list Z) : Prop := Shown {
  shown_console fd' : console (p_kernel p') fd' = if fd' =? fd then console (p_kernel p) fd ++ text else console (p_kernel p) fd';
  shown_memory : p_mem p' = p_mem p;
  shown_errno : errno p' = 0
}.

Lemma shown_trans p q r fd s t : shown p q fd s -> shown q r fd t -> shown p r fd (s ++ t).
Proof.
  intros [C1 M1 E1] [C2 M2 E2]. split; [|congruence|done]. intros fd'. rewrite C2. destruct (Z.eqb_spec fd' fd) as [->|].
  - by rewrite C1, Z.eqb_refl, app_assoc.
  - rewrite C1. by destruct (Z.eqb_spec fd' fd).
Qed.

Lemma write_shown p fd buf len : fd = 1 \/ fd = 2 -> 0 <= buf < 2 ^ 32 -> 0 <= len < 2 ^ 31 -> buf + len <= 2 ^ 32 ->
  exists p', write fd buf len p = (len, p') /\ shown p p' fd (load (p_mem p) buf (Z.to_nat len)).
Proof.
  intros Hfd Hb Hl Hr. destruct (terminal_law (p_kernel p) (p_mem p) fd buf len Hfd ltac:(lia) Hl Hr) as (k' & e & E & Hc).
  unfold write, ret_errno, libsys_write, bind at 1, libsys_call6. rewrite (u32_small fd), (u32_small buf), (u32_small len), !(u32_small 0), E by lia.
  assert (s32 len = len) as Es by (apply (swrap_small 32); lia). rewrite Es. destruct (Z.ltb_spec len 0); [lia|].
  eexists. split; [reflexivity|]. by split.
Qed.

(** A string in memory, with room for the calls. *)
Definition string_at (m : memory) (s : Z) (t : list Z) : Prop :=
  cstring m s t /\ (length t < fuel)%nat /\ Z.of_nat (length t) < 2 ^ 31 /\ 0 < s < 2 ^ 32 /\ s + Z.of_nat (length t) <= 2 ^ 32.

Lemma fputs_shown p fd stream s t : file_fd stream = fd -> fd = 1 \/ fd = 2 -> string_at (p_mem p) s t ->
  exists p', fputs fuel s stream p = (Some 0, p') /\ shown p p' fd t.
Proof.
  intros Ef Hfd (Hs & Hfuel & Hl & Hr & Hb). unfold fputs. rewrite (strlen_spec fuel _ s t Hs) by lia.
  destruct (write_shown p fd s (Z.of_nat (length t)) Hfd) as (p' & E & Hp'); [lia..|]. rewrite Nat2Z.id in Hp'.
  rewrite (cstring_load (p_mem p) s t Hs) in Hp'. exists p'. split; [|exact Hp'].
  unfold bind. rewrite Ef, E. destruct (Z.ltb_spec (Z.of_nat (length t)) 0); [lia|done].
Qed.

Lemma andthen_ok {A B} (x : M K (option A)) (f : A -> M K (option B)) p a p' : x p = (Some a, p') -> andthen x f p = f a p'.
Proof. intros E. unfold andthen, bind. by rewrite E. Qed.

(** [printf]: the first 511 characters appear. *)
Lemma printf_shown p fmt ap t : formats fmt ap t -> int_length t -> Forall (fun b => 0 < b < 256) t -> 0 < frame -> frame + 512 <= 2 ^ 32 ->
  exists p', printf frame fmt ap p = (Some (Z.of_nat (length t)), p') /\
    (forall fd, console (p_kernel p') fd = if fd =? 1 then console (p_kernel p) 1 ++ take 511 t else console (p_kernel p) fd).
Proof.
  intros Hf Hi Ht Hfr Hfe. unfold printf, vfprintf. rewrite (vsnprintf_text true 512 fmt ap t Hf) by (done || lia).
  change (true && negb (512 =? 0)) with true. cbn iota. change (Z.to_nat (512 - 1)) with 511%nat. set (u := take 511 t).
  assert (length u <= 511)%nat as Hu by (unfold u; rewrite length_take; lia).
  set (m := overlay (p_mem p) frame (u ++ [0])). set (q := Proc (p_kernel p) m _ _).
  assert (cstring m frame u) as Hs by (apply cstring_overlay; by apply Forall_take).
  rewrite (strlen_spec 512 m frame u Hs) by lia.
  destruct (write_shown q 1 frame (Z.of_nat (length u))) as (p' & E & Hp'); [by left|lia..|].
  exists p'. split; [unfold bind; cbn [file_fd stdout f_fd]; by rewrite E|].
  intros fd. rewrite (shown_console _ _ _ _ Hp'), Nat2Z.id. cbn [q p_kernel p_mem]. by rewrite (cstring_load m frame u Hs).
Qed.

Lemma putchar_shown p c : 0 <= frame -> frame < 2 ^ 32 ->
  exists p', putchar frame c p = (c, p') /\
    (forall fd, console (p_kernel p') fd = if fd =? 1 then console (p_kernel p) 1 ++ [u8 c] else console (p_kernel p) fd).
Proof.
  intros Hf0 Hf1. unfold putchar, fputc. unfold bind at 1, store8 at 1. set (q := Proc _ _ _ _).
  destruct (write_shown q 1 frame 1) as (p' & E & Hp'); [by left|lia..|]. exists p'. split; [unfold bind; cbn [file_fd stdout f_fd]; by rewrite E|].
  intros fd. rewrite (shown_console _ _ _ _ Hp'). change (load (p_mem q) frame (Z.to_nat 1)) with [p_mem q (frame + 0)].
  cbn [q p_mem p_kernel]. rewrite Z.add_0_r. unfold wr8. rewrite Z.eqb_refl. unfold u8. by rewrite Zmod_mod.
Qed.

(** The literals the functions below print. *)
Definition literals_ok (m : memory) : Prop :=
  string_at m (literal [10]) [10] /\ string_at m (literal (RegexVM.bytes ": "%string)) (RegexVM.bytes ": "%string) /\
  forall e, string_at m (literal (strerror e)) (strerror e).

Lemma puts_shown p s t : literals_ok (p_mem p) -> string_at (p_mem p) s t ->
  exists p', puts fuel literal s p = (Some 0, p') /\ shown p p' 1 (t ++ [10]).
Proof.
  intros (Hnl & _) Hs. destruct (fputs_shown p 1 stdout s t eq_refl (or_introl eq_refl) Hs) as (q & E & Hq).
  rewrite <- (shown_memory _ _ _ _ Hq) in Hnl.
  destruct (fputs_shown q 1 stdout _ _ eq_refl (or_introl eq_refl) Hnl) as (r & E' & Hr).
  exists r. split; [|by eapply shown_trans]. unfold puts. rewrite (andthen_ok _ _ _ _ _ E). change (0 =? EOF) with false. exact E'.
Qed.

(** What [perror] says of the error number it looks at. *)
Lemma perror_tail p : literals_ok (p_mem p) ->
  exists p', andthen (fun p => fputs fuel (literal (strerror (errno p))) stderr p)
      (fun _ => andthen (fputs fuel (literal [10]) stderr) (fun _ => ret (Some tt))) p = (Some tt, p') /\
    shown p p' 2 (strerror (errno p) ++ [10]).
Proof.
  intros (Hnl & _ & He). destruct (fputs_shown p 2 stderr _ _ eq_refl (or_intror eq_refl) (He (errno p))) as (q & E & Hq).
  rewrite <- (shown_memory _ _ _ _ Hq) in Hnl.
  destruct (fputs_shown q 2 stderr _ _ eq_refl (or_intror eq_refl) Hnl) as (r & E' & Hr).
  exists r. split; [|by eapply shown_trans]. etrans; [exact (andthen_ok (fun p => fputs fuel (literal (strerror (errno p))) stderr p) _ p 0 q E)|]. by rewrite (andthen_ok _ _ _ _ _ E').
Qed.

Lemma perror_shown p s t : literals_ok (p_mem p) -> s = 0 \/ string_at (p_mem p) s t ->
  exists p', perror fuel literal s p = (Some tt, p') /\
    shown p p' 2 (if truthy s then t ++ RegexVM.bytes ": Error"%string ++ [10] else strerror (errno p) ++ [10]).
Proof.
  intros HL Hs. unfold perror. destruct (Z.eqb_spec s 0) as [->|Hne].
  - destruct (perror_tail p HL) as (p' & E & Hp'). exists p'. split; [|exact Hp'].
    by rewrite (andthen_ok (ret (Some 0)) _ p 0 p eq_refl).
  - destruct Hs as [|Hs]; [done|]. unfold truthy. destruct (Z.eqb_spec s 0); [done|]. cbn [negb].
    destruct (fputs_shown p 2 stderr s t eq_refl (or_intror eq_refl) Hs) as (q & E & Hq).
    destruct HL as (Hnl & Hcolon & He). rewrite <- (shown_memory _ _ _ _ Hq) in Hnl, Hcolon, He.
    destruct (fputs_shown q 2 stderr _ _ eq_refl (or_intror eq_refl) Hcolon) as (r & E2 & Hr).
    rewrite <- (shown_memory _ _ _ _ Hr) in Hnl, Hcolon, He.
    destruct (perror_tail r (conj Hnl (conj Hcolon He))) as (p' & E3 & Hp').
    rewrite (shown_errno _ _ _ _ Hr) in Hp'. change (strerror 0) with (RegexVM.bytes "Error"%string) in Hp'.
    exists p'. split; [|apply (shown_trans p q p' 2 t _ Hq); exact (shown_trans q r p' 2 _ _ Hr Hp')].
    rewrite (andthen_ok _ _ p 0 r); [exact E3|]. by rewrite (andthen_ok _ _ p 0 q E).
Qed.
End terminal.

(** C31: what a program sees of the standard streams on a terminal.  [puts]
    shows its string and a newline and returns 0; [putchar] shows the
    character it returns, as a byte; [printf] returns the length of its text
    and shows the first 511 characters of it.  [perror] with a message shows
    the message and always ": Error", whatever went wrong: its first writes
    reset errno.  Only without a message does it name the error. *)
Theorem terminal_output {K : Type} `{TerminalKernel K} frame fuel literal (p : process K) s t fmt ap u c
    (Hframe : 0 < frame /\ frame + 512 <= 2 ^ 32) (Hlit : literals_ok fuel literal (p_mem p)) (Hs : string_at fuel (p_mem p) s t)
    (Hu : formats fmt ap u) (Hlen : Z.of_nat (length u) < 2 ^ 31) (Hbytes : Forall (fun b => 0 < b < 256) u) :
  let appears f r fd text := exists p', f p = (r, p') /\
    forall fd', console (p_kernel p') fd' = if fd' =? fd then console (p_kernel p) fd ++ text else console (p_kernel p) fd' in
  appears (puts fuel literal s) (Some 0) 1 (t ++ [10]) /\
  (exists p', putchar frame c p = (c, p') /\ console (p_kernel p') 1 = console (p_kernel p) 1 ++ [u8 c]) /\
  appears (printf frame fmt ap) (Some (Z.of_nat (length u))) 1 (take 511 u) /\
  (exists p', perror fuel literal s p = (Some tt, p') /\ console (p_kernel p') 2 = console (p_kernel p) 2 ++ t ++ RegexVM.bytes ": Error"%string ++ [10]) /\
  (exists p', perror fuel literal 0 p = (Some tt, p') /\ console (p_kernel p') 2 = console (p_kernel p) 2 ++ strerror (errno p) ++ [10]).
Proof.
  intros appears. destruct Hframe as [Hf0 Hf1]. split; [|split; [|split; [|split]]].
  - destruct (puts_shown fuel literal p s t Hlit Hs) as (p' & E & Hp'). exists p'. split; [exact E|apply Hp'].
  - destruct (putchar_shown frame p c) as (p' & E & Hp'); [lia..|]. exists p'. split; [exact E|apply (Hp' 1)].
  - destruct (printf_shown frame p fmt ap u Hu Hlen Hbytes Hf0 Hf1) as (p' & E & Hp'). exists p'. split; [exact E|exact Hp'].
  - destruct (perror_shown fuel literal p s t Hlit (or_intror Hs)) as (p' & E & Hp'). exists p'. split; [exact E|].
    destruct Hs as (_ & _ & _ & Hr & _). unfold truthy in Hp'. destruct (Z.eqb_spec s 0); [lia|]. apply (shown_console _ _ _ _ Hp' 2).
  - destruct (perror_shown fuel literal p 0 t Hlit (or_introl eq_refl)) as (p' & E & Hp'). exists p'. split; [exact E|apply (shown_console _ _ _ _ Hp' 2)].
Qed.

(** A terminal that keeps what the two descriptors showed. *)
#[local] Instance glass : Kernel (list Z * list Z) := fun k m rq =>
  match rq_nr rq, rq_args rq with
  | LAMP_SYS_WRITE, fd :: buf :: len :: _ =>
      let text := load m buf (Z.to_nat len) in
      ((if fd =? 1 then k.1 ++ text else k.1, if fd =? 2 then k.2 ++ text else k.2), m, len, 0)
  | _, _ => (k, m, 2 ^ 32 - 1, EINVAL)
  end.

#[local, refine] Instance glass_terminal : TerminalKernel (list Z * list Z) :=
  {| console k fd := if fd =? 1 then k.1 else if fd =? 2 then k.2 else [] |}.
Proof.
  intros k m fd buf len Hfd Hb Hl Hr. do 2 eexists. split; [reflexivity|]. intros fd'. cbn [fst snd rq_args].
  destruct Hfd as [-> | ->]; (destruct (Z.eqb_spec fd' 1) as [->|]; [done|]; destruct (Z.eqb_spec fd' 2) as [->|]; done).
Defined.

(** The literals one after the other from 2000 on, then a message. *)
Definition sample_literals : list (list Z) := [10] :: RegexVM.bytes ": "%string :: map strerror [0; ENOENT; EINVAL; EBADF; ENOSYS].
Fixpoint place (a : Z) (l : list (list Z)) (t : list Z) : Z :=
  match l with
  | [] => a
  | s :: l => if bool_decide (s = t) then a else place (a + Z.of_nat (length s) + 1) l t
  end.
Definition sample_memory : memory := fun x =>
  nth (Z.to_nat (x - 2000)) (concat (map (fun s => s ++ [0]) (sample_literals ++ [RegexVM.bytes "open"%string]))) 0.

Definition string_atb (m : memory) (s : Z) (t : list Z) : bool :=
  bool_decide (load m s (S (length t)) = t ++ [0]) && forallb (fun b => (0 <? b) && (b <? 256)) t.

Lemma string_atb_spec fuel m s t : string_atb m s t = true -> (length t < fuel)%nat -> Z.of_nat (length t) < 2 ^ 16 -> 0 < s < 2 ^ 31 -> string_at fuel m s t.
Proof.
  unfold string_atb. rewrite andb_true_iff, bool_decide_eq_true, forallb_forall. intros [E Hb] Hf Hl Hs.
  split; [|repeat split; lia]. apply cstring_intro.
  - intros i c Ei. pose proof (lookup_lt_Some _ _ _ Ei). split.
    + assert (load m s (S (length t)) !! i = Some c) as Hi by (rewrite E; by apply lookup_app_l_Some).
      unfold load in Hi. rewrite list_lookup_fmap, lookup_seq_lt in Hi by lia. by injection Hi.
    + assert (In c t) as Hin by (apply list_elem_of_In; eapply list_elem_of_lookup_2; exact Ei). specialize (Hb c Hin). lia.
  - assert (load m s (S (length t)) !! length t = Some 0) as Hi by (rewrite E, lookup_app_r, Nat.sub_diag by lia; done).
    unfold load in Hi. rewrite list_lookup_fmap, lookup_seq_lt in Hi by lia. by injection Hi.
Qed.

(** [perror("open")] after a failure with ENOENT. *)
Lemma terminal_output_witness :
  exists p' : process (list Z * list Z),
    perror 40 (place 2000 sample_literals) (place 2000 (sample_literals ++ [RegexVM.bytes "open"%string]) (RegexVM.bytes "open"%string))
      (Proc ([], []) sample_memory ENOENT 0) = (Some tt, p') /\ console (p_kernel p') 2 = RegexVM.bytes "open: Error"%string ++ [10].
Proof.
  set (p := Proc ([], []) sample_memory ENOENT 0). set (s := place 2000 (sample_literals ++ _) _).
  assert (literals_ok 40 (place 2000 sample_literals) (p_mem p)) as Hlit.
  { split; [|split].
    1,2: apply string_atb_spec; [vm_compute; reflexivity|vm_compute; lia|done|done].
    intros e. unfold strerror.
    do 4 (case_match; [apply string_atb_spec; [vm_compute; reflexivity|vm_compute; lia|done|done]|]).
    apply string_atb_spec; [vm_compute; reflexivity|vm_compute; lia|done|done]. }
  assert (string_at 40 (p_mem p) s (RegexVM.bytes "open"%string)) as Hs
    by (apply string_atb_spec; [vm_compute; reflexivity|vm_compute; lia|done|done]).
  destruct (terminal_output 100 40 (place 2000 sample_literals) p s _ [] [] [] 0 ltac:(lia) Hlit Hs (formats_nil []) ltac:(done) (Forall_nil_2 _))
    as (_ & _ & _ & (p' & E & Hc) & _).
  exists p'. split; [exact E|exact Hc].
Defined.
