(* ===== verification/Start.v ===== *)
(** * Process entry: [crt/start.c]

    The kernel starts a process at [_start] with the stack pointer at the word
    count of its arguments; behind it lie the pointers to the arguments, a
    null word, the pointers to the environment strings and a null word.
    [start_c] turns this into the parameters of [main]; what [main] returns
    goes to the exit call, which the entry code repeats for ever should the
    kernel come back from it. *)

From S2P Require Import Prelude Heap Syscall CString Getopt EnvMap.
#[local] Open Scope call_scope.

Section start.
Context {K : Type} `{Kernel K}.

(** The program: the value of [environ] when it starts, and its parameters. *)
Context (main : Z -> Z -> Z -> Z -> M K Z).

Definition start_c (sp : Z) : M K Z := fun p =>
  let argc := s32 (rd32 (p_mem p) sp) in
  let argv := u32 (sp + 4) in
  let envp := u32 (u32 (argv + 4 * u32 argc) + 4) in
  let environ := envp in
  (let* code := main environ argc argv envp in
   let* _ := libsys_exit code in
   ret code) p.

(** The first [n] rounds of the endless loop. *)
Fixpoint start_exit_trap (n : nat) (code : Z) : M K unit :=
  match n with
  | O => ret tt
  | S n => let* _ := libsys_exit code in start_exit_trap n code
  end.

(** The three instructions of the entry point: the stack pointer is the
    argument of [start_c], whose result is the argument of the loop. *)
Definition _start (sp : Z) (n : nat) : M K unit :=
  let* code := start_c sp in start_exit_trap n code.
End start.

(** ** Reading the vectors back *)

Fixpoint read_string (fuel : nat) (m : memory) (a : Z) : option (list Z) :=
  match fuel with
  | O => None
  | S fuel => if m a =? 0 then Some [] else s ← read_string fuel m (a + 1); Some (m a :: s)
  end.

(** [n] pointers to strings. *)
Fixpoint read_args (fuel n : nat) (m : memory) (a : Z) : option (list (list Z)) :=
  match n with
  | O => Some []
  | S n => s ← read_string fuel m (rd32 m a); l ← read_args fuel n m (a + 4); Some (s :: l)
  end.

(** Pointers to strings up to a null one. *)
Fixpoint read_vector (fuel n : nat) (m : memory) (a : Z) : option (list (list Z)) :=
  match n with
  | O => None
  | S n =>
      if rd32 m a =? 0 then Some []
      else s ← read_string fuel m (rd32 m a); l ← read_vector fuel n m (a + 4); Some (s :: l)
  end.

(** A program in terms of its argument list and its environment: it reads
    both from memory, [argc] arguments and the environment up to its null. *)
Definition main_of {K} (fuel : nat) (program : list (list Z) -> list (list Z) -> M K Z) (environ argc argv envp : Z) : M K Z := fun p =>
  match read_args fuel (Z.to_nat argc) (p_mem p) argv, read_vector fuel fuel (p_mem p) environ with
  | Some args, Some env => program args env p
  | _, _ => (-1, p)
  end.

(** ** What the kernel leaves on the stack *)

(** The words from [a] on are the addresses of the strings, then null. *)
Fixpoint vector (m : memory) (a : Z) (l : list (list Z)) : Prop :=
  match l with
  | [] => rd32 m a = 0
  | s :: l => rd32 m a <> 0 /\ cstring m (rd32 m a) s /\ vector m (a + 4) l
  end.

Definition stack_image (m : memory) (sp : Z) (args env : list (list Z)) : Prop :=
  rd32 m sp = Z.of_nat (length args) /\ vector m (sp + 4) args /\
  vector m (sp + 4 + 4 * (Z.of_nat (length args) + 1)) env.

(** Strings and vectors no longer than the fuel. *)
Definition short (fuel : nat) (l : list (list Z)) : Prop :=
  (length l < fuel)%nat /\ Forall (fun s => (length s < fuel)%nat) l.

Lemma read_string_spec m s : forall fuel a, cstring m a s -> (length s < fuel)%nat -> read_string fuel m a = Some s.
Proof.
  induction s as [|c s IH]; intros [|fuel] a Hs Hf; try (cbn [length] in Hf; lia); cbn [read_string cstring] in *.
  - by rewrite Hs.
  - destruct Hs as (E & Hc & Hs). rewrite E. destruct (Z.eqb_spec c 0); [lia|]. rewrite IH; [done|done|cbn [length] in Hf; lia].
Qed.

Lemma read_args_spec fuel m l : Forall (fun s => (length s < fuel)%nat) l -> forall a, vector m a l -> read_args fuel (length l) m a = Some l.
Proof.
  induction 1 as [|s l Hs Hl IH]; intros a Hv; [done|]. cbn [length read_args vector] in *. destruct Hv as (_ & Hc & Hv).
  by rewrite (read_string_spec m s), IH.
Qed.

Lemma read_vector_spec fuel m l : Forall (fun s => (length s < fuel)%nat) l -> forall n a, (length l < n)%nat -> vector m a l ->
  read_vector fuel n m a = Some l.
Proof.
  induction 1 as [|s l Hs Hl IH]; intros [|n] a Hn Hv; cbn [length read_vector vector] in *; try lia; [by rewrite Hv|].
  destruct Hv as (Ha & Hc & Hv). destruct (Z.eqb_spec (rd32 m a) 0); [done|]. by rewrite (read_string_spec m s), IH by (done || lia).
Qed.

(** C21: a process that the kernel starts on the stack image of an argument
    list and an environment runs its program on exactly these: [argc] counts
    the arguments, [argv] and [environ] lead to their strings, and nothing of
    memory changes before [main] runs.  Whatever code the program returns goes
    to the exit call, and to every further one: no other request follows. *)
Theorem start_runs_program {K : Type} `{Kernel K} (program : list (list Z) -> list (list Z) -> M K Z) fuel n sp args env (p : process K) :
  stack_image (p_mem p) sp args env -> short fuel args -> short fuel env ->
  0 <= sp -> sp + 4 * (Z.of_nat (length args) + 3) <= 2 ^ 32 ->
  _start (main_of fuel program) sp n p = (let* code := program args env in start_exit_trap (S n) code) p.
Proof.
  intros (Hc & Ha & He) [Hla Hsa] [Hle Hse] Hsp Hr. set (environ := sp + 4 + 4 * (Z.of_nat (length args) + 1)).
  assert (s32 (rd32 (p_mem p) sp) = Z.of_nat (length args)) as Eargc by (rewrite Hc; apply (swrap_small 32); lia).
  assert (u32 (sp + 4) = sp + 4) as Eargv by (apply u32_small; lia).
  assert (u32 (u32 (sp + 4 + 4 * u32 (Z.of_nat (length args))) + 4) = environ) as Eenvp.
  { unfold environ. rewrite (u32_small (Z.of_nat _)), (u32_small (sp + 4 + 4 * _)) by lia. rewrite u32_small; lia. }
  assert (main_of fuel program environ (Z.of_nat (length args)) (sp + 4) environ p = program args env p) as Hmain.
  { unfold main_of. by rewrite Nat2Z.id, (read_args_spec fuel _ args), (read_vector_spec fuel _ env) by done. }
  unfold _start, bind at 1, start_c. cbv zeta. rewrite Eargc, Eargv, Eenvp. unfold bind. rewrite Hmain.
  destruct (program args env p) as [code p1]. cbn [start_exit_trap]. unfold bind, ret. by destruct (libsys_exit code p1).
Qed.

(** ** A process and its options *)

(** A kernel that keeps the requests it was handed. *)
#[local] Instance recorder : Kernel (list request) := fun k m rq => (k ++ [rq], m, 0, 0).

(** A program that prints nothing: its code is 10 times the number of its
    options, plus 1 when the environment has a HOME. *)
Definition count_options (optstring : list Z) (args env : list (list Z)) : M (list request) Z :=
  ret (match options args optstring (S (length (concat args))) getopt_initial with
       | Some (l, _) => 10 * Z.of_nat (length l)
       | None => -1
       end + b2z (0 <=? find_entry env [72; 79; 77; 69] 0)).

(** The image of [ls -l -a] with HOME=/ at address 4096. *)
Definition sample_image : memory :=
  let words := [(4096, 3); (4100, 4200); (4104, 4204); (4108, 4208); (4112, 0); (4116, 4212); (4120, 0)] in
  let text := [108; 115; 0; 0; 45; 108; 0; 0; 45; 97; 0; 0; 72; 79; 77; 69; 61; 47; 0] in
  fold_left (fun m '(a, w) => wr32 m a w) words (fun x => nth (Z.to_nat (x - 4200)) text 0).

Lemma start_runs_program_witness :
  let p := @Proc (list request) [] sample_image 0 0 in
  p_kernel (snd (_start (main_of 20 (count_options [97; 108])) 4096 1 p)) =
    [abi_call LAMP_SYS_EXIT [21; 0; 0; 0; 0; 0]; abi_call LAMP_SYS_EXIT [21; 0; 0; 0; 0; 0]].
Proof.
  intros p.
  assert (stack_image (p_mem p) 4096 [[108; 115]; [45; 108]; [45; 97]] [[72; 79; 77; 69; 61; 47]]) as Himage by (vm_compute; repeat split; congruence).
  rewrite (start_runs_program (count_options [97; 108]) 20 1 4096 _ _ p Himage); [reflexivity| | |lia|cbn; lia];
    (split; [cbn; lia|repeat constructor]); cbn; lia.
Defined.
