(* ===== verification/Clock.v ===== *)
(** * Clocks and the text of dates

    [time], [sleep] and the stubs of [lib/libc_time.c], the timing of the
    benchmark port ([coremark/core_portme.c]), and the monotonic clocks and
    [strftime_HHMMSS] of [lib/libc_compat.c].  [ts] is the address of the
    local [struct timespec] of a call: two words, seconds and nanoseconds. *)

From Stdlib Require Import String Ascii.
From stdpp Require Import strings.
From S2P Require Import Prelude Heap Regex RegexVM Printf PrintfSpec PrintfCorrect PrintfClaims Time Syscall CString Signal.
#[local] Open Scope call_scope.

(** ** Reading clocks *)

Definition CLOCK_MONOTONIC : Z := 1.

Section clock.
Context {K : Type} `{Kernel K}.
Context (ts : Z).

Definition tv_sec (m : memory) : Z := rd32 m ts.
Definition tv_nsec (m : memory) : Z := s32 (rd32 m (ts + 4)).

(** The benchmark port: two marks of a 32-bit millisecond counter. *)
Record port : Type := Port { start_time_val : Z; stop_time_val : Z }.

Definition monotonic_millis : M K Z :=
  let* rc := clock_gettime CLOCK_MONOTONIC ts in
  if negb (rc =? 0) then ret 0
  else fun p => (u32 (u32 (tv_sec (p_mem p) * 1000) + u32 (tv_nsec (p_mem p)) / 1000000), p).

Definition start_time (c : port) : M K port := let* t := monotonic_millis in ret (Port t (stop_time_val c)).
Definition stop_time (c : port) : M K port := let* t := monotonic_millis in ret (Port (start_time_val c) t).
Definition get_time (c : port) : Z := u32 (stop_time_val c - start_time_val c).
Definition time_in_secs (ticks : Z) : Z := ticks / 1000.

(** The 64-bit clocks. *)
Definition monotonic_us : M K Z :=
  let* rc := clock_gettime CLOCK_MONOTONIC ts in
  if rc <? 0 then ret 0
  else fun p => (u64 (u64 (tv_sec (p_mem p) * 1000000) + u64 (Z.quot (tv_nsec (p_mem p)) 1000)), p).
Definition monotonic_ms : M K Z :=
  let* rc := clock_gettime CLOCK_MONOTONIC ts in
  if rc <? 0 then ret 0
  else fun p => (u64 (u64 (tv_sec (p_mem p) * 1000) + u32 (Z.quot (tv_nsec (p_mem p)) 1000000)), p).

(** [sleep] writes its argument into the local and gives it to [nanosleep]. *)
Definition sleep (seconds : Z) : M K Z :=
  let* _ := fun p : process K => (tt, Proc (p_kernel p) (wr32 (wr32 (p_mem p) ts seconds) (ts + 4) 0) (errno p) (libsys_errno p)) in
  let* rc := nanosleep ts 0 in
  ret (if rc <? 0 then seconds else 0).

Definition sizeof_tms : nat := 16.
Definition times (buf : Z) : M K Z := fun p =>
  (0, if truthy buf then Proc (p_kernel p) (memset (p_mem p) buf 0 sizeof_tms) (errno p) (libsys_errno p) else p).
End clock.

Definition alarm (seconds : Z) : Z := 0.
Definition settimeofday (tv tz : Z) : Z := 0.

(** The rest of the port: no heap, and a byte that says it is set up. *)
Definition portable_malloc (size : Z) : Z := 0.
Definition portable_init : Z := 1.
Definition portable_fini : Z := 0.
Definition default_num_contexts : Z := 1.
Definition align_mem (x : Z) : Z := u32 (4 + Z.land (u32 (x - 1)) (unot 32 3)).

Lemma align_mem_spec x : 0 < x -> x + 3 < 2 ^ 32 -> align_mem x = align4 x.
Proof.
  intros Hx Hr. rewrite align4_spec by lia. unfold align_mem. rewrite (u32_small (x - 1)) by lia.
  assert (Z.land (x - 1) (unot 32 3) = 4 * ((x - 1) / 4)) as ->.
  { assert (4 * ((x - 1) / 4) = Z.shiftl (Z.shiftr (x - 1) 2) 2) as -> by (rewrite shiftl_mul, shiftr_div by lia; change (2 ^ 2) with 4; lia).
    apply Z.bits_inj'. intros i Hi. rewrite Z.land_spec, Z.shiftl_spec by lia. destruct (Z.ltb_spec i 2).
    - rewrite (Z.testbit_neg_r _ (i - 2)) by lia. assert (i = 0 \/ i = 1) as [-> | ->] by lia; apply andb_false_r.
    - rewrite Z.shiftr_spec by lia. replace (i - 2 + 2) with i by lia. destruct (Z.ltb_spec i 32).
      + rewrite testbit_unot by lia. change 3 with (2 ^ 2 - 1). rewrite testbit_mask by lia.
        destruct (Z.ltb_spec i 2); [lia|]. apply andb_true_r.
      + by rewrite (testbit_high (x - 1) 32) by lia. }
  replace (x + 3) with (x - 1 + 1 * 4) by lia. rewrite Z.div_add by lia.
  pose proof (Z.div_mod (x - 1) 4 ltac:(lia)). pose proof (Z.mod_pos_bound (x - 1) 4 ltac:(lia)). rewrite u32_small; lia.
Qed.

(** ** What the kernel promises of a clock *)

Definition second : Z := 10 ^ 9.

(** The clocks count nanoseconds and never run backwards; a call reads one at
    some moment between its start and its end. *)
Class ClockKernel (K : Type) `{Kernel K} : Type := {
  now : K -> Z -> Z;
  now_range k id : 0 <= now k id < 2 ^ 32 * second;
  clock_law k m id ts : 0 <= id <= 1 -> 0 <= ts < 2 ^ 32 ->
    exists k' t e, trap k m (abi_call LAMP_SYS_CLOCK_GETTIME [id; ts; 0; 0; 0; 0]) =
      (k', wr32 (wr32 m ts (t / second)) (ts + 4) (t mod second), 0, e) /\ now k id <= t <= now k' id
}.

Section claims.
Context {K : Type} `{ClockKernel K}.
Context (ts : Z) (Hts : 0 <= ts < 2 ^ 32).

(** A call of [clock_gettime] succeeds, and the local holds one reading. *)
Lemma clock_reads id (p : process K) : 0 <= id <= 1 -> exists t p',
  clock_gettime id ts p = (0, p') /\ now (p_kernel p) id <= t <= now (p_kernel p') id /\ 0 <= t < 2 ^ 32 * second /\
  tv_sec ts (p_mem p') = t / second /\ tv_nsec ts (p_mem p') = t mod second /\ 0 <= t / second < 2 ^ 32 /\ 0 <= t mod second < second.
Proof.
  intros Hid. destruct (clock_law (p_kernel p) (p_mem p) id ts Hid Hts) as (k' & t & e & E & Ht).
  unfold clock_gettime, ret_errno, bind at 1, libsys_call6. rewrite (u32_small id), (u32_small ts), !(u32_small 0), E by lia.
  exists t. eexists. split; [reflexivity|]. cbn [p_kernel p_mem]. split; [exact Ht|].
  pose proof (now_range (p_kernel p) id). pose proof (now_range k' id). assert (0 <= t < 2 ^ 32 * second) as Hr by lia.
  split; [exact Hr|]. unfold second in *. assert (0 <= t / 10 ^ 9 < 2 ^ 32) by (split; [apply Z.div_pos; lia|apply Z.div_lt_upper_bound; lia]).
  pose proof (Z.mod_pos_bound t (10 ^ 9) ltac:(lia)). unfold tv_sec, tv_nsec.
  rewrite rd32_wr32_other, !rd32_wr32 by lia. split; [done|]. split; [apply (swrap_small 32)|split]; lia.
Qed.

(** Seconds and nanoseconds in coarser units. *)
Lemma units t n : 0 <= t -> 0 < n -> (n | second) -> t / second * (second / n) + t mod second / n = t / n.
Proof.
  intros Ht Hn [q Hq]. rewrite Hq, Z.div_mul by lia. assert (0 < q) by (unfold second in Hq; nia).
  rewrite <- Z.div_add_l by lia. f_equal. rewrite <- Z.mul_assoc, Z.mul_comm. symmetry. apply Z.div_mod. nia.
Qed.

Lemma millis_reads (p : process K) : exists t p', monotonic_millis ts p = (u32 (t / 10 ^ 6), p') /\
  now (p_kernel p) CLOCK_MONOTONIC <= t <= now (p_kernel p') CLOCK_MONOTONIC.
Proof.
  destruct (clock_reads CLOCK_MONOTONIC p ltac:(unfold CLOCK_MONOTONIC; lia)) as (t & p' & E & Hn & Hr & Es & En & Hs & Hns).
  exists t, p'. split; [|exact Hn]. unfold monotonic_millis, bind. rewrite E. cbn [Z.eqb negb]. rewrite Es, En. f_equal.
  rewrite (u32_small (t mod second)) by (unfold second in *; lia).
  rewrite <- (units t (10 ^ 6)) by first [lia | by exists 1000].
  change (second / 10 ^ 6) with 1000. change (10 ^ 6) with 1000000. unfold u32. by rewrite Zplus_mod_idemp_l.
Qed.

(** C33: the clocks.  Each reading is the one clock value [t] the kernel gave,
    in the unit of the function, and no 32-bit product in between loses
    anything: [time] stores and returns the whole seconds, [monotonic_us] and
    [monotonic_ms] count without wrapping.  The benchmark's two 32-bit marks
    wrap, but their difference is right: for any run shorter than 2^32 - 1
    milliseconds between the marks [t1] and [t2], [get_time] is less than a
    millisecond from [t2 - t1], even though each mark is the clock modulo
    2^32. *)
Theorem elapsed_correct c tloc (p q r : process K) (Htl : tloc = 0 \/ ts + 8 <= tloc < 2 ^ 32) :
  (exists t1 t2 p' q' c1 c2, start_time ts c p = (c1, p') /\ stop_time ts c1 q = (c2, q') /\
    now (p_kernel p) CLOCK_MONOTONIC <= t1 <= now (p_kernel p') CLOCK_MONOTONIC /\
    now (p_kernel q) CLOCK_MONOTONIC <= t2 <= now (p_kernel q') CLOCK_MONOTONIC /\
    (0 <= t2 - t1 < (2 ^ 32 - 1) * 10 ^ 6 ->
      get_time c2 = t2 / 10 ^ 6 - t1 / 10 ^ 6 /\ Z.abs (10 ^ 6 * get_time c2 - (t2 - t1)) < 10 ^ 6 /\
      Z.abs (second * time_in_secs (get_time c2) - (t2 - t1)) < second + 10 ^ 6)) /\
  (exists t r', monotonic_us ts r = (t / 10 ^ 3, r') /\ now (p_kernel r) CLOCK_MONOTONIC <= t <= now (p_kernel r') CLOCK_MONOTONIC) /\
  (exists t r', monotonic_ms ts r = (t / 10 ^ 6, r') /\ now (p_kernel r) CLOCK_MONOTONIC <= t <= now (p_kernel r') CLOCK_MONOTONIC) /\
  (exists t r', Syscall.time ts tloc r = (t / second, r') /\ now (p_kernel r) CLOCK_REALTIME <= t <= now (p_kernel r') CLOCK_REALTIME /\
    (tloc <> 0 -> rd32 (p_mem r') tloc = t / second)).
Proof.
  assert (0 <= CLOCK_MONOTONIC <= 1 /\ 0 <= CLOCK_REALTIME <= 1) as [Hmono Hreal] by (unfold CLOCK_MONOTONIC, CLOCK_REALTIME; lia).
  split; [|split; [|split]].
  - destruct (millis_reads p) as (t1 & p' & E1 & H1), (millis_reads q) as (t2 & q' & E2 & H2).
    exists t1, t2, p', q'. do 2 eexists. unfold start_time, stop_time, bind. rewrite E1, E2. do 2 (split; [reflexivity|]).
    split; [exact H1|]. split; [exact H2|]. intros Ht.
    assert (get_time (Port (u32 (t1 / 10 ^ 6)) (u32 (t2 / 10 ^ 6))) = t2 / 10 ^ 6 - t1 / 10 ^ 6) as Eg.
    { unfold get_time. cbn [start_time_val stop_time_val]. unfold u32. rewrite <- Zminus_mod.
      apply Z.mod_small. change (10 ^ 6) with 1000000 in *. Z.to_euclidean_division_equations. lia. }
    cbn [start_time_val]. rewrite Eg. split; [done|]. unfold time_in_secs, second.
    change (10 ^ 6) with 1000000 in *. change (10 ^ 9) with 1000000000. clear - Ht. split; Z.to_euclidean_division_equations; lia.
  - destruct (clock_reads CLOCK_MONOTONIC r Hmono) as (t & r' & E & Hn & Hr & Es & En & Hs & Hns). exists t, r'. split; [|exact Hn].
    unfold monotonic_us, bind. rewrite E. cbn [Z.ltb Z.compare]. rewrite Es, En. f_equal.
    rewrite Z.quot_div_nonneg by lia. rewrite <- (units t (10 ^ 3)) by first [lia | by exists 1000000].
    change (second / 10 ^ 3) with 1000000. change (10 ^ 3) with 1000. unfold second in Hns.
    assert (0 <= t mod second / 1000 < 10 ^ 6) by (split; [apply Z.div_pos|apply Z.div_lt_upper_bound]; unfold second; lia).
    rewrite (u64_small (t / second * _)), (u64_small (t mod second / _)) by lia. apply u64_small. lia.
  - destruct (clock_reads CLOCK_MONOTONIC r Hmono) as (t & r' & E & Hn & Hr & Es & En & Hs & Hns). exists t, r'. split; [|exact Hn].
    unfold monotonic_ms, bind. rewrite E. cbn [Z.ltb Z.compare]. rewrite Es, En. f_equal.
    rewrite Z.quot_div_nonneg by lia. rewrite <- (units t (10 ^ 6)) by first [lia | by exists 1000].
    change (second / 10 ^ 6) with 1000. change (10 ^ 6) with 1000000. unfold second in Hns.
    assert (0 <= t mod second / 1000000 < 10 ^ 3) by (split; [apply Z.div_pos|apply Z.div_lt_upper_bound]; unfold second; lia).
    rewrite (u64_small (t / second * _)), (u32_small (t mod second / _)) by lia. apply u64_small. lia.
  - destruct (clock_reads CLOCK_REALTIME r Hreal) as (t & r' & E & Hn & Hr & Es & En & Hs & Hns). exists t.
    unfold Syscall.time, bind. rewrite E. cbn [Z.ltb Z.compare]. unfold tv_sec in Es. rewrite Es. eexists. split; [reflexivity|].
    unfold truthy. destruct (Z.eqb_spec tloc 0); cbn [negb p_kernel p_mem]; [done|]. split; [exact Hn|]. intros _.
    apply rd32_wr32. exact Hs.
Qed.
End claims.

(** A clock that every call advances by 1500 nanoseconds. *)
#[local] Instance ticking : Kernel Z := fun k m rq =>
  match rq_nr rq, rq_args rq with
  | LAMP_SYS_CLOCK_GETTIME, id :: ts :: _ =>
      let t := Z.max 0 (Z.min k (2 ^ 32 * second - 1)) in
      (k + 1500, wr32 (wr32 m ts (t / second)) (ts + 4) (t mod second), 0, 0)
  | _, _ => (k, m, 2 ^ 32 - 1, EINVAL)
  end.

#[local, refine] Instance ticking_clock : ClockKernel Z := {| now k _ := Z.max 0 (Z.min k (2 ^ 32 * second - 1)) |}.
Proof.
  - intros k id. unfold second. lia.
  - intros k m id ts Hid Hts. eexists _, _, 0. split; [reflexivity|]. cbn [rq_args]. lia.
Defined.

(** Marks on both sides of the moment when the counter wraps. *)
Lemma elapsed_correct_witness :
  let p := @Proc Z (4294967 * second) (fun _ => 0) 0 0 in
  let q := @Proc Z (4294969 * second + 500 * 10 ^ 6) (fun _ => 0) 0 0 in
  get_time (stop_time 64 (start_time 64 (Port 0 0) p).1 q).1 = 2500.
Proof.
  intros p q.
  destruct (elapsed_correct 64 ltac:(lia) (Port 0 0) 0 p q p (or_introl eq_refl)) as [(t1 & t2 & p' & q' & c1 & c2 & E1 & E2 & H1 & H2 & He) _].
  rewrite E1. cbn [fst]. rewrite E2. cbn [fst].
  assert (p_kernel p' = 4294967 * second + 1500) as Ep by (change p' with (c1, p').2; rewrite <- E1; reflexivity).
  assert (p_kernel q' = 4294969 * second + 500 * 10 ^ 6 + 1500) as Eq
    by (change q' with (c2, q').2; rewrite <- E2; replace c1 with (c1, p').1 by done; rewrite <- E1; reflexivity).
  unfold now, ticking_clock in H1, H2. rewrite Ep in H1. rewrite Eq in H2. unfold p, q, second in *. cbn [p_kernel] in *.
  change (10 ^ 6) with 1000000 in *. change (10 ^ 9) with 1000000000 in *. change (2 ^ 32) with 4294967296 in *.
  destruct He as [-> _]; [lia|]. clear - H1 H2. Z.to_euclidean_division_equations. lia.
Defined.

(** ** The text of dates *)

(** The buffer holds 32 bytes; the weekday and the month are constants. *)
Definition ctime_format : list Z := bytes "%s %s %02d %02d:%02d:%02d %d"%string ++ [10].

Definition ctime (timep : Z) : option (Z * list Z) :=
  let tm := localtime_r timep in
  '(n, text, _) ← vsnprintf true 32 ctime_format
    [VStr (Some (bytes "Thu"%string)); VStr (Some (bytes "Jan"%string)); VInt (tm_mday tm); VInt (tm_hour tm); VInt (tm_min tm);
     VInt (tm_sec tm); VInt (tm_year tm + 1900)];
  Some (n, text).

(** [localtime] is [localtime_r] into a static object. *)
Definition localtime (timep : Z) : tm := localtime_r timep.

(** [format] is [None] for null; the broken-down time is ignored. *)
Definition strftime (s : bool) (max : Z) (format : option (list Z)) : option (Z * list Z) :=
  if negb s || (max =? 0) then Some (0, [])
  else if match format with Some f => bool_decide (f = bytes "%Y-%m-%d %H:%M:%S %z"%string) | None => false end
  then '(n, text, _) ← vsnprintf s max (bytes "1970-01-01 00:00:00 +0000"%string) []; Some (n, text)
  else '(n, text, _) ← vsnprintf s max (bytes "1970-01-01"%string) []; Some (n, text).

(** The buffer of [strftime_HHMMSS], [None] for null. *)
Definition strftime_HHMMSS (buf : bool) (len : Z) (ptm : option tm) : option (list Z) :=
  if negb buf || (len =? 0) then Some []
  else
    '(_, text, _) ← vsnprintf buf len (bytes "%02d:%02d:%02d"%string)
      (map VInt match ptm with Some tm => [tm_hour tm; tm_min tm; tm_sec tm] | None => [0; 0; 0] end);
    Some text.

Definition day_names : list (list Z) := map bytes ["Sun"; "Mon"; "Tue"; "Wed"; "Thu"; "Fri"; "Sat"]%string.
Definition month_names : list (list Z) :=
  map bytes ["Jan"; "Feb"; "Mar"; "Apr"; "May"; "Jun"; "Jul"; "Aug"; "Sep"; "Oct"; "Nov"; "Dec"]%string.

(** The text of a broken-down time with the names of its day and month. *)
Definition long_text (day month : list Z) (t : tm) : list Z :=
  day ++ 32 :: month ++ 32 :: digits 2 (tm_mday t) ++ 32 :: digits 2 (tm_hour t) ++ 58 :: digits 2 (tm_min t) ++
  58 :: digits 2 (tm_sec t) ++ 32 :: numeral (tm_year t + 1900) 10 false ++ [10].

(** A directive [%02d] of a number below 100. *)
Lemma two_digits v fmt ap t : 0 <= v < 100 -> formats fmt ap t ->
  formats (37 :: 48 :: 50 :: 100 :: fmt) (VInt v :: ap) (digits 2 v ++ t).
Proof.
  intros Hv Ht.
  assert (exists d, parse_directive (48 :: 50 :: 100 :: fmt) (VInt v :: ap) = Some (d, fmt, ap) /\ text d = digits 2 v) as (d & Ed & Et).
  { eexists. split; [reflexivity|].
    rewrite (swrap_small 32) by lia. destruct (Z.ltb_spec v 0); [lia|]. rewrite u64_small by lia.
    assert (forallb (fun v => bool_decide (text (DUint v 10 0 false 2 false true (-1) []) = digits 2 v)) (seqZ 0 100) = true) as Hall by (vm_compute; reflexivity).
    rewrite forallb_forall in Hall. cbn [f_plus f_space f_left f_zero]. eapply bool_decide_eq_true, Hall, list_elem_of_In, elem_of_seqZ. lia. }
  rewrite <- Et. by eapply formats_directive.
Qed.

Lemma string_directive s fmt ap t : formats fmt ap t -> formats (37 :: 115 :: fmt) (VStr (Some s) :: ap) (s ++ t).
Proof.
  intros Ht. assert (exists d, parse_directive (115 :: fmt) (VStr (Some s) :: ap) = Some (d, fmt, ap) /\ text d = s) as (d & Ed & Et).
  { eexists. split; [reflexivity|]. cbn [text]. change (0 <=? -1) with false. unfold justified, pad_left, spaces. cbn [andb]. by replace (Z.to_nat (0 - _)) with 0%nat by lia. }
  rewrite <- Et at 2. by eapply formats_directive.
Qed.

Lemma plain_directive v fmt ap t : 0 <= v < 2 ^ 31 -> formats fmt ap t ->
  formats (37 :: 100 :: fmt) (VInt v :: ap) (numeral v 10 false ++ t).
Proof.
  intros Hv Ht. assert (exists d, parse_directive (100 :: fmt) (VInt v :: ap) = Some (d, fmt, ap) /\ text d = numeral v 10 false) as (d & Ed & Et).
  { eexists. split; [reflexivity|]. cbn [text f_left f_zero f_plus f_space]. rewrite (swrap_small 32) by lia.
    destruct (Z.ltb_spec v 0); [lia|]. rewrite plain_text, u64_small by lia. done. }
  rewrite <- Et. by eapply formats_directive.
Qed.

(** No other pair of names gives the constant one. *)
Lemma names_fixed w m : 0 <= w < 7 -> 0 <= m < 12 ->
  bytes "Thu"%string ++ 32 :: bytes "Jan"%string = nth (Z.to_nat w) day_names [] ++ 32 :: nth (Z.to_nat m) month_names [] -> w = 4 /\ m = 0.
Proof.
  intros Hw Hm E.
  assert (forallb (fun w => forallb (fun m => (negb (bool_decide (bytes "Thu"%string ++ 32 :: bytes "Jan"%string =
    nth (Z.to_nat w) day_names [] ++ 32 :: nth (Z.to_nat m) month_names []))) || ((w =? 4) && (m =? 0))) (seqZ 0 12)) (seqZ 0 7) = true) as Hall
    by (vm_compute; reflexivity).
  rewrite forallb_forall in Hall. specialize (Hall w). rewrite forallb_forall in Hall.
  specialize (fun H => Hall H m). rewrite <- !list_elem_of_In, !elem_of_seqZ in Hall. specialize (Hall ltac:(lia) ltac:(lia)).
  rewrite bool_decide_eq_true_2 in Hall by done. cbn [negb orb] in Hall. lia.
Qed.

(** What [ctime] returns for every [time_t]: the day of the month, the time
    and the year are those of [localtime_r], the weekday and the month are
    always Thu and Jan.  The text is the one the names of the date call for
    exactly when the date is a Thursday in January. *)
Theorem ctime_text t (Ht : 0 <= t < 2 ^ 32) :
  let r := localtime_r t in
  let right_text := long_text (nth (Z.to_nat (tm_wday r)) day_names []) (nth (Z.to_nat (tm_mon r)) month_names []) r in
  exists l, ctime t = Some (Z.of_nat (length l), l ++ [0]) /\ l = long_text (bytes "Thu"%string) (bytes "Jan"%string) r /\
    (l = right_text <-> tm_wday r = 4 /\ tm_mon r = 0).
Proof.
  intros r right_text. destruct (localtime_mktime_roundtrip t Ht) as (_ & Hsec & Hmin & Hhour & Hmon & Hyear & Hwday & len & Hlen & Hday).
  fold r in Hsec, Hmin, Hhour, Hmon, Hyear, Hwday, Hlen, Hday. apply days_in_month_le in Hlen.
  assert (0 <= tm_mday r < 100) as Hmday by (destruct (_ && _); cbn [b2z] in Hday; lia).
  assert (0 <= tm_wday r < 7) as Hw by (rewrite Hwday; apply Z.mod_pos_bound; lia).
  exists (long_text (bytes "Thu"%string) (bytes "Jan"%string) r).
  assert (formats ctime_format
    [VStr (Some (bytes "Thu"%string)); VStr (Some (bytes "Jan"%string)); VInt (tm_mday r); VInt (tm_hour r); VInt (tm_min r); VInt (tm_sec r); VInt (tm_year r + 1900)]
    (long_text (bytes "Thu"%string) (bytes "Jan"%string) r)) as Hf.
  { unfold long_text. change ctime_format with [37; 115; 32; 37; 115; 32; 37; 48; 50; 100; 32; 37; 48; 50; 100; 58; 37; 48; 50; 100; 58; 37; 48; 50; 100; 32; 37; 100; 10].
    apply string_directive, formats_char; [done|]. apply string_directive, formats_char; [done|].
    apply two_digits; [done|]. apply formats_char; [done|]. apply two_digits; [lia|]. apply formats_char; [done|].
    apply two_digits; [lia|]. apply formats_char; [done|]. apply two_digits; [lia|]. apply formats_char; [done|].
    apply plain_directive; [lia|]. apply formats_char; [done|constructor]. }
  assert (length (numeral (tm_year r + 1900) 10 false) <= 4)%nat as Hy by (apply (numeral_digits_length 10 false ltac:(lia) 64 _ 4); cbn; lia).
  assert (length (long_text (bytes "Thu"%string) (bytes "Jan"%string) r) <= 31)%nat as Hl.
  { unfold long_text. repeat (rewrite length_app || cbn [length]). change (length (bytes "Thu"%string)) with 3%nat. change (length (bytes "Jan"%string)) with 3%nat.
    rewrite !digits_length. lia. }
  split; [|split; [done|]].
  - unfold ctime. fold r. cbv zeta. rewrite (vsnprintf_text _ _ _ _ _ Hf) by (lia || (unfold int_length; lia)).
    cbn [negb andb Z.eqb mbind option_bind]. rewrite take_ge; [done|lia].
  - unfold right_text. split.
    + intros E. apply names_fixed; [done|lia|]. unfold long_text in E. eapply app_inv_tail.
      rewrite <- !app_assoc, <- !app_comm_cons. exact E.
    + intros [-> ->]. reflexivity.
Qed.
