(* ===== verification/Delivery.v ===== *)
(** * Signals delivered: [tests/signal_delivery.c]

    The test program of the repository for blocking, raising and delivering a
    signal, on top of [sigaction], [sigprocmask], [raise] and [write].  What a
    handler does to the memory of the process is [text], the program's code:
    the handler's address and the signal give an effect. *)

From S2P Require Import Prelude Heap Syscall CString Signal.
#[local] Open Scope call_scope.

Definition SIG_BLOCK : Z := 0.
Definition SIG_UNBLOCK : Z := 1.
Definition SIGUSR1 : Z := 10.

Section program.
Context {K : Type} `{Kernel K}.

(** Addresses: the two locals of [sigaction], the restorer, the handler, the
    locals and globals of the program, the two messages. *)
Context (la old restorer handler set g_seen pass fail : Z).

(** [g_seen = sig] *)
Definition signal_handler (sig : Z) (m : memory) : memory := wr32 m g_seen sig.

(** [sizeof(pass) - 1u], and the same for [fail]. *)
Definition message_length : Z := 22.

Definition store32 (a v : Z) : M K unit :=
  fun p => (tt, Proc (p_kernel p) (wr32 (p_mem p) a v) (errno p) (libsys_errno p)).
Definition load32 (a : Z) : M K Z := fun p => (rd32 (p_mem p) a, p).

Definition failed : M K Z := let* _ := write 1 fail message_length in ret 1.

(** The three conditions of [main], true for a failure. *)
Definition fails_blocked : M K bool :=
  let* rc := sigprocmask SIG_BLOCK set 0 in
  if negb (rc =? 0) then ret true
  else
    let* rc := raise SIGUSR1 in
    if negb (rc =? 0) then ret true else let* seen := load32 g_seen in ret (negb (seen =? 0)).

Definition fails_unblocked : M K bool :=
  let* rc := sigprocmask SIG_UNBLOCK set 0 in
  if negb (rc =? 0) then ret true else let* seen := load32 g_seen in ret (negb (seen =? SIGUSR1)).

Definition fails_raised : M K bool :=
  let* rc := raise SIGUSR1 in
  if negb (rc =? 0) then ret true else let* seen := load32 g_seen in ret (negb (seen =? SIGUSR1)).

Definition main : M K Z :=
  let* (rc, _) := sigaction la old restorer SIGUSR1 (Some (Sigact handler 0 0 0)) false in
  if negb (rc =? 0) then failed
  else
    let* _ := store32 set (sigaddset sigemptyset SIGUSR1) in
    let* bad := fails_blocked in
    if bad then failed
    else
      let* bad := fails_unblocked in
      if bad then failed
      else
        let* _ := store32 g_seen 0 in
        let* bad := fails_raised in
        if bad then failed else let* _ := write 1 pass message_length in ret 0.
End program.

(** ** What the kernel promises *)

(** Two memories agree outside a region. *)
Definition agree_outside (region : Z -> Prop) (m m' : memory) : Prop := forall x, ~ region x -> m' x = m x.

Section promise.
Context {K : Type} `{SignalKernel K}.
Context (text : Z -> Z -> memory -> memory) (restorer : Z) (frame : Z -> Prop).

(** The signals of a word, in order. *)
Definition members (w : Z) : list Z := List.filter (sigismember w) (seqZ 1 32).

(** The handlers of some signals run one after the other.  For each, the
    kernel builds a signal frame on the stack, the handler runs and returns
    to the restorer, which asks the kernel to resume the process
    ([Assembly.restorer_requests]); the frame and the request overwrite the
    stack below the interrupted code, the region [frame], with anything. *)
Inductive runs (k : K) : list Z -> memory -> memory -> Prop :=
  | runs_none m : runs k [] m m
  | runs_next sig sigs a m m1 m2 m3 :
      action k sig = Some a -> agree_outside frame m m1 -> agree_outside frame (text (sa_handler a) sig m1) m2 -> runs k sigs m2 m3 ->
      runs k (sig :: sigs) m m3.

(** What the process must have arranged for the signals of [w] to be
    delivered and for their handlers to return: a handler for each, and in
    its action the address of the library's restorer. *)
Definition handled (k : K) (w : Z) : Prop :=
  Forall (fun sig => exists a, action k sig = Some a /\ SIG_IGN < sa_handler a /\ sa_restorer a = restorer) (members w).
End promise.

(** The mask after a call of [sigprocmask]. *)
Definition next_mask (how w mask : Z) : Z := if how =? SIG_BLOCK then Z.lor mask w else Z.land mask (unot 32 w).

(** A process has a mask and a set of pending signals.  When [handled] holds
    of the pending signals that are not blocked, their handlers have run before
    [sigprocmask] or a [kill] of the process itself returns, and these signals
    are no longer pending; nothing is promised for a handler without
    restorer.  The terminal shows what is written to it. *)
Class DeliveryKernel (K : Type) `{SignalKernel K} (text : Z -> Z -> memory -> memory) (restorer : Z) (frame : Z -> Prop) : Type := {
  self : K -> Z;
  mask : K -> Z;
  pending : K -> Z;
  console : K -> list Z;
  self_ok k : 0 <= self k < 2 ^ 31;
  sigaction_keeps k m sig act k' m' r e :
    trap k m (abi_call LAMP_SYS_SIGACTION [sig; act; 0; 0; 0; 0]) = (k', m', r, e) ->
    self k' = self k /\ mask k' = mask k /\ pending k' = pending k /\ console k' = console k;
  getpid_law k m : exists k' e,
    trap k m (abi_call LAMP_SYS_GETPID [0; 0; 0; 0; 0; 0]) = (k', m, self k, e) /\
    self k' = self k /\ mask k' = mask k /\ pending k' = pending k /\ console k' = console k /\ (forall s, action k' s = action k s);
  procmask_law k m how set : how = SIG_BLOCK \/ how = SIG_UNBLOCK -> 0 < set < 2 ^ 32 ->
    let mask' := next_mask how (rd32 m set) (mask k) in
    let ready := Z.land (pending k) (unot 32 mask') in
    handled restorer k ready -> exists k' m' e,
      trap k m (abi_call LAMP_SYS_SIGPROCMASK [how; set; 0; 0; 0; 0]) = (k', m', 0, e) /\
      runs text frame k (members ready) m m' /\
      self k' = self k /\ mask k' = mask' /\ pending k' = Z.land (pending k) mask' /\ console k' = console k /\
      (forall s, action k' s = action k s);
  kill_law k m sig : 0 < sig <= 32 ->
    let pending' := Z.lor (pending k) (2 ^ (sig - 1)) in
    let ready := Z.land pending' (unot 32 (mask k)) in
    handled restorer k ready -> exists k' m' e,
      trap k m (abi_call LAMP_SYS_KILL [self k; sig; 0; 0; 0; 0]) = (k', m', 0, e) /\
      runs text frame k (members ready) m m' /\
      self k' = self k /\ mask k' = mask k /\ pending k' = Z.land pending' (mask k) /\ console k' = console k /\
      (forall s, action k' s = action k s);
  terminal_law k m buf len : 0 <= buf -> 0 <= len -> buf + len < 2 ^ 31 -> exists k' e,
    trap k m (abi_call LAMP_SYS_WRITE [1; buf; len; 0; 0; 0]) = (k', m, len, e) /\
    console k' = console k ++ load m buf (Z.to_nat len)
}.

(** Regions that do not touch an object. *)
Definition spares (region : Z -> Prop) (a n : Z) : Prop := forall x, a <= x < a + n -> ~ region x.

Lemma rd32_agree region m m' a : agree_outside region m m' -> spares region a 4 -> rd32 m' a = rd32 m a.
Proof. intros Hm Ha. unfold rd32. by rewrite !Hm by (apply Ha; lia). Qed.

Lemma load_agree region m m' a n : agree_outside region m m' -> spares region a (Z.of_nat n) -> load m' a n = load m a n.
Proof. intros Hm Ha. unfold load. apply map_ext_in. intros i Hi%in_seq. apply Hm, Ha. lia. Qed.

Lemma agree_refl region m : agree_outside region m m.
Proof. by intros x _. Qed.

Lemma agree_trans region m1 m2 m3 : agree_outside region m1 m2 -> agree_outside region m2 m3 -> agree_outside region m1 m3.
Proof. intros H1 H2 x Hx. by rewrite H2, H1. Qed.

Lemma agree_wr32 region m m' a v : agree_outside region m m' -> agree_outside region (wr32 m a v) (wr32 m' a v).
Proof. intros Hm x Hx. unfold wr32, wr8. repeat (destruct (x =? _); [done|]). by apply Hm. Qed.

Section claims.
Context {K : Type} {kernel : Kernel K} {signals : @SignalKernel K kernel}.
Context (la old restorer handler set g_seen pass fail : Z).
Context (text : Z -> Z -> memory -> memory) (frame : Z -> Prop).
Context {delivery : @DeliveryKernel K kernel signals text restorer frame}.
Context (Htext : forall sig m, text handler sig m = signal_handler g_seen sig m).
Context (Hspared : spares frame set 4 /\ spares frame g_seen 4 /\ spares frame pass message_length).

(** The action the program means to have: its handler, and a way back. *)
Definition armed (a : sigact) : Prop := sa_handler a = handler /\ SIG_IGN < handler /\ sa_restorer a = restorer.

(** Where the process stands: what the kernel knows of it, and its memory, up
    to the stack below it. *)
Record at_state (p : process K) (a : sigact) (mk pe : Z) (con : list Z) (m : memory) : Prop := AtState {
  st_action : action (p_kernel p) SIGUSR1 = Some a;
  st_mask : mask (p_kernel p) = mk;
  st_pending : pending (p_kernel p) = pe;
  st_console : console (p_kernel p) = con;
  st_memory : agree_outside frame m (p_mem p)
}.

(** The two words that become deliverable here. *)
Lemma handled_one k a w : action k SIGUSR1 = Some a -> armed a -> w = 0 \/ w = 512 -> handled restorer k w.
Proof using Type.
  intros E (Hh & Hi & Hr) [-> | ->]; unfold handled.
  - change (members 0) with (@nil Z). constructor.
  - change (members 512) with [SIGUSR1]. constructor; [exists a; by rewrite Hh|constructor].
Qed.

(** The memory after the pending signal [w], none or SIGUSR1, is delivered. *)
Definition delivered (w : Z) (m : memory) : memory := if w =? 0 then m else signal_handler g_seen SIGUSR1 m.

Lemma runs_delivered k a w m m0 m' : action k SIGUSR1 = Some a -> armed a -> w = 0 \/ w = 512 -> agree_outside frame m m0 ->
  runs text frame k (members w) m0 m' -> agree_outside frame (delivered w m) m'.
Proof using Htext.
  intros E Ha [-> | ->] Hm Hruns.
  - change (members 0) with (@nil Z) in Hruns. by inversion Hruns; subst.
  - change (members 512) with [SIGUSR1] in Hruns. inversion Hruns as [|? ? a' ? m1 m2 ? E' H1 H2 Hnil]; subst.
    inversion Hnil; subst. rewrite E in E'. injection E' as <-. rewrite (proj1 Ha), Htext in H2.
    apply (agree_trans _ _ _ _ (agree_wr32 _ _ _ _ _ (agree_trans _ _ _ _ Hm H1)) H2).
Qed.

Lemma sigprocmask_spec p a how mk pe con m : at_state p a mk pe con m -> armed a -> how = SIG_BLOCK \/ how = SIG_UNBLOCK ->
  0 < set < 2 ^ 32 -> let mk' := next_mask how (rd32 m set) mk in let ready := Z.land pe (unot 32 mk') in ready = 0 \/ ready = 512 ->
  exists p', sigprocmask how set 0 p = (0, p') /\ at_state p' a mk' (Z.land pe mk') con (delivered ready m).
Proof using Htext Hspared.
  intros [Ea Em Ep Ec Ememory] Ha Hhow Hset. cbv zeta. intros Hready. subst mk pe con.
  rewrite <- (rd32_agree _ _ _ _ Ememory) in Hready |- * by apply Hspared.
  destruct (procmask_law (p_kernel p) (p_mem p) how set Hhow Hset (handled_one _ a _ Ea Ha Hready)) as (k' & m' & e & E & Hruns & _ & Hm & Hp & Hc & Hact).
  unfold sigprocmask, ret_errno, libsys_sigprocmask, bind at 1, libsys_call6.
  rewrite (u32_small how), (u32_small set), !(u32_small 0), E by (unfold SIG_BLOCK, SIG_UNBLOCK in Hhow; lia).
  eexists. split; [reflexivity|]. constructor; cbn [p_kernel p_mem]; try done; [by rewrite Hact|].
  by apply (runs_delivered _ _ _ _ _ _ Ea Ha Hready Ememory).
Qed.

Lemma raise_spec p a mk pe con m : at_state p a mk pe con m -> armed a ->
  let ready := Z.land (Z.lor pe 512) (unot 32 mk) in ready = 0 \/ ready = 512 ->
  exists p', raise SIGUSR1 p = (0, p') /\ at_state p' a mk (Z.land (Z.lor pe 512) mk) con (delivered ready m).
Proof using Htext.
  intros [Ea Em Ep Ec Ememory] Ha. cbv zeta. intros Hready. subst mk pe con.
  destruct (getpid_law (p_kernel p) (p_mem p)) as (k1 & e1 & E1 & Hs1 & Hm1 & Hp1 & Hc1 & Ha1).
  pose proof (self_ok (p_kernel p)) as Hself.
  assert (action k1 SIGUSR1 = Some a) as Ea1 by by rewrite Ha1. rewrite <- Hm1, <- Hp1 in Hready |- *.
  destruct (kill_law k1 (p_mem p) SIGUSR1 ltac:(unfold SIGUSR1; lia) (handled_one _ a _ Ea1 Ha Hready))
    as (k2 & m2 & e2 & E2 & Hruns & _ & Hm2 & Hp2 & Hc2 & Ha2).
  assert (s32 (self (p_kernel p)) = self (p_kernel p)) as Es by (apply (swrap_small 32); lia).
  unfold raise, getpid, ret_errno at 1, libsys_getpid, bind at 1 2, libsys_call6. rewrite !(u32_small 0), E1, Es by lia.
  destruct (Z.ltb_spec (self (p_kernel p)) 0); [lia|]. unfold bind at 1, set_errno at 1, ret at 1. cbn [p_kernel p_mem].
  unfold kill, ret_errno, libsys_kill, bind at 1, libsys_call6. cbn [p_kernel p_mem].
  rewrite (u32_small (self _)), (u32_small SIGUSR1), !(u32_small 0) by (unfold SIGUSR1; lia). rewrite <- Hs1, E2.
  eexists. split; [reflexivity|]. constructor; cbn [p_kernel p_mem]; [by rewrite Ha2|done|done|congruence|].
  by apply (runs_delivered _ _ _ _ _ _ Ea1 Ha Hready Ememory).
Qed.

Lemma terminal_spec p a mk pe con m : at_state p a mk pe con m -> 0 <= pass -> pass + message_length < 2 ^ 31 ->
  exists p', write 1 pass message_length p = (message_length, p') /\ console (p_kernel p') = con ++ load m pass (Z.to_nat message_length).
Proof using Hspared.
  intros [_ _ _ Ec Em] Hb Hr. rewrite <- (load_agree _ _ _ _ _ Em) by apply Hspared. unfold message_length in *.
  destruct (terminal_law (p_kernel p) (p_mem p) pass 22 Hb ltac:(lia) Hr) as (k' & e & E & Hc).
  unfold write, ret_errno, libsys_write, bind at 1, libsys_call6. rewrite (u32_small 1), (u32_small pass), (u32_small 22), !(u32_small 0), E by lia.
  eexists. split; [reflexivity|]. cbn [p_kernel]. by rewrite Hc, Ec.
Qed.

Lemma install_spec p a con : action (p_kernel p) SIGUSR1 = Some a -> is_memory (p_mem p) -> mask (p_kernel p) = 0 -> pending (p_kernel p) = 0 ->
  console (p_kernel p) = con -> 0 < la < 2 ^ 32 -> 0 <= restorer < 2 ^ 32 -> SIG_IGN < handler < 2 ^ 32 ->
  let b := with_restorer restorer (Sigact handler 0 0 0) in
  exists p', sigaction la old restorer SIGUSR1 (Some (Sigact handler 0 0 0)) false p = ((0, None), p') /\
    at_state p' b 0 0 con (store_action (p_mem p) la b).
Proof.
  intros Ea Hm Emask Ep Ec Hla Hr Hh b. set (m := store_action (p_mem p) la b).
  destruct (sigaction_law (p_kernel p) m SIGUSR1 la 0 a Ea (store_action_memory _ _ _ Hm)) as (k' & e & E & Hact); [unfold SIGUSR1; lia|lia|lia|].
  destruct (sigaction_keeps _ _ _ _ _ _ _ _ E) as (_ & Hmask & Hp & Hc).
  unfold sigaction, bind at 1. fold b m. unfold bind at 1, libsys_sigaction, libsys_call6. cbn [p_kernel p_mem].
  rewrite (u32_small SIGUSR1), (u32_small la), !(u32_small 0), E by (unfold SIGUSR1; lia).
  eexists. split; [reflexivity|]. change (0 =? 0) with true. cbn iota. constructor; cbn [p_kernel p_mem]; try congruence.
  rewrite Hact. destruct (Z.eqb_spec la 0); [lia|]. f_equal. unfold m. apply load_store. unfold b. apply with_restorer_ok; [done|].
  unfold sigact_ok. cbn. unfold SIG_IGN in Hh. lia.
Qed.

(** The three conditions, from the states they find. *)
Lemma bind_ok {A B} (x : M K A) (f : A -> M K B) p a p' : x p = (a, p') -> bind x f p = f a p'.
Proof. intros E. unfold bind. by rewrite E. Qed.

Lemma load32_state p a mk pe con m x : at_state p a mk pe con m -> spares frame x 4 -> load32 x p = (rd32 m x, p).
Proof. intros [_ _ _ _ Em] Hx. unfold load32. by rewrite (rd32_agree _ _ _ _ Em Hx). Qed.

Lemma store32_state p a mk pe con m x v : at_state p a mk pe con m -> exists p', store32 x v p = (tt, p') /\ at_state p' a mk pe con (wr32 m x v).
Proof. intros [? ? ? ? Em]. eexists. split; [reflexivity|]. constructor; [done..|]. cbn [p_mem]. by apply agree_wr32. Qed.

Lemma fails_blocked_spec p a con m : at_state p a 0 0 con m -> armed a -> 0 < set < 2 ^ 32 -> rd32 m set = 512 -> rd32 m g_seen = 0 ->
  exists p', fails_blocked set g_seen p = (false, p') /\ at_state p' a 512 512 con m.
Proof.
  intros S Ha Hset W G.
  destruct (sigprocmask_spec p a SIG_BLOCK _ _ _ _ S Ha ltac:(by left) Hset) as (p2 & E2 & S2); [rewrite W; by left|]. rewrite W in S2.
  destruct (raise_spec p2 a _ _ _ _ S2 Ha) as (p3 & E3 & S3); [by left|]. exists p3. split; [|exact S3].
  unfold fails_blocked. rewrite (bind_ok _ _ _ _ _ E2). cbn [negb Z.eqb]. rewrite (bind_ok _ _ _ _ _ E3). cbn [negb Z.eqb].
  rewrite (bind_ok _ _ _ _ _ (load32_state _ _ _ _ _ _ g_seen S3 (proj1 (proj2 Hspared)))). unfold delivered. cbn [Z.eqb]. unfold ret. f_equal. exact (f_equal (fun z => negb (z =? 0)) G).
Qed.

Lemma fails_unblocked_spec p a con m : at_state p a 512 512 con m -> armed a -> 0 < set < 2 ^ 32 -> rd32 m set = 512 ->
  rd32 (signal_handler g_seen SIGUSR1 m) g_seen = SIGUSR1 ->
  exists p', fails_unblocked set g_seen p = (false, p') /\ at_state p' a 0 0 con (signal_handler g_seen SIGUSR1 m).
Proof.
  intros S Ha Hset W G.
  destruct (sigprocmask_spec p a SIG_UNBLOCK _ _ _ _ S Ha ltac:(by right) Hset) as (p2 & E2 & S2); [rewrite W; by right|].
  rewrite W in S2. exists p2. split; [|exact S2].
  unfold fails_unblocked. rewrite (bind_ok _ _ _ _ _ E2). cbn [negb Z.eqb].
  rewrite (bind_ok _ _ _ _ _ (load32_state _ _ _ _ _ _ g_seen S2 (proj1 (proj2 Hspared)))). unfold ret. f_equal. exact (f_equal (fun z => negb (z =? SIGUSR1)) G).
Qed.

Lemma fails_raised_spec p a con m : at_state p a 0 0 con m -> armed a -> rd32 (signal_handler g_seen SIGUSR1 m) g_seen = SIGUSR1 ->
  exists p', fails_raised g_seen p = (false, p') /\ at_state p' a 0 0 con (signal_handler g_seen SIGUSR1 m).
Proof.
  intros S Ha G. destruct (raise_spec p a _ _ _ _ S Ha) as (p2 & E2 & S2); [by right|]. exists p2. split; [|exact S2].
  unfold fails_raised. rewrite (bind_ok _ _ _ _ _ E2). cbn [negb Z.eqb].
  rewrite (bind_ok _ _ _ _ _ (load32_state _ _ _ _ _ _ g_seen S2 (proj1 (proj2 Hspared)))). unfold ret. f_equal. exact (f_equal (fun z => negb (z =? SIGUSR1)) G).
Qed.

(** The objects of the program lie apart from each other. *)
Definition disjoint (a n b k : Z) : Prop := a + n <= b \/ b + k <= a.

Lemma message_store m a v : disjoint a 4 pass message_length -> load (wr32 m a v) pass (Z.to_nat message_length) = load m pass (Z.to_nat message_length).
Proof.
  intros Hd. unfold load, message_length, disjoint in *. apply map_ext_in. intros i Hi%in_seq. apply wr32_other. lia.
Qed.

(** C24: the repository's test of signal delivery passes on every kernel that
    keeps the promise of [DeliveryKernel]: the handler does not run while the
    signal is blocked, although it was raised; it has run when the call that
    unblocks it returns, and when a later [raise] returns; [main] writes the
    PASS line and returns 0.  The promise covers only handlers that return
    through the library's restorer, so it depends on [sigaction] to fill it
    in; and the kernel may overwrite the stack below the program with signal
    frames, anywhere but in the program's objects. *)
Theorem signal_delivery_passes (p : process K) a (Ha : action (p_kernel p) SIGUSR1 = Some a) (Hm : is_memory (p_mem p))
    (Hfresh : mask (p_kernel p) = 0 /\ pending (p_kernel p) = 0) (Hbss : rd32 (p_mem p) g_seen = 0)
    (Hrange : 0 < la < 2 ^ 32 /\ 0 <= restorer < 2 ^ 32 /\ SIG_IGN < handler < 2 ^ 32 /\ 0 < set < 2 ^ 32 /\ 0 <= pass < 2 ^ 31 - message_length)
    (Hset : disjoint set 4 g_seen 4 /\ disjoint set 4 pass message_length) (Hseen : disjoint g_seen 4 pass message_length)
    (Hla : disjoint la 16 g_seen 4 /\ disjoint la 16 pass message_length) :
  exists p', main la old restorer handler set g_seen pass fail p = (0, p') /\
    console (p_kernel p') = console (p_kernel p) ++ load (p_mem p) pass (Z.to_nat message_length).
Proof using Htext Hspared delivery.
  destruct Hfresh as [Hmask Hpending], Hrange as (Rla & Rres & Rh & Rset & Rpass), Hset as [Dset Dsp], Hla as [Dlg Dlp].
  set (b := with_restorer restorer (Sigact handler 0 0 0)).
  assert (armed b) as Hb by (unfold b; rewrite with_restorer_handler by (cbn; lia); cbn; repeat split; lia).
  destruct (install_spec p a _ Ha Hm Hmask Hpending eq_refl Rla Rres Rh) as (p1 & E1 & S1). fold b in S1.
  set (m0 := store_action (p_mem p) la b) in *.
  assert (rd32 m0 g_seen = 0 /\ load m0 pass (Z.to_nat message_length) = load (p_mem p) pass (Z.to_nat message_length)) as [G0 L0].
  { unfold m0, store_action. unfold disjoint in *. rewrite !rd32_wr32_other by lia. rewrite !message_store by (unfold disjoint; lia). done. }
  destruct (store32_state _ _ _ _ _ _ set 512 S1) as (p2 & E2 & S2). set (m1 := wr32 m0 set 512) in *.
  assert (rd32 m1 set = 512) as W1 by (apply rd32_wr32; lia).
  assert (rd32 m1 g_seen = 0) as G1 by (unfold m1; rewrite rd32_wr32_other by (unfold disjoint in *; lia); exact G0).
  assert (forall m, rd32 (signal_handler g_seen SIGUSR1 m) g_seen = SIGUSR1) as G2 by (intros m; apply rd32_wr32; unfold SIGUSR1; lia).
  destruct (fails_blocked_spec p2 b _ _ S2 Hb Rset W1 G1) as (p3 & E3 & S3).
  destruct (fails_unblocked_spec p3 b _ _ S3 Hb Rset W1 (G2 _)) as (p4 & E4 & S4).
  destruct (store32_state _ _ _ _ _ _ g_seen 0 S4) as (p5 & E5 & S5).
  destruct (fails_raised_spec p5 b _ _ S5 Hb (G2 _)) as (p6 & E6 & S6).
  destruct (terminal_spec p6 b _ _ _ _ S6) as (p7 & E7 & H7); [lia|lia|].
  exists p7. split.
  - unfold main. rewrite (bind_ok _ _ _ _ _ E1). cbn [negb Z.eqb]. rewrite (bind_ok _ _ _ _ _ E2), (bind_ok _ _ _ _ _ E3). cbn iota.
    rewrite (bind_ok _ _ _ _ _ E4). cbn iota. rewrite (bind_ok _ _ _ _ _ E5), (bind_ok _ _ _ _ _ E6). cbn iota. by rewrite (bind_ok _ _ _ _ _ E7).
  - rewrite H7. f_equal. unfold signal_handler, m1. by rewrite !message_store.
Qed.
End claims.

(** ** A kernel that delivers signals *)

(** Its table of actions, mask, pending set and terminal; the process is 7. *)
Record signal_state : Type := SignalState {
  ss_table : sig_table;
  ss_mask : Z;
  ss_pending : Z;
  ss_console : list Z
}.

Definition table_action (k : signal_state) (sig : Z) : option sigact :=
  if sigact_okb (ss_table k sig) then Some (ss_table k sig) else None.

Section delivering.
Context (text : Z -> Z -> memory -> memory) (restorer stack : Z).

(** A signal frame of two words at [stack]: the signal and the mask. *)
Definition push_frame (sig mask : Z) (m : memory) : memory := wr32 (wr32 m stack sig) (stack + 4) mask.
Definition in_frame (x : Z) : Prop := stack <= x < stack + 8.

(** The handlers run; [None] when one is missing or has no way back. *)
Fixpoint run_handlers (k : signal_state) (sigs : list Z) (m : memory) : option memory :=
  match sigs with
  | [] => Some m
  | sig :: sigs =>
      match table_action k sig with
      | Some a => if (SIG_IGN <? sa_handler a) && (sa_restorer a =? restorer)
                  then run_handlers k sigs (text (sa_handler a) sig (push_frame sig (ss_mask k) m)) else None
      | None => None
      end
  end.

(** The handlers of the deliverable signals run; a process whose handler
    cannot return does not see the call succeed. *)
Definition deliver (k : signal_state) (mask pending : Z) (m : memory) : signal_state * memory * Z * Z :=
  match run_handlers k (members (Z.land pending (unot 32 mask))) m with
  | Some m' => (SignalState (ss_table k) mask (Z.land pending mask) (ss_console k), m', 0, 0)
  | None => (k, m, 2 ^ 32 - 1, EFAULT)
  end.

#[local] Instance delivering : Kernel signal_state := fun k m rq =>
  match rq_nr rq, rq_args rq with
  | LAMP_SYS_SIGACTION, _ => let '(t, m, r, e) := table_kernel (ss_table k) m rq in
      (SignalState t (ss_mask k) (ss_pending k) (ss_console k), m, r, e)
  | LAMP_SYS_SIGPROCMASK, how :: set :: _ => deliver k (next_mask how (rd32 m set) (ss_mask k)) (ss_pending k) m
  | LAMP_SYS_KILL, _ :: sig :: _ => deliver k (ss_mask k) (Z.lor (ss_pending k) (2 ^ (sig - 1))) m
  | LAMP_SYS_GETPID, _ => (k, m, 7, 0)
  | LAMP_SYS_WRITE, _ :: buf :: len :: _ =>
      (SignalState (ss_table k) (ss_mask k) (ss_pending k) (ss_console k ++ load m buf (Z.to_nat len)), m, len, 0)
  | _, _ => (k, m, 2 ^ 32 - 1, EINVAL)
  end.

#[local, refine] Instance delivering_signals : SignalKernel signal_state := {| action := table_action |}.
Proof.
  - intros k sig s. unfold table_action. destruct (sigact_okb _) eqn:E; [|done]. intros [= <-]. by apply sigact_okb_spec.
  - intros k m sig act old s E Hm H1 H2 H3.
    destruct (sigaction_law (SignalKernel := table_signals) (ss_table k) m sig act old s E Hm H1 H2 H3) as (t & e & Et & Ht).
    unfold trap in Et |- *. unfold delivering. cbn [rq_nr abi_call]. rewrite Et. do 2 eexists. split; [reflexivity|]. exact Ht.
Defined.

Lemma push_frame_agree sig mk m : agree_outside in_frame m (push_frame sig mk m).
Proof. intros x Hx. unfold in_frame in Hx. unfold push_frame. rewrite !wr32_other by lia. done. Qed.

Lemma run_handlers_runs k sigs m :
  Forall (fun sig => exists a, action k sig = Some a /\ SIG_IGN < sa_handler a /\ sa_restorer a = restorer) sigs ->
  exists m', run_handlers k sigs m = Some m' /\ runs text in_frame k sigs m m'.
Proof.
  intros Hs. revert m. induction Hs as [|sig sigs (a & Ea & Hi & Hr) _ IH]; intros m; [eexists; split; [done|constructor]|].
  cbn [run_handlers]. change (table_action k sig) with (action k sig). rewrite Ea, (proj2 (Z.ltb_lt _ _) Hi), Hr, Z.eqb_refl. cbn [andb].
  destruct (IH (text (sa_handler a) sig (push_frame sig (ss_mask k) m))) as (m' & E & Hruns). exists m'. split; [done|].
  exact (runs_next _ _ _ _ _ _ _ _ _ _ Ea (push_frame_agree sig (ss_mask k) m) (agree_refl _ _) Hruns).
Qed.

Lemma deliver_spec k mk pe m : handled restorer k (Z.land pe (unot 32 mk)) ->
  exists m', deliver k mk pe m = (SignalState (ss_table k) mk (Z.land pe mk) (ss_console k), m', 0, 0) /\
    runs text in_frame k (members (Z.land pe (unot 32 mk))) m m'.
Proof.
  intros Hh. destruct (run_handlers_runs k (members (Z.land pe (unot 32 mk))) m Hh) as (m' & E & Hruns).
  exists m'. split; [|done]. unfold deliver. by rewrite E.
Qed.

#[local, refine] Instance delivering_delivers : DeliveryKernel signal_state text restorer in_frame :=
  {| self _ := 7; mask := ss_mask; pending := ss_pending; console := ss_console |}.
Proof.
  - intros k. lia.
  - intros k m sig act k' m' r e E. unfold trap, delivering in E. cbn [rq_nr abi_call] in E.
    destruct (table_kernel _ _ _) as [[[t m1] r1] e1]. by injection E as <- _ _ _.
  - intros k m. do 2 eexists. split; [reflexivity|]. done.
  - intros k m how set _ _ mask' ready Hh. destruct (deliver_spec k mask' (ss_pending k) m Hh) as (m' & E & Hruns).
    do 3 eexists. split; [unfold trap, delivering; cbn [abi_call rq_nr rq_args]; exact E|done].
  - intros k m sig _ pending' ready Hh. destruct (deliver_spec k (ss_mask k) pending' m Hh) as (m' & E & Hruns).
    do 3 eexists. split; [unfold trap, delivering; cbn [abi_call rq_nr rq_args]; exact E|done].
  - intros k m buf len _ _ _. do 2 eexists. split; [reflexivity|]. done.
Defined.
End delivering.

(** The program of the test: its handler at 512, its global at 3000. *)
Definition test_text (code sig : Z) (m : memory) : memory := if code =? 512 then signal_handler 3000 sig m else m.

Lemma signal_delivery_passes_witness :
  exists p' : process signal_state,
    @main _ (delivering test_text 4096 9000) 64 128 4096 512 2000 3000 6000 7000
      (Proc (SignalState (fun _ => Sigact 0 0 0 0) 0 0 [35]) (fun _ => 0) 0 0) = (0, p') /\
    ss_console (p_kernel p') = 35 :: replicate 22 0.
Proof.
  set (p := Proc (SignalState (fun _ => Sigact 0 0 0 0) 0 0 [35]) (fun _ : Z => 0) 0 0).
  refine (signal_delivery_passes (kernel := delivering test_text 4096 9000) (signals := delivering_signals test_text 4096 9000)
    64 128 4096 512 2000 3000 6000 7000 test_text (in_frame 9000) (delivery := delivering_delivers test_text 4096 9000) _ _ p (Sigact 0 0 0 0) _ _ _ _ _ _ _ _);
    unfold SIG_IGN, disjoint, spares, in_frame, message_length; try (split; reflexivity); try (split; lia); try lia; try reflexivity; split_and!; intros; lia.
Defined.
