(* ===== verification/Stubs.v ===== *)
(** * Functions that stand in for services the system lacks

    Of [lib/libc_syscalls.c], [lib/libc_misc.c], [lib/libc_signal.c] and
    [lib/libc_stdlib.c]: users and groups, limits, memory mappings, terminal
    attributes, name services.  They return constants, fill in a structure, or
    refuse with an error number. *)

From Stdlib Require Import String Ascii.
From stdpp Require Import strings gmap.
From S2P Require Import Prelude Heap HeapInv HeapOps HeapClaims Regex RegexVM RegexHeap Syscall CString CStringCopy StreamRead GetlineHeap Terminal Getopt.
#[local] Open Scope call_scope.

Definition ENOTTY : Z := 25.

(** ** Constants *)

Definition getuid : Z := 0.
Definition geteuid : Z := 0.
Definition getgid : Z := 0.
Definition getegid : Z := 0.
Definition getpagesize : Z := 4096.
Definition setpgid (pid pgid : Z) : Z := 0.
Definition setpgrp : Z := 0.
Definition tcsetpgrp (fd pgrp : Z) : Z := 0.
Definition isatty (fd : Z) : bool := (0 <=? fd) && (fd <=? 2).
Definition _SC_CLK_TCK : Z := 2.
Definition sysconf (name : Z) : Z := if name =? _SC_CLK_TCK then 100 else -1.
Definition chown (path owner group : Z) : Z := 0.
Definition lchown (path owner group : Z) : Z := chown path owner group.
Definition chmod (path mode : Z) : Z := 0.
Definition utimes (path times : Z) : Z := 0.
Definition fchdir (fd : Z) : Z := 0.
Definition ftruncate (fd length : Z) : Z := 0.
Definition setuid (uid : Z) : Z := 0.
Definition setgid (gid : Z) : Z := 0.
Definition seteuid (uid : Z) : Z := 0.
Definition setegid (gid : Z) : Z := 0.
Definition setresuid (ruid euid suid : Z) : Z := 0.
Definition setresgid (rgid egid sgid : Z) : Z := 0.
Definition setrlimit (resource rlim : Z) : Z := 0.
Definition setsockopt (fd level optname optval optlen : Z) : Z := 0.
Definition getsockopt (fd level optname optval optlen : Z) : Z := -1.
Definition getpeername (fd addr len : Z) : Z := -1.
Definition shutdown (fd how : Z) : Z := 0.
Definition tcflush (fd queue_selector : Z) : Z := 0.
Definition if_nametoindex (name : Z) : Z := 0.
Definition initgroups (user group : Z) : Z := 0.

(** The null pointer stands for no entry. *)
Definition getpwuid (uid : Z) : Z := 0.
Definition getpwnam (name : Z) : Z := 0.
Definition bb_internal_getpwuid (uid : Z) : Z := getpwuid uid.
Definition bb_internal_getpwnam (name : Z) : Z := getpwnam name.
Definition bb_internal_getpwent : Z := 0.
Definition getgrgid (gid : Z) : Z := 0.
Definition getgrnam (name : Z) : Z := 0.
Definition bb_internal_getgrgid (gid : Z) : Z := getgrgid gid.
Definition bb_internal_getgrnam (name : Z) : Z := getgrnam name.
Definition getservbyname (name proto : Z) : Z := 0.
Definition getservbyport (port proto : Z) : Z := 0.
Definition EAI_FAIL : Z := -5.
Definition getaddrinfo (node service hints res : Z) : Z := EAI_FAIL.
Definition getnameinfo (addr addrlen host hostlen serv servlen flags : Z) : Z := EAI_FAIL.

(** Texts. *)
Definition setlocale (category locale : Z) : list Z := bytes "C"%string.
Definition strsignal (sig : Z) : list Z := bytes "Unknown signal"%string.
Definition hstrerror (err : Z) : list Z :=
  bytes
    (if err =? 0 then "Resolver Error 0 (no error)"%string
     else if err =? 1 then "Unknown host"%string
     else if err =? 2 then "Host name lookup failure"%string
     else if err =? 3 then "Unknown server error"%string
     else if err =? 4 then "No address associated with name"%string
     else "Resolver error"%string).

(** [fnmatch] knows no pattern characters. *)
Definition FNM_NOMATCH : Z := 1.
Definition fnmatch (pattern string : list Z) (flags : Z) : Z := if bool_decide (pattern = string) then 0 else FNM_NOMATCH.

(** [srand]: the seed of [rand]. *)
Definition srand (seed : Z) : Z := seed.

(** [getopt_long_only] is [getopt_long]. *)
Definition getopt_long_only (argv : list (list Z)) (optstring : list Z) (st : getopt_state) : Z * getopt_state :=
  getopt_long argv optstring st.

Section stubs.
Context {K : Type} `{Kernel K}.

Definition update (f : memory -> memory) : M K unit :=
  fun p => (tt, Proc (p_kernel p) (f (p_mem p)) (errno p) (libsys_errno p)).

(** ** Refusals *)

Definition refuse (e : Z) : M K Z := let* _ := set_errno e in ret (-1).

Definition mknod (path mode dev : Z) : M K Z := refuse ENOSYS.
Definition chroot (path : Z) : M K Z := refuse ENOSYS.
Definition mkstemp (template : Z) : M K Z := refuse ENOSYS.
Definition sigsuspend (mask : Z) : M K Z := refuse ENOSYS.
Definition getsockname (fd addr len : Z) : M K Z := refuse ENOSYS.
Definition tcgetattr (fd t : Z) : M K Z := refuse ENOTTY.
Definition tcsetattr (fd optional_actions t : Z) : M K Z := refuse ENOTTY.
Definition ttyname_r (fd buf size : Z) : M K Z :=
  let* _ := (if truthy buf && truthy size then update (fun m => wr8 m buf 0) else ret tt) in refuse ENOTTY.

(** ** Structures filled in *)

Definition getgroups (size list_ : Z) : M K Z :=
  let* _ := (if (0 <? size) && truthy list_ then update (fun m => wr32 m list_ 0) else ret tt) in ret 1.

Definition getrlimit (resource rlim : Z) : M K Z :=
  let* _ := (if truthy rlim then update (fun m => wr32 (wr32 m rlim 32) (rlim + 4) 32) else ret tt) in ret 0.

Definition sizeof_statfs : nat := 16.
Definition statfs (path buf : Z) : M K Z :=
  let* _ := (if truthy buf then update (fun m => memset m buf 0 sizeof_statfs) else ret tt) in ret 0.

Definition sched_getaffinity (pid cpusetsize mask : Z) : M K Z :=
  if (4 <=? cpusetsize) && truthy mask then
    let* _ := update (fun m => wr32 (memset m mask 0 (Z.to_nat cpusetsize)) mask 1) in ret 0
  else refuse EINVAL.

Definition GLOB_NOMATCH : Z := -3.
Definition glob (pattern flags errfunc pglob : Z) : M K Z :=
  let* _ := (if truthy pglob then update (fun m => wr32 (wr32 (wr32 m pglob 0) (pglob + 4) 0) (pglob + 8) 0) else ret tt) in
  ret GLOB_NOMATCH.

Definition if_indextoname (ifindex name : Z) : M K Z :=
  let* _ := (if truthy name then update (fun m => wr8 m name 0) else ret tt) in ret name.

(** [strcpy] from a literal. *)
Definition copy_literal (dst : Z) (s : string) (m : memory) : memory := overlay m dst (bytes s ++ [0]).

Definition uname (buf : Z) : M K Z :=
  if buf =? 0 then refuse EFAULT
  else
    let* _ := update (copy_literal buf "Octans"%string) in
    let* _ := update (copy_literal (buf + 32) "lamp-VirtualMachine"%string) in
    let* _ := update (copy_literal (buf + 64) "Alpha"%string) in
    let* _ := update (copy_literal (buf + 96) "0.31"%string) in
    let* _ := update (copy_literal (buf + 128) "Polaris"%string) in
    ret 0.

Definition realpath (fuel : nat) (path resolved_path : Z) : M K (option Z) :=
  if (path =? 0) || (resolved_path =? 0) then let* _ := set_errno EINVAL in ret (Some 0)
  else fun p =>
    match strcpy fuel (p_mem p) resolved_path path with
    | None => (None, p)
    | Some m => (Some resolved_path, Proc (p_kernel p) m (errno p) (libsys_errno p))
    end.

(** ** Through to another function *)

Definition getsid (pid : Z) : M K Z := getpid.
Definition tcgetpgrp (fd : Z) : M K Z := getpid.
Definition execv (environ path argv : Z) : M K Z := execve path argv environ.
Definition recvfrom (fd buf len flags src_addr addrlen : Z) : M K Z := recv fd buf len flags.

(** [_exit] asks for the end of the process for ever; the first [n] rounds
    of the empty loop behind the call do nothing. *)
Definition _exit (status : Z) : M K unit := let* _ := libsys_exit status in ret tt.
Definition abort : M K unit := _exit 127.
End stubs.

(** Mappings come from the heap. *)
Definition mmap {A : Type} `{Allocator A} (heap : A) (addr len prot flags fd off : Z) : A * Z := al_malloc heap len.
Definition munmap {A : Type} `{Allocator A} (heap : A) (addr len : Z) : A * Z := (al_free heap addr, 0).

(** ** What they leave alone *)

(** A call that refuses: -1 with the error number, and nothing else changed. *)
Definition refuses {K} (e : Z) (m : M K Z) : Prop :=
  forall p, m p = (-1, Proc (p_kernel p) (p_mem p) e (libsys_errno p)).

Theorem refusals {K : Type} (a b c d : Z) :
  Forall (@refuses K ENOSYS) [mknod a b c; chroot a; mkstemp a; sigsuspend a; getsockname a b c] /\
  Forall (@refuses K ENOTTY) [tcgetattr a b; tcsetattr a b c; ttyname_r a 0 c] /\
  (b < 4 -> refuses EINVAL (@sched_getaffinity K a b c)) /\ refuses EFAULT (@uname K 0).
Proof.
  split; [repeat constructor|]. split; [repeat constructor|]. split; [|done].
  intros Hb p. unfold sched_getaffinity. by destruct (Z.leb_spec 4 b); [lia|].
Qed.

(** The five names, each with its NUL inside the 32 bytes of its field. *)
Definition uname_fields : list (Z * string) :=
  [(0, "Octans"%string); (32, "lamp-VirtualMachine"%string); (64, "Alpha"%string); (96, "0.31"%string); (128, "Polaris"%string)].

Lemma literal_bytes s : forallb (fun b => (0 <? b) && (b <? 256)) (bytes s) = true -> Forall (fun c => 0 < c < 256) (bytes s).
Proof. rewrite forallb_forall, Forall_forall. intros H x Hx. specialize (H x Hx). lia. Qed.

Theorem uname_fills {K : Type} buf (p : process K) : buf <> 0 ->
  exists p', uname buf p = (0, p') /\ p_kernel p' = p_kernel p /\
    Forall (fun '(o, s) => cstring (p_mem p') (buf + o) (bytes s) /\ (length (bytes s) < 32)%nat) uname_fields /\
    forall x, x < buf \/ buf + 160 <= x -> p_mem p' x = p_mem p x.
Proof.
  intros Hb. unfold uname. destruct (Z.eqb_spec buf 0); [done|]. eexists. split; [reflexivity|]. cbn [p_kernel p_mem]. split; [done|].
  assert (forall m a s x, x < a \/ a + Z.of_nat (length (bytes s)) < x -> copy_literal a s m x = m x) as Hout
    by (intros m a s x Hx; apply overlay_out; rewrite length_app; cbn [length]; lia).
  split; [|intros x Hx; by rewrite !Hout by (cbn; lia)].
  repeat (apply Forall_cons_2; [split; [|cbn; lia]|]); [..|apply Forall_nil_2].
  all: rewrite ?Z.add_0_r; eapply cstring_ext; [apply cstring_overlay, literal_bytes; reflexivity|]; intros x Hx; cbn in Hx.
  all: by rewrite ?Hout by (cbn; lia).
Qed.

(** On the library's heap a mapping is an allocation: [munmap] gives it back,
    and where there is no room the result is null, which is not [MAP_FAILED]. *)
Theorem mmap_on_heap g_heap A h addr len prot flags fd off : HeapClaims.represents g_heap h A -> size_ok len ->
  exists h' r, @mmap heap (heap_allocator g_heap) h addr len prot flags fd off = (h', r) /\
    (r = 0 /\ HeapClaims.represents g_heap h' A \/
     r <> 0 /\ holds g_heap A h' r len /\ HeapClaims.represents g_heap (@munmap heap (heap_allocator g_heap) h' r len).1 A).
Proof.
  intros HR Hn. destruct (malloc_holds g_heap A h len HR Hn) as (h' & r & E & [D|[Hr Hh]]); exists h', r; (split; [exact E|]); [by left|right].
  split; [done|]. split; [done|]. exact (free_holds g_heap A h' r len Hh).
Qed.

(** An anonymous mapping is not zeroed: it shows what a freed block held. *)
Example mmap_not_zeroed :
  let al := heap_allocator 65536 in
  let '(h, p) := @al_malloc heap al (heap_initial 65536) 16 in
  let h := @al_free heap al (Heap (wr8 (h_mem h) (p + 5) 77) (h_head h) (h_end h) (h_errno h)) p in
  let '(h, q) := @mmap heap al h 0 16 3 0x22 (-1) 0 in
  (q, h_mem h (q + 5)) = (p, 77).
Proof. vm_compute. reflexivity. Qed.
