(* ===== verification/Assembly.v ===== *)
(** * Assembly: [setjmp], [longjmp], the system-call trap and the signal restorer

    The inline assembly of [lib/libc_misc.c], [lib/libsys.c] and
    [tests/vm_panic.c], as lists of instructions.  The machine is not in the
    repository: it is the class [Machine], whose laws state only what this
    assembly relies on, and [SystemMachine], which ties [inti 0x80] to the
    kernel of [Syscall].  Registers, ports and words of the call stack are 32
    bits wide; the call stack is separate from the data stack, and its depth and
    base are read from two ports. *)

From Stdlib Require Import String Ascii.
From stdpp Require Import strings.
From S2P Require Import Prelude Heap Regex RegexVM CString Syscall Signal Terminal.
#[local] Open Scope call_scope.

(** ** Instructions and what is promised of them *)

(** The mnemonics the sources use, operands in their order. *)
Inductive instr : Type :=
| MOV (d s : Z)
| MOVI (d v : Z)
| ADD (d a b : Z)
| LOAD32 (d a off : Z)
| LOAD16 (d a off : Z)
| STORE32 (s a off : Z)
| IN (d p : Z)
| OUT (s p : Z)
| INTI (v : Z)
| RET
| RJMP (label : nat).

(** What a program can see of the machine. *)
Record cpu : Type := Cpu {
  regs : Z -> Z;
  mem : memory;
  ports : Z -> Z
}.

(** Two states a program cannot tell apart. *)
#[global] Instance cpu_equiv : Equiv cpu := fun c d =>
  (forall r, regs c r = regs d r) /\ (forall x, mem c x = mem d x) /\ (forall p, ports c p = ports d p).

#[global] Instance cpu_equivalence : Equivalence (≡@{cpu}).
Proof.
  split.
  - done.
  - intros c d (? & ? & ?). by repeat split.
  - intros c d e (R & M & P) (R' & M' & P'). repeat split; congruence.
Qed.

Definition set_reg (d v : Z) (c : cpu) : cpu := Cpu (fun r => if r =? d then v else regs c r) (mem c) (ports c).
Definition set_mem (m : memory) (c : cpu) : cpu := Cpu (regs c) m (ports c).
Definition set_port (p v : Z) (c : cpu) : cpu := Cpu (regs c) (mem c) (fun q => if q =? p then v else ports c q).

(** The depth of the call stack and its base. *)
Definition CALL_DEPTH : Z := 0xF0.
Definition CALL_BASE : Z := 0xF4.
Definition LAMP_IRQ_SYSCALL : Z := 0x80.

(** The effect of an instruction on that view, where one is relied on: words
    are accessed at multiples of four, immediates are a byte, and only the two
    ports are used. *)
Definition effect (i : instr) (c : cpu) : option cpu :=
  match i with
  | MOV d s => Some (set_reg d (regs c s) c)
  | MOVI d v => if (0 <=? v) && (v <? 2 ^ 8) then Some (set_reg d v c) else None
  | ADD d a b => Some (set_reg d (u32 (regs c a + regs c b)) c)
  | LOAD32 d a off =>
      let x := u32 (regs c a + off) in
      if x mod 4 =? 0 then Some (set_reg d (rd32 (mem c) x) c) else None
  | STORE32 s a off =>
      let x := u32 (regs c a + off) in
      if x mod 4 =? 0 then Some (set_mem (wr32 (mem c) x (regs c s)) c) else None
  | IN d p => if (regs c p =? CALL_DEPTH) || (regs c p =? CALL_BASE) then Some (set_reg d (ports c (regs c p)) c) else None
  | OUT s p => if regs c p =? CALL_DEPTH then Some (set_port CALL_DEPTH (regs c s) c) else None
  | LOAD16 _ _ _ | INTI _ | RET | RJMP _ => None
  end.

Fixpoint effects (l : list instr) (c : cpu) : option cpu :=
  match l with [] => Some c | i :: l => c ← effect i c; effects l c end.

(** What becomes of an instruction: the next state, an interrupt the kernel
    does not return from, or the end of the machine. *)
Inductive outcome (S : Type) : Type := Continues (σ : S) | Leaves | Panics.
Arguments Continues {S} σ.
Arguments Leaves {S}.
Arguments Panics {S}.

(** The entry of the call stack on top, where [ret] finds its address. *)
Definition call_slot (c : cpu) : Z := u32 (ports c CALL_BASE + 8 * ports c CALL_DEPTH).

Class Machine (S : Type) : Type := {
  view : S -> cpu;
  pc : S -> Z;
  exec : instr -> S -> outcome S;
  depth_below : Z -> Z;
  words σ : (forall r, 0 <= regs (view σ) r < 2 ^ 32) /\ is_memory (mem (view σ)) /\ (forall p, 0 <= ports (view σ) p < 2 ^ 32);
  effect_law i σ c : effect i (view σ) = Some c -> exists σ', exec i σ = Continues σ' /\ view σ' ≡ c;
  ret_law σ : call_slot (view σ) mod 4 = 0 -> exists σ',
    exec RET σ = Continues σ' /\ pc σ' = rd32 (mem (view σ)) (call_slot (view σ)) /\
    view σ' ≡ set_port CALL_DEPTH (depth_below (ports (view σ) CALL_DEPTH)) (view σ);
  unaligned_law d a off σ : Z.odd (u32 (regs (view σ) a + off)) = true -> exec (LOAD16 d a off) σ = Panics;
  interrupt_law v σ : exec (INTI v) σ <> Panics
}.

(** The call numbers of [include/lamp/abi.h] and its ABI block. *)
Definition sys_number (nr : lamp_sys) : Z :=
  match nr with
  | LAMP_SYS_GETPID => 0 | LAMP_SYS_YIELD => 1 | LAMP_SYS_SLEEP_TICKS => 2 | LAMP_SYS_EXIT => 3
  | LAMP_SYS_WAITPID => 4 | LAMP_SYS_NANOSLEEP => 5 | LAMP_SYS_READ => 6 | LAMP_SYS_WRITE => 7
  | LAMP_SYS_POLL => 8 | LAMP_SYS_SELECT => 9 | LAMP_SYS_TTY_GETMODE => 10 | LAMP_SYS_TTY_SETMODE => 11
  | LAMP_SYS_CLOCK_GETTIME => 12 | LAMP_SYS_GETTIMEOFDAY => 13 | LAMP_SYS_CLOCK_GETRES => 14
  | LAMP_SYS_CLOCK_SETTIME => 15 | LAMP_SYS_CLOSE => 16 | LAMP_SYS_DUP => 17 | LAMP_SYS_DUP2 => 18
  | LAMP_SYS_FCNTL => 19 | LAMP_SYS_OPEN => 20 | LAMP_SYS_SOCKET => 21 | LAMP_SYS_CONNECT => 22
  | LAMP_SYS_BIND => 23 | LAMP_SYS_LISTEN => 24 | LAMP_SYS_ACCEPT => 25 | LAMP_SYS_SEND => 26
  | LAMP_SYS_RECV => 27 | LAMP_SYS_EXECVE => 28 | LAMP_SYS_VFORK => 29 | LAMP_SYS_LSEEK => 30
  | LAMP_SYS_GETPPID => 31 | LAMP_SYS_STAT => 32 | LAMP_SYS_FSTAT => 33 | LAMP_SYS_GETDENTS => 34
  | LAMP_SYS_ACCESS => 35 | LAMP_SYS_CHDIR => 36 | LAMP_SYS_GETCWD => 37 | LAMP_SYS_PIPE => 38
  | LAMP_SYS_IOCTL => 39 | LAMP_SYS_SIGACTION => 40 | LAMP_SYS_SIGPROCMASK => 41 | LAMP_SYS_KILL => 42
  | LAMP_SYS_UMASK => 43 | LAMP_SYS_RENAME => 44 | LAMP_SYS_UNLINK => 45 | LAMP_SYS_MKDIR => 46
  | LAMP_SYS_RMDIR => 47 | LAMP_SYS_LINK => 48 | LAMP_SYS_SYMLINK => 49 | LAMP_SYS_READLINK => 50
  | LAMP_SYS_SIGRETURN => 51 | LAMP_SYS_SYSINFO => 52
  end.

Definition LAMP_SYSCALL_ABI_OFF_MAGIC : Z := 0x00.
Definition LAMP_SYSCALL_ABI_OFF_VERSION : Z := 0x04.
Definition LAMP_SYSCALL_ABI_OFF_RET : Z := 0x24.
Definition LAMP_SYSCALL_ABI_OFF_ERRNO : Z := 0x28.
Definition LAMP_SYSCALL_ABI_WORDS : Z := 12.

(** The machine with the kernel in it.  [inti 0x80] hands over the number in
    [r0], the arguments in [r1] to [r6] and the block [r8] points to, and a
    call that returns goes on behind it with its results in the block.  The
    registers it returns with are not promised. *)
Class SystemMachine (K S : Type) `{Kernel K} `{Machine S} : Type := {
  kernel_of : S -> K;
  returns : K -> request -> bool;
  effect_kernel i σ σ' c : effect i (view σ) = Some c -> exec i σ = Continues σ' -> kernel_of σ' = kernel_of σ;
  inti_law σ nr m :
    let abi := regs (view σ) 8 in
    let rq := Req nr (map (regs (view σ)) [1; 2; 3; 4; 5; 6]) (rd32 m (abi + LAMP_SYSCALL_ABI_OFF_MAGIC)) (rd32 m (abi + LAMP_SYSCALL_ABI_OFF_VERSION)) in
    regs (view σ) 0 = sys_number nr -> abi mod 4 = 0 -> abi + 4 * LAMP_SYSCALL_ABI_WORDS <= 2 ^ 32 ->
    (forall x, m x = mem (view σ) x) -> returns (kernel_of σ) rq = true ->
    let '(k, m', r, e) := trap (kernel_of σ) m rq in
    exists σ', exec (INTI LAMP_IRQ_SYSCALL) σ = Continues σ' /\ kernel_of σ' = k /\
      forall x, mem (view σ') x = wr32 (wr32 m' (abi + LAMP_SYSCALL_ABI_OFF_RET) r) (abi + LAMP_SYSCALL_ABI_OFF_ERRNO) e x
}.

(** ** The code *)

(** [libc_misc.c]. *)
Definition setjmp : list instr :=
  [STORE32 30 0 0; STORE32 31 0 4;
   MOVI 1 0xF0; IN 2 1; STORE32 2 0 8;
   MOVI 1 0xF4; IN 3 1; ADD 4 2 2;
   ADD 4 4 4; ADD 4 4 4; ADD 3 3 4;
   LOAD32 4 3 0; STORE32 4 0 12; MOVI 0 0; RET].

Definition longjmp : list instr :=
  [LOAD32 30 0 0; LOAD32 31 0 4;
   LOAD32 2 0 8; LOAD32 3 0 12;
   MOVI 4 0xF4; IN 5 4; ADD 6 2 2;
   ADD 6 6 6; ADD 6 6 6; ADD 5 5 6;
   STORE32 3 5 0; MOVI 6 0; STORE32 6 5 4;
   MOV 0 1; MOVI 4 0xF0; OUT 2 4; RET].

(** [libsys.c].  The label is the place of the jump to itself. *)
Definition Llamp_signal_restorer_halt : nat := 13.
Definition lamp_signal_restorer : list instr :=
  [MOV 1 30; MOVI 0 51;
   MOVI 2 0; MOVI 3 0; MOVI 4 0; MOVI 5 0; MOVI 6 0; MOVI 8 0;
   INTI 0x80;
   MOVI 0 3; MOVI 1 127; MOVI 8 0;
   INTI 0x80;
   RJMP Llamp_signal_restorer_halt].

(** The operands [%0] to [%7] are in registers the compiler chooses, none of
    them among those the code writes. *)
Definition call6_code (operand : nat -> Z) : list instr :=
  [MOV 0 (operand 0%nat); MOV 1 (operand 1%nat); MOV 2 (operand 2%nat); MOV 3 (operand 3%nat);
   MOV 4 (operand 4%nat); MOV 5 (operand 5%nat); MOV 6 (operand 6%nat); MOV 8 (operand 7%nat);
   INTI 0x80].
Definition clobbered : list Z := [0; 1; 2; 3; 4; 5; 6; 8].

(** What the C code around it does: the two words it stores into the block,
    and the result and [libsys_errno] it reads from it. *)
Definition abi_block (m : memory) (abi : Z) : memory :=
  wr32 (wr32 m (abi + LAMP_SYSCALL_ABI_OFF_MAGIC) LAMP_SYSCALL_ABI_MAGIC) (abi + LAMP_SYSCALL_ABI_OFF_VERSION) LAMP_SYSCALL_ABI_VERSION.
Definition abi_result (m : memory) (abi : Z) : Z * Z :=
  let ret := rd32 m (abi + LAMP_SYSCALL_ABI_OFF_RET) in
  (s32 ret, if s32 ret =? -1 then s32 (rd32 m (abi + LAMP_SYSCALL_ABI_OFF_ERRNO)) else 0).

(** [tests/vm_panic.c]. *)
Definition panic_message : list Z := RegexVM.bytes "vm-panic-test: issuing an intentionally unaligned LOAD16"%string.
Definition panic_code : list instr := [MOVI 1 1; LOAD16 0 1 0].

(** ** Running it *)

Section machine.
Context {S : Type} `{Machine S}.

Fixpoint run (l : list instr) (σ : S) : outcome S :=
  match l with
  | [] => Continues σ
  | i :: l => match exec i σ with Continues σ => run l σ | Leaves => Leaves | Panics => Panics end
  end.

(** What an interrupt hands over: the number, the six arguments and the
    address of the ABI block. *)
Definition trap_words (σ : S) : list Z := map (regs (view σ)) [0; 1; 2; 3; 4; 5; 6; 8].

(** The interrupts of [n] instructions of [code] from place [i] on; [None]
    when an instruction panics or the code is left at its end. *)
Fixpoint trace (n : nat) (code : list instr) (i : nat) (σ : S) : option (list (list Z)) :=
  match n with
  | O => Some []
  | Datatypes.S n =>
      match code !! i with
      | None => None
      | Some (RJMP j) => trace n code j σ
      | Some (INTI v) =>
          match exec (INTI v) σ with
          | Continues σ' => t ← trace n code (Datatypes.S i) σ'; Some (trap_words σ :: t)
          | Leaves => Some [trap_words σ]
          | Panics => None
          end
      | Some ins => match exec ins σ with Continues σ' => trace n code (Datatypes.S i) σ' | _ => None end
      end
  end.

(** The program [tests/vm_panic.c]: [puts] and then the two instructions, on
    the machine in the state in which the call left it. *)
Definition vm_panic_main {K : Type} `{Kernel K} (fuel : nat) (literal : list Z -> Z)
    (machine_of : process K -> S) (p : process K) : option (outcome S * process K) :=
  let '(r, p) := puts fuel literal (literal panic_message) p in
  match r with Some _ => Some (run panic_code (machine_of p), p) | None => None end.

#[global] Instance set_reg_proper d v : Proper ((≡) ==> (≡)) (set_reg d v).
Proof. intros c c' (R & M & P). split; [|by split]. intros r. cbn. by rewrite R. Qed.

#[global] Instance set_port_proper p v : Proper ((≡) ==> (≡)) (set_port p v).
Proof. intros c c' (R & M & P). split; [done|split; [done|]]. intros q. cbn. by rewrite P. Qed.

Lemma rd32_proper (m m' : memory) a : (forall x, m x = m' x) -> rd32 m a = rd32 m' a.
Proof. intros E. apply rd32_ext. intros x _. apply E. Qed.

(** States that look the same change in the same way. *)
#[global] Instance effect_proper i : Proper ((≡) ==> (≡)) (effect i).
Proof.
  intros c c' E. pose proof E as (R & M & P). destruct i; cbn; rewrite <- ?R, ?(rd32_proper _ _ _ M), <- ?P;
    repeat case_match; constructor;
    try (by apply set_reg_proper); try (by apply set_port_proper).
  split; [exact R|]. split; [|exact P]. intros x. cbn. unfold wr32, wr8. rewrite !M. reflexivity.
Qed.

Lemma effects_proper l c c' d : c ≡ c' -> effects l c = Some d -> exists d', effects l c' = Some d' /\ d ≡ d'.
Proof.
  revert c c'. induction l as [|i l IH]; intros c c' E; cbn [effects]; intros Hd.
  - injection Hd as <-. eauto.
  - pose proof (effect_proper i _ _ E) as Hi. destruct (effect i c) as [e|]; [|done].
    inversion Hi as [? e' He|]; subst. cbn. eapply IH; [exact He|exact Hd].
Qed.

(** Code without jumps and interrupts does to the machine what it does to the
    view of it. *)
Lemma run_effects l σ c : effects l (view σ) = Some c -> exists σ', run l σ = Continues σ' /\ view σ' ≡ c.
Proof.
  revert σ c. induction l as [|i l IH]; intros σ c; cbn [effects run]; intros Hc.
  - injection Hc as <-. eauto.
  - destruct (effect i (view σ)) as [e|] eqn:Ei; [|done]. destruct (effect_law i σ e Ei) as (τ & -> & Eτ).
    symmetry in Eτ. destruct (effects_proper l _ _ _ Eτ Hc) as (c' & Hc' & Ec). destruct (IH τ _ Hc') as (σ' & E & Eσ).
    exists σ'. split; [exact E|]. by rewrite Eσ, Ec.
Qed.

Lemma run_app l l' σ : run (l ++ l') σ = match run l σ with Continues σ => run l' σ | o => o end.
Proof. revert σ. induction l as [|i l IH]; intros σ; cbn; [done|]. by destruct (exec i σ). Qed.
End machine.

(** ** [setjmp] and [longjmp] *)

(** What the two need of the addresses: an aligned buffer that does not wrap
    and does not overlap the entry of the call stack at [base + 8 * depth]. *)
Record jump_room (env base depth : Z) : Prop := JumpRoom {
  room_env : 0 <= env /\ env + 64 <= 2 ^ 32 /\ env mod 4 = 0;
  room_stack : 0 <= base /\ 0 <= depth /\ base + 8 * depth + 8 <= 2 ^ 32 /\ base mod 4 = 0;
  room_apart : env + 16 <= base + 8 * depth \/ base + 8 * depth + 8 <= env
}.

(** The four words [setjmp] leaves in its buffer. *)
Definition jmp_saved (m : memory) (env r30 r31 depth ra : Z) : Prop :=
  rd32 m env = r30 /\ rd32 m (env + 4) = r31 /\ rd32 m (env + 8) = depth /\ rd32 m (env + 12) = ra.

Lemma eight_times d : 0 <= d -> 8 * d < 2 ^ 32 -> u32 (u32 (u32 (d + d) + u32 (d + d)) + u32 (u32 (d + d) + u32 (d + d))) = 8 * d.
Proof. intros. rewrite (u32_small (d + d)) by lia. rewrite (u32_small (d + d + _)) by lia. rewrite u32_small by lia. lia. Qed.

Lemma mod4_add a b : a mod 4 = 0 -> b mod 4 = 0 -> ((a + b) mod 4 =? 0) = true.
Proof. intros Ha Hb. rewrite Z.add_mod, Ha, Hb by lia. done. Qed.

(** One instruction of a run. *)
Lemma effects_cons i l c d r : effect i c = Some d -> effects l d = r -> effects (i :: l) c = r.
Proof. intros E <-. cbn [effects]. by rewrite E. Qed.

Lemma effects_store x s a off l c r : u32 (regs c a + off) = x -> x mod 4 = 0 ->
  effects l (set_mem (wr32 (mem c) x (regs c s)) c) = r -> effects (STORE32 s a off :: l) c = r.
Proof. intros Ex Hx. apply effects_cons. cbn [effect]. by rewrite Ex, Hx. Qed.

Lemma effects_load x d a off l c r : u32 (regs c a + off) = x -> x mod 4 = 0 ->
  effects l (set_reg d (rd32 (mem c) x) c) = r -> effects (LOAD32 d a off :: l) c = r.
Proof. intros Ex Hx. apply effects_cons. cbn [effect]. by rewrite Ex, Hx. Qed.

(** The register an instruction writes; the others keep their values. *)
Definition written (i : instr) : option Z :=
  match i with
  | MOV d _ | MOVI d _ | ADD d _ _ | LOAD32 d _ _ | LOAD16 d _ _ | IN d _ => Some d
  | STORE32 _ _ _ | OUT _ _ | INTI _ | RET | RJMP _ => None
  end.

Lemma effects_frame l c d r : effects l c = Some d -> Forall (fun i => written i <> Some r) l -> regs d r = regs c r.
Proof.
  intros E Hl. revert c E. induction Hl as [|i l Hi _ IH]; intros c; cbn [effects]; intros E; [by injection E as <-|].
  destruct (effect i c) as [e|] eqn:Ei; [|done]. rewrite (IH e E).
  destruct i; cbn in Ei, Hi; repeat case_match; simplify_eq; cbn; try done; destruct (Z.eqb_spec r d0); congruence.
Qed.

(** No instruction of [code] writes the register at hand. *)
Ltac untouched code := unfold code; cbn [take]; repeat (apply Forall_cons_2; [intros [=]; lia|]); apply Forall_nil_2.

(** [plain_instr] runs an instruction on registers and ports. *)
Ltac plain_instr := eapply effects_cons; [reflexivity|].
Ltac plain_view := cbn [set_reg set_mem set_port regs mem ports Z.eqb Pos.eqb].

Section jumps.
Context (c : cpu) (env base depth ra : Z).
Context (Hregs : forall r, 0 <= regs c r < 2 ^ 32) (Hmem : is_memory (mem c)).
Context (Ebase : ports c CALL_BASE = base) (Hroom : jump_room env base depth) (Eenv : regs c 0 = env).

Lemma setjmp_effects : ports c CALL_DEPTH = depth -> rd32 (mem c) (base + 8 * depth) = ra ->
  exists d, effects (take 14 setjmp) c = Some d /\
    regs d 0 = 0 /\ (forall p, ports d p = ports c p) /\
    (forall x, x < env \/ env + 16 <= x -> mem d x = mem c x) /\ jmp_saved (mem d) env (regs c 30) (regs c 31) depth ra.
Proof.
  intros Edepth Era. destruct Hroom as [(He0 & He1 & Hea) (Hb0 & Hd0 & Hs & Hba) Hap].
  pose proof (rd32_range (mem c) (base + 8 * depth) Hmem) as Hra. rewrite Era in Hra.
  eexists. split.
  - apply (effects_store env); [cbn; rewrite Eenv, u32_small by lia; lia|done|].
    apply (effects_store (env + 4)); [cbn; rewrite Eenv, u32_small by lia; lia|by rewrite Z.add_mod, Hea by lia|].
    do 2 plain_instr.
    apply (effects_store (env + 8)); [cbn; rewrite Eenv, u32_small by lia; lia|by rewrite Z.add_mod, Hea by lia|].
    do 6 plain_instr. plain_view. change 240 with CALL_DEPTH. change 244 with CALL_BASE.
    rewrite Ebase, Edepth, eight_times, (u32_small (base + _)) by lia.
    apply (effects_load (base + 8 * depth)); [plain_view; rewrite u32_small; lia| |].
    { replace (8 * depth) with (2 * depth * 4) by lia. by rewrite Z_mod_plus_full. }
    apply (effects_store (env + 12)); [cbn; rewrite Eenv, u32_small by lia; lia|by rewrite Z.add_mod, Hea by lia|].
    plain_instr. reflexivity.
  - plain_view. split; [done|]. split; [done|].
    rewrite !rd32_wr32_other, Era by lia. split.
    + intros x Hx. rewrite !wr32_other by lia. done.
    + pose proof (Hregs 30). pose proof (Hregs 31).
      split; [|split; [|split]]; repeat first [rewrite rd32_wr32 by lia | rewrite rd32_wr32_other by lia]; done.
Qed.

(** [longjmp] loads them, puts the return address back in its entry, which is
    then on top, and [val] in [r0]. *)
Lemma longjmp_effects r30 r31 : 0 <= depth -> jmp_saved (mem c) env r30 r31 depth ra ->
  exists d, effects (take 16 longjmp) c = Some d /\
    regs d 0 = regs c 1 /\ regs d 30 = r30 /\ regs d 31 = r31 /\
    ports d CALL_DEPTH = depth /\ (forall p, p <> CALL_DEPTH -> ports d p = ports c p) /\
    rd32 (mem d) (base + 8 * depth) = ra /\ (forall x, x < base + 8 * depth \/ base + 8 * depth + 8 <= x -> mem d x = mem c x).
Proof.
  intros _ (E30 & E31 & Edepth & Era). destruct Hroom as [(He0 & He1 & Hea) (Hb0 & Hd0 & Hs & Hba) Hap].
  pose proof (rd32_range (mem c) (env + 12) Hmem) as Hra. rewrite Era in Hra.
  assert (forall n, (base + 8 * depth + n * 4) mod 4 = 0) as Ha.
  { intros n. replace (base + 8 * depth + n * 4) with (base + (2 * depth + n) * 4) by lia. by rewrite Z_mod_plus_full. }
  pose proof (Ha 0) as Ha0. pose proof (Ha 1) as Ha1. rewrite Z.add_0_r in Ha0.
  eexists. split.
  - apply (effects_load env); [plain_view; rewrite Eenv, u32_small by lia; lia|done|].
    apply (effects_load (env + 4)); [plain_view; rewrite Eenv, u32_small by lia; lia|by rewrite Z.add_mod, Hea by lia|].
    apply (effects_load (env + 8)); [plain_view; rewrite Eenv, u32_small by lia; lia|by rewrite Z.add_mod, Hea by lia|].
    apply (effects_load (env + 12)); [plain_view; rewrite Eenv, u32_small by lia; lia|by rewrite Z.add_mod, Hea by lia|].
    do 6 plain_instr. plain_view. change 244 with CALL_BASE. rewrite Ebase, Edepth, eight_times, (u32_small (base + _)), Era by lia.
    apply (effects_store (base + 8 * depth)); [plain_view; rewrite u32_small; lia|done|].
    plain_instr. apply (effects_store (base + 8 * depth + 4)); [plain_view; rewrite u32_small; lia|done|].
    do 3 plain_instr. reflexivity.
  - plain_view. rewrite E30, E31. do 4 (split; [done|]).
        split; [intros q Hq; by case_match; [lia|]|]. split.
    + rewrite rd32_wr32_other by lia. by apply rd32_wr32.
    + intros x Hx. by rewrite !wr32_other by lia.
Qed.
End jumps.

(** Straight code and a return through the entry on top. *)
Lemma run_ret {S : Type} `{Machine S} l σ c env base depth :
  effects l (view σ) = Some c -> jump_room env base depth -> ports c CALL_BASE = base -> ports c CALL_DEPTH = depth ->
  exists σ', run (l ++ [RET]) σ = Continues σ' /\ pc σ' = rd32 (mem c) (base + 8 * depth) /\
    (forall r, regs (view σ') r = regs c r) /\ (forall x, mem (view σ') x = mem c x) /\ ports (view σ') CALL_DEPTH = depth_below depth.
Proof.
  intros E [_ (Hb0 & Hd0 & Hs & Hba) _] Eb Ed. destruct (run_effects l σ c E) as (τ & Eτ & Rτ & Mτ & Pτ).
  assert (call_slot (view τ) = base + 8 * depth) as Eslot by (unfold call_slot; rewrite !Pτ, Eb, Ed; apply u32_small; lia).
  destruct (ret_law τ) as (σ' & E' & Epc & R & M & P).
  { rewrite Eslot. replace (8 * depth) with (2 * depth * 4) by lia. by rewrite Z_mod_plus_full. }
  exists σ'. rewrite run_app, Eτ. cbn [run]. rewrite E'. split; [done|]. split; [|split; [|split]].
  - rewrite Epc, Eslot. by apply rd32_proper.
  - intros r. by rewrite R, <- Rτ.
  - intros x. by rewrite M, <- Mτ.
  - rewrite P. cbn. by rewrite Pτ, Ed.
Qed.

(** C23: [setjmp] and [longjmp] on the separate call stack.  [setjmp] returns 0
    to its caller and changes its buffer only.  Whatever happens then, as long
    as the buffer keeps its words and the call stack its base, [longjmp] goes
    on where [setjmp] returned to, with [val] as the result (0 too), with
    [r30], [r31] and the call depth of that return, and writes nothing but the
    entry of the call stack.  The other registers above [r6] are those of the
    caller of [longjmp]: they are not restored. *)
Theorem setjmp_longjmp {S : Type} `{Machine S} (σ : S) base depth
    (Hbase : ports (view σ) CALL_BASE = base) (Hdepth : ports (view σ) CALL_DEPTH = depth)
    (Hroom : jump_room (regs (view σ) 0) base depth) :
  let env := regs (view σ) 0 in let slot := base + 8 * depth in
  exists σ1, run setjmp σ = Continues σ1 /\ regs (view σ1) 0 = 0 /\ pc σ1 = rd32 (mem (view σ)) slot /\
    (forall r, 5 <= r -> regs (view σ1) r = regs (view σ) r) /\
    (forall x, x < env \/ env + 16 <= x -> mem (view σ1) x = mem (view σ) x) /\
    forall σ2, regs (view σ2) 0 = env -> ports (view σ2) CALL_BASE = base ->
      (forall x, env <= x < env + 16 -> mem (view σ2) x = mem (view σ1) x) ->
      exists σ3, run longjmp σ2 = Continues σ3 /\ regs (view σ3) 0 = regs (view σ2) 1 /\ pc σ3 = pc σ1 /\
        regs (view σ3) 30 = regs (view σ1) 30 /\ regs (view σ3) 31 = regs (view σ1) 31 /\
        ports (view σ3) CALL_DEPTH = ports (view σ1) CALL_DEPTH /\
        (forall r, 7 <= r -> r <> 30 -> r <> 31 -> regs (view σ3) r = regs (view σ2) r) /\
        (forall x, x < slot \/ slot + 8 <= x -> mem (view σ3) x = mem (view σ2) x).
Proof.
  intros env slot. destruct (words σ) as (Hregs & Hmem & Hports).
  destruct (setjmp_effects (view σ) env base depth _ Hregs Hmem Hbase Hroom eq_refl Hdepth eq_refl) as (c & E & R0 & P & M & Hsaved).
  destruct (run_ret _ σ c env base depth E Hroom) as (σ1 & E1 & Epc & R1 & M1 & D1); [by rewrite P..|].
  assert (forall r, 5 <= r -> regs (view σ1) r = regs (view σ) r) as Hkeep.
  { intros r Hr. rewrite R1. apply (effects_frame _ _ _ _ E). untouched setjmp. }
  assert (pc σ1 = rd32 (mem (view σ)) slot) as Epc1.
  { rewrite Epc. apply rd32_ext. intros x Hx. apply M. destruct Hroom as [_ _ Hap]. fold env in Hap. lia. }
  exists σ1. split; [exact E1|]. split; [by rewrite R1|]. split; [exact Epc1|]. split; [exact Hkeep|].
  split; [intros x Hx; rewrite M1; by apply M|]. intros σ2 H0 Hb2 Hsame.
  destruct (words σ2) as (Hregs2 & Hmem2 & Hports2).
  assert (jmp_saved (mem (view σ2)) env (regs (view σ1) 30) (regs (view σ1) 31) depth (pc σ1)) as Hsaved2.
  { rewrite !Hkeep, Epc1 by lia. destruct Hsaved as (S0 & S1 & S2 & S3).
    split; [|split; [|split]]; [etrans; [|exact S0]|etrans; [|exact S1]|etrans; [|exact S2]|etrans; [|exact S3]];
      (apply rd32_ext; intros x Hx; rewrite Hsame, M1 by lia; done). }
  destruct (longjmp_effects (view σ2) env base depth _ Hmem2 Hb2 Hroom H0 _ _ ltac:(apply Hroom) Hsaved2)
    as (d & E2 & V0 & V30 & V31 & Vd & Vp & Vra & Vm).
  destruct (run_ret _ σ2 d env base depth E2 Hroom) as (σ3 & E3 & Epc3 & R3 & M3 & D3); [by rewrite Vp|done|].
  exists σ3. split; [exact E3|]. rewrite !R3, Epc3, D3, D1. do 5 (split; [done|]). split.
  - intros r Hr N30 N31. rewrite R3. apply (effects_frame _ _ _ _ E2). untouched longjmp.
  - intros x Hx. rewrite M3. by apply Vm.
Qed.

(** ** The trap and the restorer *)

(** Operands outside the registers written stay what they were until they are
    moved. *)
Lemma call6_effects operand c : (forall i, (i < 8)%nat -> operand i ∉ clobbered) -> exists d,
  effects (take 8 (call6_code operand)) c = Some d /\
  map (regs d) clobbered = map (fun i => regs c (operand i)) (seq 0 8) /\ mem d = mem c.
Proof.
  intros Hop. eexists. split; [unfold call6_code; cbn [take]; do 8 plain_instr; reflexivity|].
  split; [|done].
  assert (forall i r, (i < 8)%nat -> r ∈ clobbered -> (operand i =? r) = false) as Hne.
  { intros i r Hi Hr. apply Z.eqb_neq. intros <-. by apply (Hop i). }
  cbn [map clobbered seq]. plain_view. rewrite !Hne by (lia || (apply list_elem_of_In; cbn; tauto)). reflexivity.
Qed.

Section system.
Context {K S : Type} `{SystemMachine K S}.

Lemma run_kernel l σ c σ' : effects l (view σ) = Some c -> run l σ = Continues σ' -> kernel_of σ' = kernel_of σ.
Proof.
  revert σ c. induction l as [|i l IH]; intros σ c; cbn [effects run]; intros E Er; [by injection Er as ->|].
  destruct (effect i (view σ)) as [e|] eqn:Ei; [|done]. destruct (effect_law i σ e Ei) as (τ & Eτ & Vτ). rewrite Eτ in Er.
  symmetry in Vτ. destruct (effects_proper l _ _ _ Vτ E) as (c' & Ec' & _).
  rewrite (IH τ c' Ec' Er). exact (effect_kernel i σ τ e Ei Eτ).
Qed.
End system.

(** The trap code with its block set up: the kernel is handed the number, the
    six arguments and the block, and its answer is in the block. *)
Lemma trap_code_runs {K S : Type} `{SystemMachine K S} (σ : S) operand nr args m :
  (forall i, (i < 8)%nat -> operand i ∉ clobbered) -> length args = 6%nat ->
  let abi := regs (view σ) (operand 7%nat) in
  map (fun i => regs (view σ) (operand i)) (seq 0 7) = sys_number nr :: args ->
  abi mod 4 = 0 -> abi + 4 * LAMP_SYSCALL_ABI_WORDS <= 2 ^ 32 ->
  (forall x, mem (view σ) x = abi_block m abi x) -> returns (kernel_of σ) (abi_call nr args) = true ->
  let '(k, m', r, e) := trap (kernel_of σ) (abi_block m abi) (abi_call nr args) in
  exists σ', run (call6_code operand) σ = Continues σ' /\ kernel_of σ' = k /\
    rd32 (mem (view σ')) (abi + LAMP_SYSCALL_ABI_OFF_RET) = u32 r /\
    rd32 (mem (view σ')) (abi + LAMP_SYSCALL_ABI_OFF_ERRNO) = u32 e /\
    forall x, x < abi + LAMP_SYSCALL_ABI_OFF_RET \/ abi + LAMP_SYSCALL_ABI_OFF_ERRNO + 4 <= x -> mem (view σ') x = m' x.
Proof.
  intros Hop Hlen abi Hargs Hal Hfit Hm Hret. destruct (call6_effects operand (view σ) Hop) as (d & E & Hd & Md).
  destruct (run_effects _ σ d E) as (τ & Eτ & Rτ & Mτ & _). pose proof (run_kernel _ σ d τ E Eτ) as Kτ.
  assert (map (regs (view τ)) clobbered = sys_number nr :: args ++ [abi]) as Hregs.
  { transitivity (map (regs d) clobbered); [cbn [map clobbered]; by rewrite !Rτ|].
    rewrite Hd. change (seq 0 8) with (seq 0 7 ++ [7%nat]). by rewrite map_app, Hargs. }
  do 6 (destruct args as [|? args]; [done|]). destruct args; [|done].
  cbn [map clobbered app] in Hregs. injection Hregs as R0 R1 R2 R3 R4 R5 R6 R8.
  pose proof (inti_law τ nr (abi_block m abi)) as L. cbv zeta in L. cbn [map] in L.
  rewrite R0, R1, R2, R3, R4, R5, R6, R8, Kτ in L.
  assert (rd32 (abi_block m abi) (abi + LAMP_SYSCALL_ABI_OFF_MAGIC) = LAMP_SYSCALL_ABI_MAGIC) as Emagic.
  { unfold abi_block. rewrite rd32_wr32_other by (unfold LAMP_SYSCALL_ABI_OFF_MAGIC, LAMP_SYSCALL_ABI_OFF_VERSION; lia). by rewrite rd32_wr32_any. }
  assert (rd32 (abi_block m abi) (abi + LAMP_SYSCALL_ABI_OFF_VERSION) = LAMP_SYSCALL_ABI_VERSION) as Eversion by apply rd32_wr32_any.
  rewrite Emagic, Eversion in L. specialize (L eq_refl Hal Hfit ltac:(intros x; by rewrite Mτ, Md) Hret).
  change (Req nr _ _ _) with (abi_call nr [z; z0; z1; z2; z3; z4]) in L.
  destruct (trap (kernel_of σ) (abi_block m abi) _) as [[[k m'] r] e].
  destruct L as (σ' & Eσ' & Kσ' & Mσ'). exists σ'. unfold LAMP_SYSCALL_ABI_OFF_RET, LAMP_SYSCALL_ABI_OFF_ERRNO in *.
  split; [|split; [exact Kσ'|split; [|split]]].
  - change (call6_code operand) with (take 8 (call6_code operand) ++ [INTI LAMP_IRQ_SYSCALL]). rewrite run_app, Eτ. cbn [run]. by rewrite Eσ'.
  - rewrite (rd32_proper _ _ _ Mσ'), rd32_wr32_other by lia. apply rd32_wr32_any.
  - rewrite (rd32_proper _ _ _ Mσ'). apply rd32_wr32_any.
  - intros x Hx. rewrite Mσ', !wr32_other by lia. done.
Qed.

(** C22: the assembly of [libsys_call6] is the call of [Syscall].  With the
    operands in registers the code does not write and the block set up as the
    C code before it does, the moves and the interrupt hand the kernel the
    number, the six arguments and the block; what the C code behind it reads
    from the block is the result and the [libsys_errno] of
    [Syscall.libsys_call6], with the kernel in the same state and the memory
    the same but for the two words of the block. *)
Theorem libsys_call6_refines {K S : Type} `{SystemMachine K S} (σ : S) operand nr a0 a1 a2 a3 a4 a5 m err lerr
    (Hop : forall i, (i < 8)%nat -> operand i ∉ clobbered) :
  let abi := regs (view σ) (operand 7%nat) in
  let args := [u32 a0; u32 a1; u32 a2; u32 a3; u32 a4; u32 a5] in
  map (fun i => regs (view σ) (operand i)) (seq 0 7) = sys_number nr :: args ->
  abi mod 4 = 0 -> abi + 4 * LAMP_SYSCALL_ABI_WORDS <= 2 ^ 32 ->
  (forall x, mem (view σ) x = abi_block m abi x) -> returns (kernel_of σ) (abi_call nr args) = true ->
  let '(r, p) := libsys_call6 nr a0 a1 a2 a3 a4 a5 (Proc (kernel_of σ) (abi_block m abi) err lerr) in
  exists σ', run (call6_code operand) σ = Continues σ' /\ kernel_of σ' = p_kernel p /\
    abi_result (mem (view σ')) abi = (r, libsys_errno p) /\
    forall x, x < abi + LAMP_SYSCALL_ABI_OFF_RET \/ abi + LAMP_SYSCALL_ABI_OFF_ERRNO + 4 <= x -> mem (view σ') x = p_mem p x.
Proof.
  intros abi args Hargs Hal Hfit Hm Hret. pose proof (trap_code_runs σ operand nr args m Hop eq_refl Hargs Hal Hfit Hm Hret) as L. fold abi in L.
  unfold libsys_call6. cbn [p_kernel p_mem errno]. fold args. destruct (trap (kernel_of σ) (abi_block m abi) (abi_call nr args)) as [[[k m'] r] e].
  destruct L as (σ' & E & Hk & Er & Ee & Hout). exists σ'. split; [exact E|]. split; [exact Hk|]. split; [|exact Hout].
  unfold abi_result. by rewrite Er, Ee, !s32_u32.
Qed.

(** The interrupts of code that starts with straight instructions. *)
Lemma trace_straight {S : Type} `{Machine S} l code i n σ c :
  effects l (view σ) = Some c -> (forall k ins, l !! k = Some ins -> code !! (i + k)%nat = Some ins) ->
  exists τ, run l σ = Continues τ /\ view τ ≡ c /\ trace (length l + n) code i σ = trace n code (i + length l) τ.
Proof.
  revert i σ c. induction l as [|ins l IH]; intros i σ c; cbn [effects run length Nat.add]; intros E Hcode.
  - injection E as <-. exists σ. by rewrite Nat.add_0_r.
  - destruct (effect ins (view σ)) as [e|] eqn:Ei; [|done]. destruct (effect_law ins σ e Ei) as (τ & Eτ & Vτ).
    symmetry in Vτ. destruct (effects_proper l _ _ _ Vτ E) as (c' & Ec' & Ecc).
    destruct (IH (Datatypes.S i) τ c' Ec') as (τ' & Er & Vr & Et).
    { intros k ins' Hk. replace (Datatypes.S i + k)%nat with (i + Datatypes.S k)%nat by lia. by apply Hcode. }
    exists τ'. rewrite Eτ. split; [exact Er|]. split; [by rewrite Vr, Ecc|].
    replace (i + Datatypes.S (length l))%nat with (Datatypes.S i + length l)%nat by lia. rewrite <- Et. cbn [trace].
    pose proof (Hcode 0%nat ins eq_refl) as H0. rewrite Nat.add_0_r in H0. rewrite H0, Eτ. by destruct ins.
Qed.

Lemma trace_interrupt {S : Type} `{Machine S} n code i v (σ : S) : code !! i = Some (INTI v) ->
  trace (Datatypes.S n) code i σ =
    match exec (INTI v) σ with
    | Continues τ => t ← trace n code (i + 1) τ; Some (trap_words σ :: t)
    | Leaves => Some [trap_words σ]
    | Panics => None
    end.
Proof. intros Hi. cbn [trace]. rewrite Hi. by rewrite Nat.add_1_r. Qed.

(** The jump to itself makes no more interrupts. *)
Lemma halt_trace {S : Type} `{Machine S} n (σ : S) : trace n lamp_signal_restorer Llamp_signal_restorer_halt σ = Some [].
Proof. induction n as [|n IH]; [done|]. exact IH. Qed.

(** C28: [__lamp_signal_restorer] never runs off its code.  Entered with the
    signal frame in [r30] it makes one interrupt, [sigreturn] of that frame
    with no other argument and no ABI block; if the kernel comes back from it,
    whatever it left in the registers, exactly one more, [exit] with 127, and
    then, if the kernel comes back even from that, none: it stays where it is. *)
Theorem restorer_requests {S : Type} `{Machine S} (σ : S) n (Hn : (14 <= n)%nat) :
  let request := [sys_number LAMP_SYS_SIGRETURN; regs (view σ) 30; 0; 0; 0; 0; 0; 0] in
  exists σ1, trap_words σ1 = request /\ (forall x, mem (view σ1) x = mem (view σ) x) /\
    ((exec (INTI LAMP_IRQ_SYSCALL) σ1 = Leaves /\ trace n lamp_signal_restorer 0 σ = Some [request]) \/
     exists σ2, exec (INTI LAMP_IRQ_SYSCALL) σ1 = Continues σ2 /\ exists a b c d e,
       trace n lamp_signal_restorer 0 σ = Some [request; [sys_number LAMP_SYS_EXIT; 127; a; b; c; d; e; 0]]).
Proof.
  intros request. destruct (trace_straight (take 8 lamp_signal_restorer) lamp_signal_restorer 0 (n - 8) σ _ eq_refl) as (σ1 & _ & (R1 & M1 & _) & E1).
  { intros k ins Hk. cbn [Nat.add]. by apply lookup_take_Some in Hk as [? _]. }
  replace (length (take 8 lamp_signal_restorer) + (n - 8))%nat with n in E1 by (cbn; lia).
  exists σ1. assert (trap_words σ1 = request) as Ew by (unfold trap_words; cbn [map]; by rewrite !R1).
  split; [exact Ew|]. split; [exact M1|]. rewrite E1.
  replace (n - 8)%nat with (Datatypes.S (3 + (n - 12))) by lia.
  change (0 + length (take 8 lamp_signal_restorer))%nat with 8%nat. rewrite (trace_interrupt _ lamp_signal_restorer 8 LAMP_IRQ_SYSCALL σ1 eq_refl).
  destruct (exec (INTI LAMP_IRQ_SYSCALL) σ1) as [σ2| |] eqn:Ex; [right|left|by destruct (interrupt_law _ _ Ex)]; [|by rewrite Ew].
  exists σ2. split; [done|].
  destruct (trace_straight (take 3 (drop 9 lamp_signal_restorer)) lamp_signal_restorer 9 (n - 12) σ2 _ eq_refl) as (σ3 & _ & (R3 & _) & E3).
  { intros k ins Hk. apply lookup_take_Some in Hk as [Hk _]. by rewrite lookup_drop in Hk. }
  change (length _ + (n - 12))%nat with (3 + (n - 12))%nat in E3. change (8 + 1)%nat with 9%nat. rewrite E3. change (9 + length _)%nat with 12%nat.
  replace (n - 12)%nat with (Datatypes.S (n - 13)) by lia. rewrite (trace_interrupt _ lamp_signal_restorer 12 LAMP_IRQ_SYSCALL σ3 eq_refl), Ew.
  assert (trap_words σ3 = 3 :: 127 :: map (regs (view σ3)) [2; 3; 4; 5; 6] ++ [0]) as Ew3 by (unfold trap_words; cbn [map app]; by rewrite !R3).
  rewrite Ew3. destruct (exec (INTI LAMP_IRQ_SYSCALL) σ3) as [σ4| |] eqn:Ex3; [|by repeat eexists|by destruct (interrupt_law _ _ Ex3)].
  change (12 + 1)%nat with Llamp_signal_restorer_halt. rewrite halt_trace. by repeat eexists.
Qed.

(** [tests/vm_panic.c] shows its message on the terminal and then stops the
    machine: it loads two bytes from address 1. *)
Theorem vm_panic_panics {K S : Type} `{TerminalKernel K} `{Machine S} fuel literal (machine_of : process K -> S) (p : process K)
    (Hlit : literals_ok fuel literal (p_mem p)) (Hmsg : string_at fuel (p_mem p) (literal panic_message) panic_message) :
  exists p', vm_panic_main fuel literal machine_of p = Some (Panics, p') /\ shown p p' 1 (panic_message ++ [10]).
Proof.
  destruct (puts_shown fuel literal p _ _ Hlit Hmsg) as (p' & E & Hp'). exists p'. split; [|exact Hp'].
  unfold vm_panic_main. rewrite E. do 2 f_equal.
  destruct (effect_law (MOVI 1 1) (machine_of p') _ eq_refl) as (τ & Eτ & R & _). unfold panic_code. cbn [run]. rewrite Eτ.
  rewrite (unaligned_law 0 1 0 τ); [done|]. by rewrite R.
Qed.

(** ** A machine with these laws *)

(** Its view is wrapped to the widths of the machine; a call of its kernel
    other than [getpid] fails. *)
Definition norm (c : cpu) : cpu := Cpu (fun r => u32 (regs c r)) (fun x => u8 (mem c x)) (fun p => u32 (ports c p)).

Record in_width (c : cpu) : Prop := InWidth {
  width_regs r : 0 <= regs c r < 2 ^ 32;
  width_mem : is_memory (mem c);
  width_ports p : 0 <= ports c p < 2 ^ 32
}.

Lemma norm_in_width c : in_width (norm c).
Proof. split; intros ?; cbn; [apply u32_range|apply u8_range|apply u32_range]. Qed.

Lemma norm_id c : in_width c -> norm c ≡ c.
Proof. intros [R M P]. repeat split; intros x; cbn; [apply u32_small|apply u8_small|apply u32_small]; auto. Qed.

Lemma set_reg_width d v c : 0 <= v < 2 ^ 32 -> in_width c -> in_width (set_reg d v c).
Proof. intros Hv [R M P]. split; [|done..]. intros r. cbn. case_match; auto. Qed.

Lemma store_width a v c : in_width c -> in_width (set_mem (wr32 (mem c) a v) c).
Proof. intros [R M P]. split; [done| |done]. by apply wr32_memory. Qed.

Lemma set_port_width p v c : 0 <= v < 2 ^ 32 -> in_width c -> in_width (set_port p v c).
Proof. intros Hv [R M P]. split; [done..|]. intros q. cbn. case_match; auto. Qed.

Lemma effect_width i c d : in_width c -> effect i c = Some d -> in_width d.
Proof.
  intros W. pose proof W as [R M P]. destruct i; cbn; intros E; repeat case_match; simplify_eq;
    first [apply set_reg_width | apply store_width | apply set_port_width]; auto using u32_range, rd32_range; lia.
Qed.

Record box : Type := Box { box_cpu : cpu; box_pc : Z }.

#[local] Instance clerk : Kernel unit := fun k m rq =>
  if bool_decide (rq_nr rq = LAMP_SYS_GETPID) then (k, m, 7, 0) else (k, m, 2 ^ 32 - 1, EINVAL).

Definition box_trap (c : cpu) : cpu :=
  let abi := regs c 8 in
  let '(r, e) := if regs c 0 =? 0 then (7, 0) else (2 ^ 32 - 1, EINVAL) in
  let c := set_mem (wr32 (mem c) (abi + LAMP_SYSCALL_ABI_OFF_RET) r) c in
  set_mem (wr32 (mem c) (abi + LAMP_SYSCALL_ABI_OFF_ERRNO) e) c.

Definition box_exec (i : instr) (σ : box) : outcome box :=
  let c := norm (box_cpu σ) in
  match effect i c with
  | Some d => Continues (Box d (box_pc σ + 4))
  | None =>
      match i with
      | RET => Continues (Box (set_port CALL_DEPTH (u32 (ports c CALL_DEPTH - 1)) c) (rd32 (mem c) (call_slot c)))
      | INTI _ => if (regs c 0 =? 3) || (regs c 0 =? 51) then Leaves else Continues (Box (box_trap c) (box_pc σ + 4))
      | _ => Panics
      end
  end.

#[local, refine] Instance box_machine : Machine box :=
  {| view σ := norm (box_cpu σ); pc := box_pc; exec := box_exec; depth_below d := u32 (d - 1) |}.
Proof.
  - intros σ. by destruct (norm_in_width (box_cpu σ)) as [R M P].
  - intros i σ c E. eexists. unfold box_exec. rewrite E. split; [done|]. apply norm_id. exact (effect_width i _ c (norm_in_width _) E).
  - intros σ _. eexists. unfold box_exec. cbn [effect]. do 2 (split; [done|]).
    apply norm_id, set_port_width; [apply u32_range|apply norm_in_width].
  - intros d a off σ _. done.
  - intros v σ. unfold box_exec. cbn [effect]. by case_match.
Defined.

#[local, refine] Instance box_system : SystemMachine unit box :=
  {| kernel_of _ := tt;
     returns _ rq := negb (bool_decide (rq_nr rq = LAMP_SYS_EXIT) || bool_decide (rq_nr rq = LAMP_SYS_SIGRETURN)) |}.
Proof.
  - done.
  - intros σ nr m abi rq E0 Hal Hfit Hm Hret.
    assert (trap tt m rq = (tt, m, if regs (view σ) 0 =? 0 then 7 else 2 ^ 32 - 1, if regs (view σ) 0 =? 0 then 0 else EINVAL)) as ->
      by (rewrite E0; by destruct nr).
    eexists. split; [|split; [done|]].
    + cbn [exec box_machine]. unfold box_exec. cbn [effect]. change (norm (box_cpu σ)) with (view σ). rewrite E0.
      destruct nr; try discriminate Hret; reflexivity.
    + assert (in_width (box_trap (view σ))) as W.
      { unfold box_trap. case_match. do 2 apply store_width. apply norm_in_width. }
      intros x. cbn [view box_machine box_cpu]. destruct (norm_id _ W) as (_ & M & _). rewrite M. unfold box_trap.
      change (view σ) with (norm (box_cpu σ)) in Hm, abi |- *. destruct (regs (norm (box_cpu σ)) 0 =? 0); cbn [mem set_mem]; cbn [regs set_mem]; unfold wr32, wr8; rewrite Hm; fold abi; reflexivity.
Defined.

(** [setjmp] called at depth 3 from 0x1234, then [longjmp] with 5 from depth 9
    with other registers. *)
Definition caller : box :=
  Box (Cpu (fun r => if r =? 0 then 1000 else 7000 + r) (wr32 (fun _ => 0) 4120 0x1234)
           (fun p => if p =? CALL_BASE then 4096 else if p =? CALL_DEPTH then 3 else 0)) 0.
Definition deeper (σ : box) : box :=
  Box (Cpu (fun r => if r =? 0 then 1000 else if r =? 1 then 5 else 0) (mem (view σ))
           (fun p => if p =? CALL_BASE then 4096 else if p =? CALL_DEPTH then 9 else 0)) 0.

Lemma setjmp_longjmp_witness : exists σ1 σ3, run setjmp caller = Continues σ1 /\ regs (view σ1) 0 = 0 /\ pc σ1 = 0x1234 /\
  run longjmp (deeper σ1) = Continues σ3 /\ regs (view σ3) 0 = 5 /\ pc σ3 = 0x1234 /\ regs (view σ3) 30 = 7030.
Proof.
  assert (ports (view caller) CALL_BASE = 4096 /\ ports (view caller) CALL_DEPTH = 3) as [Hb Hd] by (split; vm_compute; reflexivity).
  destruct (setjmp_longjmp caller 4096 3 Hb Hd) as (σ1 & E1 & Z1 & Epc & Hkeep & _ & Hjump).
  { vm_compute. repeat split; try discriminate. by left. }
  assert (regs (view (deeper σ1)) 0 = regs (view caller) 0 /\ ports (view (deeper σ1)) CALL_BASE = 4096) as [H0 Hb2] by (split; vm_compute; reflexivity).
  destruct (Hjump (deeper σ1) H0 Hb2) as (σ3 & E3 & Z3 & Epc3 & R30 & _).
  { intros x _. cbn. by rewrite !u8_small by (try apply u8_range; lia). }
  assert (rd32 (mem (view caller)) (4096 + 8 * 3) = 0x1234 /\ regs (view caller) 30 = 7030) as [Era E30] by (split; vm_compute; reflexivity).
  assert (regs (view (deeper σ1)) 1 = 5) as E5 by (vm_compute; reflexivity).
  rewrite Era in Epc. rewrite E5 in Z3. rewrite Hkeep, E30 in R30 by lia. rewrite Epc in Epc3.
  exists σ1, σ3. do 6 (split; [assumption|]). assumption.
Defined.

(** [getpid] with its block at 2048 and the operands in [r10] to [r17]. *)
Definition asking : box :=
  Box (Cpu (fun r => if r =? 17 then 2048 else 0) (abi_block (fun _ => 0) 2048) (fun _ => 0)) 0.

Lemma libsys_call6_refines_witness : exists σ', run (call6_code (fun i => 10 + Z.of_nat i)) asking = Continues σ' /\
  abi_result (mem (view σ')) 2048 = (7, 0).
Proof.
  destruct (libsys_call6_refines asking (fun i => 10 + Z.of_nat i) LAMP_SYS_GETPID 0 0 0 0 0 0 (fun _ => 0) 0 0) as (σ' & E & _ & R & _).
  - intros i Hi Hin. apply list_elem_of_In in Hin. cbn in Hin. lia.
  - reflexivity.
  - reflexivity.
  - by vm_compute.
  - intros x. cbn [view box_machine asking box_cpu norm mem]. apply u8_small. unfold abi_block, wr32, wr8.
    repeat case_match; first [apply u8_range | lia].
  - reflexivity.
  - exists σ'. split; [exact E|exact R].
Defined.

(** A successful [sigreturn]: one interrupt. *)
Lemma restorer_requests_witness : exists σ1, trap_words σ1 = [51; 7030; 0; 0; 0; 0; 0; 0] /\
  exec (INTI LAMP_IRQ_SYSCALL) σ1 = Leaves (S := box).
Proof.
  destruct (restorer_requests caller 14 ltac:(lia)) as (σ1 & Ew & _ & H). exists σ1. split; [exact Ew|].
  destruct H as [[H _]|(σ2 & H & _)]; [exact H|].
  assert (regs (view σ1) 0 = 51) as E0 by by injection Ew.
  cbn in H, E0. unfold box_exec in H. cbn [effect] in H. cbn [norm regs] in H. rewrite E0 in H. discriminate H.
Defined.
