(* ===== verification/LegacyHeap.v ===== *)
(** * The allocator of the single-file library: [lib/libc_compat.c]

    [malloc] takes the next bytes of the array and writes the size in front
    of them; [free] does nothing.  Memory and the abstract heap are those of
    [Heap] and [HeapClaims]: the two allocators implement one specification. *)

From stdpp Require Import gmap.
From S2P Require Import Prelude Heap HeapClaims Regex RegexCompile.

Record lheap : Type := LHeap { l_mem : memory; g_heap_used : Z; l_errno : Z }.

Definition lheap_initial : lheap := LHeap (fun _ => 0) 0 0.

Section heap.
Context (g_heap : Z).

(** [sizeof(size_t)] is 4. *)
Definition malloc (h : lheap) (size : Z) : lheap * Z :=
  let size := align4 (if truthy size then size else 1) in
  let total := align4 (u32 (size + 4)) in
  if HEAP_SIZE <? u32 (g_heap_used h + total) then (LHeap (l_mem h) (g_heap_used h) ENOMEM, 0)
  else
    let raw := g_heap + g_heap_used h in
    (LHeap (wr32 (l_mem h) raw size) (u32 (g_heap_used h + total)) (l_errno h), raw + 4).

Definition free (h : lheap) (ptr : Z) : lheap := h.

Definition calloc (h : lheap) (nmemb size : Z) : lheap * Z :=
  let total := u32 (nmemb * size) in
  let '(h, p) := malloc h total in
  (if truthy p then LHeap (memset_bytes (l_mem h) p 0 total) (g_heap_used h) (l_errno h) else h, p).

Definition realloc (h : lheap) (ptr size : Z) : lheap * Z :=
  let '(h, p) := malloc h size in
  if truthy p && truthy ptr then
    let old_size := rd32 (l_mem h) (ptr - 4) in
    let copy := if old_size <? size then old_size else size in
    (LHeap (memcpy_bytes (l_mem h) p ptr copy) (g_heap_used h) (l_errno h), p)
  else (h, p).

(** ** The simulation *)

Definition lset (h : lheap) (m : memory) : lheap := LHeap m (g_heap_used h) (l_errno h).

Definition run_call (h : lheap) (c : call) : lheap * Z :=
  match c with
  | Malloc n => malloc h n
  | Calloc a b => calloc h a b
  | Realloc p n => realloc h p n
  | Free p => (free h p, 0)
  | Read p i => (h, l_mem h (p + Z.of_nat i))
  | Write p i v => (lset h (wr8 (l_mem h) (p + Z.of_nat i) v), 0)
  end.

(** The size word in front of a pointer. *)
Definition size_word (m : memory) (p : Z) : Z := rd32 m (p - 4).

(** [p] holds [c], in a block of its own below the first unused byte. *)
Definition block_at (h : lheap) (p : Z) (c : list Z) : Prop :=
  g_heap + 4 <= p /\ Z.of_nat (length c) <= size_word (l_mem h) p /\
  p + size_word (l_mem h) p <= g_heap + g_heap_used h /\ holds (l_mem h) p c.

Definition apart (m : memory) (p q : Z) : Prop :=
  p + size_word m p <= q - 4 \/ q + size_word m q <= p - 4.

Definition lrep (h : lheap) (A : pointers) : Prop :=
  0 < g_heap /\ g_heap + HEAP_SIZE < 2 ^ 32 /\ 0 <= g_heap_used h <= HEAP_SIZE /\
  (forall p c, A !! p = Some c -> block_at h p c) /\
  (forall p q c d, A !! p = Some c -> A !! q = Some d -> p <> q -> apart (l_mem h) p q).

(** Sizes so close to 2^32 that the sum with the bytes in use wraps pass the
    test of [malloc]. *)
Definition no_wrap (n : Z) : Prop := 0 <= n < 2 ^ 32 - 2 ^ 19.

(** What this allocator gets wrong is left out: such sizes, a product that
    overflows, and [realloc] to size 0, which allocates. *)
Definition legacy_allowed (A : pointers) (c : call) : Prop :=
  allowed A c /\
  match c with
  | Malloc n => no_wrap n
  | Calloc a b => no_wrap (a * b)
  | Realloc p n => no_wrap n /\ (p = 0 \/ n <> 0)
  | _ => True
  end.

(** Memory may change in bytes no allocation and no size word uses. *)
Lemma block_at_ext h h' p c : block_at h p c ->
  (forall x, p - 4 <= x < p + size_word (l_mem h) p -> l_mem h' x = l_mem h x) ->
  0 <= size_word (l_mem h) p -> g_heap_used h <= g_heap_used h' -> block_at h' p c /\ size_word (l_mem h') p = size_word (l_mem h) p.
Proof.
  intros (Hp & Hl & Hu & Hh) Hm H0 Hused.
  assert (size_word (l_mem h') p = size_word (l_mem h) p) as E by (apply rd32_ext; intros x Hx; apply Hm; lia).
  split; [|done]. split; [done|]. rewrite E. split; [done|]. split; [lia|].
  intros i v Ei. rewrite Hm; [by apply Hh|]. apply lookup_lt_Some in Ei. lia.
Qed.

Lemma total_size n : no_wrap n -> let w := align4 (if truthy n then n else 1) in
  n <= w /\ 4 <= w /\ w < 2 ^ 32 - 2 ^ 19 + 4 /\ align4 (u32 (w + 4)) = w + 4.
Proof.
  intros Hn w. unfold no_wrap in Hn. unfold w.
  assert (0 < (if truthy n then n else 1) /\ n <= (if truthy n then n else 1) < 2 ^ 32 - 2 ^ 19) as [H1 H2]
    by (unfold truthy; destruct (Z.eqb_spec n 0); cbn [negb]; lia).
  set (k := if truthy n then n else 1) in *. rewrite (align4_spec k) by lia.
  assert (k <= 4 * ((k + 3) / 4) <= k + 3) by (Z.to_euclidean_division_equations; lia).
  split; [lia|]. split; [Z.to_euclidean_division_equations; lia|]. split; [Z.to_euclidean_division_equations; lia|].
  rewrite u32_small by lia. apply align4_id; [lia|]. Z.to_euclidean_division_equations. lia.
Qed.

Lemma block_at_size h p c : block_at h p c -> 0 <= size_word (l_mem h) p.
Proof. intros (_ & Hl & _). lia. Qed.

(** A new block [r] with its size word, above everything in use. *)
Lemma new_block h A h' r w m n : lrep h A -> 0 <= n <= w -> 0 < w ->
  r = g_heap + g_heap_used h + 4 -> g_heap_used h' = g_heap_used h + (w + 4) -> g_heap_used h' <= HEAP_SIZE ->
  size_word m r = w ->
  (forall x, x < g_heap + g_heap_used h -> m x = l_mem h x) ->
  let new := bytes_at m r (Z.to_nat n) in fresh A r new /\ lrep (lset h' m) (<[r := new]> A).
Proof.
  intros (Hg & Hfit & Hused & Hb & Hap) Hn Hw Er Eu Hu Es Hm new.
  assert (length new = Z.to_nat n) as Hlen by apply bytes_at_length.
  assert (forall p c, A !! p = Some c -> block_at (lset h' m) p c /\ size_word m p = size_word (l_mem h) p /\
    p + size_word (l_mem h) p <= r - 4) as Hold.
  { intros p c E. pose proof (Hb p c E) as Hp. pose proof Hp as (_ & _ & Hend & _).
    destruct (block_at_ext h (lset h' m) p c Hp) as [Hp' Es']; [cbn; intros x Hx; apply Hm; lia|by eapply block_at_size|cbn; lia|].
    split; [done|]. split; [done|lia]. }
  split; [split; [lia|split]|].
  - destruct (A !! r) as [c|] eqn:E; [|done]. destruct (Hold r c E) as (Hr & _ & Hlt).
    pose proof (block_at_size _ _ _ (Hb r c E)). lia.
  - intros q d E. right. destruct (Hold q d E) as (_ & _ & Hlt). destruct (Hb q d E) as (_ & ? & _). lia.
  - split; [done|]. split; [done|]. split; [cbn; lia|]. split.
    + intros p c [[<- <-]|[Hne E]]%lookup_insert_Some; [|by apply Hold].
      split; [lia|]. cbn [lset l_mem g_heap_used]. rewrite Es, Hlen. split; [lia|]. split; [lia|]. apply bytes_at_holds.
    + cbn [lset l_mem]. intros p q c d [[<- <-]|[Hp Ep]]%lookup_insert_Some [[<- <-]|[Hq Eq]]%lookup_insert_Some Hne; [done|..].
      * destruct (Hold q d Eq) as (_ & E2 & Hlt). right. lia.
      * destruct (Hold p c Ep) as (_ & E2 & Hlt). left. lia.
      * destruct (Hold p c Ep) as (_ & Ep2 & _), (Hold q d Eq) as (_ & Eq2 & _).
        unfold apart. rewrite Ep2, Eq2. exact (Hap p q c d Ep Eq Hne).
Qed.

(** [malloc] as the client sees it; [m] may set the new block's bytes. *)
Lemma malloc_lrep h A n : lrep h A -> no_wrap n -> exists h' r, malloc h n = (h', r) /\
  (r = 0 /\ lrep h' A \/
   r <> 0 /\ n <= HEAP_SIZE /\ r = g_heap + g_heap_used h + 4 /\ g_heap_used h + 8 <= g_heap_used h' /\
     (forall x, x < g_heap + g_heap_used h -> l_mem h' x = l_mem h x) /\
     forall m, (forall x, ~ (r <= x < r + n) -> m x = l_mem h' x) ->
       let new := bytes_at m r (Z.to_nat n) in fresh A r new /\ lrep (lset h' m) (<[r := new]> A)).
Proof.
  intros Hrep Hn. pose proof Hrep as (Hg & Hfit & Hused & Hb & Hap).
  unfold malloc. destruct (total_size n Hn) as (Hw & Hw0 & Hwb & ->).
  set (w := align4 _) in *. unfold HEAP_SIZE in *. rewrite u32_small by lia.
  destruct (Z.ltb_spec (256 * 1024) (g_heap_used h + (w + 4))) as [Hbig|Hroom].
  { do 2 eexists. split; [done|]. left. split; [done|]. done. }
  do 2 eexists. split; [done|]. right. cbn [l_mem g_heap_used]. split; [lia|]. split; [lia|]. split; [lia|]. split; [lia|].
  split; [intros x Hx; apply wr32_other; lia|]. intros m Hm. unfold no_wrap in Hn.
  apply (new_block h A _ _ w); try done; try lia; cbn [g_heap_used]; try (unfold HEAP_SIZE; lia).
  - unfold size_word. rewrite (rd32_ext (wr32 (l_mem h) (g_heap + g_heap_used h) w)) by (intros x Hx; apply Hm; lia).
    replace (g_heap + g_heap_used h + 4 - 4) with (g_heap + g_heap_used h) by lia. apply rd32_wr32. lia.
  - intros x Hx. rewrite Hm by lia. apply wr32_other. lia.
Qed.
Lemma lset_id h : lset h (l_mem h) = h.
Proof. by destruct h. Qed.

Lemma lrep_delete h A p : lrep h A -> lrep h (delete p A).
Proof.
  intros (Hg & Hfit & Hused & Hb & Hap). split; [done|]. split; [done|]. split; [done|]. split.
  - intros q c [_ E]%lookup_delete_Some. by apply Hb.
  - intros q q' c d [_ E]%lookup_delete_Some [_ E']%lookup_delete_Some. by apply (Hap q q' c d).
Qed.

Lemma legacy_malloc_sim h A n : lrep h A -> no_wrap n -> exists h' r A',
  malloc h n = (h', r) /\ alloc_spec A r n (fun _ => True) A' /\ lrep h' A' /\
  g_heap_used h <= g_heap_used h' /\ (r <> 0 -> g_heap_used h + 8 <= g_heap_used h').
Proof.
  intros Hrep Hn. destruct (malloc_lrep h A n Hrep Hn) as (h' & r & E & [(-> & Hr)|(Hr0 & _ & _ & Hu & _ & Hm)]).
  - exists h', 0, A. split; [done|]. split; [by left|]. split; [done|]. split; [|done].
    unfold malloc in E. destruct (_ <? _); injection E as <-; cbn [g_heap_used]; [lia|].
    destruct Hrep as (? & ? & ? & _). lia.
  - destruct (Hm (l_mem h')) as [Hf Hr]; [done|]. rewrite lset_id in Hr.
    do 3 eexists. split; [exact E|]. split; [right; eexists; split; [|split; [exact Hf|done]]|split; [exact Hr|lia]].
    rewrite bytes_at_length. unfold no_wrap in Hn. lia.
Qed.

Lemma legacy_calloc_sim h A a b : lrep h A -> 0 <= a * b -> no_wrap (a * b) -> exists h' r A',
  calloc h a b = (h', r) /\ alloc_spec A r (a * b) (Forall (fun v => v = 0)) A' /\ lrep h' A' /\
  g_heap_used h <= g_heap_used h' /\ (r <> 0 -> g_heap_used h + 8 <= g_heap_used h').
Proof.
  intros Hrep H0 Hn. pose proof Hn as Hn'. unfold no_wrap in Hn'. unfold calloc. rewrite u32_small by lia.
  destruct (malloc_lrep h A (a * b) Hrep Hn) as (h' & r & E & [(-> & Hr)|(Hr0 & _ & _ & Hu & _ & Hm)]).
  - destruct (legacy_malloc_sim h A (a * b) Hrep Hn) as (h2 & r2 & A2 & E2 & _ & _ & Hmono & _).
    rewrite E in E2 |- *. injection E2 as <- <-. exists h', 0, A. split; [done|]. split; [by left|]. done.
  - rewrite E. assert (truthy r = true) as -> by (unfold truthy; by destruct (Z.eqb_spec r 0)).
    destruct (Hm (memset_bytes (l_mem h') r 0 (a * b))) as [Hf Hr].
    { intros x Hx. unfold memset_bytes. destruct (Z.leb_spec r x), (Z.ltb_spec x (r + a * b)); try done. lia. }
    do 3 eexists. split; [reflexivity|]. split; [|split; [exact Hr|cbn; lia]].
    right. eexists. split; [|split; [exact Hf|split; [|done]]]; [rewrite bytes_at_length; lia|].
    apply Forall_lookup. intros i v Ev. pose proof (lookup_lt_Some _ _ _ Ev) as Hi. rewrite bytes_at_length in Hi.
    rewrite bytes_at_lookup in Ev by done. injection Ev as <-. unfold memset_bytes.
    destruct (Z.leb_spec r (r + Z.of_nat i)), (Z.ltb_spec (r + Z.of_nat i) (r + a * b)); (done || lia).
Qed.

Lemma legacy_realloc_sim h A p n : lrep h A -> p = 0 \/ is_Some (A !! p) -> no_wrap n -> p = 0 \/ n <> 0 -> exists h' r A',
  realloc h p n = (h', r) /\ spec A (Realloc p n) r A' /\ lrep h' A' /\
  g_heap_used h <= g_heap_used h' /\ (r <> 0 -> g_heap_used h + 8 <= g_heap_used h').
Proof.
  intros Hrep Hp Hn Hpn. unfold realloc, spec.
  destruct (legacy_malloc_sim h A n Hrep Hn) as (h2 & r2 & A2 & E2 & Hs2 & Hr2 & Hmono & Hgrow).
  destruct (malloc_lrep h A n Hrep Hn) as (h' & r & E & D). rewrite E in E2. injection E2 as <- <-. rewrite E.
  destruct (Z.eqb_spec p 0) as [->|Hp0]; [rewrite andb_false_r; eauto 10|].
  destruct Hpn as [?|Hn0]; [done|]. destruct Hp as [?|[old Eo]]; [done|]. destruct (Z.eqb_spec n 0); [done|].
  destruct D as [(-> & Hr)|(Hr0 & _ & Er & Hu & Hkeep & Hm)].
  { exists h', 0, A. split; [done|]. split; [by left|]. done. }
  assert (truthy r && truthy p = true) as ->
    by (unfold truthy; destruct (Z.eqb_spec r 0), (Z.eqb_spec p 0); done).
  destruct Hrep as (Hg & Hfit & Hused & Hb & Hap). pose proof (Hb p old Eo) as (Hp & Hlen & Hend & Hh).
  assert (rd32 (l_mem h') (p - 4) = size_word (l_mem h) p) as -> by (apply rd32_ext; intros x Hx; apply Hkeep; lia).
  set (s := size_word (l_mem h) p) in *. set (copy := if s <? n then s else n). unfold no_wrap in Hn.
  assert (0 <= copy <= n /\ copy <= s /\ (forall i, i < s -> i < n -> i < copy)) as (Hc & Hcs & Hci)
    by (unfold copy; destruct (Z.ltb_spec s n); (split; [lia|split; [lia|intros; lia]])).
  destruct (Hm (memcpy_bytes (l_mem h') r p copy)) as [Hf Hr].
  { intros x Hx. unfold memcpy_bytes. destruct (Z.leb_spec r x), (Z.ltb_spec x (r + copy)); try done. lia. }
  set (m := memcpy_bytes (l_mem h') r p copy) in *. set (new := bytes_at m r (Z.to_nat n)) in *.
  exists (lset h' m), r, (<[r := new]> (delete p A)). split; [done|]. split; [|split; [|cbn; lia]].
  - right. exists old, new. split; [done|]. split; [unfold new; rewrite bytes_at_length; lia|]. split; [by apply fresh_delete|].
    split; [|done]. intros i v Ev Hi. pose proof (lookup_lt_Some _ _ _ Ev) as Hlt.
    unfold new. rewrite bytes_at_lookup by lia. f_equal. unfold m, memcpy_bytes. specialize (Hci (Z.of_nat i) ltac:(lia) Hi).
    destruct (Z.leb_spec r (r + Z.of_nat i)), (Z.ltb_spec (r + Z.of_nat i) (r + copy)); try lia. cbn [andb].
    replace (p + (r + Z.of_nat i - r)) with (p + Z.of_nat i) by lia. rewrite Hkeep by lia. by apply Hh.
  - assert (r <> p) as Hrp by (destruct Hf as (_ & Hf & _); congruence).
    rewrite <- delete_insert_ne by done. by apply lrep_delete.
Qed.

Lemma legacy_write_sim h A p i v old : lrep h A -> A !! p = Some old -> (i < length old)%nat ->
  lrep (lset h (wr8 (l_mem h) (p + Z.of_nat i) v)) (<[p := <[i := u8 v]> old]> A).
Proof.
  intros (Hg & Hfit & Hused & Hb & Hap) E Hlt. set (m := wr8 _ _ _).
  destruct (Hb p old E) as (Hp & Hlen & Hend & Hh).
  assert (forall q, is_Some (A !! q) -> size_word m q = size_word (l_mem h) q) as Hsz.
  { intros q [d Eq]. apply rd32_wr8_other. destruct (decide (p = q)) as [<-|Hne]; [lia|].
    destruct (Hap p q old d E Eq Hne) as [?|?]; [lia|]. pose proof (block_at_size _ _ _ (Hb q d Eq)). lia. }
  split; [done|]. split; [done|]. split; [done|]. split.
  - intros q d [[<- <-]|[Hne Eq]]%lookup_insert_Some.
    + split; [done|]. cbn [lset l_mem g_heap_used]. rewrite Hsz, length_insert by (by eexists). split; [done|]. split; [done|].
      intros j w Ew. apply list_lookup_insert_Some in Ew as [(<- & <- & _)|[Hij Ew]]; [apply wr8_same|].
      unfold m. rewrite wr8_other by lia. by apply Hh.
    + destruct (Hb q d Eq) as (Hq & Hql & Hqe & Hqh).
      split; [done|]. cbn [lset l_mem g_heap_used]. rewrite Hsz by (by eexists). split; [done|]. split; [done|].
      intros j w Ew. unfold m. rewrite wr8_other; [by apply Hqh|]. apply lookup_lt_Some in Ew.
      destruct (Hap p q old d E Eq Hne); lia.
  - intros q q' d d' Eq Eq' Hne. cbn [lset l_mem]. unfold apart.
    assert (is_Some (A !! q) /\ is_Some (A !! q')) as [[e Hq] [e' Hq']].
    { apply lookup_insert_Some in Eq as [[<- _]|[_ ?]], Eq' as [[<- _]|[_ ?]]; split; eauto. }
    rewrite !Hsz by (by eexists). exact (Hap q q' e e' Hq Hq' Hne).
Qed.

Lemma legacy_read_sim h A p i old : lrep h A -> A !! p = Some old -> (i < length old)%nat ->
  old !! i = Some (l_mem h (p + Z.of_nat i)).
Proof.
  intros (_ & _ & _ & Hb & _) E Hlt. destruct (Hb p old E) as (_ & _ & _ & Hh).
  destruct (lookup_lt_is_Some_2 old i Hlt) as [v Ev]. rewrite Ev. f_equal. symmetry. by apply Hh.
Qed.

Definition allocates (c : call) : bool := match c with Malloc _ | Calloc _ _ | Realloc _ _ => true | _ => false end.
End heap.

(** C30: the allocator of the single-file library implements the same
    specification as its successor, for every call outside the three cases
    [legacy_allowed] names: fresh blocks that overlap no other, zeroed
    [calloc] bytes, contents kept by [realloc], no byte of another allocation
    changed.  But it never takes memory back: the bytes in use only grow, by
    at least 8 with each successful allocation, so that no run of calls has
    more than 32768 of them. *)
Theorem legacy_heap_refines g_heap h A c (HR : lrep g_heap h A) (Hc : legacy_allowed A c) :
  exists A', let '(h', r) := run_call g_heap h c in spec A c r A' /\ lrep g_heap h' A' /\
    g_heap_used h <= g_heap_used h' <= HEAP_SIZE /\
    (allocates c = true -> r <> 0 -> g_heap_used h + 8 <= g_heap_used h').
Proof.
  assert (forall h' A', lrep g_heap h' A' -> g_heap_used h' <= HEAP_SIZE) as Hmax by (intros h' A' (_ & _ & ? & _); lia).
  destruct Hc as [Ha Hl]. destruct c as [n|a b|p n|p|p i|p i v]; cbn [run_call allocates] in *.
  - destruct (legacy_malloc_sim g_heap h A n HR Hl) as (h' & r & A' & -> & Hs & Hr & Hm & Hg). exists A'. split; [exact Hs|]. eauto.
  - destruct Ha as (? & ? & _). destruct (legacy_calloc_sim g_heap h A a b HR ltac:(nia) Hl) as (h' & r & A' & -> & Hs & Hr & Hm & Hg).
    exists A'. split; [|eauto]. unfold spec, no_wrap in *. destruct (Z.leb_spec (2 ^ 32) (a * b)); [lia|exact Hs].
  - destruct Hl as [Hn Hpn]. destruct Ha as [_ Hp].
    destruct (legacy_realloc_sim g_heap h A p n HR Hp Hn Hpn) as (h' & r & A' & -> & Hs & Hr & Hm & Hg). exists A'. split; [exact Hs|]. eauto.
  - exists (delete p A). split; [done|]. split; [by apply lrep_delete|]. split; [|done]. unfold free. split; [lia|eauto].
  - destruct Ha as (old & E & Hlt). exists A. split; [split; [done|]|split; [done|split; [split; [lia|eauto]|done]]].
    exists old. split; [done|]. by eapply legacy_read_sim.
  - destruct Ha as (old & E & Hlt). eexists. split; [by exists old|]. split; [by apply legacy_write_sim|].
    split; [cbn; split; [lia|eauto]|done].
Qed.

Lemma legacy_heap_refines_witness :
  lrep 65536 lheap_initial ∅ /\ legacy_allowed ∅ (Malloc 10) /\
  exists A', let '(h', r) := run_call 65536 lheap_initial (Malloc 10) in spec ∅ (Malloc 10) r A' /\ r = 65540.
Proof.
  assert (lrep 65536 lheap_initial ∅) as Hr.
  { unfold lrep, HEAP_SIZE. split; [lia|]. split; [lia|]. split; [cbn; lia|]. by split. }
  assert (legacy_allowed ∅ (Malloc 10)) as Ha by (split; cbn; unfold size_ok, no_wrap; lia).
  split; [exact Hr|]. split; [exact Ha|]. destruct (legacy_heap_refines 65536 lheap_initial ∅ (Malloc 10) Hr Ha) as (A' & H).
  exists A'. change (run_call 65536 lheap_initial (Malloc 10)) with
    (LHeap (wr32 (fun _ => 0) 65536 12) 16 0, 65540) in H |- *. split; [apply H|reflexivity].
Defined.

(** Requests it should refuse: a product of 2^32, of which nothing is
    allocated but one word, and a size whose sum with the bytes in use wraps. *)
Lemma legacy_overflows : snd (calloc 65536 lheap_initial 65536 65536) = 65540 /\
  let '(h, _) := malloc 65536 lheap_initial 1000 in snd (malloc 65536 h (2 ^ 32 - 1000)) = 66544.
Proof. split; vm_compute; reflexivity. Qed.

(** ** The pattern compiler on this heap *)

Section regex.
Context (g_heap : Z).

#[local] Instance legacy_allocator : Allocator lheap := {|
  al_malloc := malloc g_heap;
  al_realloc := realloc g_heap;
  al_free := free;
  al_store h p i bytes := lset h (store_bytes (l_mem h) (p + i) bytes);
|}.

(** The client owns [p], with the contents [c], besides the allocations [A]. *)
Definition lowned (A : pointers) (h : lheap) (p : Z) (c : list Z) : Prop :=
  if p =? 0 then c = [] /\ lrep g_heap h A else A !! p = None /\ lrep g_heap h (<[p := c]> A).

Lemma lowned_realloc A h p c n : lowned A h p c -> 0 < n < 2 ^ 32 - 2 ^ 20 -> exists h' r, realloc g_heap h p n = (h', r) /\
  (r = 0 /\ lowned A h' p c \/
   r <> 0 /\ exists c', lowned A h' r c' /\ Z.of_nat (length c') = n /\ forall i v, c !! i = Some v -> Z.of_nat i < n -> c' !! i = Some v).
Proof.
  unfold lowned. intros Ho Hn. assert (no_wrap n) as Hw by (unfold no_wrap; lia). destruct (Z.eqb_spec p 0) as [->|Hp].
  - destruct Ho as [-> Ho]. destruct (legacy_realloc_sim g_heap h A 0 n Ho) as (h' & r & A' & E & HS & Hr & _); [by left|done|by left|].
    exists h', r. split; [exact E|]. cbn in HS. destruct HS as [[-> ->]|(new & Hl & (Hr0 & Hnone & _) & _ & ->)]; [by left|right].
    split; [done|]. exists new. by destruct (Z.eqb_spec r 0).
  - destruct Ho as [Hnone Ho].
    destruct (legacy_realloc_sim g_heap h (<[p := c]> A) p n Ho) as (h' & r & A' & E & HS & Hr & _);
      [right; rewrite lookup_insert_eq; by eexists|done|right; lia|].
    exists h', r. split; [exact E|]. unfold spec in HS. destruct (Z.eqb_spec p 0); [done|]. destruct (Z.eqb_spec n 0); [lia|].
    destruct HS as [[-> ->]|(old & new & Eold & Hl & (Hr0 & Hnew & _) & Hk & ->)]; [by left|right].
    rewrite lookup_insert_eq in Eold. injection Eold as <-. rewrite delete_insert_id in Hnew, Hr by done.
    split; [done|]. exists new. by destruct (Z.eqb_spec r 0).
Qed.

(** No request larger than the array succeeds. *)
Lemma realloc_limited A h p c n : lowned A h p c -> HEAP_LIMIT < n < 2 ^ 32 - 2 ^ 20 -> snd (realloc g_heap h p n) = 0.
Proof.
  intros Ho Hn. unfold HEAP_LIMIT in Hn. assert (no_wrap n) as Hw by (unfold no_wrap; lia).
  assert (exists A', lrep g_heap h A') as [A' Hr] by (unfold lowned in Ho; destruct (p =? 0), Ho; by eexists).
  destruct (malloc_lrep g_heap h A' n Hr Hw) as (h' & r & E & [(-> & _)|(_ & Hle & _)]).
  - unfold realloc. by rewrite E.
  - unfold HEAP_SIZE in *. lia.
Qed.

Lemma legacy_store_sim h A p c i bytes : lrep g_heap h (<[p := c]> A) -> (bytes <> [] -> (i + length bytes <= length c)%nat) ->
  Forall (fun b => 0 <= b < 256) bytes ->
  lrep g_heap (lset h (store_bytes (l_mem h) (p + Z.of_nat i) bytes)) (<[p := overwritten c i bytes]> A).
Proof.
  intros Hr. apply (store_bytes_sim (fun m c => lrep g_heap (lset h m) (<[p := c]> A))); [|by destruct h].
  intros m d j v Hm Hj. pose proof (legacy_write_sim g_heap _ _ p j v d Hm (lookup_insert_eq _ _ _) Hj) as H1. by rewrite insert_insert_eq in H1.
Qed.

#[local] Instance legacy_laws (A : pointers) : AllocatorLaws lheap.
Proof.
  refine {| al_holds := lowned A |}.
  - by intros h c [-> _].
  - intros h p c n Ho Hn. destruct (lowned_realloc A h p c n Ho Hn) as (h' & r & E & D). cbn. by rewrite E.
  - intros h p c Ho. cbn. unfold lowned, free in *. destruct (Z.eqb_spec p 0); destruct Ho as [Hnone Ho]; (split; [done|]); [done|].
    apply (lrep_delete g_heap h _ p) in Ho. by rewrite delete_insert_id in Ho.
  - intros h p c i bytes Ho Hl Hb. cbn. unfold lowned in *. destruct (p =? 0).
    + destruct Ho as [-> Ho]. destruct bytes as [|v bytes]; [rewrite overwritten_nil; by destruct h|]. cbn in Hl. specialize (Hl ltac:(done)). lia.
    + destruct Ho as [Hnone Ho]. split; [done|]. by apply legacy_store_sim.
  - intros h p c n Ho Hn. by eapply realloc_limited.
Defined.
End regex.
