(* ===== verification/LegacyText.v ===== *)
(** * The single-file library: text, conversions, sorting and options

    The half of [lib/libc_compat.c] that needs neither the heap nor the
    kernel.  Where the text of a function is, up to its layout, that of the
    newer library, the definition is the one that translates it there.  The
    conversions of numbers are older, and everything that calls them is
    translated again on top of them. *)

From S2P Require Import Prelude Ctype Heap Regex Numbers Printf PrintfSpec PrintfCorrect PrintfClaims Scan ScanClaims Sort CString CStringCopy CStringFold Getopt Inet Process.

(** ** Character classes, memory and strings *)

Definition isdigit : Z -> bool := Ctype.isdigit.
Definition isalpha : Z -> bool := Ctype.isalpha.
Definition isalnum : Z -> bool := Ctype.isalnum.
Definition isxdigit : Z -> bool := Ctype.isxdigit.
Definition isspace : Z -> bool := Ctype.isspace.
Definition isprint : Z -> bool := Ctype.isprint.
Definition isupper : Z -> bool := Ctype.isupper.
Definition islower : Z -> bool := Ctype.islower.
Definition tolower : Z -> Z := Ctype.tolower.
Definition toupper : Z -> Z := Ctype.toupper.

Definition memcpy : memory -> Z -> Z -> nat -> memory := CString.memcpy.
Definition memmove : memory -> Z -> Z -> nat -> memory := CString.memmove.
Definition memset : memory -> Z -> Z -> nat -> memory := CString.memset.
Definition memcmp : memory -> Z -> Z -> nat -> Z := CString.memcmp.
Definition memchr : memory -> Z -> Z -> nat -> Z := CString.memchr.
Definition mempcpy : memory -> Z -> Z -> nat -> memory * Z := CStringCopy.mempcpy.

Section strings.
Context (fuel : nat).

Definition strlen : memory -> Z -> option Z := CString.strlen fuel.
Definition strnlen : memory -> Z -> nat -> Z := CStringCopy.strnlen.
Definition strcpy : memory -> Z -> Z -> option memory := CStringCopy.strcpy fuel.
Definition strncpy (m : memory) (dst src : Z) (n : nat) : memory := CString.strncpy m dst src n true.
Definition strcat : memory -> Z -> Z -> option memory := CStringCopy.strcat fuel.
Definition stpcpy : memory -> Z -> Z -> option (memory * Z) := CStringCopy.stpcpy fuel.
Definition strcmp : memory -> Z -> Z -> option Z := CString.strcmp fuel.
Definition strncmp : memory -> Z -> Z -> nat -> Z := CString.strncmp.
Definition strchr : memory -> Z -> Z -> option Z := CString.strchr fuel.
Definition strchrnul : memory -> Z -> Z -> option Z := CStringCopy.strchrnul fuel.
Definition strrchr : memory -> Z -> Z -> option Z := CStringCopy.strrchr fuel.
Definition strstr : memory -> Z -> Z -> option Z := CString.strstr fuel.
Definition strspn : memory -> Z -> Z -> option Z := CString.strspn fuel.
Definition strcspn : memory -> Z -> Z -> option Z := CString.strcspn fuel.
Definition strtok_r : memory -> Z -> Z -> Z -> option (memory * Z * Z) := CString.strtok_r fuel.
Definition strcoll : memory -> Z -> Z -> option Z := CStringFold.strcoll fuel.
Definition strverscmp : memory -> Z -> Z -> option Z := CStringFold.strverscmp fuel.
Definition strcasecmp : (Z -> Z) -> memory -> Z -> Z -> option Z := CStringFold.strcasecmp fuel.
Definition strncasecmp : (Z -> Z) -> memory -> Z -> Z -> nat -> Z := CStringFold.strncasecmp.
Definition dirname : memory -> Z -> option (memory * (Z + list Z)) := CStringFold.dirname fuel.
Definition basename : memory -> Z -> option Z := CStringFold.basename fuel.

(** The copies on this library's heap, or any other. *)
Definition strdup {A : Type} `{Allocator A} : A -> memory -> Z -> option (A * memory * Z) := CStringCopy.strdup fuel.
Definition strndup {A : Type} `{Allocator A} : A -> memory -> Z -> nat -> A * memory * Z := CStringCopy.strndup.

(** A string of [int]s; the length of a null pointer is 0. *)
Definition wcslen (m : memory) (s : Z) : option Z :=
  if s =? 0 then Some 0 else loop fuel (fun n => if rd32 m (s + 4 * n) =? 0 then Done n else Next (n + 1)) 0.
End strings.

(** ** Formatted output *)

Definition out_char : bool -> Z -> sink -> Z -> sink := Printf.out_char.
Definition out_str (str : bool) (fd : Z) (k : sink) (s : option (list Z)) : sink :=
  fold_left (out_char str fd) (match s with Some s => s | None => null_text end) k.
Definition out_mem : bool -> Z -> sink -> list Z -> sink := Printf.out_mem.
Definition out_repeat : bool -> Z -> sink -> Z -> nat -> sink := Printf.out_repeat.
Definition out_padded : bool -> Z -> sink -> list Z -> Z -> bool -> Z -> sink := Printf.out_padded.
Definition utoa_rev : Z -> Z -> bool -> option (list Z) := Printf.utoa_rev.
Definition out_uint_fmt : bool -> Z -> sink -> Z -> Z -> Z -> bool -> Z -> bool -> bool -> Z -> list Z -> option sink := Printf.out_uint_fmt.
Definition vsnprintf : bool -> Z -> list Z -> list arg -> option (Z * list Z * list (Z * Z)) := Printf.vsnprintf.
Definition snprintf (str : bool) (size : Z) (fmt : list Z) (ap : list arg) : option (Z * list Z * list (Z * Z)) := vsnprintf str size fmt ap.
Definition sprintf (fmt : list Z) (ap : list arg) : option (Z * list Z) := '(n, buf, _) ← vsnprintf true 0xffffffff fmt ap; Some (n, buf).
Definition vasprintf {A : Type} `{Allocator A} : A -> list Z -> list arg -> option (A * Z * Z * list Z * list (Z * Z)) := Printf.vasprintf.

(** [sscanf] reads nothing. *)
Definition sscanf (str fmt : list Z) : Z := 0.

(** ** Sorting, searching, options *)

Definition qsort : (list Z -> list Z -> Z) -> Z -> Z -> Z -> memory -> nat -> memory := Sort.qsort.
Definition bsearch {K E : Type} : (K -> E -> Z) -> K -> list E -> option (option Z) := Sort.bsearch.
Definition rand : Z -> Z * Z := Process.rand.
Definition srand (seed : Z) : Z := seed.
Definition getopt : list (list Z) -> list Z -> getopt_state -> Z * getopt_state := Getopt.getopt.
Definition getopt_long (argv : list (list Z)) (optstring : list Z) (st : getopt_state) : Z * getopt_state := getopt argv optstring st.
Definition getopt_long_only (argv : list (list Z)) (optstring : list Z) (st : getopt_state) : Z * getopt_state := getopt_long argv optstring st.

(** ** Numbers from text *)

(** No prefix, no check of the base, no report of an empty number: the value
    and the end pointer. *)
Definition strtoul (nptr : list Z) (base : Z) : Z * list Z :=
  let base := if base =? 0 then 10 else base in
  let '(v, rest, _) := scan_digits base (skip_spaces nptr) 0 0 in (v, rest).

Definition strtol (nptr : list Z) (base : Z) : Z * list Z :=
  let p := skip_spaces nptr in
  let '(neg, p) := if peek p 0 =? 45 then (true, drop 1 p) else if peek p 0 =? 43 then (false, drop 1 p) else (false, p) in
  let '(v, rest) := strtoul p base in
  ((if neg : bool then s32 (- s32 v) else s32 v), rest).

Definition strtoll (nptr : list Z) (base : Z) : Z * list Z := strtol nptr base.
Definition strtoull (nptr : list Z) (base : Z) : Z * list Z := strtoul nptr base.
Definition atoi (s : list Z) : Z := s32 (strtol s 10).1.

(** The end pointer of [strtod], which knows no exponent. *)
Definition strtod (nptr : list Z) : list Z :=
  let p := skip_digits (skip_sign (skip_spaces nptr)) in
  if peek p 0 =? 46 then skip_digits (drop 1 p) else p.

(** ** Internet addresses *)

Definition htons : Z -> Z := Inet.htons.
Definition ntohs : Z -> Z := Inet.ntohs.
Definition htonl : Z -> Z := Inet.htonl.
Definition ntohl : Z -> Z := Inet.ntohl.

Fixpoint aton_parts (k : nat) (p : list Z) : option (list Z) :=
  match k with
  | O => Some []
  | S k =>
      match p with
      | [] => None
      | _ =>
          let '(v, stop) := strtoul p 10 in
          if (length stop =? length p)%nat || (255 <? v) then None
          else
            match k with
            | O => match stop with [] => Some [v] | _ => None end
            | _ =>
                match stop with
                | c :: p => if c =? 46 then parts ← aton_parts k p; Some (v :: parts) else None
                | [] => None
                end
            end
      end
  end.

Definition inet_aton (cp : option (list Z)) (inp : bool) : option Z :=
  match cp with
  | Some cp =>
      if negb inp then None
      else
        parts ← aton_parts 4 cp;
        Some (htonl (Z.lor (Z.lor (Z.lor (u32 (Z.shiftl (peek parts 0) 24)) (Z.shiftl (peek parts 1) 16)) (Z.shiftl (peek parts 2) 8)) (peek parts 3)))
  | None => None
  end.

Definition inet_ntoa : Z -> option (list Z) := Inet.inet_ntoa.
Definition inet_ntop : Z -> option Z -> bool -> Z -> option (option Z * list Z) := Inet.inet_ntop.
Definition inet_pton (af : Z) (src : option (list Z)) (dst : bool) : Z + option Z :=
  match src with
  | Some src =>
      if negb dst then inl EINVAL
      else if af =? AF_INET then inr (inet_aton (Some src) dst)
      else inl EAFNOSUPPORT
  | None => inl EINVAL
  end.

(** The name is [None] for null. *)
Definition gethostbyname (name : option (list Z)) : option Z :=
  match name with
  | Some name => if bool_decide (name = localhost) then Some (htonl INADDR_LOOPBACK) else inet_aton (Some name) true
  | None => None
  end.

(** ** Agreement with the newer library *)

Lemma scan_digits_count base p : forall v n, n <= (scan_digits base p v n).2.
Proof.
  induction p as [|c p IH]; intros v n; cbn [scan_digits]; [cbn; lia|].
  destruct (digit_value c) as [d|]; [|cbn; lia]. destruct (base <=? d); [cbn; lia|]. etrans; [|apply IH]. lia.
Qed.

(** Without a digit the value stays and the end pointer does not move. *)
Lemma scan_digits_none base p v : (scan_digits base p v 0).2 = 0 -> scan_digits base p v 0 = (v, p, 0).
Proof.
  destruct p as [|c p]; [done|]. cbn [scan_digits]. destruct (digit_value c) as [d|]; [|done]. destruct (base <=? d); [done|].
  intros E. pose proof (scan_digits_count base p (u32 (u32 (v * base) + d)) (0 + 1)). lia.
Qed.

(** A "0x" prefix in base 16, which only the newer function skips. *)
Definition hex_prefix (p : list Z) (base : Z) : bool := (base =? 16) && (peek p 0 =? 48) && is_x (peek p 1).

Lemma strtoul_agrees nptr base : 2 <= base <= 36 ->
  strtoul nptr base =
    if hex_prefix (skip_spaces nptr) base then (0, drop 1 (skip_spaces nptr))
    else let '(v, rest, err) := Numbers.strtoul nptr base in (v, if err : bool then skip_spaces nptr else rest).
Proof.
  intros Hb. unfold strtoul, Numbers.strtoul, strtoul_base, hex_prefix. set (p := skip_spaces nptr). destruct (Z.eqb_spec base 0); [lia|].
  destruct (_ && is_x _) eqn:Ex.
  - apply andb_prop in Ex as [Ex Hx]. apply andb_prop in Ex as [Eb E0]. apply Z.eqb_eq in Eb, E0. subst base.
    destruct p as [|c [|x q]]; cbn [peek nth] in E0, Hx; [done|done|]. subst c.
    assert (digit_value x = None \/ exists d, digit_value x = Some d /\ 16 <= d) as Hd.
    { unfold is_x in Hx. apply orb_prop in Hx as [->%Z.eqb_eq | ->%Z.eqb_eq]; right; by eexists. }
    cbn [scan_digits drop]. change (digit_value 48) with (Some 0). cbn [Z.leb Z.compare].
    destruct Hd as [-> | (d & -> & Hd)]; [done|]. destruct (Z.leb_spec 16 d); [done|lia].
  - destruct (Z.ltb_spec base 2), (Z.ltb_spec 36 base); try lia. cbn [orb].
    destruct (scan_digits base p 0 0) as [[v rest] count] eqn:Es. destruct (Z.eqb_spec count 0) as [->|]; [|done].
    pose proof (scan_digits_none base p 0) as Hnone. rewrite Es in Hnone. specialize (Hnone eq_refl). by injection Hnone as -> ->.
Qed.

Lemma skip_spaces_none p : Forall (fun c => Ctype.isspace c = false) p -> skip_spaces p = p.
Proof. destruct p as [|c p]; [done|]. intros [Hc _]%Forall_cons_1. cbn. by rewrite Hc. Qed.

Lemma scan_digits_suffix base p : forall v n, exists q, p = q ++ (scan_digits base p v n).1.2.
Proof.
  induction p as [|c p IH]; intros v n; cbn [scan_digits]; [by exists []|].
  destruct (digit_value c) as [d|]; [|by exists []]. destruct (base <=? d); [by exists []|].
  destruct (IH (u32 (u32 (v * base) + d)) (n + 1)) as (q & Eq). exists (c :: q). cbn. by rewrite <- Eq.
Qed.

Lemma aton_parts_agrees k : forall p, Forall (fun c => Ctype.isspace c = false) p -> aton_parts k p = Inet.aton_parts k p.
Proof.
  induction k as [|k IH]; intros p Hp; [done|]. destruct p as [|c p]; [done|]. cbn [aton_parts Inet.aton_parts].
  rewrite (strtoul_agrees (c :: p) 10) by lia. change (hex_prefix _ 10) with false. cbn iota. rewrite (skip_spaces_none (c :: p)) by done.
  unfold Numbers.strtoul. rewrite (skip_spaces_none (c :: p)) by done. change (strtoul_base (c :: p) 10) with (10, c :: p).
  cbn beta iota zeta. change ((10 <? 2) || (36 <? 10)) with false. cbn iota.
  destruct (scan_digits_suffix 10 (c :: p) 0 0) as (q & Eq).
  destruct (scan_digits 10 (c :: p) 0 0) as [[v rest] n]. cbn [fst snd] in Eq.
  destruct (n =? 0); [by rewrite Nat.eqb_refl|]. destruct (_ || _); [done|]. destruct k as [|k]; [done|]. destruct rest as [|x rest]; [done|].
  destruct (x =? 46); [|done]. rewrite IH; [done|]. rewrite Eq in Hp. apply Forall_app in Hp as [_ Hp]. by apply Forall_cons_1 in Hp as [_ ?].
Qed.

Lemma numeral_no_space v : 0 <= v < 2 ^ 64 -> Forall (fun c => Ctype.isspace c = false) (numeral v 10 false).
Proof.
  intros Hv. destruct (numeral_value v 10 false ltac:(lia) Hv) as (vs & Hd & _).
  apply Forall_lookup. intros i c Ec. destruct (Forall2_lookup_l _ _ _ _ _ Hd Ec) as (d & _ & Hc & _). by eapply digit_not_space.
Qed.

Lemma quad_no_space parts : Forall octet parts -> Forall (fun c => Ctype.isspace c = false) (quad_text parts).
Proof.
  intros Hp. assert (forall i, 0 <= peek parts i < 2 ^ 64) as Hr.
  { intros i. unfold peek. destruct (nth_in_or_default i parts 0) as [Hin | ->]; [|lia].
    rewrite Forall_forall in Hp. specialize (Hp _ Hin). unfold octet in Hp. lia. }
  unfold quad_text. pose proof (fun i => numeral_no_space (peek parts i) (Hr i)) as Hn.
  do 3 (apply Forall_app_2; [apply Hn|apply Forall_cons_2; [done|]]). apply Hn.
Qed.

(** On what its callers give it, the older number parser is the newer one.
    [strtoul] in a base from 2 to 36 has the same value, and the same end
    pointer behind a number; without digits it leaves the pointer behind the
    white space instead of at the start.  It does not skip a 0x prefix, and
    base 0 is base 10.  [strtol] and [atoi] agree in every other base, and
    [inet_aton] on every text without white space, so that addresses printed
    by [inet_ntoa] and numbers printed by [%d] are read back. *)
Theorem legacy_conversions_agree nptr base (Hb : 2 <= base <= 36) (Hx : base <> 16) :
  strtoul nptr base = (let '(v, rest, err) := Numbers.strtoul nptr base in (v, if err : bool then skip_spaces nptr else rest)) /\
  strtoul nptr 0 = strtoul nptr 10 /\
  (strtol nptr base).1 = (Numbers.strtol nptr base).1.1 /\
  ((Numbers.strtol nptr base).2 = false -> (strtol nptr base).2 = (Numbers.strtol nptr base).1.2) /\
  atoi nptr = Numbers.atoi nptr /\
  (Forall (fun c => Ctype.isspace c = false) nptr -> forall inp, inet_aton (Some nptr) inp = Inet.inet_aton (Some nptr) inp) /\
  (forall s, 0 <= s < 2 ^ 32 -> inet_aton (Some (quad_text (parts_of s))) true = Some s) /\
  (forall v, - 2 ^ 31 <= v < 2 ^ 31 -> exists t, sprintf [37; 100] [VInt v] = Some (Z.of_nat (length t), t ++ [0]) /\ atoi t = v).
Proof.
  assert (forall p b, 2 <= b <= 36 -> b <> 16 -> strtoul p b = (let '(v, rest, err) := Numbers.strtoul p b in (v, if err : bool then skip_spaces p else rest))) as Hu.
  { intros p b Hb' Hb16. rewrite strtoul_agrees by done. unfold hex_prefix. destruct (Z.eqb_spec b 16); [done|]. done. }
  assert (forall p b, 2 <= b <= 36 -> b <> 16 -> (strtol p b).1 = (Numbers.strtol p b).1.1 /\
    ((Numbers.strtol p b).2 = false -> (strtol p b).2 = (Numbers.strtol p b).1.2)) as Hl.
  { intros p b Hb' Hb16. unfold strtol, Numbers.strtol. destruct (if peek (skip_spaces p) 0 =? 45 then _ else _) as [neg q].
    rewrite Hu by done. destruct (Numbers.strtoul q b) as [[v rest] err]. split; [done|]. cbn [fst snd]. by intros ->. }
  assert (forall p, atoi p = Numbers.atoi p) as Ha by (intros p; unfold atoi, Numbers.atoi; by rewrite (proj1 (Hl p 10 ltac:(lia) ltac:(lia)))).
  assert (forall p, Forall (fun c => Ctype.isspace c = false) p -> forall inp, inet_aton (Some p) inp = Inet.inet_aton (Some p) inp) as Hi
    by (intros p Hp inp; unfold inet_aton, Inet.inet_aton; by rewrite aton_parts_agrees).
  split; [by apply Hu|]. split; [done|]. split; [by apply Hl|]. split; [by apply Hl|]. split; [apply Ha|]. split; [apply Hi|]. split.
  - intros s Hs. rewrite Hi; [by apply aton_parts_of|]. apply quad_no_space, parts_octets.
  - intros v Hv. destruct (signed_reads_back v Hv) as (t & Et & _ & Ev). exists t. split; [exact Et|]. by rewrite Ha.
Qed.

(** Base 8 and "  17,". *)
Lemma legacy_conversions_agree_witness : strtoul [32; 32; 49; 55; 44] 8 = (15, [44]) /\ atoi [32; 32; 49; 55; 44] = 17.
Proof.
  destruct (legacy_conversions_agree [32; 32; 49; 55; 44] 8 ltac:(lia) ltac:(lia)) as (E & _ & _ & _ & Ea & _).
  split; [rewrite E|rewrite Ea]; reflexivity.
Defined.

(** Where it departs: an empty part behind white space is a 0, a lone "0x"
    prefix stops the number, and white space is skipped again behind a sign. *)
Theorem legacy_departures :
  inet_aton (Some [32; 46; 49; 46; 50; 46; 51]) true = Some 0x03020100 /\ Inet.inet_aton (Some [32; 46; 49; 46; 50; 46; 51]) true = None /\
  strtoul [48; 120; 49; 48] 0 = (0, [120; 49; 48]) /\ strtoul [48; 49; 55] 0 = (17, []) /\
  strtol [45; 32; 53] 10 = (-5, []).
Proof. repeat split; reflexivity. Qed.
