(* ===== verification/LegacyStream.v ===== *)
(** * The single-file library: streams

    The [FILE] of [lib/libc_compat.c] has a descriptor and two flags, and no
    room for a character pushed back.  Functions whose text is that of the
    newer library run it on the stream without pushback ([lift]); reading and
    positioning are different and are translated here. *)

From Stdlib Require Import String Ascii.
From stdpp Require Import strings.
From S2P Require Import Prelude Heap Regex RegexVM Printf Syscall CString Stream StreamSpec StreamRead RamDisk StreamClaims StreamWrite Terminal.
#[local] Open Scope call_scope.

Record FILE : Type := LFile {
  l_fd : Z;
  l_eof : Z;
  l_err : Z
}.
Definition sizeof_FILE : Z := 12.

Definition stdin : option FILE := Some (LFile 0 0 0).
Definition stdout : option FILE := Some (LFile 1 0 0).
Definition stderr : option FILE := Some (LFile 2 0 0).

(** The stream of the newer library in the same state. *)
Definition lift (stream : option FILE) : option Stream.FILE :=
  match stream with Some f => Some (File (l_fd f) (l_eof f) (l_err f) (-1)) | None => None end.

Definition file_fd (stream : option FILE) : Z := match stream with Some f => l_fd f | None => 1 end.
Definition fileno (stream : option FILE) : Z := file_fd stream.
Definition fileno_unlocked (stream : option FILE) : Z := fileno stream.
Definition fflush (stream : option FILE) : Z := 0.
Definition feof (stream : option FILE) : Z := match stream with Some f => l_eof f | None => 1 end.
Definition feof_unlocked (stream : option FILE) : Z := feof stream.
Definition ferror (stream : option FILE) : Z := match stream with Some f => l_err f | None => 1 end.
Definition ferror_unlocked (stream : option FILE) : Z := ferror stream.
Definition clearerr (stream : option FILE) : option FILE := match stream with Some f => Some (LFile (l_fd f) 0 0) | None => None end.
Definition set_eof (stream : option FILE) : option FILE := match stream with Some f => Some (LFile (l_fd f) 1 (l_err f)) | None => None end.

Section stream.
Context {K : Type} `{Kernel K}.
Context (frame : Z) (fuel : nat) (literal : list Z -> Z).

(** ** Reading and positions *)

(** Neither sets the end indicator. *)
Definition fgetc (stream : option FILE) : M K Z :=
  let* n := read (file_fd stream) frame 1 in
  if n =? 1 then load8 frame else ret EOF.

Definition fseeko (stream : option FILE) (offset whence : Z) : M K Z :=
  let* r := lseek (file_fd stream) offset whence in ret (if r <? 0 then -1 else 0).

(** One transfer; it sets the indicator when there is nothing to read. *)
Definition fread (ptr size nmemb : Z) (stream : option FILE) : M K (Z * option FILE) :=
  let* n := read (file_fd stream) ptr (u32 (size * nmemb)) in
  if n <=? 0 then ret (0, set_eof stream) else ret (n / size, stream).

Definition getc (stream : option FILE) : M K Z := fgetc stream.
Definition getc_unlocked (stream : option FILE) : M K Z := fgetc stream.
Definition getchar : M K Z := fgetc stdin.
Definition getchar_unlocked : M K Z := getchar.

(** ** The functions that only use the descriptor *)

Definition fgets (s size : Z) (stream : option FILE) : M K Z := Stream.fgets frame s size (lift stream).
Definition fgets_unlocked (s size : Z) (stream : option FILE) : M K Z := fgets s size stream.
Definition fwrite (ptr size nmemb : Z) (stream : option FILE) : M K Z := Stream.fwrite ptr size nmemb (lift stream).
Definition fputc (c : Z) (stream : option FILE) : M K Z := Stream.fputc frame c (lift stream).
Definition putc (c : Z) (stream : option FILE) : M K Z := fputc c stream.
Definition putc_unlocked (c : Z) (stream : option FILE) : M K Z := fputc c stream.
Definition putchar (c : Z) : M K Z := fputc c stdout.
Definition putchar_unlocked (c : Z) : M K Z := putchar c.
Definition fputs (s : Z) (stream : option FILE) : M K (option Z) := Stream.fputs fuel s (lift stream).
Definition fputs_unlocked (s : Z) (stream : option FILE) : M K (option Z) := fputs s stream.
Definition puts (s : Z) : M K (option Z) :=
  andthen (fputs s stdout) (fun r => if r =? EOF then ret (Some EOF) else fputs (literal [10]) stdout).
Definition strerror : Z -> list Z := Terminal.strerror.
Definition perror (s : Z) : M K (option unit) :=
  andthen
    (if truthy s then andthen (fputs s stderr) (fun _ => fputs (literal (RegexVM.bytes ": "%string)) stderr) else ret (Some 0))
    (fun _ =>
      andthen (fun p => fputs (literal (strerror (errno p))) stderr p)
        (fun _ => andthen (fputs (literal [10]) stderr) (fun _ => ret (Some tt)))).

Definition vfprintf (stream : option FILE) (fmt : list Z) (ap : list arg) : M K (option Z) := StreamWrite.vfprintf frame (lift stream) fmt ap.
Definition fprintf (stream : option FILE) (fmt : list Z) (ap : list arg) : M K (option Z) := vfprintf stream fmt ap.
Definition printf (fmt : list Z) (ap : list arg) : M K (option Z) := vfprintf stdout fmt ap.
Definition dprintf (fd : Z) (fmt : list Z) (ap : list arg) : M K (option Z) := Terminal.dprintf frame fd fmt ap.
Definition openlog : M K unit := ret tt.
Definition closelog : M K unit := ret tt.
Definition vsyslog (priority : Z) (format : list Z) (ap : list arg) : M K (option unit) :=
  andthen (vfprintf stderr format ap) (fun _ => let* _ := fputc 10 stderr in ret (Some tt)).
Definition syslog (priority : Z) (format : list Z) (ap : list arg) : M K (option unit) := vsyslog priority format ap.

(** ** Opening and closing *)

Section alloc.
Context {A : Type} `{Allocator A}.

Definition fdopen (heap : A) (fd : Z) : A * Z * option FILE :=
  let '(heap, f) := al_malloc heap sizeof_FILE in
  (heap, f, if truthy f then Some (LFile fd 0 0) else None).

Definition fopen (heap : A) (path mode0 : Z) : M K (A * Z * option FILE) :=
  let* fd := open path (mode_flags mode0) in
  ret (if fd <? 0 then (heap, 0, None) else fdopen heap fd).

Definition freopen (heap : A) (path mode0 ptr : Z) (stream : option FILE) : M K (A * Z * option FILE) :=
  match stream with
  | None => fopen heap path mode0
  | Some f =>
      let* fd := open path (mode_flags mode0) in
      if fd <? 0 then ret (heap, 0, stream)
      else
        let* _ := close (l_fd f) in
        ret (heap, ptr, Some (LFile fd 0 0))
  end.

Definition fclose (heap : A) (standard : bool) (ptr : Z) (stream : option FILE) : M K (A * Z) :=
  let fd := file_fd stream in
  let heap := if standard then heap else al_free heap ptr in
  let* r := close fd in
  ret (heap, r).

(** ** Lines *)

Fixpoint getline_loop (fuel : nat) (heap : A) (buf cap : Z) (bytes : list Z) (stream : option FILE) :
    M K (option (A * option (Z * Z * list Z * Z))) :=
  match fuel with
  | O => ret None
  | S fuel =>
      let* c := fgetc stream in
      if c =? EOF then ret (Some (heap, Some (buf, cap, bytes, c)))
      else
        let len := Z.of_nat (length bytes) in
        let grow := cap <=? len + 1 in
        let cap := if grow then u32 (cap * 2) else cap in
        let '(heap, newbuf) := if grow then al_realloc heap buf cap else (heap, buf) in
        if grow && (newbuf =? 0) then let* _ := set_errno ENOMEM in ret (Some (heap, None))
        else
          let bytes := bytes ++ [c] in
          if c =? 10 then ret (Some (heap, Some (newbuf, cap, bytes, c)))
          else getline_loop fuel heap newbuf cap bytes stream
  end.

(** The rest of [getline] for the values of [*lineptr] and [*n]. *)
Definition getline_into (heap : A) (lineptr n : Z) (stream : option FILE) : M K (option (A * line_result)) :=
  let cap := if truthy n then n else 128 in
  let '(heap, buf) := if truthy lineptr then (heap, lineptr) else al_malloc heap cap in
  if buf =? 0 then let* _ := set_errno ENOMEM in ret (Some (heap, LineResult (-1) lineptr n []))
  else
    let* r := getline_loop fuel heap buf cap [] stream in
    ret
      match r with
      | None => None
      | Some (heap, None) => Some (heap, LineResult (-1) lineptr n [])
      | Some (heap, Some (buf, cap, bytes, c)) =>
          let len := Z.of_nat (length bytes) in
          if (len =? 0) && (c =? EOF) then
            Some (if truthy lineptr then heap else al_free heap buf, LineResult (-1) lineptr n [])
          else Some (heap, LineResult len buf cap (bytes ++ [0]))
      end.

(** [lineptr] and [n] are what the two pointers point to, [None] for null. *)
Definition getline (heap : A) (lineptr n : option Z) (stream : option FILE) : M K (option (A * line_result)) :=
  match lineptr, n with
  | Some lineptr, Some n => getline_into heap lineptr n stream
  | _, _ => let* _ := set_errno EINVAL in ret (Some (heap, LineResult (-1) (default 0 lineptr) (default 0 n) []))
  end.
End alloc.
End stream.

(** ** Agreement with the newer streams *)

Section agree.
Context {K : Type} `{Kernel K}.
Context (frame : Z).

Lemma fgetc_agrees f p :
  fgetc frame (Some f) p = (let '((c, _), p') := Stream.fgetc frame (lift (Some f)) p in (c, p')) /\
  exists e, (Stream.fgetc frame (lift (Some f)) p).1.2 = lift (Some (LFile (l_fd f) e (l_err f))).
Proof.
  unfold fgetc, Stream.fgetc. cbn [lift pushback f_pushback file_fd l_fd Stream.file_fd f_fd].
  change (0 <=? -1) with false. cbn iota. unfold bind. destruct (read (l_fd f) frame 1 p) as [n p1].
  destruct (n =? 1); cbn; (split; [done|]); [by exists (l_eof f)|by exists 1].
Qed.

(** Only the descriptor counts. *)
Lemma fgetc_fd f g p : l_fd f = l_fd g -> fgetc frame (Some f) p = fgetc frame (Some g) p.
Proof. intros E. unfold fgetc. cbn [file_fd]. by rewrite E. Qed.

Lemma getline_loop_fd {A : Type} `{Allocator A} f g fuel : l_fd f = l_fd g -> forall (heap : A) buf cap bytes p,
  getline_loop frame fuel heap buf cap bytes (Some f) p = getline_loop frame fuel heap buf cap bytes (Some g) p.
Proof.
  intros E. induction fuel as [|fuel IH]; intros heap buf cap bytes p; [done|]. cbn [getline_loop]. unfold bind at 1 3.
  rewrite (fgetc_fd f g p E). destruct (fgetc frame (Some g) p) as [c p1]. destruct (c =? EOF); [done|].
  destruct (if _ <=? _ then _ else (heap, buf)) as [heap1 nb]. destruct (_ && _); [done|]. destruct (c =? 10); [done|]. apply IH.
Qed.

Lemma getline_loop_agrees {A : Type} `{Allocator A} fuel : forall f (heap : A) buf cap bytes p,
  getline_loop frame fuel heap buf cap bytes (Some f) p =
    (let '(r, p') := Stream.getline_loop frame fuel heap buf cap bytes (lift (Some f)) p in
     (match r with Some (heap, r, _) => Some (heap, r) | None => None end, p')).
Proof.
  induction fuel as [|fuel IH]; intros f heap buf cap bytes p; [done|]. cbn [getline_loop Stream.getline_loop]. unfold bind at 1 3.
  destruct (fgetc_agrees f p) as [E (e & Es)]. rewrite E. destruct (Stream.fgetc frame (lift (Some f)) p) as [[c s] p1]. cbn [fst snd] in Es. subst s.
  destruct (c =? EOF); [done|]. destruct (if _ <=? _ then _ else (heap, buf)) as [heap1 nb]. destruct (_ && _); [done|]. destruct (c =? 10); [done|].
  rewrite <- IH. by apply getline_loop_fd.
Qed.

Lemma getline_agrees {A : Type} `{Allocator A} fuel f (heap : A) lineptr n p :
  getline frame fuel heap lineptr n (Some f) p =
    (let '(r, p') := Stream.getline frame fuel heap lineptr n (lift (Some f)) p in
     (match r with Some (heap, r, _) => Some (heap, r) | None => None end, p')).
Proof.
  destruct lineptr as [lineptr|], n as [n|]; [|done..]. unfold getline, Stream.getline, getline_into, Stream.getline_into. destruct (if truthy lineptr then _ else _) as [heap1 buf]. destruct (buf =? 0); [done|].
  unfold bind at 1 2. rewrite getline_loop_agrees. destruct (Stream.getline_loop _ _ _ _ _ _ _ _) as [r p1].
  destruct r as [[[heap2 [[[[b cp] bs] c]|]] s]|]; [|done|done]. unfold ret. by destruct (_ && _).
Qed.
End agree.


(** ** On a regular file *)

Section onfile.
Context {K : Type} `{FileKernel K}.
Context (frame : Z) (Hframe : 0 <= frame < 2 ^ 32).

(** One character, and the flags stay as they are. *)
Lemma fgetc_file f p c pos (Hfd : 0 <= l_fd f < 2 ^ 32) : file (p_kernel p) (l_fd f) = Some (c, pos) ->
  exists r p', fgetc frame (Some f) p = (r, p') /\
    match drop (Z.to_nat pos) c with
    | b :: _ => r = b /\ file (p_kernel p') (l_fd f) = Some (c, pos + 1)
    | [] => r = EOF /\ file (p_kernel p') (l_fd f) = Some (c, pos)
    end.
Proof.
  intros Hf. destruct (file_ok _ _ _ _ Hf) as (_ & Hpos & _).
  destruct (read_file (l_fd f) c Hfd p pos frame 1 Hf) as (n & p1 & E & H1 & H2 & H3 & H4 & H5); [lia..|].
  unfold fgetc, bind. cbn [file_fd]. rewrite E. pose proof (length_drop c (Z.to_nat pos)) as El.
  destruct (drop (Z.to_nat pos) c) as [|b l] eqn:Ed; cbn [length] in El.
  - assert (n = 0%nat) as -> by (apply H3; lia). exists EOF, p1. rewrite Z.add_0_r in H5. done.
  - assert (n = 1%nat) as -> by lia. change (Z.of_nat 1 =? 1) with true. cbn iota. exists b, p1. split; [|done].
    unfold load8. f_equal. rewrite H4. unfold overlay. change (take 1 (b :: l)) with [b]. cbn [length].
    destruct (Z.leb_spec frame frame), (Z.ltb_spec frame (frame + Z.of_nat 1)); try lia. cbn [andb]. by rewrite Z.sub_diag.
Qed.

(** One transfer of [fread], however short. *)
Lemma fread_file f p c pos ptr size nmemb (Hfd : 0 <= l_fd f < 2 ^ 32) : file (p_kernel p) (l_fd f) = Some (c, pos) ->
  0 < size -> 0 < size * nmemb < 2 ^ 31 -> 0 <= ptr -> ptr + size * nmemb <= 2 ^ 32 ->
  exists n p', let got := take n (drop (Z.to_nat pos) c) in
    fread ptr size nmemb (Some f) p =
      ((Z.of_nat n / size, Some (LFile (l_fd f) (if (n =? 0)%nat then 1 else l_eof f) (l_err f))), p') /\
    (n = 0%nat <-> Z.of_nat (length c) <= pos) /\ length got = n /\
    (forall x, p_mem p' x = overlay (p_mem p) ptr got x) /\ file (p_kernel p') (l_fd f) = Some (c, pos + Z.of_nat n).
Proof.
  intros Hf Hs Ht Hp Hpe. destruct (file_ok _ _ _ _ Hf) as (_ & Hpos & _).
  destruct (read_file (l_fd f) c Hfd p pos ptr (size * nmemb) Hf) as (n & p1 & E & H1 & H2 & H3 & H4 & H5); [lia..|].
  exists n, p1. unfold fread, bind. cbn [file_fd]. rewrite u32_small, E by lia. split; [|split; [done|split; [|done]]].
  - destruct f as [fd e er]. destruct n as [|n]; cbn [Nat.eqb].
    + change (Z.of_nat 0 <=? 0) with true. cbn iota. by rewrite Z.div_0_l by lia.
    + by destruct (Z.leb_spec (Z.of_nat (S n)) 0); [lia|].
  - rewrite length_take, length_drop. lia.
Qed.

(** The two libraries' streams compared.  For every kernel [getline] of
    the single-file library is the newer one on a stream without pushback:
    same line, same buffers, same effects.  On a regular file [fgetc] delivers
    the next byte, or EOF at the end, without ever recording the end in the
    stream, so [feof] stays what it was; and [fread] makes one transfer, so it
    may deliver fewer items than the file holds, counts the whole items among
    the bytes it got, and sets the end indicator exactly when it got none. *)
Theorem legacy_streams_agree {A : Type} `{Allocator A} (fuel : nat) f p c pos (heap : A) lineptr n ptr size nmemb
    (Hfd : 0 <= l_fd f < 2 ^ 32) (Hf : file (p_kernel p) (l_fd f) = Some (c, pos))
    (Hs : 0 < size) (Ht : 0 < size * nmemb < 2 ^ 31) (Hp : 0 <= ptr) (Hpe : ptr + size * nmemb <= 2 ^ 32) :
  getline frame fuel heap lineptr n (Some f) p =
    (let '(r, p') := Stream.getline frame fuel heap lineptr n (lift (Some f)) p in
     (match r with Some (heap, r, _) => Some (heap, r) | None => None end, p')) /\
  (exists r p', fgetc frame (Some f) p = (r, p') /\
    match drop (Z.to_nat pos) c with
    | b :: _ => r = b /\ file (p_kernel p') (l_fd f) = Some (c, pos + 1)
    | [] => r = EOF /\ file (p_kernel p') (l_fd f) = Some (c, pos)
    end) /\
  (exists k p', let got := take k (drop (Z.to_nat pos) c) in
    fread ptr size nmemb (Some f) p =
      ((Z.of_nat k / size, Some (LFile (l_fd f) (if (k =? 0)%nat then 1 else feof (Some f)) (ferror (Some f)))), p') /\
    (k = 0%nat <-> Z.of_nat (length c) <= pos) /\ length got = k /\
    (forall x, p_mem p' x = overlay (p_mem p) ptr got x) /\ file (p_kernel p') (l_fd f) = Some (c, pos + Z.of_nat k)).
Proof. split; [apply getline_agrees|]. split; [by apply fgetc_file|by apply fread_file]. Qed.
End onfile.

#[local] Instance bump : Allocator Z := {|
  al_malloc h n := (h + n, h);
  al_realloc h p n := (h + n, h);
  al_free h p := h;
  al_store h p i bytes := h;
|}.

(** The disk of the newer streams' witnesses delivers at most three bytes
    a transfer: of three two-byte items one arrives. *)
Lemma legacy_streams_agree_witness :
  let f := LFile 3 0 0 in
  (exists p', fgetc 500 (Some f) disk_process = (97, p')) /\
  (exists n p', fread 1000 2 3 (Some f) disk_process = ((n, Some f), p')).
Proof.
  intros f. assert (file (p_kernel disk_process) (l_fd f) = Some ([97; 98; 10; 99; 100], 0)) as Hf by reflexivity.
  destruct (legacy_streams_agree 500 ltac:(lia) 6 f disk_process [97; 98; 10; 99; 100] 0 4096 (Some 0) (Some 0) 1000 2 3
    ltac:(cbn; lia) Hf ltac:(lia) ltac:(lia) ltac:(lia) ltac:(lia)) as (_ & (r & p1 & E & Hr) & (k & p2 & E2 & Hk & _)).
  cbn in Hr. destruct Hr as [-> _]. split; [by exists p1|]. destruct k as [|k]; [exfalso; cbn in Hk; destruct Hk as [Hk _]; specialize (Hk eq_refl); lia|].
  by eexists _, p2.
Defined.
