(* ===== verification/LegacySystem.v ===== *)
(** * The single-file library: system calls, time and stubs

    The rest of [lib/libc_compat.c]: its wrappers, clocks, signals, sockets,
    files and directories, and the functions that are there only to be linked.
    Where the text of a function is that of the newer library the definition
    names the newer one.  The functions that differ are translated: [poll]
    traps without [libsys_call6], there is no environment, so [execvp]
    searches the default path, [exit] runs no handler, and the calendar is the
    constant first day of 1970. *)

From Stdlib Require Import String Ascii.
From stdpp Require Import strings.
From S2P Require Import Prelude Heap Regex RegexVM Printf Syscall CString EnvMap Process Time Files Signal Clock Terminal Assembly Stubs.
#[local] Open Scope call_scope.

(** ** Constants *)

Definition getuid : Z := Stubs.getuid.
Definition geteuid : Z := Stubs.geteuid.
Definition getgid : Z := Stubs.getgid.
Definition getegid : Z := Stubs.getegid.
Definition getpagesize : Z := Stubs.getpagesize.
Definition setpgid (pid pgid : Z) : Z := Stubs.setpgid pid pgid.
Definition setpgrp : Z := Stubs.setpgrp.
Definition tcsetpgrp (fd pgrp : Z) : Z := Stubs.tcsetpgrp fd pgrp.
Definition sysconf (name : Z) : Z := Stubs.sysconf name.
Definition chown (path owner group : Z) : Z := Stubs.chown path owner group.
Definition lchown (path owner group : Z) : Z := Stubs.lchown path owner group.
Definition chmod (path mode : Z) : Z := Stubs.chmod path mode.
Definition utimes (path times : Z) : Z := Stubs.utimes path times.
Definition fchdir (fd : Z) : Z := Stubs.fchdir fd.
Definition setuid (uid : Z) : Z := Stubs.setuid uid.
Definition setgid (gid : Z) : Z := Stubs.setgid gid.
Definition seteuid (uid : Z) : Z := Stubs.seteuid uid.
Definition setegid (gid : Z) : Z := Stubs.setegid gid.
Definition setresuid (ruid euid suid : Z) : Z := Stubs.setresuid ruid euid suid.
Definition setresgid (rgid egid sgid : Z) : Z := Stubs.setresgid rgid egid sgid.
Definition setrlimit (resource rlim : Z) : Z := Stubs.setrlimit resource rlim.
Definition setsockopt (fd level optname optval optlen : Z) : Z := Stubs.setsockopt fd level optname optval optlen.
Definition getsockopt (fd level optname optval optlen : Z) : Z := Stubs.getsockopt fd level optname optval optlen.
Definition getpeername (fd addr len : Z) : Z := Stubs.getpeername fd addr len.
Definition shutdown (fd how : Z) : Z := Stubs.shutdown fd how.
Definition tcflush (fd queue_selector : Z) : Z := Stubs.tcflush fd queue_selector.
Definition if_nametoindex (name : Z) : Z := Stubs.if_nametoindex name.
Definition initgroups (user group : Z) : Z := Stubs.initgroups user group.
Definition getpwuid (uid : Z) : Z := Stubs.getpwuid uid.
Definition getpwnam (name : Z) : Z := Stubs.getpwnam name.
Definition bb_internal_getpwuid (uid : Z) : Z := Stubs.bb_internal_getpwuid uid.
Definition bb_internal_getpwnam (name : Z) : Z := Stubs.bb_internal_getpwnam name.
Definition bb_internal_getpwent : Z := Stubs.bb_internal_getpwent.
Definition getgrgid (gid : Z) : Z := Stubs.getgrgid gid.
Definition getgrnam (name : Z) : Z := Stubs.getgrnam name.
Definition bb_internal_getgrgid (gid : Z) : Z := Stubs.bb_internal_getgrgid gid.
Definition bb_internal_getgrnam (name : Z) : Z := Stubs.bb_internal_getgrnam name.
Definition getservbyname (name proto : Z) : Z := Stubs.getservbyname name proto.
Definition getservbyport (port proto : Z) : Z := Stubs.getservbyport port proto.
Definition getaddrinfo (node service hints res : Z) : Z := Stubs.getaddrinfo node service hints res.
Definition getnameinfo (addr addrlen host hostlen serv servlen flags : Z) : Z := Stubs.getnameinfo addr addrlen host hostlen serv servlen flags.
Definition isatty (fd : Z) : bool := Stubs.isatty fd.
Definition setlocale (category locale : Z) : list Z := Stubs.setlocale category locale.
Definition strsignal (sig : Z) : list Z := Stubs.strsignal sig.
Definition hstrerror (err : Z) : list Z := Stubs.hstrerror err.
Definition fnmatch (pattern string : list Z) (flags : Z) : Z := Stubs.fnmatch pattern string flags.
Definition alarm (seconds : Z) : Z := 0.
Definition settimeofday (tv tz : Z) : Z := 0.

(** ** No environment *)

(** Changes report success and change nothing. *)
Definition getenv (name : list Z) : option (list Z) := None.
Definition setenv (name value : list Z) (overwrite : bool) : Z := 0.
Definition putenv (string : list Z) : Z := 0.
Definition unsetenv (name : list Z) : Z := 0.
Definition clearenv : Z := 0.

Definition execvp (execve_errno : list Z -> option Z) (file : option (list Z)) (err : Z) : option execvp_result :=
  match file with
  | None => Some (Failed EFAULT)
  | Some file =>
      if bool_decide (47 ∈ file) then Some (attempt execve_errno file)
      else
        let path_env := match getenv PATH with Some p => p | None => default_path end in
        exec_search execve_errno (S (length path_env)) file path_env err
  end.

(** ** The calendar *)

(** The time is ignored; [result] says that the pointer is not null. *)
Definition localtime_r (timep : Z) (result : bool) : option tm :=
  if negb result then None else Some (Tm 0 0 0 1 0 70 0 0 0).
Definition localtime (timep : Z) : option tm := localtime_r timep true.
Definition ctime (timep : Z) : list Z := bytes "Thu Jan  1 00:00:00 1970"%string ++ [10].
Definition mktime (t : option tm) : Z * option tm :=
  match t with
  | Some t => (0, Some (Tm (tm_sec t) (tm_min t) (tm_hour t) (tm_mday t) (tm_mon t) (tm_year t) 4 (tm_yday t) (tm_isdst t)))
  | None => (u32 (-1), None)
  end.
Definition strftime (s : bool) (max : Z) (format : option (list Z)) : option (Z * list Z) :=
  if negb s || (max =? 0) then Some (0, [])
  else if match format with Some f => bool_decide (f = bytes "%Y-%m-%d %H:%M:%S %z"%string) | None => false end
  then '(n, text, _) ← vsnprintf s max (bytes "1970-01-01 00:00:00 +0000"%string) []; Some (n, text)
  else '(n, text, _) ← vsnprintf s max (bytes "1970-01-01"%string) []; Some (n, text).

(** ** Signal sets *)

Definition sigemptyset : Z := Signal.sigemptyset.
Definition sigfillset : Z := Signal.sigfillset.
Definition sigaddset (set sig : Z) : Z := Signal.sigaddset set sig.
Definition sigdelset (set sig : Z) : Z := Signal.sigdelset set sig.
Definition sigismember (set sig : Z) : bool := Signal.sigismember set sig.
Definition sigisemptyset (set : Z) : bool := Signal.sigisemptyset set.

Section calls.
Context {K : Type} `{Kernel K}.

Definition set_errno_from_libsys : M K unit := Syscall.set_errno_from_libsys.
Definition ret_errno (m : M K Z) : M K Z := Syscall.ret_errno m.

(** ** The wrappers *)

Definition getpid : M K Z := Syscall.getpid.
Definition getppid : M K Z := Syscall.getppid.
Definition setsid : M K Z := Syscall.setsid.
Definition getpgrp : M K Z := Syscall.getpgrp.
Definition vfork : M K Z := Syscall.vfork.
Definition execve (path argv envp : Z) : M K Z := Syscall.execve path argv envp.
Definition open (path flags : Z) : M K Z := Syscall.open path flags.
Definition close (fd : Z) : M K Z := Syscall.close fd.
Definition read (fd buf count : Z) : M K Z := Syscall.read fd buf count.
Definition write (fd buf count : Z) : M K Z := Syscall.write fd buf count.
Definition lseek (fd offset whence : Z) : M K Z := Syscall.lseek fd offset whence.
Definition dup (oldfd : Z) : M K Z := Syscall.dup oldfd.
Definition dup2 (oldfd newfd : Z) : M K Z := Syscall.dup2 oldfd newfd.
Definition pipe (pipefd : Z) : M K Z := Syscall.pipe pipefd.
Definition ioctl (fd request arg : Z) : M K Z := Syscall.ioctl fd request arg.
Definition chdir (path : Z) : M K Z := Syscall.chdir path.
Definition access (path mode : Z) : M K Z := Syscall.access path mode.
Definition unlink (path : Z) : M K Z := Syscall.unlink path.
Definition rmdir (path : Z) : M K Z := Syscall.rmdir path.
Definition link (oldpath newpath : Z) : M K Z := Syscall.link oldpath newpath.
Definition symlink (target linkpath : Z) : M K Z := Syscall.symlink target linkpath.
Definition readlink (path buf size : Z) : M K Z := Syscall.readlink path buf size.
Definition mkdir (path mode : Z) : M K Z := Syscall.mkdir path mode.
Definition rename (oldpath newpath : Z) : M K Z := Syscall.rename oldpath newpath.
Definition umask (mask : Z) : M K Z := Syscall.umask mask.
Definition sysinfo (info : Z) : M K Z := Syscall.sysinfo info.
Definition clock_gettime (clock_id ts : Z) : M K Z := Syscall.clock_gettime clock_id ts.
Definition clock_getres (clock_id ts : Z) : M K Z := Syscall.clock_getres clock_id ts.
Definition nanosleep (req rem : Z) : M K Z := Syscall.nanosleep req rem.
Definition gettimeofday (tv tz : Z) : M K Z := Syscall.gettimeofday tv tz.
Definition time (ts tloc : Z) : M K Z := Syscall.time ts tloc.
Definition waitpid (pid status options : Z) : M K Z := Syscall.waitpid pid status options.
Definition wait (status : Z) : M K Z := Syscall.wait status.
Definition fcntl (fd cmd arg : Z) : M K Z := Syscall.fcntl fd cmd arg.
Definition getcwd (buf size : Z) : M K Z := Syscall.getcwd buf size.
Definition socket (domain type protocol : Z) : M K Z := Syscall.socket domain type protocol.
Definition connect (fd addr len : Z) : M K Z := Syscall.connect fd addr len.
Definition bind_socket (fd addr len : Z) : M K Z := Syscall.bind_socket fd addr len.
Definition listen (fd backlog : Z) : M K Z := Syscall.listen fd backlog.
Definition accept (fd addr len : Z) : M K Z := Syscall.accept fd addr len.
Definition send (fd buf len flags : Z) : M K Z := Syscall.send fd buf len flags.
Definition recv (fd buf len flags : Z) : M K Z := Syscall.recv fd buf len flags.
Definition sendto (fd buf len flags dest_addr addrlen : Z) : M K Z := Syscall.sendto fd buf len flags dest_addr addrlen.
Definition sigprocmask (how set oldset : Z) : M K Z := Syscall.sigprocmask how set oldset.
Definition kill (pid sig : Z) : M K Z := Syscall.kill pid sig.
Definition raise (sig : Z) : M K Z := Syscall.raise sig.
Definition select (nfds readfds writefds exceptfds : Z) (timeout : option (Z * Z)) : M K Z := Syscall.select nfds readfds writefds exceptfds timeout.
Definition recvfrom (fd buf len flags src_addr addrlen : Z) : M K Z := recv fd buf len flags.
Definition getsid (pid : Z) : M K Z := getpid.
Definition tcgetpgrp (fd : Z) : M K Z := getpid.
Definition execv (environ path argv : Z) : M K Z := execve path argv environ.

(** [poll] fills the ABI block itself: [libsys_errno] keeps its value, and only
    the answer -1 is an error. *)
Definition poll (fds nfds timeout : Z) : M K Z := fun p =>
  let '(k, m, r, e) := trap (p_kernel p) (p_mem p) (abi_call LAMP_SYS_POLL [u32 fds; u32 nfds; u32 timeout; 0; 0; 0]) in
  if s32 r =? -1 then (-1, Proc k m (s32 e) (libsys_errno p)) else (s32 r, Proc k m 0 (libsys_errno p)).

(** Its assembly is that of [libsys_call6], the last three arguments in one
    register. *)
Definition poll_code (operand : nat -> Z) : list instr :=
  [MOV 0 (operand 0%nat); MOV 1 (operand 1%nat); MOV 2 (operand 2%nat); MOV 3 (operand 3%nat);
   MOV 4 (operand 4%nat); MOV 5 (operand 4%nat); MOV 6 (operand 4%nat); MOV 8 (operand 5%nat);
   INTI 0x80].

Definition setjmp : list instr := Assembly.setjmp.
Definition longjmp : list instr := Assembly.longjmp.

(** [_exit] asks for the end of the process; its endless loop is for a kernel
    that returns.  [exit] is the same: no handlers. *)
Definition _exit (status : Z) : M K unit := let* _ := libsys_exit status in ret tt.
Definition exit (status : Z) : M K unit := _exit status.

(** ** Signals, files and clocks *)

Definition sigaction (la old restorer sig : Z) (act : option sigact) (want : bool) : M K (Z * option sigact) :=
  Signal.sigaction la old restorer sig act want.
Definition signal (la old restorer sig handler : Z) : M K Z := Signal.signal la old restorer sig handler.
Definition stat_copy (dst src : Z) (m : memory) : memory := Files.stat_copy dst src m.
Definition stat (lst path st : Z) : M K Z := Files.stat lst path st.
Definition lstat (lst path st : Z) : M K Z := stat lst path st.
Definition fstat (lst fd st : Z) : M K Z := Files.fstat lst fd st.
Definition readdir (lent dirp : Z) : M K Z := Files.readdir lent dirp.
Definition opendir {A : Type} `{Allocator A} (heap : A) (path : Z) : M K (A * Z) := Files.opendir heap path.
Definition closedir {A : Type} `{Allocator A} (heap : A) (dirp : Z) : M K (A * Z) := Files.closedir heap dirp.
Definition sleep (ts seconds : Z) : M K Z := Clock.sleep ts seconds.
Definition times (buf : Z) : M K Z := Clock.times buf.

(** ** Refusals and structures filled in *)

Definition mknod (path mode dev : Z) : M K Z := Stubs.mknod path mode dev.
Definition chroot (path : Z) : M K Z := Stubs.chroot path.
Definition mkstemp (template : Z) : M K Z := Stubs.mkstemp template.
Definition sigsuspend (mask : Z) : M K Z := Stubs.sigsuspend mask.
Definition getsockname (fd addr len : Z) : M K Z := Stubs.getsockname fd addr len.
Definition tcgetattr (fd t : Z) : M K Z := Stubs.tcgetattr fd t.
Definition tcsetattr (fd optional_actions t : Z) : M K Z := Stubs.tcsetattr fd optional_actions t.
Definition ttyname_r (fd buf size : Z) : M K Z := Stubs.ttyname_r fd buf size.
Definition getgroups (size list_ : Z) : M K Z := Stubs.getgroups size list_.
Definition getrlimit (resource rlim : Z) : M K Z := Stubs.getrlimit resource rlim.
Definition statfs (path buf : Z) : M K Z := Stubs.statfs path buf.
Definition sched_getaffinity (pid cpusetsize mask : Z) : M K Z := Stubs.sched_getaffinity pid cpusetsize mask.
Definition glob (pattern flags errfunc pglob : Z) : M K Z := Stubs.glob pattern flags errfunc pglob.
Definition if_indextoname (ifindex name : Z) : M K Z := Stubs.if_indextoname ifindex name.
Definition realpath (fuel : nat) (path resolved_path : Z) : M K (option Z) := Stubs.realpath fuel path resolved_path.

Definition uname (buf : Z) : M K Z :=
  if buf =? 0 then refuse EFAULT
  else
    let* _ := update (copy_literal buf "Lamp"%string) in
    let* _ := update (copy_literal (buf + 32) "lamp"%string) in
    let* _ := update (copy_literal (buf + 64) "0"%string) in
    let* _ := update (copy_literal (buf + 96) "0"%string) in
    let* _ := update (copy_literal (buf + 128) "lamp"%string) in
    ret 0.
End calls.

Definition mmap {A : Type} `{Allocator A} (heap : A) (addr len prot flags fd off : Z) : A * Z := Stubs.mmap heap addr len prot flags fd off.
Definition munmap {A : Type} `{Allocator A} (heap : A) (addr len : Z) : A * Z := Stubs.munmap heap addr len.

(** ** Against the newer library *)

(** The assembly of [poll] does what the model of the function says: the
    request is the one of [poll], and the answer is where the C code reads it. *)
Lemma poll_code_refines {K S : Type} `{SystemMachine K S} (σ : S) operand fds nfds timeout m err lerr :
  let abi := regs (view σ) (operand 5%nat) in
  (forall i, (i < 6)%nat -> operand i ∉ clobbered) ->
  map (fun i => regs (view σ) (operand i)) (seq 0 5) = [sys_number LAMP_SYS_POLL; u32 fds; u32 nfds; u32 timeout; 0] ->
  abi mod 4 = 0 -> abi + 4 * LAMP_SYSCALL_ABI_WORDS <= 2 ^ 32 -> (forall x, mem (view σ) x = abi_block m abi x) ->
  returns (kernel_of σ) (abi_call LAMP_SYS_POLL [u32 fds; u32 nfds; u32 timeout; 0; 0; 0]) = true ->
  let '(r, p) := poll fds nfds timeout (Proc (kernel_of σ) (abi_block m abi) err lerr) in
  exists σ', run (poll_code operand) σ = Continues σ' /\ kernel_of σ' = p_kernel p /\
    let '(result, error) := abi_result (mem (view σ')) abi in result = r /\ error = errno p.
Proof.
  intros abi Hop Hargs Hal Hfit Hm Hret. set (place := fun i => operand (nth i [0; 1; 2; 3; 4; 4; 4; 5]%nat 0%nat)).
  cbn [map seq] in Hargs. injection Hargs as E0 E1 E2 E3 E4.
  pose proof (trap_code_runs σ place LAMP_SYS_POLL [u32 fds; u32 nfds; u32 timeout; 0; 0; 0] m) as L. cbv zeta in L.
  change (regs (view σ) (place 7%nat)) with abi in L. unfold poll. cbn [p_kernel p_mem errno libsys_errno].
  destruct (trap (kernel_of σ) (abi_block m abi) _) as [[[k m'] r] e]. destruct L as (σ' & E & Hk & Er & Ee & _).
  - intros i Hi. do 8 (destruct i as [|i]; [apply Hop; cbn; lia|]). lia.
  - done.
  - cbn [map seq]. unfold place. cbn [nth]. by rewrite E0, E1, E2, E3, E4.
  - done.
  - done.
  - done.
  - done.
  - destruct (Z.eqb_spec (s32 r) (-1)); exists σ'; (split; [exact E|]); (split; [exact Hk|]);
      unfold abi_result; rewrite Er, Ee, !s32_u32; by destruct (Z.eqb_spec (s32 r) (-1)).
Qed.

Lemma poll_agrees {K : Type} `{Kernel K} fds nfds timeout (p : process K) :
  let '(_, _, w, _) := trap (p_kernel p) (p_mem p) (abi_call LAMP_SYS_POLL [u32 fds; u32 nfds; u32 timeout; 0; 0; 0]) in
  let '(r, p') := Syscall.poll fds nfds timeout p in
  let p'' := Proc (p_kernel p') (p_mem p') (errno p') (libsys_errno p) in
  poll fds nfds timeout p = (if -1 <=? s32 w then r else s32 w, p'').
Proof.
  unfold Syscall.poll, poll, Syscall.ret_errno, libsys_call6, bind. change (u32 0) with 0.
  destruct (trap _ _ _) as [[[k m] w] e]. destruct (Z.ltb_spec (s32 w) 0), (Z.leb_spec (-1) (s32 w)), (Z.eqb_spec (s32 w) (-1)); try lia;
    unfold Syscall.set_errno_from_libsys, set_errno, ret; cbn [p_kernel p_mem errno libsys_errno].
  - done.
  - done.
  - done.
Qed.

Lemma exec_search_dir f (dir file : list Z) err n : dir <> [] -> 58 ∉ dir ->
  exec_search f (S (S n)) file dir err =
    if 256 <? Z.of_nat (length dir) + 1 + Z.of_nat (length file) + 1 then Some (Failed err)
    else Some (match attempt f (dir ++ 47 :: file) with
               | Replaced path => Replaced path
               | Failed e => Failed e
               end).
Proof.
  intros Hd Hc. assert (until_colon dir = (dir, [])) as E.
  { clear Hd. induction dir as [|c dir IH]; [done|]. cbn [until_colon]. apply not_elem_of_cons in Hc as [H1 H2].
    destruct (Z.eqb_spec c 58); [done|]. by rewrite IH. }
  destruct dir as [|c tail]; [done|]. cbn [exec_search]. rewrite E. cbn [length Nat.eqb].
  destruct (256 <? _); [done|]. destruct (attempt f _) as [path|e]; [done|]. by destruct (negb (e =? ENOENT)).
Qed.

(** Where the rest of the single-file library meets the newer one and
    where it parts from it.  [poll] has the newer one's result, error number,
    kernel and memory whenever the kernel answers -1 or more, and gives a
    smaller answer to the caller as it is; it never touches [libsys_errno].
    [execvp] is the newer one in every environment that has no PATH: a name
    with a slash is executed as it is, any other is looked for in /bin and
    nowhere else, if the path fits 256 bytes.  The calendar is that of second
    0, on which the newer library agrees but for the day of the year and the
    weekday: [localtime_r] says Sunday, and [mktime] corrects it to Thursday. *)
Theorem legacy_system_agrees {K : Type} `{Kernel K} fds nfds timeout (p : process K) (env : list (list Z))
    execve_errno file err t (Hpath : entry_value env PATH = None) :
  (let '(_, _, w, _) := trap (p_kernel p) (p_mem p) (abi_call LAMP_SYS_POLL [u32 fds; u32 nfds; u32 timeout; 0; 0; 0]) in
   let '(r, p') := Syscall.poll fds nfds timeout p in
   poll fds nfds timeout p =
     (if -1 <=? s32 w then r else s32 w, Proc (p_kernel p') (p_mem p') (errno p') (libsys_errno p))) /\
  execvp execve_errno file err = Process.execvp execve_errno env file err /\
  execvp execve_errno file err =
    Some match file with
         | None => Failed EFAULT
         | Some file =>
             if bool_decide (47 ∈ file) then attempt execve_errno file
             else if 250 <? Z.of_nat (length file) then Failed err
             else attempt execve_errno (bytes "/bin/"%string ++ file)
         end /\
  (forall r, localtime t = Some r -> let n := Time.localtime_r 0 in
    mktime (Some r) = (0, Some (Tm (tm_sec n) (tm_min n) (tm_hour n) (tm_mday n) (tm_mon n) (tm_year n) (tm_wday n) (tm_yday r) (tm_isdst n))) /\
    tm_wday r = 0 /\ tm_wday n = 4).
Proof.
  split; [apply poll_agrees|]. split; [unfold Process.execvp; destruct file; by rewrite ?Hpath|]. split.
  - unfold execvp. destruct file as [file|]; [|done]. destruct (bool_decide (47 ∈ file)); [done|]. cbn [getenv].
    change (S (length default_path)) with (S (S 3)). rewrite exec_search_dir by (compute_done || done).
    change (length default_path) with 4%nat. change (Z.of_nat 4) with 4.
    destruct (Z.ltb_spec 256 (4 + 1 + Z.of_nat (length file) + 1)), (Z.ltb_spec 250 (Z.of_nat (length file))); try lia; [done|].
    change (bytes "/bin/"%string ++ file) with (default_path ++ 47 :: file). by destruct (attempt _ _).
  - intros r [= <-]. vm_compute. by repeat split.
Qed.

(** A kernel that answers every call with 3. *)
Definition three : Type := unit.
#[local] Instance answers_three : Kernel three := fun k m _ => (k, m, 3, 0).

Lemma legacy_system_agrees_witness :
  (poll 4096 1 0 (Proc (tt : three) (fun _ => 0) 5 9)).1 = 3 /\
  execvp (fun _ => None) (Some (bytes "ls"%string)) 0 = Some (Replaced (bytes "/bin/ls"%string)).
Proof.
  destruct (legacy_system_agrees 4096 1 0 (Proc (tt : three) (fun _ => 0) 5 9) [] (fun _ => None) (Some (bytes "ls"%string)) 0 0 eq_refl) as (Hp & _ & He & _).
  split; [rewrite Hp; reflexivity|rewrite He; reflexivity].
Defined.
